(* ===== verification/_CoqProject ===== *)
-Q . S2P
Prelude.v
FileModel.v
Machine.v
Errors.v
Kernel.v
SimKernel.v
Text.v
FileIO.v
Rot13.v
Rot13Uring.v
BarrierSort.v
Time.v
Locks.v
LockTable.v
Daemon.v
Sockets.v
Network.v
UnixSocket.v
SockSim.v
FdServer.v
Handshake.v
Pipes.v
CpHoles.v
Timers.v
CondQueue.v
Counter.v
RefCount.v
Ftw.v
JobQueue.v
MmapCopy.v
Uptime.v
Limits.v
ProcThreads.v
Stdio.v
AddrInfo.v
Filters.v
SignalThread.v
ConfDaemons.v
LockPrograms.v
MsgQueues.v
PollEvents.v
Shell.v
Accounting.v
Sleeping.v
Races.v
Mains.v
Exits.v
Masks.v
Jumps.v
ExitHandlers.v
ProcTree.v
Processes.v
Commands.v
FilePrograms.v
Databases.v
StreamPrograms.v
Setups.v
