(* ===== verification/Prelude.v ===== *)
(** * A verified model of the programs and the support library of this repository

    The repository holds a support library ([src/lib]) and about a hundred small Unix programs
    built on it, in one directory per chapter.  This development models the library and the
    programs, and proves what makes them correct.

    ** Parts of the program and how they interact

    Every program reports errors through the [err_*] functions of [lib/apue.h], moves data with
    [readn] and [writen] of [lib/apue_file.cpp], and calls the operating system.  The daemons use
    [lib/apue_daemon.cpp], which uses the record locks of [lib/apue_lock.cpp]; the network
    programs use [lib/apue_network.cpp]; the programs that pass descriptors use
    [lib/apue_unix_socket.cpp]; pairs of processes take turns through [lib/apue_ipc_signal.cpp] or
    [lib/apue_ipc_pipe.cpp].

    ** How code is modelled

    Sequential code is a computation of the state monad [M W] of [Machine.v]: the state has
    [errno], [log_to_stderr], what was printed, and the state [W] of the operating system; the
    outcome is a value, an exit with a status, an abort, an exception or [NoFuel].  The operating
    system is not part of the repository: its calls are classes over [W] ([FileOps], [SockOps],
    [ProcOps], [SigOps], ...), and what POSIX documents of them is stated by companion classes
    ([StreamSpec], [FdSpec], [SockSpec], ...), against which the theorems are proved; concrete
    kernels ([SimKernel.v], [LockTable.v], [SockSim.v] and the ends of other files) satisfy them
    and carry the witnesses.  Concurrent code is a step relation over an explicit state, one step
    per lock operation, wait, signal or access to shared data, and its theorems hold for every
    reachable state.  Integers have the width of the source where overflow matters ([to_int],
    [to_size_t], ...); bytes are integers and strings are lists of them.

    ** Files

    - [Prelude.v]: bytes, fixed-width integers, shared lemmas, tactics and hint databases.
      [FileModel.v]: contents of regular files.  [Text.v]: decimal printing and stream extraction.
    - [Machine.v]: the process and its monad, with weakest preconditions [wp] and [returns].
      [Kernel.v]: files and descriptors as classes.  [SimKernel.v]: a concrete kernel.
    - [Errors.v]: [lib/apue.h], [StatusMsg], [format_message] over the grammar of format strings,
      and the [err_*] functions.
    - [FileIO.v]: [lib/apue_file.cpp].  [readn_spec], [writen_spec]: what they deliver, on every
      path, and that they end; the flag functions; [path_alloc], [open_max].
    - [Rot13.v], [Rot13Uring.v]: [14/7] and [14/8].  The synchronous converter; the asynchronous
      one for every order of completions ([uring_correct], [uring_terminates]).
    - [BarrierSort.v]: [11/11].  [Merge]: the k-way merge; [Threads]: threads and barrier, when
      the sort is correct and ends, and when it deadlocks or leaves the vector.
    - [Time.v]: [lib/apue_time.cpp], the template of [lib/apue.h], [11/8].
    - [Locks.v], [LockTable.v]: [lib/apue_lock.cpp] and a concrete lock table.
    - [Daemon.v]: [lib/apue_daemon.cpp], [13/2], the signal threads of [13/3].
    - [Sockets.v], [Network.v]: socket calls; [lib/apue_network.cpp].
    - [UnixSocket.v], [SockSim.v]: [lib/apue_unix_socket.cpp], the wire format and its round trips,
      no descriptor leaks; a concrete kernel with sockets.
    - [FdServer.v]: [17/3], [17/4] ([Fork]) and the io_uring daemon [17/5] ([Uring]).
    - [Handshake.v]: [lib/apue_ipc_signal.cpp], [apue_signal], [pr_mask] ([Signals]); two
      processes taking turns, as in [10/24] and [15/12] ([Turns]).
    - [Pipes.v]: [lib/apue_ipc_pipe.cpp].
    - [CpHoles.v]: [4/11].  [Timers.v]: [10/23].  [CondQueue.v]: [11/10].
    - [Counter.v]: the number in the file of [10/24], which [Turns] abstracts to a counter.
    - [RefCount.v]: [11/5] ([Simple]) and [11/6] ([Hashed], a heap of linked objects refined to
      one list per bucket).
    - [Ftw.v]: [4/7] and [4/12], two walks of a directory tree and their agreement.
    - [JobQueue.v]: [11/9], the operations ([Ops]) and the threads ([Threads]).
    - [ProcThreads.v]: the rest of [lib/apue_proc_threads.cpp], and [timeout] of [12/2].
    - [MmapCopy.v]: [14/10].
    - [Uptime.v]: [16/5] to [16/8].
    - [Limits.v]: [2/2] ([Conf]) and [7/8] ([Rlimit]); also [print] and [println].
    - [Stdio.v]: streams of the C library, [5/1] and [5/2].  [AddrInfo.v]: [16/1].
    - [Filters.v]: the pipes and filters [15/1] to [15/9], with [15/8] as the coprocess of [15/9].
    - [PollEvents.v]: [15/13] and [15/14].
    - [SignalThread.v]: [12/6] ([QuitFlag]), [12/3] ([GetEnv]), [12/7] ([AtFork]).
    - [ConfDaemons.v]: [13/1], the [main] functions of [13/3], and [13/4] ([Nesting]).
    - [LockPrograms.v]: [14/1] ([Nonblock]), [14/4] ([Deadlock]), [14/6] ([Mandatory]), [14/11]
      ([Readers]).
    - [MsgQueues.v]: [17/1] ([Relay], [Setup], [Loop]) and [17/2] ([Send]).
    - [Shell.v]: [1/8].  [Accounting.v]: [8/17].  [Races.v]: [8/6] and [8/7].
    - [Sleeping.v]: [10/4] and [10/5] ([Sleep]), [10/16] ([Suspend]).
    - [Mains.v]: the set-up and the end of [14/8] ([Convert]), the whole daemon [17/5] ([FdDaemon]), which
      composes [Daemon.v], [UnixSocket.v] and [FdServer.v], and the mutex of [12/2] ([Recursive]).
    - [Exits.v]: programs that do their work or exit with status 1 ([completes]).
    - [Masks.v]: signal masks and handlers, [10/1], [10/11], [10/14], [10/15], [10/22].
      [Jumps.v]: [7/4], [7/6], [10/7].
    - [ExitHandlers.v]: [7/2] ([AtExit]), the thread functions of [11/4] ([Cleanup]), and [11/1],
      [11/2], [11/4], [12/1] as interleaved threads ([Joins]).
    - [ProcTree.v]: families of processes as trees of system calls, run by a system with a process
      table, zombies, groups, a terminal, a handler of SIGHUP, buffered output and a clock, in every
      interleaving.
      [Processes.v]: [8/1], [8/3], [8/5], [8/8], [8/10], [8/16], [8/20], [9/1] and [9/2] over it.
    - [Commands.v]: [8/13], [8/14], [8/19] on top of [system] and [pr_exit]; [system] with its child
      and [8/12] as a family of processes; [8/2];
      [8/18] ([Priority]); [10/2] ([Reentrancy]); [10/3] ([SigCld]).
    - [FilePrograms.v]: [4/1] to [4/6], [4/8] to [4/10], [2/3], [2/4], with a concrete file system.
    - [Databases.v]: [6/1] to [6/4], [1/7], [7/3], [8/9].
    - [StreamPrograms.v]: [5/3], [5/7], [7/7] ([Buffering]), [5/4], [5/5] ([Temporary]), [5/6]
      ([Memory]).
    - [Setups.v]: the code before the [fork] of [10/24], [14/4], [14/6], [14/11], [15/12]
      ([BeforeFork]); the reports of [4/7] and [4/12] ([Reports]); constructors, set-ups and main
      functions of the thread programs, [10/5], [10/10], [11/3] ([Threads]); [15/11] ([Segments]).

    ** Groups of theorems

    Functional correctness of input and output ([readn_spec], [writen_spec], [uring_correct],
    [convert_loop_correct], [cp_holes_exact], [copy_mapped_exact], [myftw_correct],
    [write_loop_delivers], [fgets_fputs_copies], [lower_main_spec], [coproc_adds],
    [limits_report]); concurrent programs under every interleaving, with termination ([turns_*],
    [sort_*], [queue_*], [jobs_*], [messages_*], [quitflag_safe], [deadlock_resolved],
    [readers_writer], [ordered_output], [recursive_mutex_ends]); waiting for signals
    ([sleep2_returns], [quit_not_lost]); the system calls of a command loop as a session of its
    lines ([shell_runs_lines]); the descriptor-passing protocol ([send_fd_spec], [recv_sent_fd],
    [request_roundtrip]); resources ([*_no_leak], [connect_host_spec], [daemonize_spec],
    [already_running_singleton], [timeout_calls_once]); whole daemons ([reread_main_ready],
    [fd_server_main_fds]); data structures ([table_well_formed], [find_spec], [rele_spec],
    [apue_alarm_exact]); conversions ([timespec_roundtrip], [compt2ulong_bounds], [pr_exit_spec],
    [parse_port_spec], [inc_counts]); families of processes in every interleaving
    ([fork_outputs], [pr_exit_outputs], [no_zombie_left], [acct_statuses], [orphan_outputs],
    [session_outputs]); masks, jumps and handlers ([suspend_masks], [jump_masks],
    [setjmp_reports_lines], [atexit_order], [cleanup_order], [exit_thread_outputs]); programs as a
    whole on top of library functions ([system_main_reports], [ftw_program_reports],
    [open_max_main_prints], [timedlock_times_out]); files and streams ([umask_modes],
    [chmod_modes], [unlinked_but_open], [mkstemp_main_cleans], [tmp_roundtrip], [flush_writes],
    [fmemopen_prints], [getpwnam_finds], [segments_released]).
    Theorems on behaviour the code does not intend say so: [tell_pipe_spec],
    [equal_deadlines_hang], [empty_slice_deadlocks], [slice_past_the_end_is_undefined],
    [accepts_accumulate], [request_injection], [path_alloc_unlimited_is_empty],
    [cp_holes_read_error], [two_threads_throw], [relative_path_counts_nothing], [sleep1_hangs],
    [sleep_zero_hangs], [init_ring_spec], [path_braces_hide_error], [zero_byte_is_lost],
    [shown_buf_depends], [counter_never_overflows], [line_buffering_is_missed],
    [mysetbuf_main_spec], [open_data_dangles], [zap_keeps_times], [getcwd_without_limit],
    [static_result_is_replaced], [sigcld_main_spec], [timeout_after_read], [dangling_result],
    [exec_announcements], [detached_line_may_be_lost].

    ** Fuel

    Loops that the system ends are functions with fuel and [NoFuel] is an outcome a postcondition
    has to exclude.  [readn] and [writen] run with one unit more than the bytes asked for, since
    each iteration moves at least one byte; [cat_file], [convert_loop], [download_uptime] and
    [copy_loop] with one more than the bytes to deliver; [window_loop] with one per window;
    [myftw] with more than the depth of the tree; chains of a bucket with more than their length;
    [wait_loop] and [waitpid_loop] with more than the interruptions; [write_loop] with more than the bytes and the
    refusals together; loops over a stream with more than the bytes of its input.  Finite systems
    are explored ([explore]) for as many steps as their longest run, and a check that the result
    is closed under steps shows that this is enough; [always_ends] runs families of processes for at
    most 60 steps and fails when a run is longer.  The theorems state these bounds.  Endless loops
    of servers are modelled by the number of iterations that are run, or the list of completions.

    ** Assumptions about the system

    [ProcTree.v] hands out process ids in order, and its [sleep] either lets the others run as far
    as they can or guarantees nothing ([timely]); theorems say which.  [recv_sent_fd] takes from
    unix(7) which control messages arrive for a message ([delivered]).  The children of the shell of
    [1/8] share its standard input and may consume it, but not lengthen it.  In [coproc_adds] every
    text the parent writes arrives at [15/8] as one read, because the parent waits for the answer.
    In [Sleeping.v] the only SIGALRM is the program's own; in [14/8] a read is short only at the end
    of the file; in [17/5] a submission takes the whole queue; a division by zero raises SIGFPE.  A text that depends on
    floating-point numbers, addresses, local time or a database is a parameter.

    ** Not modelled

    Memory exhaustion; the programs that are executed; the timing loops' durations; the thread of
    [12/7] that only waits; the progress output of [11/6] and the timing output of [11/11]; what
    the preprocessor selects on other systems than the one of the build; the rings of [16/6] and
    [16/8] beyond the number of their requests. *)

From stdpp Require Export base tactics list list_numbers numbers gmap sets option strings relations.
From Stdlib Require Export ZArith Lia.
From Stdlib Require Import Zbitwise.

#[export] Set Default Goal Selector "!".

Declare Scope apue_scope.
Delimit Scope apue_scope with apue.
#[global] Open Scope apue_scope.
#[global] Open Scope Z_scope.

(** ** Bytes and strings

    A buffer, a [char*] and a [std::string] are lists of unsigned bytes held
    as integers; string literals of the source are injected with [str]. *)

Abbreviation bytes := (list Z).

Definition str (s : string) : bytes :=
  (fun a => Z.of_N (Ascii.N_of_ascii a)) <$> String.list_ascii_of_string s.

(** Size of a buffer as a machine integer. *)
Definition zlen {A} (l : list A) : Z := Z.of_nat (length l).

(** ** Fixed-width integers *)

Definition wrap_unsigned (bits z : Z) : Z := z mod 2 ^ bits.

Definition wrap_signed (bits z : Z) : Z :=
  let m := z mod 2 ^ bits in if m <? 2 ^ (bits - 1) then m else m - 2 ^ bits.

(** Conversions to the C types the sources use (LP64). *)
Definition to_int (z : Z) : Z := wrap_signed 32 z.
Definition to_long (z : Z) : Z := wrap_signed 64 z.
Definition to_uint (z : Z) : Z := wrap_unsigned 32 z.
Definition to_size_t (z : Z) : Z := wrap_unsigned 64 z.
Definition to_uchar (z : Z) : Z := wrap_unsigned 8 z.
Definition to_ushort (z : Z) : Z := wrap_unsigned 16 z.

Definition INT_MAX : Z := 2147483647.
Definition INT_MIN : Z := -2147483648.
Definition SIZE_MAX : Z := 18446744073709551615.

Definition is_int (z : Z) : Prop := INT_MIN <= z <= INT_MAX.
Definition is_size_t (z : Z) : Prop := 0 <= z <= SIZE_MAX.
Definition is_byte (z : Z) : Prop := 0 <= z < 256.

(** C's test of an integer used as a condition. *)
Definition truthy (z : Z) : bool := negb (z =? 0).

(** ** Generic lemmas *)

Lemma wrap_unsigned_range bits z : 0 <= bits -> 0 <= wrap_unsigned bits z < 2 ^ bits.
Proof. intros. unfold wrap_unsigned. apply Z.mod_pos_bound. lia. Qed.

Lemma wrap_unsigned_small bits z : 0 <= z < 2 ^ bits -> wrap_unsigned bits z = z.
Proof. intros. unfold wrap_unsigned. by apply Z.mod_small. Qed.

Lemma wrap_signed_small bits z :
  0 < bits -> - 2 ^ (bits - 1) <= z < 2 ^ (bits - 1) -> wrap_signed bits z = z.
Proof.
  intros Hb [Hlo Hhi]. unfold wrap_signed.
  assert (Hp : 2 ^ bits = 2 * 2 ^ (bits - 1)).
  { rewrite <- Z.pow_succ_r by lia. f_equal. lia. }
  destruct (Z.ltb_spec z 0).
  - assert (Hm : z mod 2 ^ bits = z + 2 ^ bits).
    { symmetry. apply Z.mod_unique with (-1); lia. }
    rewrite Hm. destruct (Z.ltb_spec (z + 2 ^ bits) (2 ^ (bits - 1))); lia.
  - rewrite Z.mod_small by lia. destruct (Z.ltb_spec z (2 ^ (bits - 1))); lia.
Qed.

Lemma to_int_small z : is_int z -> to_int z = z.
Proof. unfold is_int, INT_MAX, INT_MIN, to_int. intros. apply wrap_signed_small; lia. Qed.

Lemma to_size_t_small z : is_size_t z -> to_size_t z = z.
Proof. unfold is_size_t, SIZE_MAX, to_size_t. intros. apply wrap_unsigned_small. lia. Qed.

Lemma to_long_small z : - 2 ^ 63 <= z < 2 ^ 63 -> to_long z = z.
Proof. unfold to_long. intros. apply wrap_signed_small; lia. Qed.

Lemma zlen_nonneg {A} (l : list A) : 0 <= zlen l.
Proof. unfold zlen. lia. Qed.

Lemma zlen_app {A} (l k : list A) : zlen (l ++ k) = zlen l + zlen k.
Proof. unfold zlen. rewrite length_app. lia. Qed.

Lemma zlen_nil {A} : zlen (@nil A) = 0.
Proof. done. Qed.

Lemma zlen_cons {A} (x : A) l : zlen (x :: l) = 1 + zlen l.
Proof. unfold zlen. simpl. lia. Qed.

Lemma zlen_take {A} n (l : list A) : zlen (take n l) = Z.min (Z.of_nat n) (zlen l).
Proof. unfold zlen. rewrite length_take. lia. Qed.

Lemma zlen_drop {A} n (l : list A) : zlen (drop n l) = Z.max 0 (zlen l - Z.of_nat n).
Proof. unfold zlen. rewrite length_drop. lia. Qed.

Lemma zlen_nil_inv {A} (l : list A) : zlen l = 0 -> l = [].
Proof. destruct l; [done|]. rewrite zlen_cons. pose proof (zlen_nonneg l). lia. Qed.

(** Joining bit fields. *)
Lemma lor_shiftl_add y x n : 0 <= n -> 0 <= x < 2 ^ n -> Z.lor (Z.shiftl y n) x = y * 2 ^ n + x.
Proof.
  intros Hn Hx. rewrite <- Z.shiftl_mul_pow2 by done. rewrite <- Z.add_lor_land.
  assert (Hl : Z.land (Z.shiftl y n) x = 0); [|rewrite Hl; lia].
  apply Z.bits_inj'. intros i Hi. rewrite Z.land_spec, Z.bits_0.
  destruct (Z.lt_ge_cases i n); [by rewrite Z.shiftl_spec_low|].
  rewrite <- (Z.mod_small x (2 ^ n)) by done. by rewrite Z.mod_pow2_bits_high, andb_false_r by lia.
Qed.

Lemma land_255 x : Z.land x 255 = x mod 256.
Proof. change 255 with (Z.ones 8). by rewrite Z.land_ones. Qed.

(** ** Automation *)

Create HintDb apue discriminated.
Create HintDb zlen.

#[export] Hint Resolve zlen_nonneg to_int_small to_size_t_small : apue.
#[export] Hint Rewrite @zlen_app @zlen_nil @zlen_cons @zlen_take @zlen_drop : zlen.

(** Arithmetic with buffer sizes. *)
Ltac zlen_nonneg_hyps :=
  repeat match goal with
  | |- context [zlen ?l] =>
      lazymatch goal with H : 0 <= zlen l |- _ => fail | _ => pose proof (zlen_nonneg l) end
  | _ : context [zlen ?l] |- _ =>
      lazymatch goal with H : 0 <= zlen l |- _ => fail | _ => pose proof (zlen_nonneg l) end
  end.

Ltac zlia := autorewrite with zlen in *; zlen_nonneg_hyps; lia.

(** Case analysis on the boolean comparisons of the code. *)
Ltac case_cmp :=
  match goal with
  | |- context [?a <? ?b] => destruct (Z.ltb_spec a b)
  | |- context [?a <=? ?b] => destruct (Z.leb_spec a b)
  | |- context [?a =? ?b] => destruct (Z.eqb_spec a b)
  end.

(** ** Termination *)

(** Sums over a list in which one element changes. *)
Lemma sum_list_with_insert_eq {A} (f : A -> nat) (i : nat) (l : list A) x y :
  l !! i = Some x ->
  (sum_list_with f (<[i := y]> l) + f x = sum_list_with f l + f y)%nat.
Proof.
  revert i. induction l as [|z l IH]; intros [|i] Hx; simplify_eq/=; [lia|].
  specialize (IH i Hx). lia.
Qed.

(** A relation that keeps an invariant and decreases a measure has no infinite path. *)
Lemma decreasing_sn {A} (R : A -> A -> Prop) (I : A -> Prop) (m : A -> nat) :
  (forall x y, I x -> R x y -> I y) -> (forall x y, I x -> R x y -> (m y < m x)%nat) ->
  forall x, I x -> sn R x.
Proof.
  intros Hk Hm x. remember (m x) as n eqn:En. revert x En.
  induction n as [n IH] using lt_wf_ind.
  intros x -> Hx. constructor. intros y Hy. eapply IH; [by apply Hm|done|by eapply Hk].
Qed.

(** ** Finite state spaces

    A system given by its successor function, explored from one state; properties of all its
    reachable states are then decided by evaluation. *)

Section Explore.
Context {A : Type} `{EqDecision A} (next : A -> list A) (init : A).

Definition steps_to (s s' : A) : Prop := s' ∈ next s.

(** The states within [n] steps of those in [seen]. *)
Fixpoint explore (n : nat) (seen : list A) : list A :=
  match n with
  | O => seen
  | S n => explore n (seen ++ remove_dups (filter (fun s => s ∉ seen) (seen ≫= next)))
  end.

(** [all] has the first state and the successors of its states. *)
Definition closed (all : list A) : bool :=
  bool_decide (init ∈ all) && forallb (fun s => forallb (fun s' => bool_decide (s' ∈ all)) (next s)) all.

Lemma closed_reachable all s : closed all = true -> rtc steps_to init s -> s ∈ all.
Proof.
  intros [H0%bool_decide_eq_true Hc]%andb_true_iff Hr. revert H0.
  induction Hr as [|s0 s1 s2 H1 _ IH]; intros H0; [done|]. apply IH.
  rewrite forallb_forall in Hc. specialize (Hc s0 (proj1 (list_elem_of_In _ _) H0)).
  rewrite forallb_forall in Hc. specialize (Hc s1 (proj1 (list_elem_of_In _ _) H1)).
  by apply bool_decide_eq_true in Hc.
Qed.

Lemma explored_holds all (P : A -> bool) s :
  closed all = true -> forallb P all = true -> rtc steps_to init s -> P s = true.
Proof.
  intros Hc HP Hr. rewrite forallb_forall in HP. apply HP, list_elem_of_In.
  by eapply closed_reachable.
Qed.

(** Runs end when a measure goes down at each step. *)
Lemma explored_sn all (m : A -> nat) s :
  closed all = true -> forallb (fun s => forallb (fun s' => (m s' <? m s)%nat) (next s)) all = true ->
  rtc steps_to init s -> sn steps_to s.
Proof.
  intros Hc Hm Hr.
  apply (decreasing_sn steps_to (fun s => rtc steps_to init s) m); [..|done].
  - intros x y Hx Hxy. by eapply rtc_r.
  - intros x y Hx Hxy. pose proof (explored_holds all _ x Hc Hm Hx) as Hd. simpl in Hd.
    rewrite forallb_forall in Hd. by apply Nat.ltb_lt, Hd, list_elem_of_In.
Qed.

(** A state without successors satisfies what is checked of such states. *)
Lemma explored_final all (P : A -> bool) s :
  closed all = true -> forallb (fun s => match next s with [] => P s | _ => true end) all = true ->
  rtc steps_to init s -> (forall s', ~ steps_to s s') -> P s = true.
Proof.
  intros Hc HP Hr Hno. pose proof (explored_holds all _ s Hc HP Hr) as Hs. simpl in Hs.
  destruct (next s) as [|s' l] eqn:E; [done|]. exfalso. apply (Hno s'). unfold steps_to. rewrite E. left.
Qed.

End Explore.
