(* ===== verification/FileModel.v ===== *)
(** * Contents of a regular file

    Writing at an offset, the hole it leaves when the offset is past the end,
    and truncation: what [write], [pwrite], [lseek] and [ftruncate] do to the
    bytes of a regular file. *)

From S2P Require Import Prelude.

(** [pwrite off d f]: the file [f] after [d] was written at [off].  The gap
    between the old end and [off] reads as zeros; an empty write does nothing. *)
Definition pwrite (off : nat) (d f : bytes) : bytes :=
  match d with
  | [] => f
  | _ => take off f ++ replicate (off - length f) 0 ++ d ++ drop (off + length d) f
  end.

(** [truncate n f]: [ftruncate], which cuts the file or extends it with zeros. *)
Definition truncate (n : nat) (f : bytes) : bytes :=
  take n f ++ replicate (n - length f) 0.

Lemma length_pwrite off d f :
  d <> [] -> length (pwrite off d f) = Nat.max (length f) (off + length d).
Proof.
  destruct d as [|x d]; [done|]. intros _. unfold pwrite.
  rewrite !length_app, length_take, length_replicate, length_drop. simpl. lia.
Qed.

Lemma lookup_pwrite_in off d f i :
  (off <= i < off + length d)%nat -> pwrite off d f !! i = d !! (i - off)%nat.
Proof.
  intros Hi. destruct d as [|x d]; [simpl in Hi; lia|]. unfold pwrite.
  assert (Hlen : length (take off f ++ replicate (off - length f) 0) = off)
    by (rewrite length_app, length_take, length_replicate; lia).
  rewrite app_assoc, lookup_app_r, Hlen by lia.
  apply lookup_app_l. lia.
Qed.

Lemma lookup_pwrite_old off d f i :
  (i < length f)%nat -> ~ (off <= i < off + length d)%nat -> pwrite off d f !! i = f !! i.
Proof.
  intros Hi Hout. destruct d as [|x d]; [done|]. unfold pwrite.
  assert (Hlen : length (take off f ++ replicate (off - length f) 0) = off)
    by (rewrite length_app, length_take, length_replicate; lia).
  destruct (decide (i < off)%nat).
  - rewrite lookup_app_l by (rewrite length_take; lia).
    by rewrite lookup_take_lt by lia.
  - rewrite app_assoc, lookup_app_r, Hlen by lia.
    rewrite lookup_app_r by lia. rewrite lookup_drop. f_equal. lia.
Qed.

Lemma lookup_pwrite_gap off d f i :
  d <> [] -> (length f <= i < off)%nat -> pwrite off d f !! i = Some 0.
Proof.
  intros Hd Hi. destruct d as [|x d]; [done|]. unfold pwrite.
  rewrite lookup_app_r by (rewrite length_take; lia).
  rewrite length_take, lookup_app_l by (rewrite length_replicate; lia).
  rewrite lookup_replicate. split; [done|lia].
Qed.

(** A write at the end of the file appends. *)
Lemma pwrite_end d f : pwrite (length f) d f = f ++ d.
Proof.
  unfold pwrite. destruct d as [|x d]; [by rewrite app_nil_r|].
  rewrite firstn_all, Nat.sub_diag, drop_ge by lia. simpl. by rewrite app_nil_r.
Qed.

Lemma length_truncate n f : length (truncate n f) = n.
Proof. unfold truncate. rewrite length_app, length_take, length_replicate. lia. Qed.

Lemma truncate_all f : truncate (length f) f = f.
Proof. unfold truncate. by rewrite firstn_all, Nat.sub_diag, app_nil_r. Qed.

Lemma truncate_extend n f :
  (length f <= n)%nat -> truncate n f = f ++ replicate (n - length f) 0.
Proof. intros. unfold truncate. by rewrite take_ge by lia. Qed.
