(* ===== verification/Machine.v ===== *)
(** * The process a program runs in

    The part of the state every program of the repository shares: [errno], the
    global [log_to_stderr] of [lib/apue.h], what the process has printed, and
    the operating system below it.  The operating system is the type [W], left
    abstract here; the files that need it take its operations and their
    documented behaviour from [Kernel.v].

    Code is translated into the state monad [M], whose results distinguish a
    normal return from the ways a process ends ([exit], [abort], an exception
    that leaves [main]) and from a loop that was given too few iterations. *)

From S2P Require Import Prelude.

(** Channels a program prints on. *)
Inductive out :=
| Stdout (s : bytes)
| Stderr (s : bytes)
| Syslog (prio : Z) (s : bytes).

#[export] Instance out_eq_dec : EqDecision out.
Proof. solve_decision. Defined.

Record proc (W : Type) := Proc {
  errno : Z;
  log_to_stderr : bool;
  console : list out;
  kern : W;
}.
Arguments Proc {W} _ _ _ _.
Arguments errno {W} _.
Arguments log_to_stderr {W} _.
Arguments console {W} _.
Arguments kern {W} _.

Inductive outcome (A : Type) :=
| Ret (a : A)
| Exited (code : Z)
| Aborted
| Threw (what : bytes)
| NoFuel.
Arguments Ret {A} _.
Arguments Exited {A} _.
Arguments Aborted {A}.
Arguments Threw {A} _.
Arguments NoFuel {A}.

Definition M (W A : Type) : Type := proc W -> outcome A * proc W.

(** The outcome of a computation that did not return a value. *)
Definition outcome_cast {A B} (o : outcome A) (d : outcome B) : outcome B :=
  match o with
  | Ret _ => d
  | Exited c => Exited c
  | Aborted => Aborted
  | Threw e => Threw e
  | NoFuel => NoFuel
  end.

#[export] Instance M_ret W : MRet (M W) := fun A a p => (Ret a, p).
#[export] Instance M_bind W : MBind (M W) := fun A B f m p =>
  match m p with
  | (Ret a, p') => f a p'
  | (o, p') => (outcome_cast o NoFuel, p')
  end.

(** Statements: [when c m] is [if (c) m;]. *)
Definition when {W} (c : bool) (m : M W unit) : M W unit := if c then m else mret tt.

(** Results of a system call, before [errno] is set. *)
Inductive sysres (A : Type) :=
| SysOk (a : A)
| SysErr (e : Z).
Arguments SysOk {A} _.
Arguments SysErr {A} _.

Section Basics.
Context {W : Type}.

Definition get_errno : M W Z := fun p => (Ret (errno p), p).

Definition set_errno (e : Z) : M W unit := fun p =>
  (Ret tt, Proc e (log_to_stderr p) (console p) (kern p)).

Definition get_log_to_stderr : M W bool := fun p => (Ret (log_to_stderr p), p).

Definition set_log_to_stderr (b : bool) : M W unit := fun p =>
  (Ret tt, Proc (errno p) b (console p) (kern p)).

Definition emit (o : out) : M W unit := fun p =>
  (Ret tt, Proc (errno p) (log_to_stderr p) (console p ++ [o]) (kern p)).

Definition sys_exit {A} (code : Z) : M W A := fun p => (Exited code, p).
Definition sys_abort {A} : M W A := fun p => (Aborted, p).
Definition throw {A} (what : bytes) : M W A := fun p => (Threw what, p).
Definition out_of_fuel {A} : M W A := fun p => (NoFuel, p).

(** Run an operation of the kernel: on failure set [errno]. *)
Definition syscall {A} (f : W -> sysres A * W) : M W (sysres A) := fun p =>
  let '(r, w) := f (kern p) in
  let e := match r with SysOk _ => errno p | SysErr e => e end in
  (Ret r, Proc e (log_to_stderr p) (console p) w).

(** A system call that returns an [int]: the value, or -1. *)
Definition syscall_int (f : W -> sysres Z * W) : M W Z :=
  r ← syscall f; mret (match r with SysOk n => n | SysErr _ => -1 end).

(** A system call that returns 0 or -1. *)
Definition syscall_unit (f : W -> sysres unit * W) : M W Z :=
  r ← syscall f; mret (match r with SysOk _ => 0 | SysErr _ => -1 end).

End Basics.

(** ** Reasoning about computations

    [wp m Q p]: running [m] in [p] ends with an outcome and a state that satisfy
    [Q].  There is no partiality: [NoFuel] is an outcome like the others, which
    a postcondition has to rule out to claim that a loop ends. *)

Definition wp {W A} (m : M W A) (Q : outcome A -> proc W -> Prop) (p : proc W) : Prop :=
  Q (m p).1 (m p).2.

(** Postcondition of computations that return normally. *)
Definition returns {W A} (m : M W A) (Q : A -> proc W -> Prop) (p : proc W) : Prop :=
  wp m (fun o p' => match o with Ret a => Q a p' | _ => False end) p.

(** Nothing was printed. *)
Definition quiet {W} (p p' : proc W) : Prop :=
  console p' = console p /\ log_to_stderr p' = log_to_stderr p.

Section Wp.
Context {W : Type}.

Lemma wp_mono {A} (m : M W A) (Q R : outcome A -> proc W -> Prop) p :
  wp m Q p -> (forall o p', Q o p' -> R o p') -> wp m R p.
Proof. unfold wp. auto. Qed.

Lemma wp_ret {A} (a : A) (Q : outcome A -> proc W -> Prop) p : Q (Ret a) p -> wp (mret a) Q p.
Proof. done. Qed.

Lemma wp_bind {A B} (m : M W A) (f : A -> M W B) (Q : outcome B -> proc W -> Prop) p :
  wp m (fun o p' => match o with
                    | Ret a => wp (f a) Q p'
                    | _ => Q (outcome_cast o NoFuel) p' end) p ->
  wp (m ≫= f) Q p.
Proof. unfold wp, mbind, M_bind. destruct (m p) as [[] p']; done. Qed.

Lemma wp_if {A} (b : bool) (m1 m2 : M W A) Q p :
  (b = true -> wp m1 Q p) -> (b = false -> wp m2 Q p) -> wp (if b then m1 else m2) Q p.
Proof. destruct b; auto. Qed.

Lemma returns_mono {A} (m : M W A) (Q R : A -> proc W -> Prop) p :
  returns m Q p -> (forall a p', Q a p' -> R a p') -> returns m R p.
Proof. unfold returns, wp. destruct (m p) as [[] p']; simpl; auto. Qed.

Lemma returns_ret {A} (a : A) (Q : A -> proc W -> Prop) p : Q a p -> returns (mret a) Q p.
Proof. done. Qed.

Lemma returns_bind {A B} (m : M W A) (f : A -> M W B) (Q : B -> proc W -> Prop) p :
  returns m (fun a p' => returns (f a) Q p') p -> returns (m ≫= f) Q p.
Proof. unfold returns, wp, mbind, M_bind. destruct (m p) as [[] p']; done. Qed.

Lemma wp_bind_ret {A B} (m : M W A) (f : A -> M W B) (Q : outcome B -> proc W -> Prop) p :
  returns m (fun a p' => wp (f a) Q p') p -> wp (m ≫= f) Q p.
Proof. unfold returns, wp, mbind, M_bind. destruct (m p) as [[] p']; done. Qed.

(** A computation that returns, as an equation. *)
Lemma returns_eq {A} (m : M W A) (Q : A -> proc W -> Prop) p :
  returns m Q p <-> exists a p', m p = (Ret a, p') /\ Q a p'.
Proof.
  unfold returns, wp. destruct (m p) as [[] p'] eqn:E; simpl; split; try tauto.
  - eauto.
  - intros (? & ? & ? & ?). by simplify_eq.
  - intros (? & ? & ? & ?). by simplify_eq.
  - intros (? & ? & ? & ?). by simplify_eq.
  - intros (? & ? & ? & ?). by simplify_eq.
  - intros (? & ? & ? & ?). by simplify_eq.
Qed.

Lemma bind_ret_l {A B} (m : M W A) (f : A -> M W B) p a p' :
  m p = (Ret a, p') -> (m ≫= f) p = f a p'.
Proof. intros E. unfold mbind, M_bind. by rewrite E. Qed.

(** The state after a system call: only [errno] and the kernel change. *)
Lemma returns_syscall {A} (f : W -> sysres A * W) (Q : sysres A -> proc W -> Prop) p :
  (forall r w', f (kern p) = (r, w') ->
     Q r (Proc (match r with SysOk _ => errno p | SysErr e => e end)
               (log_to_stderr p) (console p) w')) ->
  returns (syscall f) Q p.
Proof.
  unfold returns, wp, syscall. destruct (f (kern p)) as [r w'] eqn:E. simpl. auto.
Qed.

Lemma returns_syscall_int (f : W -> sysres Z * W) (Q : Z -> proc W -> Prop) p :
  (forall n w', f (kern p) = (SysOk n, w') ->
     Q n (Proc (errno p) (log_to_stderr p) (console p) w')) ->
  (forall e w', f (kern p) = (SysErr e, w') ->
     Q (-1) (Proc e (log_to_stderr p) (console p) w')) ->
  returns (syscall_int f) Q p.
Proof.
  intros H1 H2. apply returns_bind, returns_syscall. intros [n|e] w' E; apply returns_ret; auto.
Qed.

Lemma returns_syscall_unit (f : W -> sysres unit * W) (Q : Z -> proc W -> Prop) p :
  (forall w', f (kern p) = (SysOk tt, w') ->
     Q 0 (Proc (errno p) (log_to_stderr p) (console p) w')) ->
  (forall e w', f (kern p) = (SysErr e, w') ->
     Q (-1) (Proc e (log_to_stderr p) (console p) w')) ->
  returns (syscall_unit f) Q p.
Proof.
  intros H1 H2. apply returns_bind, returns_syscall. intros [[]|e] w' E; apply returns_ret; auto.
Qed.

Lemma returns_set_errno e (Q : unit -> proc W -> Prop) p :
  Q tt (Proc e (log_to_stderr p) (console p) (kern p)) -> returns (set_errno e) Q p.
Proof. done. Qed.

Lemma returns_get_errno (Q : Z -> proc W -> Prop) p :
  Q (errno p) p -> returns get_errno Q p.
Proof. done. Qed.

Lemma returns_emit o (Q : unit -> proc W -> Prop) p :
  Q tt (Proc (errno p) (log_to_stderr p) (console p ++ [o]) (kern p)) -> returns (emit o) Q p.
Proof. done. Qed.

End Wp.

(** Steps that later files add. *)
Ltac mstep_hook := fail.

(** One step of a proof about a computation that returns. *)
Ltac mstep :=
  match goal with
  | |- returns (mret _) _ _ => apply returns_ret
  | |- returns (_ ≫= _) _ _ => apply returns_bind
  | |- returns (syscall_int _) _ _ => apply returns_syscall_int; intros
  | |- returns (syscall_unit _) _ _ => apply returns_syscall_unit; intros
  | |- returns (syscall _) _ _ => apply returns_syscall; intros
  | |- returns (set_errno _) _ _ => apply returns_set_errno
  | |- returns get_errno _ _ => apply returns_get_errno
  | |- returns (emit _) _ _ => apply returns_emit
  | |- returns _ _ _ => mstep_hook
  | |- wp (mret _) _ _ => apply wp_ret
  | |- wp (_ ≫= _) _ _ => apply wp_bind
  end.

Ltac msteps := repeat (mstep; simpl in *).
