(* ===== verification/Errors.v ===== *)
(** * Error reporting of [lib/apue.h]

    [StatusMsg], the formatting of error messages and the [err_*] family.  The
    texts of [strerror] and of [std::format_error] belong to the C and C++
    libraries; they are the operations of the class [CLib]. *)

From S2P Require Import Prelude Machine.

(** ** [std::vformat]

    The replacement fields of the format strings in the sources are [{}] and the
    escapes [{{], [}}]; explicit argument numbers are accepted too.  Format
    specifications ([{:...}]) are not used with the [err_*] functions and are
    rejected here. *)

Inductive format_error :=
| UnmatchedOpen
| UnmatchedClose
| ArgNotFound
| MixedIndexing
| BadReplacement.

(** Texts provided by the C and C++ libraries. *)
Class CLib := {
  strerror : Z -> bytes;
  strsignal : Z -> bytes;
  gai_strerror : Z -> bytes;
  format_error_what : format_error -> bytes;
}.

Definition LBRACE : Z := 123.
Definition RBRACE : Z := 125.

Definition is_digit (c : Z) : bool := (48 <=? c) && (c <=? 57).

Inductive indexing := Unset | Auto (next : nat) | Manual.
Inductive fstate := InText | SawOpen (id : option nat) | SawClose.

Definition fcons (c : Z) (r : format_error + bytes) : format_error + bytes :=
  match r with inr s => inr (c :: s) | inl e => inl e end.

Definition fapp (a : bytes) (r : format_error + bytes) : format_error + bytes :=
  match r with inr s => inr (a ++ s) | inl e => inl e end.

Fixpoint vformat_go (fmt : bytes) (st : fstate) (ix : indexing) (args : list bytes)
  : format_error + bytes :=
  match fmt with
  | [] =>
      match st with
      | InText => inr []
      | SawOpen _ => inl UnmatchedOpen
      | SawClose => inl UnmatchedClose
      end
  | c :: r =>
      match st with
      | InText =>
          if c =? LBRACE then vformat_go r (SawOpen None) ix args
          else if c =? RBRACE then vformat_go r SawClose ix args
          else fcons c (vformat_go r InText ix args)
      | SawClose =>
          if c =? RBRACE then fcons c (vformat_go r InText ix args) else inl UnmatchedClose
      | SawOpen None =>
          if c =? LBRACE then fcons c (vformat_go r InText ix args)
          else if c =? RBRACE then
            match ix with
            | Manual => inl MixedIndexing
            | Unset | Auto _ =>
                let n := match ix with Auto n => n | _ => 0%nat end in
                match args !! n with
                | Some a => fapp a (vformat_go r InText (Auto (S n)) args)
                | None => inl ArgNotFound
                end
            end
          else if is_digit c then vformat_go r (SawOpen (Some (Z.to_nat (c - 48)))) ix args
          else inl BadReplacement
      | SawOpen (Some n) =>
          if c =? RBRACE then
            match ix with
            | Auto _ => inl MixedIndexing
            | Unset | Manual =>
                match args !! n with
                | Some a => fapp a (vformat_go r InText Manual args)
                | None => inl ArgNotFound
                end
            end
          else if is_digit c && negb (n =? 0)%nat
          then vformat_go r (SawOpen (Some (n * 10 + Z.to_nat (c - 48))%nat)) ix args
          else inl BadReplacement
      end
  end.

Definition vformat (fmt : bytes) (args : list bytes) : format_error + bytes :=
  vformat_go fmt InText Unset args.

(** ** [StatusMsg] *)

Record StatusMsg := { code : Z; msg : bytes }.

Definition StatusMsg_default : StatusMsg := {| code := 0; msg := [] |}.

Definition empty (s : bytes) : bool := match s with [] => true | _ => false end.

Definition hasError (s : StatusMsg) : bool := negb (code s =? 0) || negb (empty (msg s)).

Definition toString `{CLib} (s : StatusMsg) : bytes :=
  (if negb (empty (msg s)) then msg s else []) ++
  (if negb (code s =? 0)
   then (if negb (empty (msg s)) then str ": " else []) ++ strerror (code s)
   else []).

(** ** Messages *)

Definition LOG_ERR : Z := 3.
Definition LOG_INFO : Z := 6.

Section Err.
Context {W : Type} `{CLib}.

Definition format_message (err_code : Z) (fmt : bytes) (args : list bytes) : M W bytes :=
  match vformat fmt args with
  | inr msg =>
      to_stderr ← get_log_to_stderr;
      let msg := if to_stderr : bool then str "Error: " ++ msg else msg in
      let msg := if 0 <=? err_code then msg ++ (str ": " ++ strerror err_code) else msg in
      mret msg
  | inl e => mret (str "Formatting error: " ++ fmt ++ str " (" ++ format_error_what e ++ str ")")
  end.

Definition do_error (msg : bytes) : M W unit :=
  to_stderr ← get_log_to_stderr;
  if to_stderr : bool then emit (Stderr msg) else emit (Syslog LOG_ERR msg).

Definition err_exit {A} (err : Z) (fmt : bytes) (args : list bytes) : M W A :=
  m ← format_message err fmt args; do_error m ;; sys_exit 1.

Definition err_cont (err : Z) (fmt : bytes) (args : list bytes) : M W unit :=
  m ← format_message err fmt args; do_error m.

Definition err_sys {A} (fmt : bytes) (args : list bytes) : M W A :=
  e ← get_errno; m ← format_message e fmt args; do_error m ;; sys_exit 1.

Definition err_dump {A} (fmt : bytes) (args : list bytes) : M W A :=
  e ← get_errno; m ← format_message e fmt args; do_error m ;; sys_abort.

Definition err_ret (fmt : bytes) (args : list bytes) : M W unit :=
  e ← get_errno; m ← format_message e fmt args; do_error m.

Definition err_quit {A} (fmt : bytes) (args : list bytes) : M W A :=
  m ← format_message (-1) fmt args; do_error m ;; sys_exit 1.

Definition err_msg (fmt : bytes) (args : list bytes) : M W unit :=
  m ← format_message (-1) fmt args; do_error m.

End Err.

(** ** What the messages are *)

(** The text the handlers of this file print for given arguments. *)
Definition message `{CLib} (to_stderr : bool) (err_code : Z) (fmt : bytes) (args : list bytes)
  : bytes :=
  match vformat fmt args with
  | inr msg =>
      (if to_stderr then str "Error: " else []) ++ msg ++
      (if 0 <=? err_code then str ": " ++ strerror err_code else [])
  | inl e => str "Formatting error: " ++ fmt ++ str " (" ++ format_error_what e ++ str ")"
  end.

(** The channel they print on. *)
Definition report (to_stderr : bool) (m : bytes) : out :=
  if to_stderr then Stderr m else Syslog LOG_ERR m.

(** The process after one report: everything but the console is kept. *)
Definition reported {W} (p : proc W) (m : bytes) : proc W :=
  Proc (errno p) (log_to_stderr p) (console p ++ [report (log_to_stderr p) m]) (kern p).

Section ErrFacts.
Context {W : Type} `{CLib}.
Implicit Types p : proc W.

Lemma format_message_eq e fmt args p :
  format_message e fmt args p = (Ret (message (log_to_stderr p) e fmt args), p).
Proof.
  unfold format_message, message.
  destruct (vformat fmt args) as [er|m]; [done|].
  unfold mbind, M_bind, get_log_to_stderr. simpl.
  destruct (log_to_stderr p), (0 <=? e); unfold mret, M_ret; simpl;
    by rewrite ?app_nil_r, <- ?app_assoc.
Qed.

Lemma do_error_eq m p : do_error m p = (Ret tt, reported p m).
Proof.
  unfold do_error, reported, report, mbind, M_bind, get_log_to_stderr. simpl.
  destruct (log_to_stderr p) eqn:E; unfold emit; by rewrite E.
Qed.

Lemma err_msg_eq fmt args p :
  err_msg fmt args p = (Ret tt, reported p (message (log_to_stderr p) (-1) fmt args)).
Proof. unfold err_msg. by rewrite (bind_ret_l _ _ _ _ _ (format_message_eq _ _ _ _)), do_error_eq. Qed.

Lemma err_cont_eq e fmt args p :
  err_cont e fmt args p = (Ret tt, reported p (message (log_to_stderr p) e fmt args)).
Proof. unfold err_cont. by rewrite (bind_ret_l _ _ _ _ _ (format_message_eq _ _ _ _)), do_error_eq. Qed.

Lemma err_ret_eq fmt args p :
  err_ret fmt args p = (Ret tt, reported p (message (log_to_stderr p) (errno p) fmt args)).
Proof.
  unfold err_ret, mbind, M_bind, get_errno. by rewrite format_message_eq, do_error_eq.
Qed.

Lemma err_exit_eq {A} e fmt args p :
  err_exit (A := A) e fmt args p
  = (Exited 1, reported p (message (log_to_stderr p) e fmt args)).
Proof. unfold err_exit, mbind, M_bind. by rewrite format_message_eq, do_error_eq. Qed.

Lemma err_sys_eq {A} fmt args p :
  err_sys (A := A) fmt args p
  = (Exited 1, reported p (message (log_to_stderr p) (errno p) fmt args)).
Proof.
  unfold err_sys, mbind, M_bind, get_errno. by rewrite format_message_eq, do_error_eq.
Qed.

Lemma err_quit_eq {A} fmt args p :
  err_quit (A := A) fmt args p
  = (Exited 1, reported p (message (log_to_stderr p) (-1) fmt args)).
Proof. unfold err_quit, mbind, M_bind. by rewrite format_message_eq, do_error_eq. Qed.

Lemma err_dump_eq {A} fmt args p :
  err_dump (A := A) fmt args p
  = (Aborted, reported p (message (log_to_stderr p) (errno p) fmt args)).
Proof.
  unfold err_dump, mbind, M_bind, get_errno. by rewrite format_message_eq, do_error_eq.
Qed.

Lemma kern_reported p m : kern (reported p m) = kern p.
Proof. done. Qed.

Lemma errno_reported p m : errno (reported p m) = errno p.
Proof. done. Qed.

Lemma returns_err_ret fmt args (Q : unit -> proc W -> Prop) p :
  Q tt (reported p (message (log_to_stderr p) (errno p) fmt args)) -> returns (err_ret fmt args) Q p.
Proof. unfold returns, wp. by rewrite err_ret_eq. Qed.

Lemma returns_err_msg fmt args (Q : unit -> proc W -> Prop) p :
  Q tt (reported p (message (log_to_stderr p) (-1) fmt args)) -> returns (err_msg fmt args) Q p.
Proof. unfold returns, wp. by rewrite err_msg_eq. Qed.

Lemma wp_err_quit {A} fmt args (Q : outcome A -> proc W -> Prop) p :
  Q (Exited 1) (reported p (message (log_to_stderr p) (-1) fmt args)) -> wp (err_quit fmt args) Q p.
Proof. unfold wp. by rewrite err_quit_eq. Qed.

Lemma wp_err_sys {A} fmt args (Q : outcome A -> proc W -> Prop) p :
  Q (Exited 1) (reported p (message (log_to_stderr p) (errno p) fmt args)) ->
  wp (err_sys fmt args) Q p.
Proof. unfold wp. by rewrite err_sys_eq. Qed.

Lemma wp_err_exit {A} e fmt args (Q : outcome A -> proc W -> Prop) p :
  Q (Exited 1) (reported p (message (log_to_stderr p) e fmt args)) -> wp (err_exit e fmt args) Q p.
Proof. unfold wp. by rewrite err_exit_eq. Qed.

End ErrFacts.

(** One step of a proof about a computation that may end the program. *)
Ltac wstep :=
  match goal with
  | |- wp (mret _) _ _ => apply wp_ret
  | |- wp (sys_exit _) _ _ => red; simpl
  | |- wp (err_quit _ _) _ _ => apply wp_err_quit
  | |- wp (err_sys _ _) _ _ => apply wp_err_sys
  | |- wp (err_exit _ _ _) _ _ => apply wp_err_exit
  | |- wp ((if ?b then _ else _) ≫= _) _ _ => destruct b
  | |- wp (syscall_int _ ≫= _) _ _ => apply wp_bind_ret, returns_syscall_int; intros
  | |- wp (syscall_unit _ ≫= _) _ _ => apply wp_bind_ret, returns_syscall_unit; intros
  | |- wp (syscall _ ≫= _) _ _ => apply wp_bind_ret, returns_syscall; intros
  | |- wp (set_errno _ ≫= _) _ _ => apply wp_bind_ret, returns_set_errno
  | |- wp (get_errno ≫= _) _ _ => apply wp_bind_ret, returns_get_errno
  | |- wp (emit _ ≫= _) _ _ => apply wp_bind_ret, returns_emit
  | |- wp (err_ret _ _ ≫= _) _ _ => apply wp_bind_ret, returns_err_ret
  | |- wp (err_msg _ _ ≫= _) _ _ => apply wp_bind_ret, returns_err_msg
  end.

Ltac mstep_hook ::=
  match goal with
  | |- returns (err_ret _ _) _ _ => apply returns_err_ret
  | |- returns (err_msg _ _) _ _ => apply returns_err_msg
  end.

(** *** Computations that return or end the process

    [settles m Q p]: [m] returns with [Q], or the process exits, as it does after a report; it
    does not abort, throw or run out of fuel. *)
Definition settles {W A} (m : M W A) (Q : A -> proc W -> Prop) (p : proc W) : Prop :=
  wp m (fun o p' => match o with Ret a => Q a p' | Exited _ => True | _ => False end) p.

Section Settles.
Context {W : Type} `{CLib}.

Lemma settles_mono {A} (m : M W A) (Q R : A -> proc W -> Prop) p :
  settles m Q p -> (forall a p', Q a p' -> R a p') -> settles m R p.
Proof. unfold settles, wp. destruct (m p) as [[] p']; simpl; auto. Qed.

Lemma settles_ret {A} (a : A) (Q : A -> proc W -> Prop) p : Q a p -> settles (mret a) Q p.
Proof. done. Qed.

Lemma settles_bind {A B} (m : M W A) (f : A -> M W B) (Q : B -> proc W -> Prop) p :
  settles m (fun a p' => settles (f a) Q p') p -> settles (m ≫= f) Q p.
Proof. unfold settles, wp, mbind, M_bind. destruct (m p) as [[] p']; done. Qed.

Lemma settles_returns {A} (m : M W A) (Q : A -> proc W -> Prop) p : returns m Q p -> settles m Q p.
Proof. unfold settles, returns, wp. by destruct (m p) as [[] p']. Qed.

Lemma settles_exit {A} code (Q : A -> proc W -> Prop) p : settles (sys_exit code) Q p.
Proof. done. Qed.

Lemma settles_err_sys {A} fmt args (Q : A -> proc W -> Prop) p : settles (err_sys fmt args) Q p.
Proof. unfold settles, wp. by rewrite err_sys_eq. Qed.

Lemma settles_err_quit {A} fmt args (Q : A -> proc W -> Prop) p : settles (err_quit fmt args) Q p.
Proof. unfold settles, wp. by rewrite err_quit_eq. Qed.

Lemma settles_err_exit {A} e fmt args (Q : A -> proc W -> Prop) p :
  settles (err_exit e fmt args) Q p.
Proof. unfold settles, wp. by rewrite err_exit_eq. Qed.

End Settles.

(** One step of a proof about a computation that settles. *)
Ltac sstep :=
  match goal with
  | |- settles (mret _) _ _ => apply settles_ret
  | |- settles (_ ≫= _) _ _ => apply settles_bind
  | |- settles (sys_exit _) _ _ => apply settles_exit
  | |- settles (err_sys _ _) _ _ => apply settles_err_sys
  | |- settles (err_quit _ _) _ _ => apply settles_err_quit
  | |- settles (err_exit _ _ _) _ _ => apply settles_err_exit
  | |- settles _ _ _ => apply settles_returns; mstep
  end.

(** A text without braces formats to itself, whatever the arguments. *)
Lemma vformat_plain fmt args :
  Forall (fun c => c <> LBRACE /\ c <> RBRACE) fmt -> vformat fmt args = inr fmt.
Proof.
  unfold vformat. generalize Unset.
  induction fmt as [|c r IH]; intros ix; [done|].
  intros [[Hl Hr] Hrest]%Forall_cons_1. simpl.
  rewrite (proj2 (Z.eqb_neq _ _) Hl), (proj2 (Z.eqb_neq _ _) Hr).
  by rewrite IH.
Qed.

(** The format string with [n] replacement fields between the given texts. *)
Fixpoint fields (texts : list bytes) : bytes :=
  match texts with
  | [] => []
  | [t] => t
  | t :: ts => t ++ [LBRACE; RBRACE] ++ fields ts
  end.

Fixpoint interleave (texts args : list bytes) : bytes :=
  match texts, args with
  | [], _ => []
  | [t], _ => t
  | t :: ts, a :: args => t ++ a ++ interleave ts args
  | t :: _, [] => t
  end.

Definition plain (t : bytes) : Prop := Forall (fun c => c <> LBRACE /\ c <> RBRACE) t.

Lemma vformat_go_plain_app t rest ix args :
  plain t -> vformat_go (t ++ rest) InText ix args = fapp t (vformat_go rest InText ix args).
Proof.
  intros Ht. induction t as [|c t IH]; simpl.
  - by destruct (vformat_go rest InText ix args).
  - apply Forall_cons_1 in Ht as [[Hl Hr] Ht].
    rewrite (proj2 (Z.eqb_neq _ _) Hl), (proj2 (Z.eqb_neq _ _) Hr), IH by done.
    by destruct (vformat_go rest InText ix args).
Qed.

Definition used (ix : indexing) : nat := match ix with Auto n => n | _ => 0%nat end.

Lemma vformat_fields_go texts args ix :
  Forall plain texts -> ix <> Manual ->
  vformat_go (fields texts) InText ix args
  = if (length texts - 1 <=? length args - used ix)%nat
    then inr (interleave texts (drop (used ix) args)) else inl ArgNotFound.
Proof.
  revert ix. induction texts as [|t ts IH]; intros ix Hp Hix; [done|].
  apply Forall_cons_1 in Hp as [Ht Hts].
  destruct ts as [|t2 ts].
  - simpl fields. rewrite <- (app_nil_r t) at 1. rewrite vformat_go_plain_app by done.
    simpl. by rewrite app_nil_r.
  - change (fields (t :: t2 :: ts)) with (t ++ [LBRACE; RBRACE] ++ fields (t2 :: ts)).
    rewrite vformat_go_plain_app by done.
    assert (Hstep : vformat_go ([LBRACE; RBRACE] ++ fields (t2 :: ts)) InText ix args
      = match args !! used ix with
        | Some a => fapp a (vformat_go (fields (t2 :: ts)) InText (Auto (S (used ix))) args)
        | None => inl ArgNotFound end).
    { destruct ix; [done|done|congruence]. }
    rewrite Hstep. destruct (args !! used ix) as [a|] eqn:Ea.
    + rewrite IH by done. simpl used.
      pose proof (lookup_lt_Some _ _ _ Ea).
      rewrite (drop_S _ _ _ Ea).
      replace (length (t2 :: ts) - 1 <=? length args - S (used ix))%nat
        with (length (t :: t2 :: ts) - 1 <=? length args - used ix)%nat
        by (apply eq_true_iff_eq; rewrite !Nat.leb_le; simpl; lia).
      destruct (_ <=? _)%nat; done.
    + apply lookup_ge_None in Ea.
      destruct (Nat.leb_spec (length (t :: t2 :: ts) - 1) (length args - used ix)); [|done].
      simpl in *. lia.
Qed.
