(* ===== verification/Kernel.v ===== *)
(** * The operating system, as the programs see it

    System calls and the services of the C library that reach the kernel are
    not part of the repository.  Each group of them is a class over the type
    [W] of the kernel's states: an operation takes the state and returns a
    result or an error number, and the next state.  A companion [...Spec] class
    states what POSIX documents of the group, in terms of observations of the
    kernel's state; theorems that need the documented behaviour take it as a
    premise, and [SimKernel.v] has a concrete kernel that satisfies it. *)

From S2P Require Import Prelude Machine.

(** ** Descriptors and files *)

Class FileOps (W : Type) := {
  k_read : Z -> Z -> W -> sysres bytes * W;          (* fd, count *)
  k_write : Z -> bytes -> W -> sysres Z * W;         (* fd, buffer *)
  k_open : bytes -> Z -> Z -> W -> sysres Z * W;     (* path, flags, mode *)
  k_close : Z -> W -> sysres unit * W;
  k_dup : Z -> W -> sysres Z * W;
  k_ftruncate : Z -> Z -> W -> sysres unit * W;
  k_fsync : Z -> W -> sysres unit * W;
  k_getfd : Z -> W -> sysres Z * W;                  (* fcntl F_GETFD *)
  k_setfd : Z -> Z -> W -> sysres unit * W;          (* fcntl F_SETFD *)
  k_getfl : Z -> W -> sysres Z * W;                  (* fcntl F_GETFL *)
  k_setfl : Z -> Z -> W -> sysres unit * W;          (* fcntl F_SETFL *)
}.

(** [sysconf] and [pathconf]: [SysOk (-1)] is the answer "no limit", which leaves
    [errno] alone. *)
Class ConfOps (W : Type) := {
  k_sysconf : Z -> W -> sysres Z * W;
  k_pathconf : bytes -> Z -> W -> sysres Z * W;
}.

(** The C functions, with their return conventions. *)
Section FileCalls.
Context {W : Type} `{FileOps W}.

(** [read] returns the count and stores the bytes in the caller's buffer. *)
Definition read (fd n : Z) : M W (Z * bytes) :=
  r ← syscall (k_read fd n);
  mret (match r with SysOk d => (zlen d, d) | SysErr _ => (-1, []) end).

Definition write (fd : Z) (buf : bytes) : M W Z := syscall_int (k_write fd buf).
Definition open (path : bytes) (flags mode : Z) : M W Z := syscall_int (k_open path flags mode).
Definition close (fd : Z) : M W Z := syscall_unit (k_close fd).
Definition dup (fd : Z) : M W Z := syscall_int (k_dup fd).
Definition fsync (fd : Z) : M W Z := syscall_unit (k_fsync fd).
Definition ftruncate (fd len : Z) : M W Z := syscall_unit (k_ftruncate fd len).

End FileCalls.

(** Byte streams: [inbuf w fd] is what reads of [fd] are still to deliver before
    end of file, [outbuf w fd] what writes to [fd] have delivered. *)
Class StreamSpec (W : Type) `{FileOps W} := {
  inbuf : W -> Z -> bytes;
  outbuf : W -> Z -> bytes;
  read_law fd n w r w' : k_read fd n w = (r, w') -> 0 <= n ->
    match r with
    | SysOk d => zlen d <= n /\ inbuf w fd = d ++ inbuf w' fd
                 /\ (0 < n -> d = [] -> inbuf w fd = [])
    | SysErr _ => inbuf w' fd = inbuf w fd
    end;
  read_frame fd n w r w' fd' : k_read fd n w = (r, w') -> outbuf w' fd' = outbuf w fd';
  write_law fd d w r w' : k_write fd d w = (r, w') ->
    match r with
    | SysOk k => 0 <= k <= zlen d /\ outbuf w' fd = outbuf w fd ++ take (Z.to_nat k) d
    | SysErr _ => outbuf w' fd = outbuf w fd
    end;
}.

(** Status flags of a descriptor ([fcntl] F_GETFD/F_SETFD, F_GETFL/F_SETFL);
    [None] when it is not open. *)
Class FlagSpec (W : Type) `{FileOps W} := {
  fd_flags : W -> Z -> option Z;
  fl_flags : W -> Z -> option Z;
  getfd_law fd w : k_getfd fd w =
    (match fd_flags w fd with Some v => SysOk v | None => SysErr 9 end, w);
  getfl_law fd w : k_getfl fd w =
    (match fl_flags w fd with Some v => SysOk v | None => SysErr 9 end, w);
  setfd_law fd v w r w' : k_setfd fd v w = (r, w') -> 0 <= v ->
    match fd_flags w fd, r with
    | Some _, SysOk _ => fd_flags w' fd = Some v
    | Some _, SysErr _ => False
    | None, SysOk _ => False
    | None, SysErr e => w' = w /\ e = 9
    end;
  setfl_law fd v w r w' : k_setfl fd v w = (r, w') ->
    match fl_flags w fd, r with
    | Some _, SysOk _ => fl_flags w' fd = Some v
    | Some v0, SysErr _ => fl_flags w' fd = Some v0
    | None, SysOk _ => False
    | None, SysErr e => w' = w /\ e = 9
    end;
  fl_nonneg w fd v : fl_flags w fd = Some v -> 0 <= v;
  fd_nonneg w fd v : fd_flags w fd = Some v -> 0 <= v;
}.

(** Descriptors: a new one is the lowest that is free. *)
Definition fd_alloc (s : gset Z) (r : sysres Z) (s' : gset Z) : Prop :=
  match r with
  | SysOk fd => 0 <= fd /\ fd ∉ s /\ s' = {[fd]} ∪ s /\ (forall k, 0 <= k < fd -> k ∈ s)
  | SysErr _ => s' = s
  end.

Class FdSpec (W : Type) `{FileOps W} := {
  fds : W -> gset Z;
  open_fds path fl m w r w' : k_open path fl m w = (r, w') -> fd_alloc (fds w) r (fds w');
  dup_fds fd w r w' : k_dup fd w = (r, w') -> fd_alloc (fds w) r (fds w');
  close_fds fd w r w' : k_close fd w = (r, w') -> fds w' = fds w ∖ {[fd]};
  read_fds fd n w r w' : k_read fd n w = (r, w') -> fds w' = fds w;
  write_fds fd d w r w' : k_write fd d w = (r, w') -> fds w' = fds w;
}.
