(* ===== verification/SimKernel.v ===== *)
(** * A concrete kernel

    A small deterministic kernel that satisfies the specifications of [Kernel.v]:
    the state of the witnesses that instantiate the theorems of the other files.
    Nothing in the models depends on it. *)

From S2P Require Import Prelude Machine Errors Kernel.

(** An open descriptor: the bytes to deliver, the bytes accepted, its flags. *)
Record sim_fd := SimFd {
  sf_in : bytes;
  sf_out : bytes;
  sf_fdfl : N;
  sf_flfl : N;
}.

Record sim := Sim {
  s_fds : gmap Z sim_fd;
  s_chunk : positive;      (* bytes moved by one read or write, at most *)
}.

Definition EBADF : Z := 9.

Definition sim_upd (fd : Z) (d : sim_fd) (w : sim) : sim :=
  Sim (<[fd := d]> (s_fds w)) (s_chunk w).

Definition sim_read (fd n : Z) (w : sim) : sysres bytes * sim :=
  match s_fds w !! fd with
  | Some d =>
      let k := Nat.min (Z.to_nat n) (Pos.to_nat (s_chunk w)) in
      (SysOk (take k (sf_in d)),
       sim_upd fd (SimFd (drop k (sf_in d)) (sf_out d) (sf_fdfl d) (sf_flfl d)) w)
  | None => (SysErr EBADF, w)
  end.

Definition sim_write (fd : Z) (b : bytes) (w : sim) : sysres Z * sim :=
  match s_fds w !! fd with
  | Some d =>
      let k := Nat.min (length b) (Pos.to_nat (s_chunk w)) in
      (SysOk (Z.of_nat k),
       sim_upd fd (SimFd (sf_in d) (sf_out d ++ take k b) (sf_fdfl d) (sf_flfl d)) w)
  | None => (SysErr EBADF, w)
  end.

(** The lowest free descriptor. *)
Fixpoint sim_free (fuel : nat) (fd : Z) (m : gmap Z sim_fd) : Z :=
  match fuel with
  | O => fd
  | S fuel => match m !! fd with None => fd | Some _ => sim_free fuel (fd + 1) m end
  end.

Definition sim_alloc (d : sim_fd) (w : sim) : sysres Z * sim :=
  let fd := sim_free (size (s_fds w)) 0 (s_fds w) in (SysOk fd, sim_upd fd d w).

Definition sim_close (fd : Z) (w : sim) : sysres unit * sim :=
  match s_fds w !! fd with
  | Some _ => (SysOk tt, Sim (delete fd (s_fds w)) (s_chunk w))
  | None => (SysErr EBADF, w)
  end.

Definition sim_get (f : sim_fd -> N) (fd : Z) (w : sim) : sysres Z * sim :=
  (match s_fds w !! fd with Some d => SysOk (Z.of_N (f d)) | None => SysErr EBADF end, w).

Definition sim_set (f : sim_fd -> N -> sim_fd) (fd v : Z) (w : sim) : sysres unit * sim :=
  match s_fds w !! fd with
  | Some d => if v <? 0 then (SysErr 22, w) else (SysOk tt, sim_upd fd (f d (Z.to_N v)) w)
  | None => (SysErr EBADF, w)
  end.

#[export] Instance sim_file : FileOps sim := {
  k_read := sim_read;
  k_write := sim_write;
  k_open path flags mode := sim_alloc (SimFd path [] 0 (Z.to_N flags));
  k_close := sim_close;
  k_dup fd w := match s_fds w !! fd with Some d => sim_alloc d w | None => (SysErr EBADF, w) end;
  k_ftruncate fd len w :=
    match s_fds w !! fd with Some _ => (SysOk tt, w) | None => (SysErr EBADF, w) end;
  k_fsync fd w :=
    match s_fds w !! fd with Some _ => (SysOk tt, w) | None => (SysErr EBADF, w) end;
  k_getfd := sim_get sf_fdfl;
  k_setfd := sim_set (fun d v => SimFd (sf_in d) (sf_out d) v (sf_flfl d));
  k_getfl := sim_get sf_flfl;
  k_setfl := sim_set (fun d v => SimFd (sf_in d) (sf_out d) (sf_fdfl d) v);
}.

#[export] Instance sim_conf : ConfOps sim := {
  k_sysconf _ w := (SysOk 1024, w);
  k_pathconf _ _ w := (SysOk (-1), w);
}.

#[export] Instance sim_clib : CLib := {
  strerror e := if e =? EBADF then str "Bad file descriptor" else str "Error";
  strsignal _ := str "signal";
  gai_strerror _ := str "name";
  format_error_what _ := str "format error";
}.

Definition sim_in (w : sim) (fd : Z) : bytes := from_option sf_in [] (s_fds w !! fd).
Definition sim_out (w : sim) (fd : Z) : bytes := from_option sf_out [] (s_fds w !! fd).

#[export, refine] Instance sim_stream : StreamSpec sim := {
  inbuf := sim_in;
  outbuf := sim_out;
}.
Proof.
  - intros fd n w r w' E Hn. simpl in E. unfold sim_read in E. unfold sim_in.
    destruct (s_fds w !! fd) as [d|] eqn:Ed; simplify_eq; [|by rewrite Ed]. simpl.
    rewrite lookup_insert_eq. simpl. rewrite take_drop. split_and!.
    + rewrite zlen_take. lia.
    + done.
    + intros Hpos Hnil. destruct (sf_in d); [done|].
      destruct (Nat.min _ _) eqn:Emin; simpl in Hnil; [lia|done].
  - intros fd n w r w' fd' E. simpl in E. unfold sim_read in E. unfold sim_out.
    destruct (s_fds w !! fd) as [d|] eqn:Ed; simplify_eq; [|done]. simpl.
    destruct (decide (fd = fd')) as [<-|Hne]; [by rewrite lookup_insert_eq, Ed|].
    by rewrite lookup_insert_ne.
  - intros fd d w r w' E. simpl in E. unfold sim_write in E. unfold sim_out.
    destruct (s_fds w !! fd) as [x|] eqn:Ed; simplify_eq; [|by rewrite Ed]. simpl.
    rewrite lookup_insert_eq. simpl. split; [unfold zlen; lia|].
    by rewrite Nat2Z.id.
Defined.

#[export, refine] Instance sim_flags : FlagSpec sim := {
  fd_flags w fd := Z.of_N ∘ sf_fdfl <$> s_fds w !! fd;
  fl_flags w fd := Z.of_N ∘ sf_flfl <$> s_fds w !! fd;
}.
Proof.
  - intros fd w. simpl. unfold sim_get. by destruct (s_fds w !! fd).
  - intros fd w. simpl. unfold sim_get. by destruct (s_fds w !! fd).
  - intros fd v w r w' E Hv. simpl in *. unfold sim_set in E.
    destruct (s_fds w !! fd) as [d|] eqn:Ed; simpl; [|by simplify_eq].
    destruct (Z.ltb_spec v 0); [lia|]. simplify_eq. simpl. rewrite lookup_insert_eq. simpl.
    by rewrite Z2N.id.
  - intros fd v w r w' E. simpl in *. unfold sim_set in E.
    destruct (s_fds w !! fd) as [d|] eqn:Ed; simpl; [|by simplify_eq].
    destruct (Z.ltb_spec v 0); simplify_eq; simpl; [by rewrite Ed|].
    rewrite lookup_insert_eq. simpl. by rewrite Z2N.id.
  - intros w fd v. destruct (s_fds w !! fd); simpl; intros; simplify_eq; lia.
  - intros w fd v. destruct (s_fds w !! fd); simpl; intros; simplify_eq; lia.
Defined.

(** ** Descriptors of the concrete kernel *)

Lemma sim_free_spec fuel fd m :
  exists k, sim_free fuel fd m = fd + Z.of_nat k /\ (k <= fuel)%nat /\
    (forall i, fd <= i < fd + Z.of_nat k -> i ∈ dom m) /\
    (k = fuel \/ m !! (fd + Z.of_nat k) = None).
Proof.
  revert fd. induction fuel as [|fuel IH]; intros fd; simpl.
  - exists 0%nat. split_and!; [lia|lia|lia|by left].
  - destruct (m !! fd) as [d|] eqn:E.
    + destruct (IH (fd + 1)) as (k & Hk & Hle & Hin & Hor). exists (S k). split_and!.
      * lia.
      * lia.
      * intros i Hi. destruct (decide (i = fd)) as [->|]; [by apply elem_of_dom_2 in E|].
        apply Hin. lia.
      * destruct Hor as [->|Hor]; [by left|right]. rewrite <- Hor. f_equal. lia.
    + exists 0%nat. split_and!; [lia|lia|lia|right]. by rewrite Z.add_0_r.
Qed.

Lemma sim_free_lowest m :
  let fd := sim_free (size m) 0 m in
  0 <= fd /\ fd ∉ dom m /\ forall k, 0 <= k < fd -> k ∈ dom m.
Proof.
  destruct (sim_free_spec (size m) 0 m) as (k & Hk & Hle & Hin & Hor). simpl in *. rewrite Hk.
  split_and!; [lia| |intros; apply Hin; lia].
  destruct Hor as [->|Hnone]; [|by apply not_elem_of_dom].
  assert (Hs : list_to_set (seqZ 0 (Z.of_nat (size m))) = dom m).
  { apply leibniz_equiv, set_subseteq_size_equiv.
    - intros i Hi. apply elem_of_list_to_set, elem_of_seqZ in Hi. apply Hin. lia.
    - rewrite size_dom, size_list_to_set by apply NoDup_seqZ. rewrite length_seqZ. lia. }
  rewrite <- Hs, elem_of_list_to_set, elem_of_seqZ. lia.
Qed.

(** Descriptors are not negative. *)
Definition sim_open_fds (w : sim) : gset Z := filter (fun fd => 0 <= fd) (dom (s_fds w)).

Lemma sim_alloc_fds d w r w' :
  sim_alloc d w = (r, w') -> fd_alloc (sim_open_fds w) r (sim_open_fds w').
Proof.
  unfold sim_alloc. intros E. simplify_eq. pose proof (sim_free_lowest (s_fds w)) as (H0 & H1 & H2).
  unfold sim_open_fds. simpl. split_and!; [done| | |].
  - rewrite elem_of_filter. tauto.
  - rewrite dom_insert_L. apply leibniz_equiv. set_solver.
  - intros k Hk. apply elem_of_filter. split; [lia|by apply H2].
Qed.

Lemma sim_upd_fds fd d w : fd ∈ dom (s_fds w) -> sim_open_fds (sim_upd fd d w) = sim_open_fds w.
Proof.
  intros Hd. unfold sim_open_fds. simpl. rewrite dom_insert_L. f_equal. apply leibniz_equiv. set_solver.
Qed.

#[export, refine] Instance sim_fdspec : FdSpec sim := { fds := sim_open_fds }.
Proof.
  - intros path fl m w r w' E. simpl in E. by eapply sim_alloc_fds.
  - intros fd w r w' E. simpl in E. destruct (s_fds w !! fd); [by eapply sim_alloc_fds|].
    by simplify_eq.
  - intros fd w r w' E. simpl in E. unfold sim_close in E. unfold sim_open_fds.
    destruct (s_fds w !! fd) eqn:Ed; simplify_eq; simpl; apply leibniz_equiv.
    + rewrite dom_delete_L. set_solver.
    + apply not_elem_of_dom in Ed. set_solver.
  - intros fd n w r w' E. simpl in E. unfold sim_read in E.
    destruct (s_fds w !! fd) eqn:Ed; simplify_eq; [|done].
    apply sim_upd_fds. by apply elem_of_dom_2 in Ed.
  - intros fd n w r w' E. simpl in E. unfold sim_write in E.
    destruct (s_fds w !! fd) eqn:Ed; simplify_eq; [|done].
    apply sim_upd_fds. by apply elem_of_dom_2 in Ed.
Defined.

Lemma sim_fds_nonneg w x : x ∈ sim_open_fds w -> 0 <= x.
Proof. unfold sim_open_fds. by intros [? _]%elem_of_filter. Qed.

(** A process with standard descriptors and a few bytes to read on descriptor 3. *)
Definition sim_fds0 : gmap Z sim_fd :=
  list_to_map [(0, SimFd [] [] 0 0); (1, SimFd [] [] 0 1); (2, SimFd [] [] 0 1);
               (3, SimFd (str "hello, world") [] 0 2)].

Definition sim0 : proc sim := Proc 0 true [] (Sim sim_fds0 4).
