(* ===== verification/Text.v ===== *)
(** * Numbers and words as text

    [std::to_string], [operator<<] of an [int], and the extraction operators of [std::istream] in
    the "C" locale, as the programs use them. *)

From S2P Require Import Prelude Errors.

(** Decimal digits of a number, most significant first. *)
Fixpoint digits_go (fuel : nat) (n : Z) (acc : bytes) : bytes :=
  match fuel with
  | O => acc
  | S fuel =>
      let acc := (48 + n mod 10) :: acc in
      if n / 10 =? 0 then acc else digits_go fuel (n / 10) acc
  end.

Definition digits (n : Z) : bytes := digits_go (S (Z.to_nat (Z.log2 n))) n [].

Definition to_string (z : Z) : bytes := if z <? 0 then 45 :: digits (- z) else digits z.

(** ** Extraction *)

Definition is_space (c : Z) : bool := (c =? 32) || ((9 <=? c) && (c <=? 13)).

Fixpoint skip_ws (s : bytes) : bytes :=
  match s with
  | c :: r => if is_space c then skip_ws r else s
  | [] => []
  end.

(** The longest prefix of digits: its value and how many there are. *)
Fixpoint scan_digits (s : bytes) (v : Z) (n : nat) : Z * nat * bytes :=
  match s with
  | c :: r => if is_digit c then scan_digits r (v * 10 + (c - 48)) (S n) else (v, n, s)
  | [] => (v, n, [])
  end.

(** [stream >> int]: [None] sets failbit (no digits, or the number does not fit). *)
Definition extract_int (s : bytes) : option (Z * bytes) :=
  let s := skip_ws s in
  let '(neg, s) := match s with
                   | c :: r => if c =? 45 then (true, r) else if c =? 43 then (false, r) else (false, s)
                   | [] => (false, s)
                   end in
  let '(v, n, rest) := scan_digits s 0 0 in
  let v := if neg : bool then - v else v in
  if (n =? 0)%nat then None
  else if decide (is_int v) then Some (v, rest) else None.

(** The longest prefix without white space. *)
Fixpoint scan_word (s : bytes) : bytes * bytes :=
  match s with
  | c :: r => if is_space c then ([], s) else let '(w, rest) := scan_word r in (c :: w, rest)
  | [] => ([], [])
  end.

(** [stream >> std::string]: fails when nothing but white space is left. *)
Definition extract_word (s : bytes) : option (bytes * bytes) :=
  match scan_word (skip_ws s) with
  | ([], _) => None
  | (w, rest) => Some (w, rest)
  end.

#[export] Instance is_int_dec z : Decision (is_int z).
Proof. unfold is_int. apply _. Defined.

(** ** C strings *)

(** The text a [char*] points to: up to the first zero byte of its buffer. *)
Fixpoint c_string (buf : bytes) : bytes :=
  match buf with
  | [] => []
  | c :: r => if c =? 0 then [] else c :: c_string r
  end.

(** ** Facts *)

Lemma c_string_app_zero d r : c_string (d ++ 0 :: r) = c_string d.
Proof. induction d as [|c d IH]; simpl; [done|]. by rewrite IH. Qed.

Lemma c_string_no_zero d : 0 ∉ d -> c_string d = d.
Proof.
  induction d as [|c d IH]; [done|]. intros [Hc Hd]%not_elem_of_cons. simpl.
  rewrite (proj2 (Z.eqb_neq c 0)) by done. by rewrite IH.
Qed.

Lemma digits_go_app fuel n acc : digits_go fuel n acc = digits_go fuel n [] ++ acc.
Proof.
  revert n acc. induction fuel as [|fuel IH]; intros n acc; [done|]. simpl.
  destruct (n / 10 =? 0); [done|]. rewrite IH, (IH _ [_]), <- app_assoc. done.
Qed.

Lemma is_digit_true d : 0 <= d < 10 -> is_digit (48 + d) = true.
Proof. intros. unfold is_digit. apply andb_true_iff. rewrite !Z.leb_le. lia. Qed.

Lemma digits_go_digit fuel n acc :
  Forall (fun c => is_digit c = true) acc -> Forall (fun c => is_digit c = true) (digits_go fuel n acc).
Proof.
  revert n acc. induction fuel as [|fuel IH]; intros n acc Ha; [done|]. cbn [digits_go].
  assert (Forall (fun c => is_digit c = true) (48 + n mod 10 :: acc)).
  { constructor; [|done]. apply is_digit_true, Z.mod_pos_bound. lia. }
  destruct (n / 10 =? 0); [done|]. by apply IH.
Qed.

Lemma digits_digit n : Forall (fun c => is_digit c = true) (digits n).
Proof. by apply digits_go_digit. Qed.

Lemma digits_go_nonempty fuel n acc : (0 < fuel)%nat -> digits_go fuel n acc <> [].
Proof.
  revert n acc. induction fuel as [|fuel IH]; intros n acc Hf; [lia|]. cbn [digits_go].
  destruct (n / 10 =? 0); [done|]. destruct fuel; [done|]. apply IH. lia.
Qed.

Lemma digits_nonempty n : digits n <> [].
Proof. apply digits_go_nonempty. lia. Qed.

Lemma scan_digits_app s r v n :
  Forall (fun c => is_digit c = true) s ->
  scan_digits (s ++ r) v n
  = scan_digits r (fold_left (fun v c => v * 10 + (c - 48)) s v) (n + length s).
Proof.
  revert v n. induction s as [|c s IH]; intros v n Hs; simpl; [by rewrite Nat.add_0_r|].
  apply Forall_cons_1 in Hs as [Hc Hs]. rewrite Hc, IH by done. f_equal. lia.
Qed.

Lemma digits_go_value fuel n :
  0 <= n -> n < 2 ^ Z.of_nat fuel ->
  fold_left (fun v c => v * 10 + (c - 48)) (digits_go fuel n []) 0 = n.
Proof.
  revert n. induction fuel as [|fuel IH]; intros n Hn Hlt.
  - change (2 ^ Z.of_nat 0) with 1 in Hlt. simpl. lia.
  - cbn [digits_go]. pose proof (Z.div_mod n 10). pose proof (Z.mod_pos_bound n 10).
    destruct (Z.eqb_spec (n / 10) 0) as [E|E].
    + rewrite E in *. simpl. lia.
    + rewrite digits_go_app, fold_left_app, IH.
      * cbn. lia.
      * apply Z.div_pos; lia.
      * rewrite Nat2Z.inj_succ, Z.pow_succ_r in Hlt by lia.
        apply Z.div_lt_upper_bound; lia.
Qed.

Lemma digits_value n :
  0 <= n -> fold_left (fun v c => v * 10 + (c - 48)) (digits n) 0 = n.
Proof.
  intros Hn. apply digits_go_value; [done|].
  rewrite Nat2Z.inj_succ, Z2Nat.id by apply Z.log2_nonneg.
  destruct (Z.eq_dec n 0) as [->|]; [done|]. apply Z.log2_spec. lia.
Qed.

Lemma digits_scan n r :
  0 <= n -> (forall c r', r = c :: r' -> is_digit c = false) ->
  scan_digits (digits n ++ r) 0 0 = (n, length (digits n), r).
Proof.
  intros Hn Hr. rewrite scan_digits_app by apply digits_digit.
  rewrite digits_value by done. destruct r as [|c r]; [done|]. simpl. by rewrite (Hr c r).
Qed.

Lemma is_digit_not_space c : is_digit c = true -> is_space c = false /\ c <> 45 /\ c <> 43.
Proof.
  unfold is_digit, is_space. rewrite andb_true_iff, !Z.leb_le. intros.
  rewrite orb_false_iff, andb_false_iff, Z.eqb_neq, !Z.leb_gt. lia.
Qed.

(** Reading back a printed [int] that is followed by nothing or by a non-digit. *)
Lemma extract_int_to_string z r :
  is_int z -> (forall c r', r = c :: r' -> is_digit c = false) ->
  extract_int (to_string z ++ r) = Some (z, r).
Proof.
  intros Hz Hr. unfold extract_int, to_string.
  assert (Hlen : forall n, (length (digits n) =? 0)%nat = false).
  { intros n. pose proof (digits_nonempty n). destruct (digits n); [done|]. done. }
  destruct (Z.ltb_spec z 0).
  - simpl skip_ws. cbn [app]. change (45 =? 45) with true. cbn iota beta.
    rewrite digits_scan by (done || lia). rewrite Hlen, Z.opp_involutive. by rewrite decide_True.
  - pose proof (digits_digit z) as Hd. pose proof (digits_scan z r ltac:(lia) Hr) as Hs.
    specialize (Hlen z). destruct (digits z) as [|c ds] eqn:E; [done|].
    apply Forall_cons_1 in Hd as [Hc _]. apply is_digit_not_space in Hc as (Hsp & H45 & H43).
    simpl skip_ws. rewrite Hsp. cbn [app] in *.
    rewrite (proj2 (Z.eqb_neq _ _) H45), (proj2 (Z.eqb_neq _ _) H43).
    rewrite Hs, Hlen. by rewrite decide_True.
Qed.

(** Words. *)
Definition is_word (w : bytes) : Prop := w <> [] /\ Forall (fun c => is_space c = false) w.

Lemma scan_word_app w r :
  Forall (fun c => is_space c = false) w -> (forall c r', r = c :: r' -> is_space c = true) ->
  scan_word (w ++ r) = (w, r).
Proof.
  intros Hw Hr. induction w as [|c w IH]; simpl.
  - destruct r as [|c r]; [done|]. simpl. by rewrite (Hr c r).
  - apply Forall_cons_1 in Hw as [Hc Hw]. by rewrite Hc, IH.
Qed.

Lemma extract_word_app w r :
  is_word w -> (forall c r', r = c :: r' -> is_space c = true) ->
  extract_word (32 :: w ++ r) = Some (w, r).
Proof.
  intros [Hne Hw] Hr. unfold extract_word. simpl skip_ws.
  assert (Hsk : skip_ws (w ++ r) = w ++ r).
  { destruct w as [|c w]; [done|]. apply Forall_cons_1 in Hw as [Hc _]. simpl. by rewrite Hc. }
  rewrite Hsk, scan_word_app by done. by destruct w.
Qed.

Lemma digits_go_length fuel n acc : (length (digits_go fuel n acc) <= fuel + length acc)%nat.
Proof.
  revert n acc. induction fuel as [|fuel IH]; intros n acc; [done|]. cbn [digits_go].
  destruct (n / 10 =? 0); [simpl; lia|]. etrans; [apply IH|]. simpl. lia.
Qed.

Lemma to_string_length z : is_int z -> zlen (to_string z) <= 33.
Proof.
  assert (Hd : forall n, 0 <= n <= 2147483648 -> zlen (digits n) <= 32).
  { intros n Hn. unfold digits, zlen. pose proof (digits_go_length (S (Z.to_nat (Z.log2 n))) n []).
    pose proof (Z.log2_le_mono n 2147483648 ltac:(lia)) as Hl.
    change (Z.log2 2147483648) with 31 in Hl. simpl length in *. lia. }
  unfold is_int, INT_MIN, INT_MAX, to_string. intros Hz. destruct (Z.ltb_spec z 0).
  - rewrite zlen_cons. specialize (Hd (- z)). lia.
  - specialize (Hd z). lia.
Qed.

(** ** The length of a number *)

Lemma digits_go_fuel f1 : forall f2 n,
  0 <= n < 2 ^ Z.of_nat f1 -> n < 2 ^ Z.of_nat f2 -> (0 < f1)%nat -> (0 < f2)%nat ->
  digits_go f1 n [] = digits_go f2 n [].
Proof.
  induction f1 as [|f1 IH]; intros f2 n H1 H2 P1 P2; [lia|]. destruct f2 as [|f2]; [lia|]. simpl.
  destruct (Z.eqb_spec (n / 10) 0) as [E|E]; [done|].
  rewrite (digits_go_app f1), (digits_go_app f2). f_equal.
  rewrite Nat2Z.inj_succ, Z.pow_succ_r in H1, H2 by lia.
  assert (Hd : 0 <= n / 10 < 2 ^ Z.of_nat f1 /\ n / 10 < 2 ^ Z.of_nat f2).
  { split; [split; [apply Z.div_pos; lia|]|]; apply Z.div_lt_upper_bound; lia. }
  apply IH; try apply Hd.
  - destruct f1; [simpl in Hd; lia|lia].
  - destruct f2; [simpl in Hd; lia|lia].
Qed.

Lemma digits_fuel n : 0 <= n -> n < 2 ^ Z.of_nat (S (Z.to_nat (Z.log2 n))).
Proof.
  intros Hn. rewrite Nat2Z.inj_succ, Z2Nat.id by apply Z.log2_nonneg.
  destruct (Z.eq_dec n 0) as [->|]; [done|]. apply Z.log2_spec. lia.
Qed.

Lemma digits_small n : 0 <= n < 10 -> digits n = [48 + n].
Proof.
  intros Hn. unfold digits. simpl. rewrite Z.div_small, Z.mod_small by lia. done.
Qed.

Lemma digits_step n : 10 <= n -> digits n = digits (n / 10) ++ [48 + n mod 10].
Proof.
  intros Hn. pose proof (digits_fuel n ltac:(lia)) as Hf. unfold digits at 1.
  assert (Hd : 1 <= n / 10) by (apply Z.div_le_lower_bound; lia).
  simpl. destruct (Z.eqb_spec (n / 10) 0); [lia|]. rewrite digits_go_app. f_equal.
  rewrite Nat2Z.inj_succ, Z.pow_succ_r in Hf by lia.
  assert (Hlt : n / 10 < 2 ^ Z.of_nat (Z.to_nat (Z.log2 n))) by (apply Z.div_lt_upper_bound; lia).
  apply digits_go_fuel; [lia|apply digits_fuel; lia| |lia].
  destruct (Z.to_nat (Z.log2 n)); [simpl in Hlt; lia|lia].
Qed.

(** A larger number is not shorter. *)
Lemma digits_length_mono m n : 0 <= m <= n -> (length (digits m) <= length (digits n))%nat.
Proof.
  revert m. induction (Z.lt_wf 0 n) as [n _ IH]. intros m Hm.
  destruct (Z.lt_ge_cases n 10) as [Hn|Hn].
  - by rewrite !digits_small by lia.
  - rewrite (digits_step n), length_app by done. simpl.
    destruct (Z.lt_ge_cases m 10) as [Hm10|Hm10].
    + rewrite (digits_small m) by lia. simpl. lia.
    + rewrite (digits_step m), length_app by done. simpl.
      assert (m / 10 <= n / 10) by (apply Z.div_le_mono; lia).
      assert (1 <= m / 10) by (apply Z.div_le_lower_bound; lia).
      specialize (IH (n / 10)). assert (n / 10 < n) by (apply Z.div_lt; lia).
      specialize (IH ltac:(lia) (m / 10) ltac:(lia)). lia.
Qed.

Lemma digits_length_bound k n : 0 <= n < 10 ^ Z.of_nat (S k) -> (length (digits n) <= S k)%nat.
Proof.
  revert n. induction k as [|k IH]; intros n Hn.
  - rewrite digits_small by (change (10 ^ Z.of_nat 1) with 10 in Hn; lia). done.
  - destruct (Z.lt_ge_cases n 10) as [Hs|Hs]; [rewrite digits_small by lia; simpl; lia|].
    rewrite digits_step, length_app by done. simpl.
    rewrite (Nat2Z.inj_succ (S k)), Z.pow_succ_r in Hn by lia.
    assert (0 <= n / 10 < 10 ^ Z.of_nat (S k)) as Hd.
    { split; [apply Z.div_pos; lia|apply Z.div_lt_upper_bound; lia]. }
    specialize (IH _ Hd). lia.
Qed.
