(* ===== verification/FileIO.v ===== *)
(** * [lib/apue_file.cpp]: descriptor I/O and limits *)

From S2P Require Import Prelude Machine Errors Kernel SimKernel.

(** ** [readn] and [writen] *)

Section ReadWrite.
Context {W : Type} `{FileOps W}.

(** The loop of [readn]; [buf] holds the bytes stored so far.  The result pairs
    the function's result with the contents of the caller's buffer. *)
Fixpoint readn_loop (fuel : nat) (fd n nleft : Z) (buf : bytes) : M W (option Z * bytes) :=
  match fuel with
  | O => out_of_fuel
  | S fuel =>
      if 0 <? nleft then
        '(nread, data) ← read fd nleft;
        if nread <? 0 then
          if nleft =? n then mret (None, buf) else mret (Some (n - nleft), buf)
        else if nread =? 0 then mret (Some (n - nleft), buf)
        else readn_loop fuel fd n (to_size_t (nleft - nread)) (buf ++ data)
      else mret (Some (n - nleft), buf)
  end.

Definition readn (fd n : Z) : M W (option Z * bytes) :=
  readn_loop (S (Z.to_nat n)) fd n n [].

(** The loop of [writen]; [buf] is the unwritten tail of the caller's buffer. *)
Fixpoint writen_loop (fuel : nat) (fd n nleft : Z) (buf : bytes) : M W (option Z) :=
  match fuel with
  | O => out_of_fuel
  | S fuel =>
      if 0 <? nleft then
        nwritten ← write fd (take (Z.to_nat nleft) buf);
        if nwritten <? 0 then
          if nleft =? n then mret None else mret (Some (n - nleft))
        else if nwritten =? 0 then mret (Some (n - nleft))
        else writen_loop fuel fd n (to_size_t (nleft - nwritten)) (drop (Z.to_nat nwritten) buf)
      else mret (Some (n - nleft))
  end.

Definition writen (fd : Z) (ptr : bytes) (n : Z) : M W (option Z) :=
  writen_loop (S (Z.to_nat n)) fd n n ptr.

(** C++'s test [!writen(...)] of the optional. *)
Definition failed {A} (o : option A) : bool := match o with Some _ => false | None => true end.

End ReadWrite.

(** ** Descriptor flags *)

Definition FD_CLOEXEC : Z := 1.
Definition O_NONBLOCK : Z := 2048.

Section Flags.
Context {W : Type} `{FileOps W} `{CLib}.

Definition set_cloexec (fd : Z) : M W Z :=
  val ← syscall_int (k_getfd fd);
  if val <? 0 then mret (-1)
  else syscall_unit (k_setfd fd (Z.lor val FD_CLOEXEC)).

Definition clr_fl (fd flags : Z) : M W unit :=
  val ← syscall_int (k_getfl fd);
  when (val <? 0) (err_ret (str "call fcntl with F_GETFL") []) ;;
  r ← syscall_unit (k_setfl fd (Z.land val (Z.lnot flags)));
  when (r <? 0) (err_ret (str "call fcntl with F_SETFL") []).

Definition set_fl (fd flags : Z) : M W unit :=
  val ← syscall_int (k_getfl fd);
  when (val <? 0) (err_ret (str "call fcntl with F_GETFL") []) ;;
  r ← syscall_unit (k_setfl fd (Z.lor val flags));
  when (r <? 0) (err_ret (str "call fcntl with F_SETFL") []).

End Flags.

(** ** Limits cached in function-local statics *)

Definition PATH_MAX_GUESS : Z := 1024.
Definition OPEN_MAX_GUESS : Z := 256.
Definition SC_VERSION : Z := 29.
Definition SC_XOPEN_VERSION : Z := 89.
Definition SC_OPEN_MAX : Z := 4.
Definition PC_PATH_MAX : Z := 4.

Record path_statics := { pathmax : Z; posix_version : Z; xsi_version : Z }.

Section Limits.
Context {W : Type} `{ConfOps W} `{CLib}.

(** The macro [PATH_MAX] may be undefined; [can_alloc] says for which sizes the allocation
    of the string succeeds.  The result is the size of the returned string. *)
Definition path_alloc (PATH_MAX : option Z) (can_alloc : Z -> bool) (st : path_statics)
  : M W (Z * path_statics) :=
  posix_v ← (if posix_version st =? 0
             then (v ← syscall_int (k_sysconf SC_VERSION); mret (to_size_t v))
             else mret (posix_version st));
  xsi_v ← (if xsi_version st =? 0
           then (v ← syscall_int (k_sysconf SC_XOPEN_VERSION); mret (to_size_t v))
           else mret (xsi_version st));
  pmax ← (if pathmax st =? 0 then
            let pm := match PATH_MAX with Some v => v | None => 0 end in
            if pm =? 0 then
              set_errno 0 ;;
              v ← syscall_int (k_pathconf (str "/") PC_PATH_MAX);
              let pm := to_size_t v in
              if pm <? 0 then
                e ← get_errno;
                if e =? 0 then mret PATH_MAX_GUESS
                else (err_ret (str "pathconf error for _PC_PATH_MAX") [] ;; mret pm)
              else mret (to_size_t (pm + 1))
            else mret pm
          else mret (pathmax st));
  if can_alloc pmax
  then mret (pmax, {| pathmax := pmax; posix_version := posix_v; xsi_version := xsi_v |})
  else throw (str "malloc error for path_alloc").

(** [openmax] is the function's static; the macro [OPEN_MAX] may be undefined. *)
Definition open_max (OPEN_MAX : option Z) (openmax : Z) : M W (Z * Z) :=
  let om := match OPEN_MAX with Some v => v | None => openmax end in
  om ← (if om =? 0 then
          set_errno 0 ;;
          v ← syscall_int (k_sysconf SC_OPEN_MAX);
          if v <? 0 then
            e ← get_errno;
            if e =? 0 then mret OPEN_MAX_GUESS
            else (err_ret (str "sysconf error for _SC_OPEN_MAX") [] ;; mret v)
          else mret v
        else mret om);
  mret (om, om).

End Limits.

(** ** Theorems *)

Section ReadWriteFacts.
Context {W : Type} `{FS : StreamSpec W}.
Implicit Types p : proc W.

Definition readn_post (fd n : Z) (p : proc W) (res : option Z * bytes) (p' : proc W) : Prop :=
  let '(r, d) := res in
  inbuf (kern p) fd = d ++ inbuf (kern p') fd /\ quiet p p' /\
  match r with
  | Some k => k = zlen d /\ k <= n /\
      (k < n -> inbuf (kern p') fd = [] \/
                exists e w, k_read fd (n - k) w = (SysErr e, kern p') /\ errno p' = e)
  | None => d = [] /\ 0 < n /\ k_read fd n (kern p) = (SysErr (errno p'), kern p')
  end.

Lemma readn_loop_spec fuel fd n nleft buf p0 p :
  is_size_t n -> 0 <= nleft <= n -> (Z.to_nat nleft < fuel)%nat ->
  zlen buf = n - nleft -> quiet p0 p ->
  inbuf (kern p0) fd = buf ++ inbuf (kern p) fd ->
  (nleft = n -> p = p0) ->
  returns (readn_loop fuel fd n nleft buf) (readn_post fd n p0) p.
Proof.
  intros Hn. revert nleft buf p.
  induction fuel as [|fuel IH]; intros nleft buf p Hleft Hfuel Hbuf [Hcon Hlog] Hin Hfirst; [lia|].
  simpl. destruct (Z.ltb_spec 0 nleft) as [Hpos|Hz].
  2:{ apply returns_ret. simpl. repeat split; auto; lia. }
  unfold read. repeat mstep. pose proof (read_law _ _ _ _ _ H0 ltac:(lia)) as Hl.
  destruct r as [d|e].
  - destruct Hl as (Hd & Hin' & Heof). simpl.
    destruct (Z.ltb_spec (zlen d) 0); [pose proof (zlen_nonneg d); lia|].
    destruct (Z.eqb_spec (zlen d) 0) as [Hd0|Hd0].
    + apply zlen_nil_inv in Hd0 as ->. apply returns_ret. simpl.
      simpl in Hin'. rewrite <- Hin'. repeat split; auto; try lia.
    + assert (0 < zlen d) by (pose proof (zlen_nonneg d); lia).
      assert (to_size_t (nleft - zlen d) = nleft - zlen d) as ->.
      { apply to_size_t_small. unfold is_size_t in *. lia. }
      apply IH; unfold quiet; simpl; auto; try lia.
      * rewrite zlen_app. lia.
      * by rewrite <- app_assoc, <- Hin'.
  - simpl. destruct (Z.eqb_spec nleft n) as [->|Hne]; apply returns_ret; simpl.
    + rewrite (Hfirst eq_refl) in *. rewrite Hl.
      assert (buf = []) as -> by (apply zlen_nil_inv; lia). repeat split; auto; lia.
    + rewrite Hl. repeat split; auto; try lia. intros _. right.
      exists e, (kern p). by replace (n - (n - nleft)) with nleft by lia.
Qed.

Lemma readn_returns fd n p : is_size_t n -> returns (readn fd n) (readn_post fd n p) p.
Proof.
  intros Hn. apply readn_loop_spec; auto; try done; unfold is_size_t, zlen in *; simpl; lia.
Qed.

(** C9: [readn] always ends and delivers a prefix of the stream: on [Some k] exactly [k] bytes
    were stored, never more than asked, and fewer only at end of file or because a later [read]
    failed; [nullopt] exactly when the first [read] fails, and then nothing was consumed. *)
Theorem readn_spec fd n p :
  is_size_t n -> returns (readn fd n) (readn_post fd n p) p.
Proof. apply readn_returns. Qed.

Definition writen_post (fd : Z) (ptr : bytes) (n : Z) (p : proc W) (r : option Z) (p' : proc W)
  : Prop :=
  quiet p p' /\
  match r with
  | Some k => 0 <= k <= n /\ outbuf (kern p') fd = outbuf (kern p) fd ++ take (Z.to_nat k) ptr /\
      (k < n -> (exists e w, k_write fd (drop (Z.to_nat k) (take (Z.to_nat n) ptr)) w
                             = (SysErr e, kern p') /\ errno p' = e) \/
                (exists w, k_write fd (drop (Z.to_nat k) (take (Z.to_nat n) ptr)) w
                           = (SysOk 0, kern p')))
  | None => 0 < n /\ outbuf (kern p') fd = outbuf (kern p) fd /\
      k_write fd (take (Z.to_nat n) ptr) (kern p) = (SysErr (errno p'), kern p')
  end.

Lemma writen_loop_spec fuel fd n nleft ptr p0 p :
  is_size_t n -> n <= zlen ptr -> 0 <= nleft <= n -> (Z.to_nat nleft < fuel)%nat ->
  quiet p0 p ->
  outbuf (kern p) fd = outbuf (kern p0) fd ++ take (Z.to_nat (n - nleft)) ptr ->
  (nleft = n -> p = p0) ->
  returns (writen_loop fuel fd n nleft (drop (Z.to_nat (n - nleft)) ptr))
          (writen_post fd ptr n p0) p.
Proof.
  intros Hn Hptr. revert nleft p.
  induction fuel as [|fuel IH]; intros nleft p Hleft Hfuel [Hcon Hlog] Hout Hfirst; [lia|].
  simpl. destruct (Z.ltb_spec 0 nleft) as [Hpos|Hz].
  2:{ apply returns_ret. unfold writen_post. simpl. repeat split; auto; lia. }
  assert (Hrest : take (Z.to_nat nleft) (drop (Z.to_nat (n - nleft)) ptr)
                  = drop (Z.to_nat (n - nleft)) (take (Z.to_nat n) ptr)).
  { rewrite take_drop_commute. do 2 f_equal. lia. }
  unfold write. mstep. apply returns_syscall_int.
  - intros k w' E. pose proof (write_law _ _ _ _ _ E) as (Hk & Hw).
    rewrite zlen_take, zlen_drop in Hk.
    destruct (Z.ltb_spec k 0); [lia|].
    destruct (Z.eqb_spec k 0) as [->|Hk0].
    + apply returns_ret. unfold writen_post. simpl. rewrite Hw, take_0, app_nil_r.
      repeat split; auto; try lia. intros _. right. exists (kern p).
      by rewrite <- Hrest.
    + assert (to_size_t (nleft - k) = n - (n - nleft + k)) as Heq.
      { rewrite to_size_t_small; [lia|]. unfold is_size_t in *. lia. }
      assert (Hdrop : drop (Z.to_nat k) (drop (Z.to_nat (n - nleft)) ptr)
              = drop (Z.to_nat (n - to_size_t (nleft - k))) ptr).
      { rewrite drop_drop. f_equal. lia. }
      rewrite Hdrop. apply IH; unfold quiet; simpl; auto; try lia.
      rewrite Hw, Hout, <- app_assoc. f_equal.
      rewrite take_take, Nat.min_l by lia.
      rewrite take_take_drop. f_equal. lia.
  - intros e w' E. pose proof (write_law _ _ _ _ _ E) as Hw. simpl.
    destruct (Z.eqb_spec nleft n) as [->|Hne]; apply returns_ret; unfold writen_post; simpl.
    + rewrite (Hfirst eq_refl) in *. rewrite Z.sub_diag in *. repeat split; auto; lia.
    + rewrite Hw. repeat split; auto; try lia. intros _. left. exists e, (kern p).
      by rewrite <- Hrest.
Qed.

Lemma writen_returns fd ptr n p :
  is_size_t n -> n <= zlen ptr -> returns (writen fd ptr n) (writen_post fd ptr n p) p.
Proof.
  intros Hn Hp. unfold writen.
  replace ptr with (drop (Z.to_nat (n - n)) ptr) at 1 by (by rewrite Z.sub_diag).
  apply writen_loop_spec; auto; try done; unfold is_size_t in *; try lia.
  by rewrite Z.sub_diag, app_nil_r.
Qed.

(** A write that takes everything at once ends the loop. *)
Lemma writen_whole `{FileOps W} fd ptr n w' p :
  0 < n -> k_write fd (take (Z.to_nat n) ptr) (kern p) = (SysOk n, w') ->
  writen fd ptr n p = (Ret (Some n), Proc (errno p) (log_to_stderr p) (console p) w').
Proof.
  intros Hn E. unfold writen. destruct (Z.to_nat n) as [|k] eqn:Ek; [lia|].
  cbn [writen_loop]. rewrite (proj2 (Z.ltb_lt _ _)), Ek by done.
  unfold write, syscall_int, mbind, M_bind, syscall. rewrite E. simpl.
  rewrite (proj2 (Z.ltb_ge n 0)), (proj2 (Z.eqb_neq n 0)), Z.sub_diag by lia. simpl.
  unfold mret, M_ret. by rewrite Z.sub_0_r.
Qed.

Lemma returns_writen_whole `{FileOps W} fd ptr n w' (Q : option Z -> proc W -> Prop) p :
  0 < n -> k_write fd (take (Z.to_nat n) ptr) (kern p) = (SysOk n, w') ->
  Q (Some n) (Proc (errno p) (log_to_stderr p) (console p) w') -> returns (writen fd ptr n) Q p.
Proof. intros Hn E HQ. unfold returns, wp. by rewrite (writen_whole _ _ _ w'). Qed.

(** C10: [writen] always ends; on [Some k] the descriptor received exactly the first [k] bytes of
    the buffer, all [n] of them unless a [write] failed or accepted nothing; [nullopt] exactly
    when the first [write] fails, and then nothing was written. *)
Theorem writen_spec fd ptr n p :
  is_size_t n -> n <= zlen ptr -> returns (writen fd ptr n) (writen_post fd ptr n p) p.
Proof. apply writen_returns. Qed.

(** Whatever [read] and [write] keep of the kernel, the loops keep too. *)
Lemma writen_keeps (I : W -> Prop) fd ptr n p :
  (forall d w r w', k_write fd d w = (r, w') -> I w -> I w') ->
  I (kern p) -> I (kern (writen fd ptr n p).2).
Proof.
  intros Hkeep. unfold writen. generalize (S (Z.to_nat n)) as fuel. intros fuel.
  generalize n at 2 as nleft. intros nleft. revert nleft ptr p.
  induction fuel as [|fuel IH]; intros nleft ptr p Hp; [done|].
  simpl. destruct (0 <? nleft); [|done].
  unfold write, syscall_int, syscall, mbind, M_bind.
  destruct (k_write _ _ _) as [[k|e] w'] eqn:E; simpl; apply Hkeep in E; try done.
  - destruct (k <? 0); [by destruct (nleft =? n)|]. destruct (k =? 0); [done|]. by apply IH.
  - by destruct (nleft =? n).
Qed.

Lemma readn_keeps (I : W -> Prop) fd n p :
  (forall k w r w', k_read fd k w = (r, w') -> I w -> I w') ->
  I (kern p) -> I (kern (readn fd n p).2).
Proof.
  intros Hkeep. unfold readn. generalize (S (Z.to_nat n)) as fuel, (@nil Z) as buf. intros fuel buf.
  generalize n at 2 as nleft. intros nleft. revert nleft buf p.
  induction fuel as [|fuel IH]; intros nleft buf p Hp; [done|].
  simpl. destruct (0 <? nleft); [|done].
  unfold read, syscall, mbind, M_bind.
  destruct (k_read _ _ _) as [[d|e] w'] eqn:E; simpl; apply Hkeep in E; try done.
  - destruct (zlen d <? 0); [by destruct (nleft =? n)|]. destruct (zlen d =? 0); [done|]. by apply IH.
  - by destruct (nleft =? n).
Qed.

(** What copying asks of two descriptors, in the kernel states [I] where both are open:
    no call fails, a write moves at least one byte, and writing the output leaves the input
    alone. *)
Record reliable (I : W -> Prop) (ifd ofd : Z) : Prop := {
  reads_succeed n w : I w -> 0 < n -> exists d w', k_read ifd n w = (SysOk d, w') /\ I w';
  writes_succeed d w : I w -> d <> [] ->
    exists k w', k_write ofd d w = (SysOk k, w') /\ 0 < k /\ I w';
  write_keeps_input d w r w' : I w -> k_write ofd d w = (r, w') -> inbuf w' ifd = inbuf w ifd;
}.

(** [writen] to a reliable descriptor writes everything and leaves the input alone. *)
Lemma writen_loop_reliable I fuel ifd ofd n nleft ptr p :
  reliable I ifd ofd -> I (kern p) -> is_size_t n -> 0 <= nleft <= n -> nleft = zlen ptr ->
  (Z.to_nat nleft < fuel)%nat ->
  returns (writen_loop fuel ofd n nleft ptr) (fun r p' =>
    r = Some n /\ outbuf (kern p') ofd = outbuf (kern p) ofd ++ ptr /\
    inbuf (kern p') ifd = inbuf (kern p) ifd /\ I (kern p')) p.
Proof.
  intros Hr HI Hn. revert nleft ptr p HI.
  induction fuel as [|fuel IH]; intros nleft ptr p HI Hl Hlen Hfuel; [lia|].
  simpl. destruct (Z.ltb_spec 0 nleft) as [Hpos|Hz].
  2:{ mstep. assert (ptr = []) as -> by (apply zlen_nil_inv; lia).
      rewrite app_nil_r. split_and!; auto. f_equal. lia. }
  assert (Htake : take (Z.to_nat nleft) ptr = ptr).
  { apply take_ge. unfold zlen in Hlen. lia. }
  rewrite Htake.
  assert (Hne : ptr <> []) by (intros ->; rewrite zlen_nil in Hlen; lia).
  destruct (writes_succeed _ _ _ Hr ptr (kern p) HI Hne) as (k & w' & E & Hk & HI').
  unfold write. mstep. apply returns_syscall_int; rewrite E; intros x w2 Eq; simplify_eq.
  pose proof (write_law _ _ _ _ _ E) as [Hkr Hout].
  destruct (Z.ltb_spec x 0); [lia|]. destruct (Z.eqb_spec x 0); [lia|].
  rewrite to_size_t_small by (unfold is_size_t in *; lia).
  eapply returns_mono.
  { apply IH; simpl; [done|lia| |lia]. rewrite zlen_drop. lia. }
  simpl. intros r p' (-> & Ho & Hi & HI2). split_and!; [done| | |done].
  - rewrite Ho, Hout, <- app_assoc. by rewrite take_drop.
  - rewrite Hi. by apply (write_keeps_input _ _ _ Hr _ _ _ _ HI E).
Qed.

End ReadWriteFacts.

Section FlagFacts.
Context {W : Type} `{FlagSpec W} `{CLib}.
Implicit Types p : proc W.

(** [set_cloexec] on an open descriptor returns 0 and adds exactly the bit FD_CLOEXEC;
    on any other it returns -1 with EBADF and changes nothing. *)
Theorem set_cloexec_spec fd p :
  returns (set_cloexec fd) (fun r p' =>
    console p' = console p /\
    match fd_flags (kern p) fd with
    | Some v => r = 0 /\ fd_flags (kern p') fd = Some (Z.lor v FD_CLOEXEC) /\ errno p' = errno p
    | None => r = -1 /\ errno p' = 9 /\ kern p' = kern p
    end) p.
Proof.
  unfold set_cloexec. mstep. apply returns_syscall_int; rewrite getfd_law; intros x w' E.
  - destruct (fd_flags (kern p) fd) as [v|] eqn:Ef; simplify_eq.
    pose proof (fd_nonneg _ _ _ Ef). destruct (Z.ltb_spec x 0); [lia|].
    assert (0 <= Z.lor x FD_CLOEXEC) by (apply Z.lor_nonneg; by split).
    apply returns_syscall_unit; simpl; intros; repeat split; auto;
      match goal with
        Hs : k_setfd _ _ _ = _ |- _ => apply setfd_law in Hs; [rewrite Ef in Hs|done]
      end; tauto.
  - destruct (fd_flags (kern p) fd) as [v|] eqn:Ef; simplify_eq. simpl. by mstep.
Qed.

(** Outcome shared by [set_fl] and [clr_fl], which install [f v] for flags [v]. *)
Definition fl_post (fd : Z) (f : Z -> Z) (p p' : proc W) : Prop :=
  match fl_flags (kern p) fd with
  | Some v =>
      (fl_flags (kern p') fd = Some (f v) /\ console p' = console p) \/
      (fl_flags (kern p') fd = Some v /\ exists m, console p' = console p ++ [report (log_to_stderr p) m])
  | None => kern p' = kern p /\ exists m1 m2,
      console p' = console p ++ [report (log_to_stderr p) m1; report (log_to_stderr p) m2]
  end.

Lemma change_fl_spec fd (f : Z -> Z) p :
  returns (val ← syscall_int (k_getfl fd);
           when (val <? 0) (err_ret (str "call fcntl with F_GETFL") []) ;;
           r ← syscall_unit (k_setfl fd (f val));
           when (r <? 0) (err_ret (str "call fcntl with F_SETFL") []))
    (fun _ p' => fl_post fd f p p') p.
Proof.
  mstep. unfold fl_post. apply returns_syscall_int; rewrite getfl_law; intros x w' E.
  - destruct (fl_flags (kern p) fd) as [v|] eqn:Ef; simplify_eq.
    pose proof (fl_nonneg _ _ _ Ef). destruct (Z.ltb_spec x 0); [lia|]. simpl.
    repeat mstep; simpl;
      match goal with Hs : k_setfl _ _ _ = _ |- _ => apply setfl_law in Hs; simpl in Hs; rewrite Ef in Hs end.
    + left. auto.
    + unfold when; simpl. apply returns_err_ret. simpl. right. eauto.
  - destruct (fl_flags (kern p) fd) as [v|] eqn:Ef; simplify_eq. simpl.
    mstep. apply returns_err_ret. repeat mstep; simpl in *;
      match goal with Hs : k_setfl _ _ _ = _ |- _ => apply setfl_law in Hs; rewrite Ef in Hs end.
    + done.
    + destruct_and!; subst. apply returns_err_ret. simpl. split; [done|].
      rewrite <- app_assoc. eauto.
Qed.

(** [set_fl] and [clr_fl] set, respectively clear, exactly the given bits of the status
    flags of an open descriptor, or leave them and report one error when the kernel refuses; on
    a closed descriptor both steps fail and two errors are reported. *)
Theorem set_clr_fl_spec fd flags p :
  returns (set_fl fd flags) (fun _ p' => fl_post fd (fun v => Z.lor v flags) p p') p /\
  returns (clr_fl fd flags) (fun _ p' => fl_post fd (fun v => Z.land v (Z.lnot flags)) p p') p.
Proof.
  split.
  - apply (change_fl_spec fd (fun v => Z.lor v flags)).
  - apply (change_fl_spec fd (fun v => Z.land v (Z.lnot flags))).
Qed.

End FlagFacts.

Section LimitFacts.
Context {W : Type} `{ConfOps W} `{CLib}.
Implicit Types p : proc W.

Lemma open_max_cached om p (Q : Z * Z -> proc W -> Prop) :
  om <> 0 -> Q (om, om) p -> returns (open_max None om) Q p.
Proof. intros Hom HQ. unfold open_max. rewrite (proj2 (Z.eqb_neq _ _) Hom). exact HQ. Qed.

Definition open_max_post (p : proc W) (r : Z) (p' : proc W) : Prop :=
  kern p' = (k_sysconf SC_OPEN_MAX (kern p)).2 /\
  match (k_sysconf SC_OPEN_MAX (kern p)).1 with
  | SysOk v => r = (if v <? 0 then OPEN_MAX_GUESS else v) /\ console p' = console p
  | SysErr 0 => r = OPEN_MAX_GUESS
  | SysErr _ => r = -1 /\ exists m, console p' = console p ++ [report (log_to_stderr p) m]
  end.

Lemma open_max_first p :
  returns (open_max None 0) (fun '(r, st) p' => st = r /\ open_max_post p r p') p.
Proof.
  unfold open_max, open_max_post. simpl. do 3 mstep. mstep.
  apply returns_syscall_int; simpl; intros x w' E; rewrite E; simpl.
  - destruct (Z.ltb_spec x 0); msteps; auto.
  - msteps. destruct (Z.eqb_spec x 0) as [->|Hx]; msteps; [auto|].
    destruct x; [done| |]; eauto 10.
Qed.

(** [open_max] asks [sysconf] once and returns the limit, OPEN_MAX_GUESS when there is none,
    -1 with one report on an error; a later call returns the same value with no system call and
    no output. *)
Theorem open_max_spec p :
  returns (first ← open_max None 0; second ← open_max None (snd first); mret (fst first, fst second))
    (fun '(r1, r2) p' => r1 <> 0 -> r2 = r1 /\ open_max_post p r1 p') p.
Proof.
  mstep. eapply returns_mono; [apply open_max_first|]. intros [r st] q [-> Hq].
  destruct (Z.eq_dec r 0) as [->|Hr].
  - mstep. eapply returns_mono; [apply open_max_first|]. intros [r2 st2] q2 _. by mstep.
  - mstep. apply open_max_cached; [done|]. by mstep.
Qed.

(** Where PATH_MAX is defined, [path_alloc] returns a string of exactly that size and no call
    of [pathconf] is made, and a second call with the statics the first one left returns the same
    size. *)
Theorem path_alloc_spec v st can_alloc p :
  0 < v -> pathmax st = 0 -> can_alloc v = true ->
  returns (first ← path_alloc (Some v) can_alloc st; path_alloc (Some v) can_alloc (snd first))
    (fun '(size, st') p' => size = v /\ pathmax st' = v /\ console p' = console p) p.
Proof.
  intros Hv Hst Hal.
  assert (Hone : forall st q, (pathmax st = 0 \/ pathmax st = v) ->
    returns (path_alloc (Some v) can_alloc st)
      (fun '(size, st') p' => size = v /\ pathmax st' = v /\ console p' = console q) q).
  { clear - Hv Hal. intros st q Hst. unfold path_alloc.
    assert (Hasks : forall (n s : Z) (q' : proc W), console q' = console q ->
      returns (if s =? 0 then (x ← syscall_int (k_sysconf n); mret (to_size_t x)) else mret s)
        (fun _ p' => console p' = console q) q').
    { intros n s q' Hq. destruct (s =? 0); repeat mstep; done. }
    mstep. eapply returns_mono; [apply Hasks; done|]. intros pv q1 H1.
    mstep. eapply returns_mono; [apply Hasks; done|]. intros xv q2 H2.
    mstep. simpl. rewrite ?(proj2 (Z.eqb_neq v 0) ltac:(lia)).
    destruct Hst as [->| ->]; [|rewrite (proj2 (Z.eqb_neq v 0) ltac:(lia))]; simpl; mstep;
      rewrite Hal; mstep; auto. }
  mstep. eapply returns_mono; [apply Hone; auto|]. intros [size st'] q (-> & Hp & Hc).
  eapply returns_mono; [apply Hone; auto|]. intros [size st2] q2 (-> & Hp2 & Hc2). split_and!; congruence.
Qed.

(** Where PATH_MAX is not defined and [pathconf] answers that there is no limit, the function
    returns an empty string instead of one of PATH_MAX_GUESS bytes: its [pathmax] is unsigned, so
    the test for a negative answer never succeeds and the increment wraps to 0. *)
Theorem path_alloc_unlimited_is_empty can_alloc st p :
  pathmax st = 0 -> can_alloc 0 = true ->
  (forall w, k_pathconf (str "/") PC_PATH_MAX w = (SysOk (-1), w)) ->
  returns (path_alloc None can_alloc st) (fun '(size, _) _ => size = 0) p.
Proof.
  intros Hst Hal Hno. unfold path_alloc. rewrite Hst. simpl.
  assert (Hasks : forall n s (q : proc W),
    returns (if s =? 0 then (x ← syscall_int (k_sysconf n); mret (to_size_t x)) else mret s)
      (fun _ _ => True) q).
  { intros n s q. destruct (s =? 0); repeat mstep; done. }
  mstep. eapply returns_mono; [apply Hasks|]. intros pv q1 _.
  mstep. eapply returns_mono; [apply Hasks|]. intros xv q2 _.
  do 3 mstep. mstep. apply returns_syscall_int; rewrite Hno; intros x w E; simplify_eq.
  cbv zeta. change (to_size_t (-1) <? 0) with false.
  change (to_size_t (to_size_t (-1) + 1)) with 0. cbv iota. mstep. by rewrite Hal.
Qed.

End LimitFacts.

(** ** Witnesses on the concrete kernel *)

Lemma readn_spec_witness : returns (readn 3 7) (readn_post 3 7 sim0) sim0.
Proof. apply (readn_spec 3 7 sim0). unfold is_size_t, SIZE_MAX. lia. Defined.

Lemma writen_spec_witness :
  returns (writen 1 (str "hello, world") 12) (writen_post 1 (str "hello, world") 12 sim0) sim0.
Proof.
  apply (writen_spec 1 (str "hello, world") 12 sim0); [unfold is_size_t, SIZE_MAX; lia|].
  vm_compute. discriminate.
Defined.

Definition statics0 : path_statics := {| pathmax := 0; posix_version := 0; xsi_version := 0 |}.

Lemma path_alloc_spec_witness :
  returns (first ← path_alloc (Some 4096) (fun _ => true) statics0;
           path_alloc (Some 4096) (fun _ => true) (snd first))
    (fun '(size, st') p' => size = 4096 /\ pathmax st' = 4096 /\ console p' = console sim0) sim0.
Proof. by apply (path_alloc_spec 4096 statics0 (fun _ => true) sim0). Defined.

Lemma path_alloc_unlimited_is_empty_witness :
  returns (path_alloc None (fun _ => true) statics0) (fun '(size, _) _ => size = 0) sim0.
Proof. by apply (path_alloc_unlimited_is_empty (fun _ => true) statics0 sim0). Defined.

(** On the concrete kernel, descriptors 3 and 1 are reliable while they stay open. *)
Definition both_open (w : sim) : Prop := is_Some (s_fds w !! 3) /\ is_Some (s_fds w !! 1).

Lemma sim_reliable : reliable both_open 3 1.
Proof.
  split.
  - intros n w [[d Hd] Ho] _. simpl. unfold sim_read. rewrite Hd. do 2 eexists. split; [done|].
    split; simpl; [rewrite lookup_insert_eq; eauto|by rewrite lookup_insert_ne].
  - intros d w [Hi [x Hx]] Hne. simpl. unfold sim_write. rewrite Hx. do 2 eexists. split; [done|].
    split; [destruct d; [done|]; pose proof (Pos2Nat.is_pos (s_chunk w)); cbn [length]; lia|].
    split; simpl; [by rewrite lookup_insert_ne|rewrite lookup_insert_eq; eauto].
  - intros d w r w' [Hi [x Hx]] E. simpl in E. unfold sim_write in E. rewrite Hx in E. simplify_eq.
    simpl. unfold sim_in. simpl. by rewrite lookup_insert_ne.
Qed.
