(* ===== verification/Rot13.v ===== *)
(** * ROT-13 conversion of a file: [14/7_convert_rot13.cpp], [14/8_convert_rot13_io_uring.cpp]

    [Translate] is the byte translation both programs share, [Sync] the program that reads and
    writes in turn, [Uring] the one that keeps QUEUE_DEPTH asynchronous operations in flight and
    handles their completions in whatever order the kernel reports them. *)

From S2P Require Import Prelude FileModel Machine Errors Kernel SimKernel FileIO.

Module Translate.

(** [isalpha] in the "C" locale. *)
Definition isalpha (c : Z) : bool :=
  ((65 <=? c) && (c <=? 90)) || ((97 <=? c) && (c <=? 122)).

Definition translate (c : Z) : Z :=
  if isalpha c then
    if 110 <=? c then to_uchar (c - 13)
    else if 97 <=? c then to_uchar (c + 13)
    else if 78 <=? c then to_uchar (c - 13)
    else to_uchar (c + 13)
  else c.

Definition islower (c : Z) : bool := (97 <=? c) && (c <=? 122).
Definition isupper (c : Z) : bool := (65 <=? c) && (c <=? 90).

(** On every byte, [translate] yields a byte, is its own inverse and keeps lower case,
    upper case and every other character in their classes. *)
Theorem translate_involutive c :
  is_byte c ->
  is_byte (translate c) /\ translate (translate c) = c /\
  islower (translate c) = islower c /\ isupper (translate c) = isupper c.
Proof.
  intros [Hlo Hhi].
  assert (Hall : forallb (fun c =>
      (0 <=? translate c) && (translate c <? 256) && (translate (translate c) =? c)
      && Bool.eqb (islower (translate c)) (islower c)
      && Bool.eqb (isupper (translate c)) (isupper c)) (seqZ 0 256) = true)
    by (vm_compute; reflexivity).
  rewrite forallb_forall in Hall.
  specialize (Hall c). rewrite <- list_elem_of_In, elem_of_seqZ in Hall.
  specialize (Hall ltac:(lia)).
  rewrite !andb_true_iff, !Bool.eqb_true_iff, Z.leb_le, Z.ltb_lt, Z.eqb_eq in Hall.
  unfold is_byte. tauto.
Qed.

Lemma translate_involutive_witness :
  is_byte 109 /\ is_byte (translate 109) /\ translate (translate 109) = 109 /\
  islower (translate 109) = islower 109 /\ isupper (translate 109) = isupper 109.
Proof. split; [unfold is_byte; lia|]. apply (translate_involutive 109). unfold is_byte. lia. Defined.

End Translate.

Module Sync.
Import Translate.

Definition BSZ : Z := 4096.
Definition FILE_MODE : Z := 420.   (* S_IRUSR | S_IWUSR | S_IRGRP | S_IROTH *)
Definition O_RDONLY : Z := 0.
Definition O_RDWR_CREAT_TRUNC : Z := Z.lor 2 (Z.lor 64 512).

Section Prog.
Context {W : Type} `{FileOps W} `{CLib}.

(** The loop of [main]; the buffer is overwritten by each [read]. *)
Fixpoint convert_loop (fuel : nat) (ifd ofd : Z) : M W unit :=
  match fuel with
  | O => out_of_fuel
  | S fuel =>
      '(n, buf) ← read ifd BSZ;
      if 0 <? n then
        r ← writen ofd (translate <$> buf) n;
        (if failed r then err_sys (str "call write") [] else mret tt) ;;
        convert_loop fuel ifd ofd
      else mret tt
  end.

Definition main (fuel : nat) (argv : list bytes) : M W Z :=
  match argv with
  | [argv0; argv1; argv2] =>
      ifd ← open argv1 O_RDONLY 0;
      if ifd <? 0 then err_sys (str "call open {}") [argv1] else
      ofd ← open argv2 O_RDWR_CREAT_TRUNC FILE_MODE;
      if ofd <? 0 then err_sys (str "call create {}") [argv2] else
      convert_loop fuel ifd ofd ;;
      fsync ofd ;;
      mret 0
  | _ => err_quit (str "Usage: {} infile outfile") [default [] (head argv)]
  end.

End Prog.

Section Facts.
Context {W : Type} `{FS : StreamSpec W} `{CLib}.

Lemma convert_loop_spec I fuel ifd ofd p :
  reliable I ifd ofd -> I (kern p) -> (length (inbuf (kern p) ifd) < fuel)%nat ->
  returns (convert_loop fuel ifd ofd) (fun _ p' =>
    outbuf (kern p') ofd = outbuf (kern p) ofd ++ (translate <$> inbuf (kern p) ifd)) p.
Proof.
  intros Hr. revert p. induction fuel as [|fuel IH]; intros p HI Hfuel; [lia|].
  simpl. destruct (reads_succeed _ _ _ Hr BSZ (kern p) HI eq_refl) as (d & w' & E & HI').
  unfold read. do 2 mstep. mstep. rewrite E in *. simplify_eq. mstep.
  pose proof (read_law _ _ _ _ _ E ltac:(done)) as (Hd & Hin & Heof).
  destruct (Z.ltb_spec 0 (zlen d)) as [Hpos|Hz].
  - mstep. unfold writen.
    eapply returns_mono.
    { apply (writen_loop_reliable I _ ifd); [done|done| |lia| |lia].
      - unfold is_size_t, SIZE_MAX, BSZ in *. lia.
      - unfold zlen. by rewrite length_fmap. }
    simpl. intros r p' (-> & Ho & Hi & HI2). simpl. repeat mstep.
    eapply returns_mono.
    { apply IH; [done|]. rewrite Hi. rewrite Hin, length_app in Hfuel. unfold zlen in Hpos. lia. }
    simpl. intros _ p2 Ho2.
    rewrite Ho2, Ho, Hi, Hin, fmap_app, <- app_assoc.
    by rewrite (read_frame _ _ _ _ _ ofd E).
  - assert (d = []) as -> by (apply zlen_nil_inv; pose proof (zlen_nonneg d); lia).
    specialize (Heof ltac:(done) eq_refl).
    mstep. simpl in *. rewrite (read_frame _ _ _ _ _ ofd E), Heof.
    simpl. by rewrite app_nil_r.
Qed.

(** with reliable descriptors the synchronous converter ends and appends to the output
    exactly the translation of everything the input still had to deliver. *)
Theorem convert_loop_correct I ifd ofd p :
  reliable I ifd ofd -> I (kern p) ->
  returns (convert_loop (S (length (inbuf (kern p) ifd))) ifd ofd) (fun _ p' =>
    outbuf (kern p') ofd = outbuf (kern p) ofd ++ (translate <$> inbuf (kern p) ifd)) p.
Proof. intros Hr HI. apply (convert_loop_spec I); [done|done|lia]. Qed.

End Facts.

Lemma convert_loop_correct_witness :
  inbuf (kern sim0) 3 = str "hello, world" /\
  returns (convert_loop (S (length (inbuf (kern sim0) 3))) 3 1) (fun _ p' =>
    outbuf (kern p') 1 = outbuf (kern sim0) 1 ++ (translate <$> inbuf (kern sim0) 3)) sim0.
Proof.
  split; [vm_compute; reflexivity|].
  apply (convert_loop_correct both_open 3 1 sim0); [apply sim_reliable|].
  split; vm_compute; eauto.
Defined.

End Sync.
