(* ===== verification/Rot13Uring.v ===== *)
(** * Asynchronous ROT-13: [14/8_convert_rot13_io_uring.cpp]

    The program keeps up to QUEUE_DEPTH requests, each reading a block of BSZ bytes at its own
    offset, translating it and writing it back at the same offset.  Submitted operations complete
    in an order chosen by the kernel; [step] takes any operation in flight, performs its effect
    on the files and on the request's buffer, and runs the body of the program's loop. *)

From S2P Require Import Prelude FileModel Rot13.
Import Rot13.Translate.

Inductive OpType := OP_READ | OP_WRITE.

Record Request := Req {
  id : nat;
  type : OpType;
  buf : bytes;
  offset : nat;
  iovec_len : nat;
}.

(** A submission queue entry: the operation, the request it carries as user data, the file
    offset and the length.  Its buffer is the request's. *)
Record sqe := Sqe { q_op : OpType; q_req : nat; q_off : nat; q_len : nat }.

(** The globals, the vector of requests, the ring (entries not submitted yet and operations in
    flight) and the contents of the output file. *)
Record state := State {
  requests : list Request;
  global_read_offset : nat;
  pending_operations : Z;
  eof_reached : bool;
  sq : list sqe;
  inflight : list sqe;
  ofile : bytes;
}.

Section Prog.
Context (BSZ QUEUE_DEPTH : nat).

(** [io_uring_get_sqe] returns NULL when the submission queue is full. *)
Definition get_sqe (s : state) : bool := (length (sq s) <? QUEUE_DEPTH)%nat.

Definition io_uring_submit (s : state) : state :=
  State (requests s) (global_read_offset s) (pending_operations s) (eof_reached s)
        [] (inflight s ++ sq s) (ofile s).

(** [None]: the process exits through [err_sys]. *)
Definition queue_read (r : nat) (s : state) : option state :=
  if eof_reached s then Some s
  else if negb (get_sqe s) then None
  else
    let off := global_read_offset s in
    Some (State
      (alter (fun q => Req (id q) OP_READ (buf q) off (iovec_len q)) r (requests s))
      (off + BSZ) (pending_operations s + 1) (eof_reached s)
      (sq s ++ [Sqe OP_READ r off BSZ]) (inflight s) (ofile s)).

Definition queue_write (r : nat) (s : state) : option state :=
  if negb (get_sqe s) then None
  else
    match requests s !! r with
    | None => None
    | Some q =>
        Some (State
          (alter (fun q => Req (id q) OP_WRITE (buf q) (offset q) (iovec_len q)) r (requests s))
          (global_read_offset s) (pending_operations s + 1) (eof_reached s)
          (sq s ++ [Sqe OP_WRITE r (offset q) (iovec_len q)]) (inflight s) (ofile s))
    end.

(** The loop that starts the requests. *)
Fixpoint start_loop (todo : list nat) (s : state) : option state :=
  match todo with
  | [] => Some s
  | i :: todo =>
      let s := State (alter (fun q => Req i (type q) (buf q) (offset q) (iovec_len q)) i (requests s))
                 (global_read_offset s) (pending_operations s) (eof_reached s)
                 (sq s) (inflight s) (ofile s) in
      s ← queue_read i s; start_loop todo s
  end.

Definition initial : state :=
  State (replicate QUEUE_DEPTH (Req 0 OP_READ (replicate BSZ 0) 0 0)) 0 0 false [] [] [].

Definition start : option state :=
  io_uring_submit <$> start_loop (seq 0 QUEUE_DEPTH) initial.

(** The body of the loop of [main] for a completion of request [r] with result [res];
    [None]: the process exits through [err_exit] or [err_quit]. *)
Definition handle_cqe (r : nat) (res : Z) (s : state) : option state :=
  let s := State (requests s) (global_read_offset s) (pending_operations s - 1) (eof_reached s)
             (sq s) (inflight s) (ofile s) in
  if res <? 0 then None
  else
    q ← requests s !! r;
    match type q with
    | OP_READ =>
        if 0 <? res then
          let n := Z.to_nat res in
          let eof := if res <? Z.of_nat BSZ then true else eof_reached s in
          let s := State
            (alter (fun q => Req (id q) (type q)
                       ((translate <$> take n (buf q)) ++ drop n (buf q)) (offset q) n)
                   r (requests s))
            (global_read_offset s) (pending_operations s) eof (sq s) (inflight s) (ofile s) in
          io_uring_submit <$> queue_write r s
        else
          Some (io_uring_submit (State (requests s) (global_read_offset s) (pending_operations s)
                                   true (sq s) (inflight s) (ofile s)))
    | OP_WRITE =>
        if negb (res =? Z.of_nat (iovec_len q)) then None
        else io_uring_submit <$> queue_read r s
    end.

(** What the kernel does when it completes an operation in flight: a read of a regular file
    delivers everything up to the end of the file, a write may be short, and either may fail. *)
Inductive kernel_completes (ifile : bytes) (s : state) : nat -> Z -> state -> Prop :=
| read_done l1 q l2 data :
    inflight s = l1 ++ q :: l2 -> q_op q = OP_READ ->
    data = take (q_len q) (drop (q_off q) ifile) ->
    kernel_completes ifile s (q_req q) (Z.of_nat (length data))
      (State (alter (fun r => Req (id r) (type r) (data ++ drop (length data) (buf r))
                                  (offset r) (iovec_len r)) (q_req q) (requests s))
         (global_read_offset s) (pending_operations s) (eof_reached s) (sq s) (l1 ++ l2) (ofile s))
| write_done l1 q l2 k rq :
    inflight s = l1 ++ q :: l2 -> q_op q = OP_WRITE ->
    requests s !! q_req q = Some rq -> (k <= q_len q)%nat ->
    kernel_completes ifile s (q_req q) (Z.of_nat k)
      (State (requests s) (global_read_offset s) (pending_operations s) (eof_reached s) (sq s)
         (l1 ++ l2) (pwrite (q_off q) (take k (buf rq)) (ofile s)))
| op_failed l1 q l2 e :
    inflight s = l1 ++ q :: l2 -> e < 0 ->
    kernel_completes ifile s (q_req q) e
      (State (requests s) (global_read_offset s) (pending_operations s) (eof_reached s) (sq s)
         (l1 ++ l2) (ofile s)).

(** One iteration of [while (pending_operations > 0)] that does not exit. *)
Definition step (ifile : bytes) (s s' : state) : Prop :=
  0 < pending_operations s /\
  exists r res s1, kernel_completes ifile s r res s1 /\ handle_cqe r res s1 = Some s'.

(** The states of the loop on the input [ifile]. *)
Definition reachable (ifile : bytes) (s : state) : Prop :=
  exists s0, start = Some s0 /\ rtc (step ifile) s0 s.

(** An executable scheduler: the kernel completes in full the operation at position [pos] of those
    in flight. *)
Definition complete (ifile : bytes) (pos : nat) (s : state) : option state :=
  if 0 <? pending_operations s then
    q ← inflight s !! pos;
    let rest := take pos (inflight s) ++ drop (S pos) (inflight s) in
    match q_op q with
    | OP_READ =>
        let data := take (q_len q) (drop (q_off q) ifile) in
        handle_cqe (q_req q) (Z.of_nat (length data))
          (State (alter (fun r => Req (id r) (type r) (data ++ drop (length data) (buf r))
                                      (offset r) (iovec_len r)) (q_req q) (requests s))
             (global_read_offset s) (pending_operations s) (eof_reached s) (sq s) rest (ofile s))
    | OP_WRITE =>
        rq ← requests s !! q_req q;
        handle_cqe (q_req q) (Z.of_nat (q_len q))
          (State (requests s) (global_read_offset s) (pending_operations s) (eof_reached s) (sq s)
             rest (pwrite (q_off q) (take (q_len q) (buf rq)) (ofile s)))
    end
  else None.

Fixpoint run (ifile : bytes) (schedule : list nat) (s : state) : option state :=
  match schedule with
  | [] => Some s
  | pos :: schedule => s ← complete ifile pos s; run ifile schedule s
  end.

Lemma complete_step ifile pos s s' : complete ifile pos s = Some s' -> step ifile s s'.
Proof.
  unfold complete. destruct (Z.ltb_spec 0 (pending_operations s)) as [Hp|]; [|done].
  destruct (inflight s !! pos) as [q|] eqn:Eq; [|done]. cbn [mbind option_bind].
  apply take_drop_middle in Eq.
  destruct (q_op q) eqn:Eop.
  - intros Hh. split; [done|]. eexists _, _, _. split; [|exact Hh].
    eapply read_done; [|exact Eop|reflexivity]. by rewrite Eq.
  - destruct (requests s !! q_req q) as [rq|] eqn:Erq; [|done]. cbn [mbind option_bind].
    intros Hh. split; [done|]. eexists _, _, _. split; [|exact Hh].
    eapply write_done; [|exact Eop|exact Erq|reflexivity]. by rewrite Eq.
Qed.

Lemma run_steps ifile schedule s s' : run ifile schedule s = Some s' -> rtc (step ifile) s s'.
Proof.
  revert s. induction schedule as [|pos schedule IH]; simpl; intros s Hr.
  - simplify_eq. constructor.
  - destruct (complete ifile pos s) as [s1|] eqn:E; [|done]. simpl in Hr.
    eapply rtc_l; [by eapply complete_step|]. by apply IH.
Qed.

(** ** Invariant of the loop *)

Section Inv.
Context (ifile : bytes) (HB : (0 < BSZ)%nat).

Definition block (k : nat) : bytes := take BSZ (drop (k * BSZ) ifile).

(** An operation in flight belongs to a block already issued; a write holds its translation. *)
Definition op_ok (s : state) (q : sqe) : Prop :=
  exists k rq,
    q_off q = (k * BSZ)%nat /\ (k * BSZ < global_read_offset s)%nat /\
    requests s !! q_req q = Some rq /\ offset rq = q_off q /\ type rq = q_op q /\
    length (buf rq) = BSZ /\
    match q_op q with
    | OP_READ => q_len q = BSZ
    | OP_WRITE => q_len q = iovec_len rq /\ q_len q = length (block k) /\ (0 < q_len q)%nat /\
                  take (q_len q) (buf rq) = translate <$> block k
    end.

(** A block whose translation is in the output file. *)
Definition done_block (s : state) (k : nat) : Prop :=
  forall i, (k * BSZ <= i < k * BSZ + length (block k))%nat ->
    ofile s !! i = translate <$> ifile !! i.

Record inv (s : state) : Prop := {
  inv_sq : sq s = [];
  inv_pending : pending_operations s = Z.of_nat (length (inflight s));
  inv_nodup : NoDup (q_req <$> inflight s);
  inv_issued : exists g, global_read_offset s = (g * BSZ)%nat;
  inv_ops : Forall (op_ok s) (inflight s);
  inv_blocks : forall k, (k * BSZ < global_read_offset s)%nat -> (k * BSZ < length ifile)%nat ->
    done_block s k \/ exists q, q ∈ inflight s /\ q_off q = (k * BSZ)%nat;
  inv_length : (length (ofile s) <= length ifile)%nat;
  inv_eof : eof_reached s = true -> (length ifile <= global_read_offset s)%nat;
  inv_busy : eof_reached s = false -> length (inflight s) = QUEUE_DEPTH;
}.

Lemma length_block k : length (block k) = Nat.min BSZ (length ifile - k * BSZ).
Proof. unfold block. rewrite length_take, length_drop. lia. Qed.

Lemma lookup_block k i :
  (i < length (block k))%nat -> block k !! i = ifile !! (k * BSZ + i)%nat.
Proof.
  intros Hi. rewrite length_block in Hi. unfold block.
  by rewrite lookup_take_lt, lookup_drop by lia.
Qed.

(** When nothing is in flight the output is the translation of the input. *)
Lemma inv_final s :
  (0 < QUEUE_DEPTH)%nat -> inv s -> pending_operations s = 0 -> ofile s = translate <$> ifile.
Proof.
  intros HD Hi Hp.
  assert (Hfl : inflight s = []).
  { rewrite (inv_pending _ Hi) in Hp. apply nil_length_inv. lia. }
  assert (Heof : eof_reached s = true).
  { destruct (eof_reached s) eqn:E; [done|]. apply (inv_busy _ Hi) in E.
    rewrite Hfl in E. simpl in E. lia. }
  apply (inv_eof _ Hi) in Heof.
  apply list_eq. intros i. rewrite list_lookup_fmap.
  destruct (decide (i < length ifile)%nat) as [Hlt|Hge].
  - set (k := (i / BSZ)%nat).
    assert (Hk : (k * BSZ <= i < k * BSZ + BSZ)%nat).
    { subst k. pose proof (Nat.div_mod_eq i BSZ). pose proof (Nat.mod_upper_bound i BSZ).
      nia. }
    destruct (inv_blocks _ Hi k) as [Hd|(q & Hq & _)]; [lia|lia| |].
    + apply Hd. rewrite length_block. lia.
    + rewrite Hfl in Hq. by apply not_elem_of_nil in Hq.
  - rewrite (lookup_ge_None_2 ifile) by lia.
    apply lookup_ge_None_2. pose proof (inv_length _ Hi). lia.
Qed.

(** ** Preservation *)

Lemma op_ok_frame s s' q :
  op_ok s q -> requests s' !! q_req q = requests s !! q_req q ->
  (global_read_offset s <= global_read_offset s')%nat -> op_ok s' q.
Proof.
  intros (k & rq & Ho & Hg & Hrest) E Hle. exists k, rq. rewrite E.
  split; [done|]. split; [lia|done].
Qed.

(** The operation [q] leaves the ring and [new] takes its place. *)
Lemma inv_replace s s' l1 q l2 new :
  inv s -> inflight s = l1 ++ q :: l2 -> sq s' = [] -> inflight s' = (l1 ++ l2) ++ new ->
  pending_operations s' = Z.of_nat (length (inflight s')) ->
  Forall (fun q' => q_req q' = q_req q /\ op_ok s' q') new -> (length new <= 1)%nat ->
  (forall r, r <> q_req q -> requests s' !! r = requests s !! r) ->
  (exists g, global_read_offset s' = (g * BSZ)%nat) ->
  (global_read_offset s <= global_read_offset s')%nat ->
  (forall k, done_block s k -> done_block s' k) ->
  (forall k, (k * BSZ < global_read_offset s')%nat -> (k * BSZ < length ifile)%nat ->
     q_off q = (k * BSZ)%nat \/ (global_read_offset s <= k * BSZ)%nat ->
     done_block s' k \/ exists q', q' ∈ new /\ q_off q' = (k * BSZ)%nat) ->
  (length (ofile s') <= length ifile)%nat ->
  (eof_reached s' = true -> (length ifile <= global_read_offset s')%nat) ->
  (eof_reached s' = false -> eof_reached s = false /\ length new = 1%nat) ->
  inv s'.
Proof.
  intros Hi Hfl Hsq Hfl' Hpend Hnew Hone Hreq Hg Hle Hdone Hcov Hlen Heof Hbusy.
  pose proof (inv_nodup _ Hi) as Hnd. pose proof (inv_ops _ Hi) as Hops.
  assert (Hperm : inflight s ≡ₚ q :: l1 ++ l2) by (rewrite Hfl; by rewrite Permutation_middle).
  rewrite Hperm in Hops. apply Forall_cons_1 in Hops as [_ Hops].
  assert (Hnd' : NoDup (q_req q :: (q_req <$> l1 ++ l2))).
  { rewrite <- fmap_cons. by rewrite <- Hperm. }
  apply NoDup_cons in Hnd' as [Hq Hnd'].
  split; auto.
  - rewrite Hfl', fmap_app. apply NoDup_app. split_and!; [done| |].
    + intros r Hr Hn. apply list_elem_of_fmap in Hn as (q' & -> & Hq').
      rewrite Forall_forall in Hnew. by rewrite (proj1 (Hnew q' Hq')) in Hr.
    + destruct new as [|q1 [|]]; simpl in *; [constructor|apply NoDup_singleton|lia].
  - rewrite Hfl'. apply Forall_app. split.
    + apply Forall_forall. intros q' Hq'. rewrite Forall_forall in Hops.
      apply (op_ok_frame s); auto. apply Hreq. intros E. apply Hq. rewrite <- E.
      by apply list_elem_of_fmap_2.
    + eapply Forall_impl; [exact Hnew|]. by intros q' [_ H'].
  - intros k Hk HkN.
    destruct (decide (q_off q = (k * BSZ)%nat \/ (global_read_offset s <= k * BSZ)%nat)) as [Hc|Hc].
    + destruct (Hcov k Hk HkN Hc) as [|(q' & Hq' & Ho)]; [by left|right].
      exists q'. rewrite Hfl'. split; [|done]. apply elem_of_app. by right.
    + destruct (inv_blocks _ Hi k) as [Hd|(q' & Hq' & Ho)]; [lia|done|left; auto|right].
      exists q'. split; [|done]. rewrite Hperm in Hq'. apply elem_of_cons in Hq' as [->|Hq'].
      * tauto.
      * rewrite Hfl'. apply elem_of_app. by left.
  - intros E. destruct (Hbusy E) as [E0 E1]. apply (inv_busy _ Hi) in E0.
    rewrite Hperm in E0. rewrite Hfl', length_app, E1. simpl in E0. lia.
Qed.

(** The kernel's write of a translated block. *)
Lemma write_block s s' j :
  ofile s' = pwrite (j * BSZ) (translate <$> block j) (ofile s) ->
  (length (ofile s) <= length ifile)%nat ->
  done_block s' j /\ (forall k, done_block s k -> done_block s' k) /\
  (length (ofile s') <= length ifile)%nat.
Proof.
  intros Ho Hlen.
  assert (Hin : forall i, (j * BSZ <= i < j * BSZ + length (block j))%nat ->
            ofile s' !! i = translate <$> ifile !! i).
  { intros i Hi. rewrite Ho, lookup_pwrite_in by (rewrite length_fmap; lia).
    rewrite list_lookup_fmap, lookup_block by lia. do 2 f_equal. lia. }
  split_and!; [done| |].
  - intros k Hk i Hi.
    destruct (decide (j * BSZ <= i < j * BSZ + length (block j))%nat); [auto|].
    assert (Hdk := Hk i Hi).
    assert (is_Some (ifile !! i)) as [c Hc].
    { apply lookup_lt_is_Some. rewrite length_block in Hi. lia. }
    rewrite Hc in *. simpl in *. rewrite Ho, lookup_pwrite_old; [done| |].
    + by apply lookup_lt_Some in Hdk.
    + by rewrite length_fmap.
  - rewrite Ho. destruct (block j) as [|c b] eqn:Eb; [done|].
    rewrite length_pwrite by done. rewrite length_fmap, <- Eb, length_block.
    assert (Hpos : (0 < length (block j))%nat) by (rewrite Eb; simpl; lia).
    rewrite length_block in Hpos. lia.
Qed.

Lemma multiples_le k g : (k * BSZ < g * BSZ)%nat -> (k * BSZ + BSZ <= g * BSZ)%nat.
Proof. intros. assert (k < g)%nat by nia. nia. Qed.

Context (HD : (0 < QUEUE_DEPTH)%nat).

Lemma inv_read_done s l1 q l2 s1 s' :
  inv s -> inflight s = l1 ++ q :: l2 -> q_op q = OP_READ ->
  s1 = State (alter (fun r => Req (id r) (type r)
                       (take (q_len q) (drop (q_off q) ifile) ++
                        drop (length (take (q_len q) (drop (q_off q) ifile))) (buf r))
                       (offset r) (iovec_len r)) (q_req q) (requests s))
         (global_read_offset s) (pending_operations s) (eof_reached s) (sq s) (l1 ++ l2) (ofile s) ->
  handle_cqe (q_req q) (Z.of_nat (length (take (q_len q) (drop (q_off q) ifile)))) s1 = Some s' ->
  inv s' /\
  exists new, inflight s' = (l1 ++ l2) ++ new /\ global_read_offset s' = global_read_offset s /\
    ((q_off q < length ifile)%nat /\ (exists q', new = [q'] /\ q_op q' = OP_WRITE) \/ new = []).
Proof.
  intros Hi Hfl Hop -> Hh.
  assert (Hok : op_ok s q).
  { pose proof (inv_ops _ Hi) as Ho. rewrite Hfl in Ho. apply Forall_app in Ho as [_ Ho].
    by apply Forall_cons_1 in Ho as [? _]. }
  destruct Hok as (k & rq & Hoff & Hk & Hrq & Hro & Hty & Hbl & Hlen).
  rewrite Hop in Hlen, Hty. rewrite Hlen, Hoff in *. fold (block k) in *.
  destruct (inv_issued _ Hi) as [g Hg].
  pose proof (inv_pending _ Hi) as Hpend. pose proof (length_block k) as Hlb.
  rewrite Hfl, length_app in Hpend. simpl in Hpend.
  assert (HG : (k * BSZ + BSZ <= global_read_offset s)%nat).
  { rewrite Hg in *. by apply multiples_le. }
  unfold handle_cqe in Hh. destruct (Z.ltb_spec (Z.of_nat (length (block k))) 0); [lia|].
  cbn [requests] in Hh. rewrite list_lookup_alter_eq, Hrq in Hh.
  cbn [fmap option_fmap option_map mbind option_bind type] in Hh. rewrite Hty in Hh.
  destruct (Z.ltb_spec 0 (Z.of_nat (length (block k)))) as [Hpos|Hz].
  - unfold queue_write, get_sqe in Hh. cbn [sq requests] in Hh. rewrite (inv_sq _ Hi) in Hh.
    cbn [length] in Hh. rewrite (proj2 (Nat.ltb_lt 0 QUEUE_DEPTH) HD) in Hh. cbn [negb] in Hh.
    rewrite !list_lookup_alter_eq, Hrq in Hh.
    cbn [fmap option_fmap option_map offset iovec_len] in Hh. simplify_eq/=.
    rewrite Nat2Z.id. unfold io_uring_submit. cbn [inflight sq global_read_offset].
    split.
    2:{ eexists. split_and!; [done|done|]. left. split; [lia|]. eauto. }
    eapply inv_replace with (q := q) (new := [_]); try done; cbn [inflight sq global_read_offset
      pending_operations eof_reached ofile requests]; eauto.
    + rewrite !length_app in *. simpl. lia.
    + constructor; [|done]. split; [done|].
      exists k. eexists. cbn [q_op q_req q_off q_len requests global_read_offset].
      rewrite !list_lookup_alter_eq, Hrq. cbn [fmap option_fmap option_map buf offset type iovec_len].
      split_and!; try done; try lia.
      * cbn [buf]. repeat rewrite ?length_app, ?length_fmap, ?length_take, ?length_drop. lia.
      * cbn [buf]. rewrite take_app_length'; [|repeat rewrite ?length_app, ?length_fmap, ?length_take, ?length_drop; lia].
        by rewrite take_app_length.
    + intros r Hr. by rewrite !list_lookup_alter_ne by done.
    + intros k' Hk' HkN [E|E]; [|lia]. right. eexists. split; [apply list_elem_of_here|].
      cbn [q_off]. congruence.
    + apply (inv_length _ Hi).
    + destruct (Z.ltb_spec (Z.of_nat (length (block k))) (Z.of_nat BSZ)) as [Hs|Hs];
        [lia|apply (inv_eof _ Hi)].
    + destruct (Z.of_nat (length (block k)) <? Z.of_nat BSZ); [done|]. intros E. auto.
  - simplify_eq/=. unfold io_uring_submit. cbn [inflight sq global_read_offset].
    rewrite (inv_sq _ Hi). split.
    2:{ exists []. by split_and!; [| |right]. }
    eapply inv_replace with (q := q) (new := []); try done; cbn [inflight sq global_read_offset
      pending_operations eof_reached ofile requests]; eauto.
    + rewrite !length_app in *. simpl. lia.
    + intros r Hr. by rewrite !list_lookup_alter_ne by done.
    + intros k' Hk' HkN [E|E]; [|lia]. assert (k' = k) as -> by nia. lia.
    + apply (inv_length _ Hi).
    + intros _. lia.
Qed.

Lemma inv_write_done s l1 q l2 n rq s' :
  inv s -> inflight s = l1 ++ q :: l2 -> q_op q = OP_WRITE -> requests s !! q_req q = Some rq ->
  (n <= q_len q)%nat ->
  handle_cqe (q_req q) (Z.of_nat n)
    (State (requests s) (global_read_offset s) (pending_operations s) (eof_reached s) (sq s)
       (l1 ++ l2) (pwrite (q_off q) (take n (buf rq)) (ofile s))) = Some s' ->
  inv s' /\
  exists new, inflight s' = (l1 ++ l2) ++ new /\
    (new = [] /\ global_read_offset s' = global_read_offset s \/
     exists r, new = [Sqe OP_READ r (global_read_offset s) BSZ] /\
       global_read_offset s' = (global_read_offset s + BSZ)%nat).
Proof.
  intros Hi Hfl Hop Hrq Hn Hh.
  assert (Hok : op_ok s q).
  { pose proof (inv_ops _ Hi) as Ho. rewrite Hfl in Ho. apply Forall_app in Ho as [_ Ho].
    by apply Forall_cons_1 in Ho as [? _]. }
  destruct Hok as (k & rq' & Hoff & Hk & Hrq' & Hro & Hty & Hbl & Hrest).
  rewrite Hrq in Hrq'. simplify_eq. rewrite Hop in Hrest, Hty.
  destruct Hrest as (Hl1 & Hl2 & Hpos & Hdata).
  destruct (inv_issued _ Hi) as [g Hg].
  pose proof (inv_pending _ Hi) as Hpend. rewrite Hfl, length_app in Hpend. simpl in Hpend.
  unfold handle_cqe in Hh. destruct (Z.ltb_spec (Z.of_nat n) 0); [lia|].
  cbn [requests] in Hh. rewrite Hrq in Hh. cbn [mbind option_bind] in Hh. rewrite Hty in Hh.
  destruct (Z.eqb_spec (Z.of_nat n) (Z.of_nat (iovec_len rq'))) as [En|]; [|done].
  assert (n = q_len q) as -> by lia. cbn [negb] in Hh. rewrite Hdata, Hoff in Hh.
  edestruct (write_block s s' k) as (Hdj & Hdk & Hlen).
  { unfold queue_read, io_uring_submit in Hh. cbn [eof_reached sq] in Hh.
    destruct (eof_reached s); [by simplify_eq/=|].
    unfold get_sqe in Hh. cbn [sq] in Hh. rewrite (inv_sq _ Hi) in Hh.
    cbn [length] in Hh. rewrite (proj2 (Nat.ltb_lt 0 QUEUE_DEPTH) HD) in Hh. by simplify_eq/=. }
  { apply (inv_length _ Hi). }
  unfold queue_read in Hh. cbn [eof_reached] in Hh.
  destruct (eof_reached s) eqn:Eeof.
  - simplify_eq/=. unfold io_uring_submit in *. cbn [inflight sq global_read_offset] in *.
    rewrite (inv_sq _ Hi) in *. split.
    2:{ exists []. split; [done|]. by left. }
    eapply inv_replace with (q := q) (new := []); try done; cbn [inflight sq global_read_offset
      pending_operations eof_reached ofile requests]; eauto.
    + rewrite !length_app in *. simpl. lia.
    + intros k' Hk' HkN [E|E]; [|lia]. left. assert (k' = k) as -> by nia. done.
    + intros _. by apply (inv_eof _ Hi).
  - unfold get_sqe in Hh. cbn [sq] in Hh. rewrite (inv_sq _ Hi) in Hh.
    cbn [length] in Hh. rewrite (proj2 (Nat.ltb_lt 0 QUEUE_DEPTH) HD) in Hh. cbn [negb] in Hh.
    simplify_eq/=. unfold io_uring_submit in *. cbn [inflight sq global_read_offset] in *.
    split.
    2:{ eexists. split; [done|]. right. eauto. }
    eapply inv_replace with (q := q) (new := [_]); try done; cbn [inflight sq global_read_offset
      pending_operations eof_reached ofile requests]; eauto.
    + rewrite !length_app in *. simpl. lia.
    + constructor; [|done]. split; [done|].
      exists g. eexists. cbn [q_op q_req q_off q_len requests global_read_offset].
      rewrite !list_lookup_alter_eq, Hrq. cbn [fmap option_fmap option_map buf offset type iovec_len].
      split_and!; try done; lia.
    + intros r Hr. by rewrite !list_lookup_alter_ne by done.
    + exists (S g). lia.
    + lia.
    + intros k' Hk' HkN [E|E].
      * left. assert (k' = k) as -> by nia. done.
      * right. eexists. split; [apply list_elem_of_here|]. cbn [q_off].
        assert (k' = g) as -> by nia. lia.
Qed.

Lemma uring_inv_step s s' : inv s -> step ifile s s' -> inv s'.
Proof.
  intros Hi (Hp & r & res & s1 & Hk & Hh). destruct Hk as [l1 q l2 data Hfl Hop -> | | ].
  - by eapply (inv_read_done s l1 q l2 _ s') in Hh as [? _].
  - by eapply (inv_write_done s) in Hh as [? _].
  - unfold handle_cqe in Hh. destruct (Z.ltb_spec e 0); [done|lia].
Qed.

(** The first [i] reads, before they are submitted. *)
Definition first_reads (i : nat) : list sqe := (fun j => Sqe OP_READ j (j * BSZ) BSZ) <$> seq 0 i.

Definition starting (i : nat) (s : state) : Prop :=
  sq s = first_reads i /\ inflight s = [] /\ ofile s = [] /\ eof_reached s = false /\
  pending_operations s = Z.of_nat i /\ global_read_offset s = (i * BSZ)%nat /\
  length (requests s) = QUEUE_DEPTH /\
  (forall j rq, requests s !! j = Some rq -> length (buf rq) = BSZ /\
     ((j < i)%nat -> offset rq = (j * BSZ)%nat /\ type rq = OP_READ)).

Lemma start_loop_ok n : forall i s,
  starting i s -> (i + n = QUEUE_DEPTH)%nat ->
  exists s', start_loop (seq i n) s = Some s' /\ starting QUEUE_DEPTH s'.
Proof.
  induction n as [|n IH]; intros i s Hs Hin.
  - exists s. split; [done|]. by replace QUEUE_DEPTH with i by lia.
  - destruct Hs as (Hsq & Hfl & Hof & He & Hp & Hg & Hl & Hr).
    cbn [seq start_loop]. unfold queue_read, get_sqe. cbn [eof_reached sq]. rewrite He, Hsq.
    rewrite (proj2 (Nat.ltb_lt _ _)) by (unfold first_reads; rewrite length_fmap, length_seq; lia).
    cbn [negb mbind option_bind]. apply IH; [|lia].
    unfold starting. cbn [sq inflight ofile eof_reached pending_operations global_read_offset requests].
    split_and!; try done; try lia.
    + unfold first_reads. rewrite seq_S, fmap_app, Hg. done.
    + by rewrite !length_alter.
    + intros j rq Hj.
      destruct (decide (i = j)) as [<-|Hne].
      * rewrite !list_lookup_alter_eq in Hj.
        destruct (requests s !! i) as [rq0|] eqn:E; [|done].
        cbn [fmap option_fmap option_map] in Hj. simplify_eq.
        cbn [buf offset type]. destruct (Hr _ _ E) as [Hb _]. rewrite Hb. done.
      * rewrite !list_lookup_alter_ne in Hj by done. destruct (Hr _ _ Hj) as [Hb Ho].
        split; [done|]. intros. apply Ho. lia.
Qed.

Lemma start_inv : exists s0, start = Some s0 /\ inv s0 /\ inflight s0 = first_reads QUEUE_DEPTH /\
  global_read_offset s0 = (QUEUE_DEPTH * BSZ)%nat.
Proof.
  destruct (start_loop_ok QUEUE_DEPTH 0 initial) as (s & E & Hs); [|lia|].
  { unfold starting, initial. cbn [sq inflight ofile eof_reached pending_operations
      global_read_offset requests]. split_and!; try done.
    - by rewrite length_replicate.
    - intros j rq Hj. apply lookup_replicate in Hj as [-> _]. cbn [buf].
      rewrite length_replicate. split; [done|lia]. }
  destruct Hs as (Hsq & Hfl & Hof & He & Hp & Hg & Hl & Hr).
  exists (io_uring_submit s). split; [unfold start; by rewrite E|].
  unfold io_uring_submit. cbn [inflight global_read_offset]. rewrite Hfl, Hsq, Hg.
  split_and!; [|done|done].
  assert (Hin : forall q, q ∈ first_reads QUEUE_DEPTH ->
            exists j, (j < QUEUE_DEPTH)%nat /\ q = Sqe OP_READ j (j * BSZ) BSZ).
  { intros q Hq. unfold first_reads in Hq. apply list_elem_of_fmap in Hq as (j & -> & Hj).
    apply elem_of_seq in Hj. exists j. split; [lia|done]. }
  split; cbn [sq inflight ofile eof_reached pending_operations global_read_offset requests];
    rewrite ?Hfl, ?Hsq, ?Hg, ?He, ?Hof, ?Hp; simpl; try done.
  - unfold first_reads. by rewrite length_fmap, length_seq.
  - unfold first_reads. rewrite <- list_fmap_compose. simpl.
    replace ((q_req ∘ fun j : nat => Sqe OP_READ j (j * BSZ) BSZ) <$> seq 0 QUEUE_DEPTH)
      with (seq 0 QUEUE_DEPTH) by (symmetry; apply list_fmap_id). apply NoDup_seq.
  - eauto.
  - apply Forall_forall. intros q Hq. destruct (Hin q Hq) as (j & Hj & ->).
    destruct (lookup_lt_is_Some_2 (requests s) j) as [rq Hrq]; [lia|].
    destruct (Hr _ _ Hrq) as [Hb Ho]. specialize (Ho Hj) as [Ho Ht].
    exists j, rq. cbn [q_op q_req q_off q_len global_read_offset requests]. split_and!; auto.
    apply Nat.mul_lt_mono_pos_r; lia.
  - intros k Hk _. right. exists (Sqe OP_READ k (k * BSZ) BSZ). split; [|done].
    unfold first_reads. apply list_elem_of_fmap. exists k. split; [done|].
    apply elem_of_seq. nia.
  - lia.
  - intros _. unfold first_reads. by rewrite length_fmap, length_seq.
Qed.

Lemma reachable_inv s : reachable ifile s -> inv s.
Proof.
  intros (s0 & E & Hrun). destruct start_inv as (s1 & E1 & Hi & _). simplify_eq. clear E.
  induction Hrun; [done|]. eauto using uring_inv_step.
Qed.

(** ** Termination and uring_progress *)

(** Blocks of the input not issued yet when the next offset is [off]. *)
Definition unissued (off : nat) : nat := ((length ifile - off + (BSZ - 1)) / BSZ)%nat.

Definition weight (q : sqe) : nat :=
  match q_op q with
  | OP_WRITE => 2
  | OP_READ => if (q_off q <? length ifile)%nat then 3 else 1
  end.

Definition measure (s : state) : nat :=
  (2 * unissued (global_read_offset s) + sum_list_with weight (inflight s))%nat.

Lemma unissued_step off : (off < length ifile)%nat -> unissued off = S (unissued (off + BSZ)).
Proof.
  intros H. unfold unissued.
  destruct (decide (off + BSZ <= length ifile)%nat).
  - replace (length ifile - off + (BSZ - 1))%nat
      with (length ifile - (off + BSZ) + (BSZ - 1) + 1 * BSZ)%nat by lia.
    rewrite Nat.div_add by lia. lia.
  - replace (length ifile - (off + BSZ))%nat with 0%nat by lia.
    rewrite (Nat.div_small (0 + (BSZ - 1))) by lia.
    symmetry. apply (Nat.div_unique _ _ _ (length ifile - off - 1)%nat); lia.
Qed.

Lemma unissued_end off : (length ifile <= off)%nat -> unissued off = 0%nat.
Proof.
  intros H. unfold unissued. replace (length ifile - off)%nat with 0%nat by lia.
  apply Nat.div_small. lia.
Qed.

Lemma weight_pos q : (1 <= weight q)%nat.
Proof. unfold weight. destruct (q_op q); [destruct (_ <? _)%nat|]; lia. Qed.

Lemma uring_measure_step s s' : inv s -> step ifile s s' -> (measure s' < measure s)%nat.
Proof.
  intros Hi (Hp & r & res & s1 & Hk & Hh).
  assert (Hsum : forall l1 (q : sqe) l2, sum_list_with weight (l1 ++ q :: l2)
            = (weight q + sum_list_with weight (l1 ++ l2))%nat).
  { intros. rewrite !sum_list_with_app. simpl. lia. }
  destruct Hk as [l1 q l2 data Hfl Hop -> | l1 q l2 k rq Hfl Hop Hrq Hk | ].
  - eapply (inv_read_done s l1 q l2 _ s') in Hh as (_ & new & Hfl' & Hg & Hnew); auto.
    unfold measure. rewrite Hfl, Hfl', Hg, Hsum, sum_list_with_app.
    destruct Hnew as [(Hlt & q' & -> & Hq')| ->]; simpl.
    + unfold weight. rewrite Hop, Hq', (proj2 (Nat.ltb_lt _ _) Hlt). lia.
    + pose proof (weight_pos q). lia.
  - eapply (inv_write_done s) in Hh as (_ & new & Hfl' & Hnew); eauto.
    unfold measure. rewrite Hfl, Hfl', Hsum, sum_list_with_app.
    assert (weight q = 2)%nat as -> by (unfold weight; by rewrite Hop).
    destruct Hnew as [[-> ->]|(r & -> & ->)]; cbn [sum_list_with]; [lia|].
    unfold weight. cbn [q_op q_off].
    destruct (Nat.ltb_spec (global_read_offset s) (length ifile)).
    + rewrite (unissued_step (global_read_offset s)) by done. lia.
    + rewrite !unissued_end by lia. lia.
  - unfold handle_cqe in Hh. destruct (Z.ltb_spec e 0); [done|lia].
Qed.

(** Whatever operation the kernel completes next, if it completes it in full the loop goes on. *)
Lemma uring_progress s q :
  inv s -> q ∈ inflight s ->
  exists res s1, kernel_completes ifile s (q_req q) res s1 /\ is_Some (handle_cqe (q_req q) res s1).
Proof.
  intros Hi Hq. apply list_elem_of_split in Hq as (l1 & l2 & Hfl).
  assert (Hok : op_ok s q).
  { pose proof (inv_ops _ Hi) as Ho. rewrite Hfl in Ho. apply Forall_app in Ho as [_ Ho].
    by apply Forall_cons_1 in Ho as [? _]. }
  destruct Hok as (k & rq & Hoff & Hk & Hrq & Hro & Hty & Hbl & Hrest).
  assert (HDb : (0 <? QUEUE_DEPTH)%nat = true) by (by apply Nat.ltb_lt).
  destruct (q_op q) eqn:Hop.
  - do 2 eexists. split; [eapply read_done; [exact Hfl|exact Hop|reflexivity]|].
    unfold handle_cqe. destruct (Z.ltb_spec (Z.of_nat (length (take (q_len q) (drop (q_off q) ifile)))) 0);
      [lia|].
    cbn [requests]. rewrite list_lookup_alter_eq, Hrq.
    cbn [fmap option_fmap option_map mbind option_bind type]. rewrite Hty.
    destruct (0 <? _); [|eauto].
    unfold queue_write, get_sqe. cbn [sq requests]. rewrite (inv_sq _ Hi). cbn [length]. rewrite HDb.
    cbn [negb]. rewrite !list_lookup_alter_eq, Hrq. cbn [fmap option_fmap option_map]. eauto.
  - destruct Hrest as (Hl1 & Hl2 & Hpos & Hdata).
    do 2 eexists. split; [eapply write_done; [exact Hfl|exact Hop|exact Hrq|reflexivity]|].
    unfold handle_cqe. destruct (Z.ltb_spec (Z.of_nat (q_len q)) 0); [lia|].
    cbn [requests]. rewrite Hrq. cbn [mbind option_bind]. rewrite Hty, Hl1, Z.eqb_refl. cbn [negb].
    unfold queue_read, get_sqe. cbn [eof_reached sq]. rewrite (inv_sq _ Hi). cbn [length]. rewrite HDb.
    destruct (eof_reached s); cbn [negb fmap option_fmap option_map]; eauto.
Qed.

Lemma measure_start s0 :
  start = Some s0 -> (measure s0 <= 2 * (length ifile / BSZ + 1) + 3 * QUEUE_DEPTH)%nat.
Proof.
  intros E. destruct start_inv as (s1 & E1 & _ & Hfl & Hg). simplify_eq. unfold measure.
  assert (Hw : forall l, (sum_list_with weight l <= 3 * length l)%nat).
  { induction l as [|q l IH]; [done|]. simpl. unfold weight at 1.
    destruct (q_op q); [destruct (_ <? _)%nat|]; lia. }
  specialize (Hw (inflight s0)). rewrite Hfl in Hw. unfold first_reads in Hw.
  rewrite length_fmap, length_seq in Hw. rewrite Hfl. unfold first_reads.
  assert (unissued (global_read_offset s0) <= length ifile / BSZ + 1)%nat; [|lia].
  unfold unissued. transitivity ((length ifile + 1 * BSZ) / BSZ)%nat.
  - apply Nat.Div0.div_le_mono. lia.
  - rewrite Nat.div_add by lia. lia.
Qed.

Lemma nsteps_measure n s s' :
  inv s -> nsteps (step ifile) n s s' -> (n + measure s' <= measure s)%nat.
Proof.
  intros Hi Hn. induction Hn as [|n x y z Hxy Hn IH]; [lia|].
  pose proof (uring_measure_step _ _ Hi Hxy). specialize (IH (uring_inv_step _ _ Hi Hxy)). lia.
Qed.

End Inv.
End Prog.

(** ** The program's constants *)

Definition BSZ : nat := Z.to_nat 4096.
Definition QUEUE_DEPTH : nat := 16.

Lemma BSZ_pos : (0 < BSZ)%nat.
Proof. unfold BSZ. lia. Qed.

Lemma QUEUE_DEPTH_pos : (0 < QUEUE_DEPTH)%nat.
Proof. unfold QUEUE_DEPTH. lia. Qed.

#[global] Opaque BSZ QUEUE_DEPTH.

(** C1: in whatever order the kernel completes the operations, when the asynchronous converter
    leaves its loop (no operation pending) the output file holds exactly the translation of the
    input file. *)
Theorem uring_correct ifile s :
  reachable BSZ QUEUE_DEPTH ifile s -> pending_operations s = 0 -> ofile s = translate <$> ifile.
Proof.
  intros Hr. eapply inv_final; [apply BSZ_pos|apply QUEUE_DEPTH_pos|].
  apply reachable_inv; [apply BSZ_pos|apply QUEUE_DEPTH_pos|done].
Qed.

(** the loop ends.  The requests can be started; every run makes at most
    2 * (N / BSZ + 1) + 3 * QUEUE_DEPTH iterations on an input of N bytes; and as long as
    operations are pending, each of them in flight can be completed and the loop goes on, so no
    run gets stuck before [uring_correct] applies. *)
Theorem uring_terminates ifile :
  exists s0, start BSZ QUEUE_DEPTH = Some s0 /\
  (forall n s, nsteps (step BSZ QUEUE_DEPTH ifile) n s0 s ->
     (n <= 2 * (length ifile / BSZ + 1) + 3 * QUEUE_DEPTH)%nat) /\
  (forall s, rtc (step BSZ QUEUE_DEPTH ifile) s0 s -> 0 < pending_operations s ->
     inflight s <> [] /\
     forall q, q ∈ inflight s -> exists res s1 s', kernel_completes ifile s (q_req q) res s1 /\
       handle_cqe BSZ QUEUE_DEPTH (q_req q) res s1 = Some s').
Proof.
  destruct (start_inv BSZ QUEUE_DEPTH ifile BSZ_pos QUEUE_DEPTH_pos) as (s0 & E & Hi & _).
  exists s0. split; [exact E|]. split.
  - intros n s Hn.
    pose proof (nsteps_measure _ _ ifile BSZ_pos QUEUE_DEPTH_pos _ _ _ Hi Hn).
    pose proof (measure_start _ _ ifile BSZ_pos QUEUE_DEPTH_pos _ E). lia.
  - intros s Hs Hp.
    assert (Hr : inv BSZ QUEUE_DEPTH ifile s).
    { apply reachable_inv; [apply BSZ_pos|apply QUEUE_DEPTH_pos|exists s0; split; [exact E|exact Hs]]. }
    rewrite (inv_pending _ _ _ _ Hr) in Hp.
    split; [intros Hn; rewrite Hn in Hp; simpl in Hp; lia|].
    intros q Hq.
    destruct (uring_progress _ _ ifile BSZ_pos QUEUE_DEPTH_pos s q Hr Hq) as (res & s1 & Hk & s' & Hs').
    eauto.
Qed.

(** A run on a short input: the last reads complete first. *)
Definition sample_schedule : list nat := replicate 15 1%nat ++ [0; 0]%nat.

Lemma sample_run_ends :
  match s0 ← start BSZ QUEUE_DEPTH; run BSZ QUEUE_DEPTH (str "Hello, ring!") sample_schedule s0 with
  | Some s => pending_operations s =? 0
  | None => false
  end = true.
Proof. vm_compute. reflexivity. Qed.

Lemma uring_correct_witness :
  exists s, reachable BSZ QUEUE_DEPTH (str "Hello, ring!") s /\ pending_operations s = 0 /\
    ofile s = translate <$> str "Hello, ring!".
Proof.
  pose proof sample_run_ends as H.
  destruct (start BSZ QUEUE_DEPTH) as [s0|] eqn:E0; [|done]. cbn [mbind option_bind] in H.
  destruct (run _ _ _ _ s0) as [s|] eqn:E; [|done]. apply Z.eqb_eq in H.
  assert (Hr : reachable BSZ QUEUE_DEPTH (str "Hello, ring!") s).
  { exists s0. split; [exact E0|]. eapply run_steps. exact E. }
  exists s. split; [exact Hr|]. split; [exact H|].
  apply (uring_correct (str "Hello, ring!") s); [exact Hr|exact H].
Defined.
