(* ===== verification/BarrierSort.v ===== *)
(** * Multithreaded sort with a barrier: [11/11_usage_barrier.cpp]

    [multithread_sort] splits its vector into one slice per thread, sorts the slices in threads
    that meet the main thread at a barrier of [num_threads + 1], and merges the slices.  [Merge]
    is the k-way merge, an index-based loop; [Threads] the creation of the threads, their
    interleaving and the barrier, as a step relation. *)

From stdpp Require Import sorting.
From S2P Require Import Prelude.

(** [std::sort] on integers. *)
Definition std_sort (l : list Z) : list Z := merge_sort Z.le l.

Lemma std_sort_perm l : std_sort l ≡ₚ l.
Proof. apply merge_sort_Permutation. Qed.

Lemma std_sort_sorted l : StronglySorted Z.le (std_sort l).
Proof. apply StronglySorted_merge_sort; apply _. Qed.

(** A sorted permutation is the sorted list. *)
Lemma std_sort_unique l k : StronglySorted Z.le k -> k ≡ₚ l -> k = std_sort l.
Proof.
  intros Hs Hp. apply (StronglySorted_unique Z.le); [done|apply std_sort_sorted|].
  by rewrite std_sort_perm.
Qed.

Module Merge.

(** The inner loop: the least of the values the indices point to, and where it is. *)
Fixpoint find_min (v : list Z) (current_idx end_idx : list nat) (i : nat) (best : Z * nat)
  : Z * nat :=
  match current_idx, end_idx with
  | c :: current_idx, e :: end_idx =>
      let best :=
        if (c <? e)%nat then
          match v !! c with
          | Some val => if val <? best.1 then (val, i) else best
          | None => best
          end
        else best in
      find_min v current_idx end_idx (S i) best
  | _, _ => best
  end.

(** The loop over [k], [v.size() - k] iterations before its end. *)
Fixpoint merge_loop (v : list Z) (end_idx : list nat) (k : nat) (current_idx : list nat)
    (result : list Z) : list Z :=
  match k with
  | O => result
  | S k =>
      let '(min_val, min_thread_idx) := find_min v current_idx end_idx 0 (INT_MAX, 0%nat) in
      merge_loop v end_idx k (alter S min_thread_idx current_idx) (result ++ [min_val])
  end.

Definition current_idx0 (num_threads per : nat) : list nat :=
  (fun i => i * per)%nat <$> seq 0 num_threads.

Definition end_idx0 (num_threads per size : nat) : list nat :=
  (fun i => Nat.min (i * per + per) size) <$> seq 0 num_threads.

Definition merge (num_threads per : nat) (v : list Z) : list Z :=
  merge_loop v (end_idx0 num_threads per (length v)) (length v) (current_idx0 num_threads per) [].

(** ** The merge of the remaining segments *)

Definition segment (v : list Z) (c e : nat) : list Z := take (e - c) (drop c v).

Fixpoint pick (segs : list (list Z)) (i : nat) (best : Z * nat) : Z * nat :=
  match segs with
  | [] => best
  | seg :: segs =>
      pick segs (S i) (match seg with
                       | [] => best
                       | h :: _ => if h <? best.1 then (h, i) else best
                       end)
  end.

Fixpoint outputs (k : nat) (segs : list (list Z)) : list Z :=
  match k with
  | O => []
  | S k => let '(m, i) := pick segs 0 (INT_MAX, 0%nat) in m :: outputs k (alter tail i segs)
  end.

Lemma segment_empty v c e : (e <= c)%nat -> segment v c e = [].
Proof. intros. unfold segment. by replace (e - c)%nat with 0%nat by lia. Qed.

Lemma segment_cons v c e x : (c < e)%nat -> v !! c = Some x -> segment v c e = x :: segment v (S c) e.
Proof.
  intros Hlt Hx. unfold segment. rewrite (drop_S _ _ _ Hx).
  replace (e - c)%nat with (S (e - S c)) by lia. done.
Qed.

Lemma segment_tail v c e : (e <= length v)%nat -> segment v (S c) e = tail (segment v c e).
Proof.
  intros He. destruct (decide (c < e)%nat) as [Hlt|Hge].
  - destruct (lookup_lt_is_Some_2 v c) as [x Hx]; [lia|]. by rewrite (segment_cons v c e x).
  - by rewrite !segment_empty by lia.
Qed.

Lemma find_min_pick v cur ends i best :
  Forall (fun e => e <= length v)%nat ends ->
  find_min v cur ends i best = pick (zip_with (segment v) cur ends) i best.
Proof.
  revert ends i best. induction cur as [|c cur IH]; intros [|e ends] i best Hends; try done.
  apply Forall_cons_1 in Hends as [He Hends]. simpl. rewrite IH by done. f_equal.
  destruct (Nat.ltb_spec c e) as [Hlt|Hge].
  - destruct (lookup_lt_is_Some_2 v c) as [x Hx]; [lia|]. by rewrite Hx, (segment_cons v c e x).
  - by rewrite segment_empty by lia.
Qed.

Lemma segments_alter v cur ends i :
  Forall (fun e => e <= length v)%nat ends ->
  zip_with (segment v) (alter S i cur) ends = alter tail i (zip_with (segment v) cur ends).
Proof.
  revert ends i. induction cur as [|c cur IH]; intros [|e ends] [|i] Hends; try done;
    apply Forall_cons_1 in Hends as [He Hends]; cbn.
  - by rewrite segment_tail.
  - f_equal. by apply IH.
Qed.

Lemma merge_loop_outputs v ends k cur result :
  Forall (fun e => e <= length v)%nat ends ->
  merge_loop v ends k cur result = result ++ outputs k (zip_with (segment v) cur ends).
Proof.
  intros Hends. revert cur result. induction k as [|k IH]; intros cur result; simpl.
  - by rewrite app_nil_r.
  - rewrite find_min_pick by done. destruct (pick _ _ _) as [m i].
    rewrite IH, segments_alter, <- app_assoc by done. done.
Qed.

(** [pick] returns a least head, or the initial value when no head is below it. *)
Lemma pick_spec segs i m0 i0 m j :
  pick segs i (m0, i0) = (m, j) ->
  m <= m0 /\ (forall h t, h :: t ∈ segs -> m <= h) /\
  ((m = m0 /\ j = i0) \/ exists d t, j = (i + d)%nat /\ segs !! d = Some (m :: t) /\ m < m0).
Proof.
  revert i m0 i0. induction segs as [|seg segs IH]; simpl; intros i m0 i0 Hp.
  - simplify_eq. split_and!; [lia| |by left]. intros h t Hin. by apply not_elem_of_nil in Hin.
  - destruct seg as [|h t].
    + apply IH in Hp as (Hle & Hall & Hor). split_and!; [done| |].
      * intros h t Hin. apply elem_of_cons in Hin as [?|?]; [done|eauto].
      * destruct Hor as [?|(d & t & -> & ? & ?)]; [by left|right]. exists (S d), t.
        split_and!; [lia|done|done].
    + simpl in Hp. destruct (Z.ltb_spec h m0) as [Hlt|Hge];
        apply IH in Hp as (Hle & Hall & Hor); (split_and!; [lia| |]).
      * intros h' t' Hin. apply elem_of_cons in Hin as [?|?]; [by simplify_eq|eauto].
      * right. destruct Hor as [[-> ->]|(d & t' & -> & ? & ?)].
        -- exists 0%nat, t. split_and!; [lia|done|done].
        -- exists (S d), t'. split_and!; [lia|done|lia].
      * intros h' t' Hin. apply elem_of_cons in Hin as [?|?]; [simplify_eq; lia|eauto].
      * destruct Hor as [?|(d & t' & -> & ? & ?)]; [by left|right]. exists (S d), t'.
        split_and!; [lia|done|done].
Qed.

Definition below_max (l : list Z) : list Z := filter (fun x => x < INT_MAX) l.

Lemma concat_alter_tail (segs : list (list Z)) i x t :
  segs !! i = Some (x :: t) -> concat segs ≡ₚ x :: concat (alter tail i segs).
Proof.
  revert i. induction segs as [|seg segs IH]; intros [|i] Hi; simplify_eq/=; [done|].
  rewrite (IH _ Hi). by rewrite <- Permutation_middle.
Qed.

Lemma below_max_alter_nil (segs : list (list Z)) i :
  below_max (concat segs) = [] -> below_max (concat (alter tail i segs)) = [].
Proof.
  unfold below_max. revert i. induction segs as [|seg segs IH]; intros [|i]; simpl; auto.
  - rewrite !filter_app. intros [H1 H2]%app_nil. rewrite H2, app_nil_r.
    destruct seg as [|x seg]; [done|]. simpl in *. rewrite filter_cons in H1. by case_decide.
  - rewrite !filter_app. intros [H1 H2]%app_nil. cbn. rewrite H1. simpl. by apply IH.
Qed.

Lemma sorted_alter_tail (segs : list (list Z)) i :
  Forall (StronglySorted Z.le) segs -> Forall (StronglySorted Z.le) (alter tail i segs).
Proof.
  intros Hs. apply Forall_alter; [done|]. intros seg Hi H. destruct seg; [constructor|].
  by apply StronglySorted_inv in H as [? _].
Qed.

(** The merge delivers the sorted values below INT_MAX, then INT_MAX for ever. *)
Lemma outputs_sorted k segs :
  Forall (StronglySorted Z.le) segs ->
  outputs k segs = take k (std_sort (below_max (concat segs)) ++ replicate k INT_MAX).
Proof.
  revert segs. induction k as [|k IH]; intros segs Hs; [done|].
  cbn [outputs]. destruct (pick segs 0 (INT_MAX, 0%nat)) as [m i] eqn:Ep.
  apply pick_spec in Ep as (Hle & Hall & Hor).
  rewrite IH by (by apply sorted_alter_tail).
  assert (Hmin : forall x, x ∈ concat segs -> m <= x).
  { intros x Hx. rewrite list_elem_of_In in Hx. apply in_concat in Hx as (seg & Hseg & Hxs).
    apply list_elem_of_In in Hseg. apply list_elem_of_In in Hxs.
    rewrite Forall_forall in Hs. specialize (Hs _ Hseg).
    destruct seg as [|h t]; [by apply not_elem_of_nil in Hxs|].
    specialize (Hall _ _ Hseg). apply StronglySorted_cons in Hs as [Hf _].
    rewrite Forall_forall in Hf. apply elem_of_cons in Hxs as [->|Hxt]; [done|].
    specialize (Hf _ Hxt). lia. }
  destruct Hor as [[-> ->]|(d & t & -> & Hd & Hlt)].
  - assert (Hnil : below_max (concat segs) = []).
    { unfold below_max. destruct (filter _ _) as [|x l] eqn:E; [done|].
      assert (Hx : x ∈ filter (fun x => x < INT_MAX) (concat segs)) by (rewrite E; constructor).
      apply list_elem_of_filter in Hx as [Hx Hin]. specialize (Hmin _ Hin). lia. }
    rewrite (below_max_alter_nil _ _ Hnil), Hnil. cbn. f_equal.
  - pose proof (concat_alter_tail _ _ _ _ Hd) as Hperm.
    assert (Hsort : std_sort (below_max (concat segs))
                    = m :: std_sort (below_max (concat (alter tail (0 + d)%nat segs)))).
    { symmetry. apply std_sort_unique.
      - apply StronglySorted_cons. split; [|apply std_sort_sorted].
        apply Forall_forall. intros x Hx. rewrite std_sort_perm in Hx.
        apply list_elem_of_filter in Hx as [_ Hx]. apply Hmin. rewrite Hperm. by constructor.
      - rewrite std_sort_perm. unfold below_max. rewrite Hperm, filter_cons_True by done. done. }
    rewrite Hsort. cbn [app take]. f_equal.
    symmetry. rewrite replicate_S_end, app_assoc. apply take_app_le.
    rewrite length_app, length_replicate. lia.
Qed.

(** Values are [int]s, so what is not below INT_MAX is INT_MAX. *)
Lemma below_max_perm l :
  Forall (fun x => x <= INT_MAX) l ->
  l ≡ₚ below_max l ++ replicate (length l - length (below_max l)) INT_MAX.
Proof.
  unfold below_max. induction l as [|x l IH]; intros Hl; [done|].
  apply Forall_cons_1 in Hl as [Hx Hl]. specialize (IH Hl).
  pose proof (length_filter (fun x => x < INT_MAX) l) as Hlen.
  rewrite filter_cons. case_decide as Hc.
  - simpl. by rewrite <- IH.
  - assert (x = INT_MAX) as -> by lia. simpl length.
    rewrite Nat.sub_succ_l by done. simpl. rewrite <- Permutation_middle. by rewrite <- IH.
Qed.

Lemma outputs_all segs :
  Forall (StronglySorted Z.le) segs -> Forall (fun x => x <= INT_MAX) (concat segs) ->
  outputs (length (concat segs)) segs = std_sort (concat segs).
Proof.
  intros Hs Hmax. rewrite outputs_sorted by done. set (l := concat segs) in *.
  pose proof (length_filter (fun x => x < INT_MAX) l) as Hlen. fold (below_max l) in Hlen.
  assert (Hlf : length (std_sort (below_max l)) = length (below_max l)) by (by rewrite std_sort_perm).
  rewrite take_app_ge, Hlf, take_replicate, Nat.min_l by lia.
  apply std_sort_unique.
  - apply StronglySorted_app_2; [|apply std_sort_sorted|].
    + intros x y Hx Hy. apply elem_of_replicate in Hy as [-> _].
      rewrite std_sort_perm in Hx. apply list_elem_of_filter in Hx as [Hx _]. lia.
    + induction (length l - length (below_max l))%nat as [|n IH]; [constructor|]. simpl.
      apply StronglySorted_cons. split; [|done].
      apply Forall_replicate. lia.
  - rewrite std_sort_perm. symmetry. by apply below_max_perm.
Qed.

(** The slice of thread [i]. *)
Definition slice (per : nat) (v : list Z) (i : nat) : list Z :=
  segment v (i * per) (Nat.min (i * per + per) (length v)).

Lemma slice_eq per v i : slice per v i = take per (drop (i * per) v).
Proof.
  unfold slice, segment. destruct (decide (i * per + per <= length v)%nat).
  - f_equal. lia.
  - rewrite !take_ge; [done|rewrite length_drop; lia|rewrite length_drop; lia].
Qed.

Lemma slices_eq n per v :
  zip_with (segment v) (current_idx0 n per) (end_idx0 n per (length v)) = slice per v <$> seq 0 n.
Proof.
  unfold current_idx0, end_idx0. rewrite zip_with_fmap_l, zip_with_fmap_r.
  generalize 0%nat. induction n as [|n IH]; intros i; [done|]. simpl. by rewrite IH.
Qed.

Lemma concat_slices n per v : concat (slice per v <$> seq 0 n) = take (n * per) v.
Proof.
  induction n as [|n IH]; [done|]. rewrite seq_S, fmap_app, concat_app, IH. simpl.
  rewrite app_nil_r, slice_eq, take_take_drop. f_equal. lia.
Qed.

Lemma merge_correct_aux n per v :
  (length v <= n * per)%nat -> Forall is_int v ->
  Forall (StronglySorted Z.le) (slice per v <$> seq 0 n) ->
  merge n per v = std_sort v.
Proof.
  intros Hcov Hint Hs. unfold merge.
  rewrite merge_loop_outputs.
  2:{ apply Forall_fmap, Forall_true. intros i. simpl. lia. }
  rewrite slices_eq. simpl.
  assert (Hc : concat (slice per v <$> seq 0 n) = v) by (by rewrite concat_slices, take_ge).
  rewrite <- Hc at 2. rewrite <- Hc at 1. rewrite Hc.
  replace (length v) with (length (concat (slice per v <$> seq 0 n))) by (by rewrite Hc).
  rewrite outputs_all; [by rewrite Hc|done|].
  rewrite Hc. eapply Forall_impl; [exact Hint|]. intros x [_ Hx]. done.
Qed.

(** C3: the index-based k-way merge of a vector of [int]s whose slices are sorted, and together
    cover it, is the sorted vector; this includes vectors that contain INT_MAX, the value the
    search for the minimum starts from. *)
Theorem merge_correct n per v :
  (length v <= n * per)%nat -> Forall is_int v ->
  Forall (StronglySorted Z.le) (slice per v <$> seq 0 n) ->
  merge n per v = std_sort v.
Proof. apply merge_correct_aux. Qed.

Lemma merge_correct_witness :
  merge 2 3 [1; 4; INT_MAX; 2; INT_MAX] = std_sort [1; 4; INT_MAX; 2; INT_MAX].
Proof.
  apply (merge_correct 2 3 [1; 4; INT_MAX; 2; INT_MAX]).
  - simpl. lia.
  - unfold is_int, INT_MAX, INT_MIN. repeat constructor; lia.
  - apply (bool_decide_unpack _). vm_compute. exact I.
Defined.

End Merge.

Module Threads.
Import Merge.

(** The constructor's [num_elements_per_thread]. *)
Definition elements_per_thread (sz n_threads : nat) : nat :=
  let per := ((sz + n_threads - 1) / n_threads)%nat in
  if (per =? 0)%nat then 1%nat else per.

Lemma elements_per_thread_cover sz n :
  (0 < n)%nat -> (sz <= n * elements_per_thread sz n)%nat.
Proof.
  intros Hn. unfold elements_per_thread.
  pose proof (Nat.div_mod (sz + n - 1) n ltac:(lia)).
  pose proof (Nat.mod_upper_bound (sz + n - 1) n ltac:(lia)).
  destruct (Nat.eqb_spec ((sz + n - 1) / n) 0) as [E|E]; [rewrite E in *|]; nia.
Qed.

(** [ThreadArg] of thread [i]: where its slice starts and its size, a difference of unsigned
    numbers. *)
Definition thread_start (per i : nat) : nat := (i * per)%nat.
Definition thread_count (per size i : nat) : Z :=
  let start := (i * per)%nat in
  let end_ := Nat.min (start + per) size in
  to_size_t (Z.of_nat end_ - Z.of_nat start).

(** [worker_sort]: [std::sort] on [v.begin() + start, v.begin() + start + count). *)
Definition sort_range (start count : nat) (v : list Z) : list Z :=
  take start v ++ std_sort (take count (drop start v)) ++ drop (start + count) v.

Record sorter := Sorter {
  vec : list Z;
  next : nat;               (* the index of the loop that creates threads *)
  running : list nat;       (* threads created that have not reached the barrier *)
  arrived : nat;            (* threads waiting at the barrier *)
  main_waits : bool;
  released : bool;          (* the barrier was passed *)
  merged : bool;
}.

Section Prog.
Context (num_threads per : nat).

Inductive step : sorter -> sorter -> Prop :=
| step_create s :
    (next s < num_threads)%nat -> 0 < thread_count per (length (vec s)) (next s) ->
    step s (Sorter (vec s) (S (next s)) (running s ++ [next s]) (arrived s) false
              (released s) (merged s))
| step_skip s :
    (next s < num_threads)%nat -> thread_count per (length (vec s)) (next s) = 0 ->
    step s (Sorter (vec s) (S (next s)) (running s) (arrived s) false (released s) (merged s))
| step_worker s l1 i l2 count :
    running s = l1 ++ i :: l2 -> count = Z.to_nat (thread_count per (length (vec s)) i) ->
    (thread_start per i + count <= length (vec s))%nat ->
    step s (Sorter (sort_range (thread_start per i) count (vec s)) (next s) (l1 ++ l2)
              (S (arrived s)) (main_waits s) (released s) (merged s))
| step_main_waits s :
    next s = num_threads -> main_waits s = false ->
    step s (Sorter (vec s) (next s) (running s) (S (arrived s)) true (released s) (merged s))
| step_release s :
    arrived s = S num_threads -> released s = false ->
    step s (Sorter (vec s) (next s) (running s) (arrived s) (main_waits s) true (merged s))
| step_merge s :
    released s = true -> merged s = false ->
    step s (Sorter (merge num_threads per (vec s)) (next s) (running s) (arrived s) (main_waits s)
              (released s) true).

Definition initial (v : list Z) : sorter := Sorter v 0 [] 0 false false false.

Definition reachable (v : list Z) (s : sorter) : Prop := rtc step (initial v) s.

(** A thread is about to sort a range that leaves the vector. *)
Definition undefined (s : sorter) : Prop :=
  exists i, i ∈ running s /\
    Z.of_nat (length (vec s)) < Z.of_nat (thread_start per i) + thread_count per (length (vec s)) i.

(** ** Sorting a range *)

Lemma length_sort_range start count v : length (sort_range start count v) = length v.
Proof.
  unfold sort_range. rewrite !length_app, length_take, length_drop.
  rewrite std_sort_perm, length_take, length_drop. lia.
Qed.

Lemma sort_range_perm start count v : sort_range start count v ≡ₚ v.
Proof.
  unfold sort_range. rewrite std_sort_perm, <- drop_drop, take_drop, take_drop. done.
Qed.

(** The slice of another thread is not touched. *)
Lemma sort_range_other i j v count :
  i <> j -> (count <= per)%nat ->
  slice per (sort_range (i * per) count v) j = slice per v j.
Proof.
  intros Hij Hc. rewrite !slice_eq. apply list_eq. intros k.
  destruct (decide (k < per)%nat); [|by rewrite !lookup_take_ge by lia].
  rewrite !lookup_take_lt, !lookup_drop by done. unfold sort_range.
  destruct (decide (length v <= i * per)%nat).
  { rewrite (drop_ge v (i * per)), (drop_ge v (i * per + count)) by lia.
    rewrite take_nil, take_ge by done. by rewrite !app_nil_r. }
  assert (Hlen : length (take (i * per) v) = (i * per)%nat) by (rewrite length_take; lia).
  destruct (decide (j < i)%nat).
  - assert (j * per + k < i * per)%nat by nia.
    by rewrite lookup_app_l, lookup_take_lt by lia.
  - assert (i * per + per <= j * per + k)%nat by nia.
    set (mid := std_sort (take count (drop (i * per) v))).
    assert (Hmid : length mid = Nat.min count (length v - i * per)).
    { subst mid. by rewrite std_sort_perm, length_take, length_drop. }
    rewrite lookup_app_r, Hlen by lia.
    rewrite lookup_app_r by lia. rewrite Hmid, lookup_drop.
    destruct (decide (i * per + count <= length v)%nat).
    + f_equal. lia.
    + rewrite !lookup_ge_None_2 by lia. done.
Qed.

Lemma sort_range_same i v count :
  (i * per + count = Nat.min (i * per + per) (length v))%nat ->
  StronglySorted Z.le (slice per (sort_range (i * per) count v) i).
Proof.
  intros Hc. unfold slice, segment. rewrite length_sort_range, <- Hc.
  replace (i * per + count - i * per)%nat with count by lia. unfold sort_range.
  rewrite drop_app_length' by (rewrite length_take; lia).
  rewrite take_app_length'; [apply std_sort_sorted|].
  rewrite std_sort_perm, length_take, length_drop. lia.
Qed.

(** ** The partition *)

Section Partition.
Context (v : list Z).
Hypothesis Hint : Forall is_int v.
Hypothesis Hlen : Z.of_nat (num_threads * per) <= SIZE_MAX.
Hypothesis Hlast : ((num_threads - 1) * per < length v)%nat.
Hypothesis Hcover : (length v <= num_threads * per)%nat.

Lemma start_lt i : (i < num_threads)%nat -> (i * per < length v)%nat.
Proof using All. intros Hi. assert (i * per <= (num_threads - 1) * per)%nat by nia. lia. Qed.

Lemma thread_count_eq i :
  (i < num_threads)%nat ->
  thread_count per (length v) i = Z.of_nat (Nat.min (i * per + per) (length v) - i * per).
Proof using All.
  intros Hi. pose proof (start_lt i Hi). unfold thread_count, to_size_t, wrap_unsigned.
  unfold SIZE_MAX in Hlen. assert (0 < per)%nat by nia.
  rewrite Z.mod_small by lia. lia.
Qed.

Lemma thread_count_pos i : (i < num_threads)%nat -> 0 < thread_count per (length v) i.
Proof using All.
  intros Hi. rewrite thread_count_eq by done. pose proof (start_lt i Hi).
  assert (0 < per)%nat by nia. lia.
Qed.

Record inv (s : sorter) : Prop := {
  inv_perm : vec s ≡ₚ v;
  inv_next : (next s <= num_threads)%nat;
  inv_nodup : NoDup (running s);
  inv_running : Forall (fun i => i < next s)%nat (running s);
  inv_sorted : merged s = false ->
    forall i, (i < next s)%nat -> i ∉ running s -> StronglySorted Z.le (slice per (vec s) i);
  inv_arrived : (arrived s + length (running s) = next s + if main_waits s then 1 else 0)%nat;
  inv_main : main_waits s = true -> next s = num_threads;
  inv_released : released s = true -> arrived s = S num_threads;
  inv_merged : merged s = true -> released s = true /\ vec s = std_sort v;
}.

Lemma inv_length s : inv s -> length (vec s) = length v.
Proof using All. intros Hs. by rewrite (inv_perm _ Hs). Qed.

(** Once the barrier opened every thread has sorted its slice. *)
Lemma inv_released_all s :
  inv s -> arrived s = S num_threads ->
  next s = num_threads /\ running s = [] /\ main_waits s = true.
Proof using All.
  intros Hs Ha. pose proof (inv_arrived _ Hs). pose proof (inv_next _ Hs).
  destruct (main_waits s) eqn:E.
  - pose proof (inv_main _ Hs E). split_and!; [done| |done].
    apply length_zero_iff_nil. lia.
  - lia.
Qed.

Lemma sorter_inv_initial : inv (initial v).
Proof using All. split; simpl; first [done|lia|by constructor|intros; lia]. Qed.

Lemma inv_create s :
  inv s -> (next s < num_threads)%nat ->
  inv (Sorter (vec s) (S (next s)) (running s ++ [next s]) (arrived s) false
         (released s) (merged s)).
Proof using All.
  intros Hs Hn.
  assert (Hmw : main_waits s = false).
  { destruct (main_waits s) eqn:E; [|done]. pose proof (inv_main _ Hs E). lia. }
  pose proof (inv_arrived _ Hs) as Ha. rewrite Hmw in Ha.
  assert (Hnr : released s = false).
  { destruct (released s) eqn:E; [|done]. pose proof (inv_released _ Hs E). lia. }
  split; simpl.
  - apply (inv_perm _ Hs).
  - lia.
  - apply NoDup_app. split_and!; [apply (inv_nodup _ Hs)| |apply NoDup_singleton].
    intros i Hi ->%list_elem_of_singleton. pose proof (inv_running _ Hs) as Hr.
    rewrite Forall_forall in Hr. specialize (Hr _ Hi). lia.
  - apply Forall_app. split; [|repeat constructor].
    eapply Forall_impl; [apply (inv_running _ Hs)|]. intros; simpl in *. lia.
  - intros Hm i Hi Hni. apply (inv_sorted _ Hs Hm); [|set_solver].
    destruct (decide (i = next s)) as [->|]; [set_solver|lia].
  - rewrite length_app. simpl. lia.
  - done.
  - by rewrite Hnr.
  - intros Hm. pose proof (inv_merged _ Hs Hm) as [? _]. congruence.
Qed.

Lemma inv_worker s l1 i l2 count :
  inv s -> running s = l1 ++ i :: l2 ->
  count = Z.to_nat (thread_count per (length (vec s)) i) ->
  inv (Sorter (sort_range (thread_start per i) count (vec s)) (next s) (l1 ++ l2)
         (S (arrived s)) (main_waits s) (released s) (merged s)).
Proof using All.
  intros Hs Hr ->. rewrite (inv_length _ Hs).
  pose proof (inv_arrived _ Hs) as Ha. pose proof (inv_next _ Hs) as Hn.
  pose proof (inv_nodup _ Hs) as Hnd. pose proof (inv_running _ Hs) as Hall.
  rewrite Hr in Ha, Hnd, Hall. rewrite <- Permutation_middle in Hnd, Hall, Ha.
  apply NoDup_cons in Hnd as [Hi Hnd]. apply Forall_cons_1 in Hall as [Hin Hall].
  simpl in Ha.
  assert (Hnr : released s = false).
  { destruct (released s) eqn:E; [|done]. apply (inv_released _ Hs) in E.
    apply (inv_released_all _ Hs) in E as (_ & E & _). by rewrite Hr in E; destruct l1. }
  rewrite thread_count_eq, Nat2Z.id by lia.
  set (count := (Nat.min (i * per + per) (length v) - i * per)%nat).
  pose proof (start_lt i ltac:(lia)). pose proof (inv_length _ Hs) as Hl.
  split; simpl; try done.
  - rewrite sort_range_perm. apply (inv_perm _ Hs).
  - intros Hm j Hj Hnj. destruct (decide (j = i)) as [->|Hne].
    + apply sort_range_same. rewrite Hl. lia.
    + unfold thread_start. rewrite sort_range_other; [|done|lia].
      apply (inv_sorted _ Hs Hm); [done|]. rewrite Hr. set_solver.
  - lia.
  - apply (inv_main _ Hs).
  - by rewrite Hnr.
  - intros Hm. pose proof (inv_merged _ Hs Hm) as [? _]. congruence.
Qed.

Lemma inv_merge s :
  inv s -> released s = true -> merged s = false ->
  inv (Sorter (merge num_threads per (vec s)) (next s) (running s) (arrived s) (main_waits s)
         (released s) true).
Proof using All.
  intros Hs Hr Hm. pose proof (inv_released _ Hs Hr) as Ha.
  destruct (inv_released_all _ Hs Ha) as (Hn & Hrun & _).
  assert (Hmerge : merge num_threads per (vec s) = std_sort v).
  { rewrite merge_correct_aux.
    - apply std_sort_unique; [apply std_sort_sorted|].
      rewrite std_sort_perm. apply (inv_perm _ Hs).
    - by rewrite (inv_length _ Hs).
    - by rewrite (inv_perm _ Hs).
    - apply Forall_fmap, Forall_seq. intros i Hi. simpl.
      apply (inv_sorted _ Hs Hm); [lia|]. rewrite Hrun. set_solver. }
  split; simpl; try apply Hs; try done.
  rewrite Hmerge. apply std_sort_perm.
Qed.

Lemma sorter_inv_step s s' : inv s -> step s s' -> inv s'.
Proof using All.
  intros Hs Hst. destruct Hst as [s Hn Hc|s Hn Hc|s l1 i l2 count Hr Hc Hin|s Hn Hm|s Ha Hr|s Hr Hm].
  - by apply inv_create.
  - rewrite (inv_length _ Hs) in Hc. pose proof (thread_count_pos _ Hn). lia.
  - by apply inv_worker.
  - pose proof (inv_arrived _ Hs) as Ha. rewrite Hm in Ha.
    split; simpl; try apply Hs; try done; [lia|].
    intros Hr. pose proof (inv_released _ Hs Hr). lia.
  - split; simpl; try apply Hs; try done.
    intros Hm. destruct (inv_merged _ Hs Hm). congruence.
  - by apply inv_merge.
Qed.

Lemma sorter_inv_reachable s : reachable v s -> inv s.
Proof using All.
  intros Hr. apply (rtc_ind_r (fun s => inv s) (initial v)) in Hr; [done|apply sorter_inv_initial|].
  intros ???. eauto using sorter_inv_step.
Qed.

(** Steps left. *)
Definition measure (s : sorter) : nat :=
  2 * (num_threads - next s) + length (running s) +
  Nat.b2n (negb (main_waits s)) + Nat.b2n (negb (released s)) + Nat.b2n (negb (merged s)).

Lemma sorter_measure_step s s' : inv s -> step s s' -> measure s = S (measure s').
Proof using All.
  intros Hs Hst. unfold measure.
  destruct Hst as [s Hn Hc|s Hn Hc|s l1 i l2 count Hr Hc Hin|s Hn Hm|s Ha Hr|s Hr Hm]; simpl.
  - destruct (main_waits s) eqn:E; [pose proof (inv_main _ Hs E); lia|].
    rewrite length_app. simpl. lia.
  - rewrite (inv_length _ Hs) in Hc. pose proof (thread_count_pos _ Hn). lia.
  - rewrite Hr, !length_app. simpl. lia.
  - rewrite Hm. simpl. lia.
  - rewrite Hr. simpl. lia.
  - rewrite Hm. simpl. lia.
Qed.

Lemma sorter_measure_nsteps k s s' : inv s -> nsteps step k s s' -> (measure s = k + measure s')%nat.
Proof using All.
  intros Hs Hk. induction Hk as [|k s1 s2 s3 Hst Hk IH]; [done|].
  rewrite (sorter_measure_step _ _ Hs Hst), IH by eauto using sorter_inv_step. lia.
Qed.

Lemma sorter_progress s : inv s -> merged s = true \/ exists s', step s s'.
Proof using All.
  intros Hs. destruct (merged s) eqn:Hm; [by left|right].
  destruct (released s) eqn:Hr; [eexists; by apply step_merge|].
  destruct (decide (next s < num_threads)%nat) as [Hn|Hn].
  { eexists. apply step_create; [done|]. rewrite (inv_length _ Hs). by apply thread_count_pos. }
  pose proof (inv_next _ Hs). destruct (main_waits s) eqn:Hw.
  2:{ eexists. apply step_main_waits; [lia|done]. }
  destruct (running s) as [|i l] eqn:Hrun.
  - eexists. apply step_release; [|done]. pose proof (inv_arrived _ Hs) as Ha.
    rewrite Hw, Hrun in Ha. simpl in Ha. lia.
  - eexists. apply (step_worker _ [] i l); [done|done|].
    pose proof (inv_running _ Hs) as Hall. rewrite Hrun in Hall.
    apply Forall_cons_1 in Hall as [Hi _]. rewrite (inv_length _ Hs), thread_count_eq by lia.
    pose proof (start_lt i ltac:(lia)). unfold thread_start. lia.
Qed.

Lemma defined s : inv s -> ~ undefined s.
Proof using All.
  intros Hs (i & Hi & Hlt). pose proof (inv_running _ Hs) as Hall. rewrite Forall_forall in Hall.
  specialize (Hall _ Hi). pose proof (inv_next _ Hs).
  rewrite (inv_length _ Hs), thread_count_eq in Hlt by lia.
  pose proof (start_lt i ltac:(lia)). unfold thread_start in Hlt. lia.
Qed.

End Partition.
End Prog.

(** C5: [multithread_sort::sort] is correct under every interleaving of its threads whenever the
    last thread's slice is not empty (as for the 8000000 elements and 8 threads of [main]): no
    reachable state has a thread about to leave the vector, and when the merge is done the vector
    is the sorted original. *)
Theorem sort_correct n v s :
  let per := elements_per_thread (length v) n in
  Forall is_int v -> Z.of_nat (n * per) <= SIZE_MAX -> ((n - 1) * per < length v)%nat ->
  (0 < n)%nat -> reachable n per v s ->
  ~ undefined per s /\ (merged s = true -> vec s = std_sort v).
Proof.
  intros per Hint Hlen Hlast Hn Hr.
  assert (Hcov : (length v <= n * per)%nat) by (by apply elements_per_thread_cover).
  pose proof (sorter_inv_reachable n per v Hint Hlen Hlast Hcov s Hr) as Hs. split.
  - by eapply defined.
  - intros Hm. apply (inv_merged _ _ _ _ Hs Hm).
Qed.

(** under the same condition the sort ends under every schedule: no run has more than
    [2 n + 3] steps, and every reachable state that has not merged can take a step. *)
Theorem sort_terminates n v s k :
  let per := elements_per_thread (length v) n in
  Forall is_int v -> Z.of_nat (n * per) <= SIZE_MAX -> ((n - 1) * per < length v)%nat ->
  (0 < n)%nat -> nsteps (step n per) k (initial v) s ->
  (k <= 2 * n + 3)%nat /\ (merged s = true \/ exists s', step n per s s').
Proof.
  intros per Hint Hlen Hlast Hn Hk.
  assert (Hcov : (length v <= n * per)%nat) by (by apply elements_per_thread_cover).
  assert (Hr : reachable n per v s) by (apply rtc_nsteps; eauto). split.
  - pose proof (sorter_measure_nsteps n per v Hint Hlen Hlast Hcov k _ _ (sorter_inv_initial n per v Hint Hlen Hlast Hcov) Hk) as Hm.
    unfold measure in Hm. simpl in Hm. lia.
  - apply (sorter_progress n per v Hint Hlen Hlast Hcov). by apply sorter_inv_reachable.
Qed.

(** The condition on the partition holds when the number of threads divides the size, as in
    [main]. *)
Lemma partition_divides n k :
  (0 < n)%nat -> (0 < k)%nat -> ((n - 1) * elements_per_thread (n * k) n < n * k)%nat.
Proof.
  intros Hn Hk. unfold elements_per_thread.
  replace (n * k + n - 1)%nat with (k * n + (n - 1))%nat by lia.
  rewrite Nat.div_add_l, (Nat.div_small (n - 1) n), Nat.add_0_r by lia.
  destruct (Nat.eqb_spec k 0); nia.
Qed.

Lemma sort_correct_witness :
  let s := Sorter [1; 2; 3; 4; 5] 2 [] 3 true true true in
  ~ undefined 3 s /\ vec s = std_sort [3; 2; 5; 4; 1].
Proof.
  intros s.
  assert (Hr : reachable 2 (elements_per_thread (length [3; 2; 5; 4; 1]) 2) [3; 2; 5; 4; 1] s).
  { unfold reachable, initial.
    assert (Hl : forall y' x y z, step 2 3 x y -> y = y' -> rtc (step 2 3) y' z ->
                 rtc (step 2 3) x z) by (intros ????? <-; apply rtc_l; done).
    eapply (Hl (Sorter [3; 2; 5; 4; 1] 1 [0%nat] 0 false false false));
      [apply step_create; vm_compute; [lia|done]|done|].
    eapply (Hl (Sorter [3; 2; 5; 4; 1] 2 [0%nat; 1%nat] 0 false false false));
      [apply step_create; vm_compute; [lia|done]|done|].
    eapply (Hl (Sorter [3; 2; 5; 1; 4] 2 [0%nat] 1 false false false));
      [eapply (step_worker _ _ _ [0%nat] 1%nat []); [done|done|vm_compute; lia]|vm_compute; reflexivity|].
    eapply (Hl (Sorter [3; 2; 5; 1; 4] 2 [0%nat] 2 true false false));
      [by apply step_main_waits|done|].
    eapply (Hl (Sorter [2; 3; 5; 1; 4] 2 [] 3 true false false));
      [eapply (step_worker _ _ _ [] 0%nat []); [done|done|vm_compute; lia]|vm_compute; reflexivity|].
    eapply (Hl (Sorter [2; 3; 5; 1; 4] 2 [] 3 true true false)); [by apply step_release|done|].
    eapply (Hl s); [by apply step_merge|vm_compute; reflexivity|].
    apply rtc_refl. }
  destruct (sort_correct 2 [3; 2; 5; 4; 1] s) as [H1 H2].
  - unfold is_int, INT_MAX, INT_MIN. repeat constructor; lia.
  - vm_compute. discriminate.
  - vm_compute. lia.
  - lia.
  - exact Hr.
  - split; [exact H1|]. apply H2. reflexivity.
Defined.

Lemma sort_terminates_witness :
  exists s', step 2 (elements_per_thread 4 2) (initial [4; 3; 2; 1]) s'.
Proof.
  destruct (sort_terminates 2 [4; 3; 2; 1] (initial [4; 3; 2; 1]) 0) as [_ [Hm|Hs]].
  - unfold is_int, INT_MAX, INT_MIN. repeat constructor; lia.
  - vm_compute. discriminate.
  - vm_compute. lia.
  - lia.
  - constructor.
  - discriminate Hm.
  - exact Hs.
Defined.

(** ** When a slice is empty *)

Section Empty.
Context (n per : nat) (v : list Z).

(** Threads created by the loop among the first [k]. *)
Definition created (k : nat) : nat :=
  length (filter (fun i => 0 < thread_count per (length v) i) (seq 0 k)).

Lemma created_S k :
  created (S k) =
  (created k + if decide (0 < thread_count per (length v) k)%Z then 1 else 0)%nat.
Proof.
  unfold created. rewrite seq_S, filter_app, length_app. simpl. f_equal.
  rewrite filter_cons, filter_nil. by case_decide.
Qed.

Lemma created_le k : (created k <= k)%nat.
Proof.
  unfold created. etrans; [apply length_filter|]. by rewrite length_seq.
Qed.

Lemma created_lt i : (i < n)%nat -> thread_count per (length v) i = 0 -> (created n < n)%nat.
Proof.
  intros Hi H0. induction n as [|m IH]; [lia|]. rewrite created_S.
  destruct (decide (i = m)) as [->|].
  - rewrite H0, decide_False by lia. pose proof (created_le m). lia.
  - specialize (IH ltac:(lia)). case_decide; lia.
Qed.

Record stuck_inv (s : sorter) : Prop := {
  stuck_length : length (vec s) = length v;
  stuck_next : (next s <= n)%nat;
  stuck_arrived :
    (arrived s + length (running s) = created (next s) + Nat.b2n (main_waits s))%nat;
  stuck_main : main_waits s = true -> next s = n;
  stuck_released : released s = false;
}.

Lemma stuck_step s s' : (created n < n)%nat -> stuck_inv s -> step n per s s' -> stuck_inv s'.
Proof.
  intros Hlt [Hl Hn Ha Hm Hr] Hst.
  destruct Hst as [s Hs Hc|s Hs Hc|s l1 i l2 count Hrun Hc Hin|s Hs Hw|s Hs _|s Hs _]; simpl in *.
  - rewrite Hl in Hc. destruct (main_waits s); [specialize (Hm eq_refl); lia|].
    split; simpl; try done. rewrite created_S, decide_True, length_app by done. simpl in *. lia.
  - rewrite Hl in Hc. destruct (main_waits s); [specialize (Hm eq_refl); lia|].
    split; simpl; try done. rewrite created_S, decide_False by lia. simpl in *. lia.
  - split; simpl; try done; [by rewrite length_sort_range|].
    rewrite Hrun, length_app in Ha. simpl in Ha. rewrite length_app. lia.
  - split; simpl; try done. rewrite Hw in Ha. simpl in Ha. lia.
  - assert (created (next s) <= created n)%nat.
    { unfold created. replace n with (next s + (n - next s))%nat by lia.
      rewrite seq_app, filter_app, length_app. lia. }
    destruct (main_waits s); simpl in Ha; lia.
  - congruence.
Qed.

End Empty.

(** If the slice of some thread is empty, no thread is created for it although the barrier
    counts it: the barrier never opens, in no schedule, and [sort] never merges. *)
Theorem empty_slice_deadlocks n v i s :
  let per := elements_per_thread (length v) n in
  (i < n)%nat -> thread_count per (length v) i = 0 -> reachable n per v s ->
  released s = false.
Proof.
  intros per Hi H0 Hr. pose proof (created_lt n per v i Hi H0) as Hlt.
  apply (stuck_released n per v).
  apply (rtc_ind_r (fun s => stuck_inv n per v s) (initial v)) in Hr; [done| |].
  - split; simpl; try done; lia.
  - intros ??? Hst IH. by eapply stuck_step.
Qed.

Lemma empty_slice_deadlocks_witness :
  thread_count (elements_per_thread 4 3) 4 2 = 0 /\ released (initial [4; 3; 2; 1]) = false.
Proof.
  split; [reflexivity|].
  apply (empty_slice_deadlocks 3 [4; 3; 2; 1] 2); [lia|reflexivity|apply rtc_refl].
Defined.

(** Five elements and four threads: the start of the last slice is past the end, its count
    wraps around to a huge unsigned number and a thread is created that sorts outside of the
    vector. *)
Theorem slice_past_the_end_is_undefined :
  let per := elements_per_thread 5 4 in
  thread_count per 5 3 = SIZE_MAX /\
  exists s, reachable 4 per [5; 4; 3; 2; 1] s /\ undefined per s.
Proof.
  split; [reflexivity|].
  eexists. split.
  - unfold reachable, initial. do 4 (eapply rtc_l; [apply step_create; vm_compute; [lia|done]|]).
    apply rtc_refl.
  - exists 3%nat. split; [set_solver|]. vm_compute. done.
Qed.

End Threads.
