(* ===== verification/Time.v ===== *)
(** * Conversions of time: [lib/apue_time.cpp], the template of [lib/apue.h], [11/8]

    [std::chrono] counts ticks in 64-bit signed integers and [system_clock] ticks in nanoseconds;
    an operation whose result does not fit is undefined, [None] here. *)

From S2P Require Import Prelude.

Definition is_i64 (z : Z) : Prop := - 2 ^ 63 <= z < 2 ^ 63.

#[export] Instance is_i64_dec z : Decision (is_i64 z).
Proof. unfold is_i64. apply _. Defined.

(** The result of signed 64-bit arithmetic. *)
Definition i64 (z : Z) : option Z := if decide (is_i64 z) then Some z else None.

(** [std::chrono::duration_cast] between periods with quotient [num / den]: the library
    multiplies, divides, or does both, and integer division truncates. *)
Definition duration_cast (num den count : Z) : option Z :=
  if den =? 1 then (if num =? 1 then Some count else i64 (count * num))
  else if num =? 1 then Some (Z.quot count den)
  else p ← i64 (count * num); Some (Z.quot p den).

Definition NANO : Z := 1000000000.

Record timespec := Timespec { tv_sec : Z; tv_nsec : Z }.

#[export] Instance timespec_eq_dec : EqDecision timespec.
Proof. solve_decision. Defined.

(** [to_timespec(time_point)]: the argument is the time since the epoch. *)
Definition to_timespec (tp : Z) : option timespec :=
  sec ← duration_cast 1 NANO tp;
  sec_ns ← duration_cast NANO 1 sec;
  rest ← i64 (tp - sec_ns);
  nanosec ← duration_cast 1 1 rest;
  Some (Timespec (to_long sec) (to_long nanosec)).

Definition to_time_point (ts : timespec) : option Z :=
  sec_ns ← duration_cast NANO 1 (tv_sec ts);
  i64 (sec_ns + tv_nsec ts).

(** The template for a [duration] whose tick is [num / den] nanoseconds. *)
Definition to_timespec_duration (num den d : Z) : option timespec :=
  total_ns ← duration_cast num den d;
  secs ← duration_cast 1 NANO total_ns;
  secs_ns ← duration_cast NANO 1 secs;
  rem_nanos ← i64 (total_ns - secs_ns);
  Some (Timespec (to_long secs) (to_long rem_nanos)).

(** [to_timespec] of [11/8_usage_pthread_mutex_timedlock.cpp], with [time_point_cast]. *)
Definition to_timespec_timedlock (tp : Z) : option timespec :=
  secs ← duration_cast 1 NANO tp;
  secs_ns ← duration_cast NANO 1 secs;
  rest ← i64 (tp - secs_ns);
  ns ← duration_cast 1 1 rest;
  Some (Timespec secs ns).

(** The deadline of [main] in [11/8]: five seconds after now. *)
Definition timedlock_deadline (utc_time : Z) : option timespec :=
  five ← duration_cast NANO 1 5;
  utc_time ← i64 (utc_time + five);
  to_timespec_timedlock utc_time.

(** ** Facts *)

Lemma i64_Some z : is_i64 z -> i64 z = Some z.
Proof. intros. unfold i64. by rewrite decide_True. Qed.

(** Seconds and the rest, by truncating division. *)
Definition split_ns (tp : Z) : timespec := Timespec (Z.quot tp NANO) (Z.rem tp NANO).

Lemma split_range tp :
  is_i64 tp ->
  is_i64 (Z.quot tp NANO) /\ is_i64 (Z.quot tp NANO * NANO) /\ is_i64 (Z.rem tp NANO) /\
  - NANO < Z.rem tp NANO < NANO /\ tp = Z.quot tp NANO * NANO + Z.rem tp NANO.
Proof.
  intros Htp. pose proof (Z.quot_rem' tp NANO) as E.
  assert (Hr : - NANO < Z.rem tp NANO < NANO).
  { unfold NANO. destruct (Z.le_ge_cases 0 tp).
    - pose proof (Z.rem_bound_pos tp 1000000000). lia.
    - pose proof (Z.rem_bound_pos (- tp) 1000000000). rewrite Z.rem_opp_l' in *. lia. }
  assert (Hs : 0 <= tp -> 0 <= Z.rem tp NANO).
  { intros. by apply Z.rem_nonneg. }
  assert (Hs' : tp <= 0 -> Z.rem tp NANO <= 0).
  { intros. by apply Z.rem_nonpos. }
  unfold is_i64 in *. unfold NANO in *. lia.
Qed.

Lemma to_timespec_split tp : is_i64 tp -> to_timespec tp = Some (split_ns tp).
Proof.
  intros Htp. pose proof (split_range tp Htp) as (Hq & Hqn & Hr & _ & E).
  unfold to_timespec, duration_cast, split_ns. simpl.
  rewrite i64_Some by done. simpl.
  replace (tp - Z.quot tp NANO * NANO) with (Z.rem tp NANO) by lia.
  rewrite i64_Some by done. simpl. by rewrite !to_long_small.
Qed.

Lemma to_timespec_timedlock_eq tp : is_i64 tp -> to_timespec_timedlock tp = to_timespec tp.
Proof.
  intros Htp. pose proof (split_range tp Htp) as (Hq & Hqn & Hr & _ & E).
  unfold to_timespec, to_timespec_timedlock, duration_cast. simpl.
  rewrite i64_Some by done. simpl.
  replace (tp - Z.quot tp NANO * NANO) with (Z.rem tp NANO) by lia.
  rewrite i64_Some by done. simpl. by rewrite !to_long_small.
Qed.

(** C22: every representable time converts to a [timespec] and back without loss or overflow,
    and every normalised non-negative [timespec] that fits in the clock's range is the image of
    its [time_point]. *)
Theorem timespec_roundtrip :
  (forall tp, is_i64 tp -> exists ts, to_timespec tp = Some ts /\ to_time_point ts = Some tp) /\
  (forall s ns, 0 <= s -> 0 <= ns < NANO -> s * NANO + ns < 2 ^ 63 ->
     exists tp, to_time_point (Timespec s ns) = Some tp /\ to_timespec tp = Some (Timespec s ns)).
Proof.
  split.
  - intros tp Htp. exists (split_ns tp). split; [by apply to_timespec_split|].
    pose proof (split_range tp Htp) as (Hq & Hqn & Hr & _ & E).
    unfold to_time_point, duration_cast, split_ns. simpl.
    rewrite i64_Some by done. simpl. rewrite <- E. by rewrite i64_Some.
  - intros s ns Hs Hns Hfit. exists (s * NANO + ns).
    assert (H1 : is_i64 (s * NANO)) by (unfold is_i64, NANO in *; lia).
    assert (H2 : is_i64 (s * NANO + ns)) by (unfold is_i64, NANO in *; lia).
    split.
    + unfold to_time_point, duration_cast. simpl. rewrite i64_Some by done. simpl.
      by rewrite i64_Some.
    + rewrite to_timespec_split by done. unfold split_ns. do 2 f_equal.
      * symmetry. apply (Z.quot_unique _ _ _ ns); unfold NANO in *; lia.
      * symmetry. apply (Z.rem_unique _ _ s); unfold NANO in *; lia.
Qed.

Lemma timespec_roundtrip_witness :
  (exists ts, to_timespec 1700000000123456789 = Some ts /\ to_time_point ts = Some 1700000000123456789) /\
  (exists tp, to_time_point (Timespec 5 7) = Some tp /\ to_timespec tp = Some (Timespec 5 7)).
Proof.
  split; [apply (proj1 timespec_roundtrip)|apply (proj2 timespec_roundtrip)];
    unfold is_i64, NANO; lia.
Defined.

(** The fields are those POSIX asks of a deadline ([0 <= tv_nsec < 10^9]) exactly for times
    from the epoch on and for whole seconds before it; truncation gives every other time before
    the epoch a negative [tv_nsec].  The copy of the function in [11/8] agrees. *)
Theorem timespec_valid tp :
  is_i64 tp ->
  to_timespec_timedlock tp = to_timespec tp /\
  exists ts, to_timespec tp = Some ts /\ - NANO < tv_nsec ts < NANO /\
    (0 <= tv_nsec ts <-> 0 <= tp \/ (NANO | tp)).
Proof.
  intros Htp. pose proof (split_range tp Htp) as (Hq & Hqn & Hr & Hb & E).
  split; [by apply to_timespec_timedlock_eq|].
  exists (split_ns tp). split; [by apply to_timespec_split|]. split; [done|]. simpl.
  split.
  - intros H0. destruct (Z.le_gt_cases 0 tp); [by left|right].
    assert (Z.rem tp NANO <= 0) by (apply Z.rem_nonpos; [done|lia]).
    exists (Z.quot tp NANO). lia.
  - intros [H0|[q ->]].
    + by apply Z.rem_nonneg.
    + rewrite Z.rem_mul; [lia|done].
Qed.

Lemma timespec_valid_witness :
  exists ts, to_timespec (-1) = Some ts /\ tv_nsec ts = -1.
Proof.
  destruct (timespec_valid (-1)) as [_ (ts & E & Hb & _)]; [unfold is_i64; lia|].
  exists ts. split; [exact E|]. vm_compute in E. injection E as <-. reflexivity.
Defined.

(** The template agrees with [to_timespec] on the ticks of the clock, and scales coarser ticks. *)
Lemma to_timespec_duration_ns d : to_timespec_duration 1 1 d = to_timespec d.
Proof.
  unfold to_timespec_duration, to_timespec, duration_cast. simpl.
  destruct (i64 _) as [q|]; [|done]. simpl. by destruct (i64 _).
Qed.

Lemma to_timespec_duration_scaled num d :
  1 < num -> is_i64 (d * num) -> to_timespec_duration num 1 d = to_timespec (d * num).
Proof.
  intros Hn Hd. rewrite <- to_timespec_duration_ns. unfold to_timespec_duration.
  assert (E : duration_cast num 1 d = Some (d * num)); [|by rewrite E].
  unfold duration_cast. by rewrite (proj2 (Z.eqb_neq num 1)), i64_Some by (done || lia).
Qed.

(** The deadline [main] of [11/8] passes to [pthread_mutex_timedlock] is valid and exactly
    five seconds after the current time. *)
Theorem timedlock_deadline_correct now :
  0 <= now -> now + 5 * NANO < 2 ^ 63 ->
  exists ts, timedlock_deadline now = Some ts /\ 0 <= tv_nsec ts < NANO /\
    tv_sec ts * NANO + tv_nsec ts = now + 5 * NANO.
Proof.
  intros H0 H1. assert (Hi : is_i64 (now + 5 * NANO)) by (unfold is_i64, NANO in *; lia).
  pose proof (split_range _ Hi) as (Hq & Hqn & Hr & Hb & E).
  exists (split_ns (now + 5 * NANO)). split_and!.
  - unfold timedlock_deadline.
    replace (duration_cast NANO 1 5) with (Some (5 * NANO)) by done. cbn [mbind option_bind].
    rewrite i64_Some by done. rewrite <- to_timespec_split by done.
    by apply to_timespec_timedlock_eq.
  - simpl. apply Z.rem_nonneg; [done|unfold NANO; lia].
  - simpl. lia.
  - simpl. lia.
Qed.

Lemma timedlock_deadline_correct_witness :
  exists ts, timedlock_deadline 1700000000000000001 = Some ts /\ tv_nsec ts < NANO.
Proof.
  destruct (timedlock_deadline_correct 1700000000000000001) as (ts & E & [_ H] & _);
    [lia|unfold NANO; lia|]. exists ts. split; [exact E|exact H].
Defined.
