(* ===== verification/Locks.v ===== *)
(** * Record locks: [lib/apue_lock.cpp] and the lock templates of [lib/apue.h]

    [fcntl] record locking is the kernel's; [LockSpec] states what POSIX says of it, byte by byte.
    [LockTable] is a concrete lock table that satisfies it. *)

From S2P Require Import Prelude Machine Errors Kernel SimKernel.

Definition F_RDLCK : Z := 0.
Definition F_WRLCK : Z := 1.
Definition F_UNLCK : Z := 2.
Definition F_GETLK : Z := 5.
Definition F_SETLK : Z := 6.
Definition F_SETLKW : Z := 7.
Definition SEEK_SET : Z := 0.
Definition SEEK_CUR : Z := 1.
Definition SEEK_END : Z := 2.
Definition EACCES : Z := 13.
Definition EAGAIN : Z := 11.

Record flock := Flock { l_type : Z; l_whence : Z; l_start : Z; l_len : Z; l_pid : Z }.

(** [fcntl] with F_SETLK or F_SETLKW (the command is passed on), and with F_GETLK. *)
Class LockOps (W : Type) := {
  k_setlk : Z -> Z -> flock -> W -> sysres unit * W;   (* fd, cmd, lock *)
  k_getlk : Z -> flock -> W -> sysres flock * W;
}.

(** [l_type] is a [short]; [l_pid] of a fresh structure is indeterminate, [junk]. *)
Definition to_short (z : Z) : Z := wrap_signed 16 z.

Section Locks.
Context {W : Type} `{LockOps W} `{CLib}.
Context (junk : Z).

Definition fcntl_lock (fd cmd : Z) (fl : flock) : M W Z := syscall_unit (k_setlk fd cmd fl).

Definition lockfile (fd : Z) : M W Z :=
  fcntl_lock fd F_SETLK (Flock F_WRLCK SEEK_SET 0 0 junk).

Definition lock_reg (fd cmd type offset whence len : Z) : M W Z :=
  fcntl_lock fd cmd (Flock (to_short type) (to_short whence) offset len junk).

Definition file_lock (Cmd Type_ fd offset whence len : Z) : M W Z :=
  lock_reg fd Cmd Type_ offset whence len.

Definition read_lock := file_lock F_SETLK F_RDLCK.
Definition readw_lock := file_lock F_SETLKW F_RDLCK.
Definition write_lock := file_lock F_SETLK F_WRLCK.
Definition writew_lock := file_lock F_SETLKW F_WRLCK.
Definition un_lock := file_lock F_SETLK F_UNLCK.

Definition lock_test (fd type offset whence len : Z) : M W Z :=
  r ← syscall (k_getlk fd (Flock (to_short type) (to_short whence) offset len junk));
  match r with
  | SysErr _ => err_sys (str "fcntl error") []
  | SysOk lock => if l_type lock =? F_UNLCK then mret 0 else mret (l_pid lock)
  end.

Definition is_lockable (Type_ fd offset whence len : Z) : M W bool :=
  pid ← lock_test fd Type_ offset whence len; mret (pid =? 0).

Definition is_read_lockable := is_lockable F_RDLCK.
Definition is_write_lockable := is_lockable F_WRLCK.

End Locks.

(** ** What POSIX says *)

(** Two locks of different processes that exclude each other. *)
Definition conflict (t1 t2 : Z) : bool :=
  negb (t1 =? F_UNLCK) && negb (t2 =? F_UNLCK) && ((t1 =? F_WRLCK) || (t2 =? F_WRLCK)).

(** The bytes of a lock, from the position [base] its [l_whence] stands for; length 0 reaches to
    the end of the file, whatever its size becomes; a negative length lies before the start. *)
Definition covers (base start len b : Z) : bool :=
  if len =? 0 then base + start <=? b
  else if 0 <? len then (base + start <=? b) && (b <? base + start + len)
  else (base + start + len <=? b) && (b <? base + start).

Lemma covers_all b : 0 <= b -> covers 0 0 0 b = true.
Proof. intros. unfold covers. by apply Z.leb_le. Qed.

Class LockSpec (W : Type) `{LockOps W} := {
  me : W -> Z;                                  (* the calling process *)
  node : W -> Z -> option Z;                    (* the file a descriptor refers to *)
  base_of : W -> Z -> Z -> Z;                   (* what l_whence stands for on a descriptor *)
  lock_at : W -> Z -> Z -> Z -> Z;              (* file, process, byte: the lock it has *)
  base_set w fd : base_of w fd SEEK_SET = 0;
  me_pos w : 0 < me w;
  setlk_law fd cmd fl w r w' : k_setlk fd cmd fl w = (r, w') ->
    me w' = me w /\ node w' = node w /\
    match r with
    | SysOk _ =>
        exists f, node w fd = Some f /\
        (forall b pid, pid <> me w -> covers (base_of w fd (l_whence fl)) (l_start fl) (l_len fl) b ->
           conflict (l_type fl) (lock_at w f pid b) = false) /\
        (forall f' pid b, lock_at w' f' pid b =
           if (f' =? f) && (pid =? me w)
              && covers (base_of w fd (l_whence fl)) (l_start fl) (l_len fl) b
           then l_type fl else lock_at w f' pid b)
    | SysErr e =>
        (forall f' pid b, lock_at w' f' pid b = lock_at w f' pid b) /\
        (e = EACCES \/ e = EAGAIN -> exists f pid b,
           node w fd = Some f /\ pid <> me w /\
           covers (base_of w fd (l_whence fl)) (l_start fl) (l_len fl) b /\
           conflict (l_type fl) (lock_at w f pid b))
    end;
  getlk_law fd fl w r w' : k_getlk fd fl w = (r, w') ->
    w' = w /\
    match r with
    | SysOk fl' =>
        exists f, node w fd = Some f /\
        ((l_type fl' = F_UNLCK /\
          forall b pid, pid <> me w -> covers (base_of w fd (l_whence fl)) (l_start fl) (l_len fl) b ->
            conflict (l_type fl) (lock_at w f pid b) = false) \/
         (l_type fl' <> F_UNLCK /\ 0 < l_pid fl' /\ l_pid fl' <> me w /\
          exists b, covers (base_of w fd (l_whence fl)) (l_start fl) (l_len fl) b /\
            conflict (l_type fl) (lock_at w f (l_pid fl') b)))
    | SysErr _ => True
    end;
}.

(** Some other process has a lock in the region that excludes one of type [t]. *)
Definition blocked `{LockSpec W} (w : W) (fd t offset whence len : Z) (pid : Z) : Prop :=
  exists f b, node w fd = Some f /\ pid <> me w /\
    covers (base_of w fd whence) offset len b /\ conflict t (lock_at w f pid b).

Section LockFacts.
Context {W : Type} `{LS : LockSpec W} `{CLib}.
Context (junk : Z).
Implicit Types p : proc W.

(** [lock_test] decides whether a lock can be placed: it returns 0 exactly when no other
    process has a conflicting lock in the region, and otherwise the process id of one that does;
    it changes no lock, and if [fcntl] fails it reports and ends the program. *)
Theorem lock_test_spec fd t offset whence len p :
  wp (lock_test junk fd t offset whence len)
     (fun o p' => kern p' = kern p /\
        match o with
        | Ret pid =>
            (pid = 0 /\ forall q, ~ blocked (kern p) fd (to_short t) offset (to_short whence) len q) \/
            (0 < pid /\ blocked (kern p) fd (to_short t) offset (to_short whence) len pid)
        | Exited c => c = 1
        | _ => False
        end) p.
Proof.
  unfold lock_test. apply wp_bind_ret, returns_syscall. intros r w' E.
  apply getlk_law in E as [-> HE]. destruct r as [fl|e]; simpl in HE.
  - destruct HE as (f & Hf & [[Ht Hno]|(Ht & Hpos & Hme & b & Hb & Hc)]).
    + rewrite (proj2 (Z.eqb_eq _ _) Ht). apply wp_ret. simpl. split; [done|]. left.
      split; [done|]. intros q (f' & b & Hf' & Hq & Hb & Hc). simplify_eq.
      by rewrite (Hno b q Hq Hb) in Hc.
    + rewrite (proj2 (Z.eqb_neq _ _) Ht). apply wp_ret. simpl. split; [done|]. right.
      split; [done|]. by exists f, b.
  - unfold wp. by rewrite err_sys_eq.
Qed.

(** A lock that is granted was not blocked, and a refused one leaves the locks alone. *)
Lemma file_lock_spec cmd t fd offset whence len p :
  returns (file_lock junk cmd t fd offset whence len) (fun r p' =>
    console p' = console p /\ me (kern p') = me (kern p) /\ node (kern p') = node (kern p) /\
    ((r = 0 /\ (forall q, ~ blocked (kern p) fd (to_short t) offset (to_short whence) len q) /\
      exists f, node (kern p) fd = Some f /\
      forall f' pid b, lock_at (kern p') f' pid b =
        if (f' =? f) && (pid =? me (kern p)) && covers (base_of (kern p) fd (to_short whence)) offset len b
        then to_short t else lock_at (kern p) f' pid b) \/
     (r = -1 /\ (forall f' pid b, lock_at (kern p') f' pid b = lock_at (kern p) f' pid b) /\
      (errno p' = EACCES \/ errno p' = EAGAIN ->
       exists q, blocked (kern p) fd (to_short t) offset (to_short whence) len q)))) p.
Proof.
  unfold file_lock, lock_reg, fcntl_lock.
  apply returns_syscall_unit; intros *; intros E; apply setlk_law in E as (Hme & Hnode & HE);
    simpl in *; (split_and!; [done..|]).
  - left. destruct HE as (f & Hf & Hno & Hat). split_and!; [done| |eauto].
    intros q (f' & b & Hf' & Hq & Hb & Hc). simplify_eq. by rewrite (Hno b q Hq Hb) in Hc.
  - right. destruct HE as [Hat Hex]. split_and!; [done|done|].
    intros He. destruct (Hex He) as (f & pid & b & ?). by exists pid, f, b.
Qed.

(** the query and the request agree: a region that [is_write_lockable] refuses cannot be
    write-locked in the same state, and if [write_lock] fails on a region it accepted the failure
    is not a conflict (neither EACCES nor EAGAIN).  The same holds for read locks. *)
Theorem lockable_agrees fd offset whence len p b p1 t :
  t = F_RDLCK \/ t = F_WRLCK ->
  is_lockable junk t fd offset whence len p = (Ret b, p1) ->
  returns (file_lock junk F_SETLK t fd offset whence len) (fun r p' =>
    (b = false -> r = -1) /\
    (b = true -> r = -1 -> errno p' <> EACCES /\ errno p' <> EAGAIN)) p1.
Proof.
  intros Ht E. pose proof (lock_test_spec fd t offset whence len p) as Hw.
  unfold is_lockable, mbind, M_bind in E. unfold wp in Hw.
  destruct (lock_test junk fd t offset whence len p) as [o p0] eqn:E0. simpl in Hw.
  destruct Hw as [Hk Ho]. destruct o as [pid| | | |]; simplify_eq.
  assert (Hp : p0 = p1 /\ b = (pid =? 0)) by (unfold mret, M_ret in E; by simplify_eq).
  destruct Hp as [-> ->].
  eapply returns_mono; [apply file_lock_spec|]. rewrite Hk.
  intros r p' (_ & _ & _ & [(-> & Hfree & _)|(-> & _ & Hex)]);
    destruct Ho as [[-> Hno]|[Hpos Hbl]].
  - split; done.
  - exfalso. by eapply Hfree.
  - split; [done|]. intros _ _. split; intros He; destruct Hex as [q Hq]; eauto; by eapply Hno.
  - split; [done|]. intros Hb%Z.eqb_eq. lia.
Qed.

Lemma lockfile_eq fd : lockfile junk fd = file_lock junk F_SETLK F_WRLCK fd 0 SEEK_SET 0.
Proof. done. Qed.

(** The calling process has a write lock on the whole of file [f]. *)
Definition owns (w : W) (f pid : Z) : Prop := forall b, 0 <= b -> lock_at w f pid b = F_WRLCK.

(** [lockfile] gives the whole file to one process. *)
Lemma lockfile_owns fd p :
  returns (lockfile junk fd) (fun r p' =>
    console p' = console p /\ me (kern p') = me (kern p) /\ node (kern p') = node (kern p) /\
    ((r = 0 /\ exists f, node (kern p) fd = Some f /\ owns (kern p') f (me (kern p)) /\
        (forall q, q <> me (kern p) -> ~ owns (kern p) f q) /\
        (forall f' q b, q <> me (kern p) -> lock_at (kern p') f' q b = lock_at (kern p) f' q b)) \/
     (r = -1 /\ forall f' q b, lock_at (kern p') f' q b = lock_at (kern p) f' q b))) p.
Proof.
  rewrite lockfile_eq. eapply returns_mono; [apply file_lock_spec|].
  intros r p' (Hc & Hme & Hn & [(-> & Hfree & f & Hf & Hat)|(-> & Hat & _)]);
    (split_and!; [done..|]); [left|by right].
  rewrite base_set in Hat.
  split; [done|]. exists f. split_and!; [done| | |].
  - intros b Hb. rewrite Hat, !Z.eqb_refl, covers_all by done. done.
  - intros q Hq Ho. apply (Hfree q). exists f, 0. split_and!; [done|done| |].
    + rewrite base_set. done.
    + by rewrite (Ho 0).
  - intros f' q b Hq. rewrite Hat, (proj2 (Z.eqb_neq _ _) Hq).
    by rewrite andb_false_r.
Qed.

End LockFacts.
