(* ===== verification/LockTable.v ===== *)
(** * A concrete lock table

    A kernel with record locks that satisfies [LockSpec]; the witnesses of the theorems on locks
    run on it.  A lock request is pushed on a list, the first entry that covers a byte is the lock
    of its process there, and a conflict is searched at the end points of the intervals. *)

From S2P Require Import Prelude Machine Errors Kernel SimKernel Locks.

Record lockrec := LockRec { r_file : Z; r_pid : positive; r_type : Z; r_lo : Z; r_hi : option Z }.

Record ltab := Ltab {
  lt_sim : sim;
  lt_me : Z;
  lt_nodes : gmap Z Z;
  lt_locks : list lockrec;
}.

(** Process ids run from 1 to 32768. *)
Definition self (w : ltab) : positive := Z.to_pos (1 + lt_me w mod 32768).

Definition inside (lo : Z) (hi : option Z) (b : Z) : bool :=
  (lo <=? b) && match hi with Some h => b <? h | None => true end.

Definition entry_covers (f pid b : Z) (e : lockrec) : bool :=
  (r_file e =? f) && (Zpos (r_pid e) =? pid) && inside (r_lo e) (r_hi e) b.

Fixpoint table_at (l : list lockrec) (f pid b : Z) : Z :=
  match l with
  | [] => F_UNLCK
  | e :: l => if entry_covers f pid b e then r_type e else table_at l f pid b
  end.

(** The interval of a request. *)
Definition interval (start len : Z) : Z * option Z :=
  if len =? 0 then (start, None)
  else if 0 <? len then (start, Some (start + len)) else (start + len, Some start).

Definition endpoints (l : list lockrec) : list Z :=
  l ≫= (fun e => r_lo e :: from_option (fun h => [h]) [] (r_hi e)).

(** Points at which a conflict of the interval would show, and who has it. *)
Definition find_conflict (l : list lockrec) (f self t lo : Z) (hi : option Z) : option (Z * Z) :=
  let points := filter (fun b => inside lo hi b) (lo :: endpoints l) in
  let pids := filter (fun q => q <> self) ((fun e => Zpos (r_pid e)) <$> l) in
  snd <$> list_find (fun x => conflict t (table_at l f x.1 x.2)) (pids ≫= fun q => (q,.) <$> points).

Definition lt_setlk (fd cmd : Z) (fl : flock) (w : ltab) : sysres unit * ltab :=
  match lt_nodes w !! fd with
  | None => (SysErr EBADF, w)
  | Some f =>
      let '(lo, hi) := interval (l_start fl) (l_len fl) in
      match find_conflict (lt_locks w) f (Zpos (self w)) (l_type fl) lo hi with
      | Some _ => (SysErr (if cmd =? F_SETLKW then 4 else EAGAIN), w)
      | None =>
          (SysOk tt, Ltab (lt_sim w) (lt_me w) (lt_nodes w)
                       (LockRec f (self w) (l_type fl) lo hi :: lt_locks w))
      end
  end.

Definition lt_getlk (fd : Z) (fl : flock) (w : ltab) : sysres flock * ltab :=
  match lt_nodes w !! fd with
  | None => (SysErr EBADF, w)
  | Some f =>
      let '(lo, hi) := interval (l_start fl) (l_len fl) in
      match find_conflict (lt_locks w) f (Zpos (self w)) (l_type fl) lo hi with
      | Some (q, b) =>
          (SysOk (Flock (table_at (lt_locks w) f q b) SEEK_SET b 1 q), w)
      | None => (SysOk (Flock F_UNLCK (l_whence fl) (l_start fl) (l_len fl) (l_pid fl)), w)
      end
  end.

#[export] Instance lt_ops : LockOps ltab := { k_setlk := lt_setlk; k_getlk := lt_getlk }.

(** ** The search is complete *)

Lemma max_below (C : list Z) b :
  (exists c, c ∈ C /\ c <= b) -> exists m, m ∈ C /\ m <= b /\ forall c, c ∈ C -> c <= b -> c <= m.
Proof.
  induction C as [|x C IH]; intros (c & Hc & Hle); [by apply not_elem_of_nil in Hc|].
  destruct (decide (Exists (fun c => c <= b) C)) as [Hex|Hno].
  - apply Exists_exists in Hex as (c' & ? & ?).
    destruct IH as (m & Hm & Hmb & Hmax); [by exists c'|].
    destruct (decide (m < x /\ x <= b)) as [[? ?]|Hx].
    + exists x. split_and!; [by constructor|done|].
      intros d [->|Hd]%elem_of_cons Hdb; [done|]. specialize (Hmax _ Hd Hdb). lia.
    + exists m. split_and!; [by constructor|done|].
      intros d [->|Hd]%elem_of_cons Hdb; [lia|by apply Hmax].
  - assert (Hall : forall d, d ∈ C -> ~ d <= b).
    { intros d Hd Hdb. apply Hno. apply Exists_exists. eauto. }
    apply elem_of_cons in Hc as [->|Hc]; [|by destruct (Hall _ Hc)].
    exists x. split_and!; [by constructor|done|].
    intros d [->|Hd]%elem_of_cons Hdb; [done|by destruct (Hall _ Hd)].
Qed.

Lemma endpoints_lo l e : e ∈ l -> r_lo e ∈ endpoints l.
Proof. intros. apply list_elem_of_bind. exists e. split; [constructor|done]. Qed.

Lemma endpoints_hi l e h : e ∈ l -> r_hi e = Some h -> h ∈ endpoints l.
Proof.
  intros He Hh. apply list_elem_of_bind. exists e. split; [|done]. rewrite Hh. simpl. set_solver.
Qed.

Lemma inside_true lo hi b : inside lo hi b <-> lo <= b /\ forall h, hi = Some h -> b < h.
Proof.
  unfold inside. rewrite andb_True. split.
  - intros [H1%Is_true_true%Z.leb_le H2]. split; [done|]. intros h ->.
    by apply Is_true_true, Z.ltb_lt in H2.
  - intros [H1 H2]. split; [by apply Is_true_true, Z.leb_le|].
    destruct hi as [h|]; [|done]. by apply Is_true_true, Z.ltb_lt, H2.
Qed.

Lemma inside_iff lo hi b b' :
  (lo <= b <-> lo <= b') -> (forall h, hi = Some h -> (b < h <-> b' < h)) ->
  inside lo hi b = inside lo hi b'.
Proof.
  intros H1 H2. apply eq_bool_prop_intro. rewrite !inside_true. rewrite H1.
  split; intros [? Hh]; (split; [done|]); intros h E; apply (H2 _ E), Hh, E.
Qed.

(** Every byte of an interval has the locks of one of the points searched. *)
Lemma representative l lo hi b :
  inside lo hi b ->
  exists b', b' ∈ lo :: endpoints l /\ inside lo hi b' /\
    forall l' f pid, l' ⊆ l -> table_at l' f pid b' = table_at l' f pid b.
Proof.
  intros Hin. pose proof Hin as [Hlo Hhi]%inside_true.
  destruct (max_below (lo :: endpoints l) b) as (m & Hm & Hmb & Hmax).
  { exists lo. split; [constructor|done]. }
  exists m. split_and!; [done| |].
  - apply inside_true. split; [apply Hmax; [constructor|done]|].
    intros h E. specialize (Hhi _ E). lia.
  - intros l' f pid. induction l' as [|e l' IH]; intros Hsub; [done|]. simpl.
    assert (He : e ∈ l) by (apply Hsub; constructor).
    unfold entry_covers. rewrite (inside_iff (r_lo e) (r_hi e) m b).
    + rewrite IH; [done|]. intros x Hx. apply Hsub. by constructor.
    + split; [lia|]. intros Hb. apply Hmax; [constructor; by apply endpoints_lo|done].
    + intros h Eh. split; [|lia]. intros Hmh. destruct (Z.lt_ge_cases b h) as [|Hge]; [done|].
      assert (h <= m); [|lia]. apply Hmax; [constructor; by eapply endpoints_hi|done].
Qed.

Lemma table_at_pid l f pid b : table_at l f pid b <> F_UNLCK -> pid ∈ (fun e => Zpos (r_pid e)) <$> l.
Proof.
  induction l as [|e l IH]; [done|]. simpl. unfold entry_covers.
  destruct (Z.eqb_spec (Zpos (r_pid e)) pid) as [<-|Hne]; [constructor|].
  rewrite andb_false_r. simpl. intros H. constructor. by apply IH.
Qed.

Lemma conflict_locked t1 t2 : conflict t1 t2 -> t2 <> F_UNLCK.
Proof. unfold conflict. intros H ->. by rewrite andb_false_r in H. Qed.

Lemma find_conflict_Some l f self t lo hi q b :
  find_conflict l f self t lo hi = Some (q, b) ->
  inside lo hi b /\ q <> self /\ 0 < q /\ conflict t (table_at l f q b).
Proof.
  unfold find_conflict. intros ((i & x) & Hf & E)%fmap_Some. simpl in E. subst x.
  apply list_find_Some in Hf as (Hi & Hc & _).
  apply list_elem_of_lookup_2 in Hi.
  apply list_elem_of_bind in Hi as (q' & Hi & Hq').
  apply list_elem_of_fmap in Hi as (b' & E & Hb'). simplify_eq.
  apply list_elem_of_filter in Hb' as [? _]. apply list_elem_of_filter in Hq' as [? Hq'].
  apply list_elem_of_fmap in Hq' as (e & -> & _). done.
Qed.

Lemma find_conflict_None l f self t lo hi :
  find_conflict l f self t lo hi = None ->
  forall q b, q <> self -> inside lo hi b -> conflict t (table_at l f q b) = false.
Proof.
  intros Hn q b Hq Hb. apply not_true_is_false. intros Hc%Is_true_true.
  destruct (representative l lo hi b Hb) as (b' & Hin & Hb' & Hsame).
  unfold find_conflict in Hn. apply fmap_None, list_find_None in Hn.
  rewrite Forall_forall in Hn.
  apply (Hn (q, b')); [|simpl; by rewrite Hsame].
  apply list_elem_of_bind. exists q. split.
  - apply list_elem_of_fmap. exists b'. split; [done|]. apply list_elem_of_filter. done.
  - assert (Hqp : q ∈ (fun e => Zpos (r_pid e)) <$> l) by (by eapply table_at_pid, conflict_locked).
    by apply list_elem_of_filter.
Qed.

Lemma interval_covers start len b :
  let '(lo, hi) := interval start len in covers 0 start len b = inside lo hi b.
Proof.
  unfold interval, covers, inside. destruct (len =? 0); [by rewrite andb_true_r|].
  by destruct (0 <? len).
Qed.

#[export, refine] Instance lt_spec : LockSpec ltab := {
  me w := Zpos (self w);
  node w fd := lt_nodes w !! fd;
  base_of _ _ _ := 0;
  lock_at w f pid b := table_at (lt_locks w) f pid b;
}.
Proof.
  - done.
  - done.
  - intros fd cmd fl w r w' E. simpl in E. unfold lt_setlk in E.
    destruct (lt_nodes w !! fd) as [f|] eqn:Ef; simplify_eq;
      [|split_and!; [done..|intros [?|?]; done]].
    pose proof (interval_covers (l_start fl) (l_len fl)) as Hcov.
    destruct (interval (l_start fl) (l_len fl)) as [lo hi].
    destruct (find_conflict _ _ _ _ _ _) as [[q b]|] eqn:Ec; simplify_eq.
    + apply find_conflict_Some in Ec as (Hb & Hq & Hpos & Hc). split_and!; [done..|].
      intros _. exists f, q, b. rewrite Hcov. done.
    + split_and!; [done..|]. exists f. split_and!; [done| |].
      * intros b pid Hpid Hb. rewrite Hcov in Hb. by eapply find_conflict_None.
      * intros f' pid b. rewrite Hcov. simpl. unfold entry_covers. simpl.
        by rewrite (Z.eqb_sym f' f), (Z.eqb_sym pid).
  - intros fd fl w r w' E. simpl in E. unfold lt_getlk in E.
    destruct (lt_nodes w !! fd) as [f|] eqn:Ef; simplify_eq; [|done].
    pose proof (interval_covers (l_start fl) (l_len fl)) as Hcov.
    destruct (interval (l_start fl) (l_len fl)) as [lo hi].
    destruct (find_conflict _ _ _ _ _ _) as [[q b]|] eqn:Ec; simplify_eq; (split; [done|]).
    + apply find_conflict_Some in Ec as (Hb & Hq & Hpos & Hc).
      exists f. split; [done|]. right. simpl. split_and!; [by eapply conflict_locked|done|done|].
      exists b. by rewrite Hcov.
    + exists f. split; [done|]. left. split; [done|].
      intros b pid Hpid Hb. rewrite Hcov in Hb. by eapply find_conflict_None.
Defined.

(** ** Its files

    Descriptors are those of [SimKernel]; a path names one file.  Closing a descriptor drops the
    locks its process has on the file. *)

Definition lift {A} (f : sim -> sysres A * sim) (w : ltab) : sysres A * ltab :=
  let '(r, s) := f (lt_sim w) in (r, Ltab s (lt_me w) (lt_nodes w) (lt_locks w)).

Definition path_node (path : bytes) : Z := Zpos (encode path).

Definition lt_open (path : bytes) (flags mode : Z) (w : ltab) : sysres Z * ltab :=
  match lift (k_open path flags mode) w with
  | (SysOk fd, w) =>
      (SysOk fd, Ltab (lt_sim w) (lt_me w) (<[fd := path_node path]> (lt_nodes w)) (lt_locks w))
  | (SysErr e, w) => (SysErr e, w)
  end.

Definition drop_locks (f : Z) (pid : positive) (l : list lockrec) : list lockrec :=
  filter (fun e => ~ (r_file e = f /\ r_pid e = pid)) l.

Definition lt_close (fd : Z) (w : ltab) : sysres unit * ltab :=
  match lift (k_close fd) w with
  | (SysOk _, w) =>
      (SysOk tt, Ltab (lt_sim w) (lt_me w) (delete fd (lt_nodes w))
                   (from_option (fun f => drop_locks f (self w) (lt_locks w)) (lt_locks w)
                      (lt_nodes w !! fd)))
  | (SysErr e, w) => (SysErr e, w)
  end.

#[export] Instance lt_file : FileOps ltab := {
  k_read fd n := lift (k_read fd n);
  k_write fd b := lift (k_write fd b);
  k_open := lt_open;
  k_close := lt_close;
  k_dup fd := lift (k_dup fd);
  k_ftruncate fd n := lift (k_ftruncate fd n);
  k_fsync fd := lift (k_fsync fd);
  k_getfd fd := lift (k_getfd fd);
  k_setfd fd v := lift (k_setfd fd v);
  k_getfl fd := lift (k_getfl fd);
  k_setfl fd v := lift (k_setfl fd v);
}.

Lemma table_at_drop l f0 pid0 f pid b :
  pid <> Zpos pid0 -> table_at (drop_locks f0 pid0 l) f pid b = table_at l f pid b.
Proof.
  intros Hne. induction l as [|e l IH]; [done|]. unfold drop_locks in *.
  rewrite filter_cons. case_decide as Hd; simpl; [by rewrite IH|].
  destruct Hd as [<- <-]. unfold entry_covers.
  rewrite (proj2 (Z.eqb_neq (Zpos (r_pid e)) pid)) by done. by rewrite andb_false_r.
Qed.

(** Process 1 of a system where process 2 has write-locked bytes 10 to 19 of the file
    descriptor 3 refers to. *)
Definition lt0 : proc ltab :=
  Proc 0 true [] (Ltab (kern sim0) 0 {[ 3 := 7 ]} [LockRec 7 2 F_WRLCK 10 (Some 20)]).

Lemma lockable_agrees_witness :
  returns (file_lock 0 F_SETLK F_WRLCK 3 5 SEEK_SET 10)
    (fun r p' => r = -1) lt0.
Proof.
  pose proof (lockable_agrees 0 3 5 SEEK_SET 10 lt0 false lt0 F_WRLCK) as H.
  eapply returns_mono; [apply H|].
  - right. reflexivity.
  - vm_compute. reflexivity.
  - intros r p' [Hr _]. apply Hr. reflexivity.
Defined.

Example lock_test_example :
  (lock_test 0 3 F_RDLCK 0 SEEK_SET 0 lt0).1 = Ret 2 /\
  (lock_test 0 3 F_WRLCK 20 SEEK_SET 0 lt0).1 = Ret 0 /\
  (write_lock 0 3 20 SEEK_SET 0 lt0).1 = Ret 0.
Proof. vm_compute. done. Qed.
