(* ===== verification/Daemon.v ===== *)
(** * Daemons: [lib/apue_daemon.cpp] and [13/2], [13/3]

    [daemonize] and [already_running], the main program of the single-instance daemon, and the
    signal thread of the daemons that reread their configuration. *)

From S2P Require Import Prelude Machine Errors Kernel SimKernel Text FileIO Locks LockTable.

(** ** Process attributes *)

Class ProcOps (W : Type) := {
  k_umask : Z -> W -> W;
  k_getrlimit : Z -> W -> sysres (Z * Z) * W;     (* resource: soft and hard limit *)
  k_fork : W -> sysres Z * W;                     (* 0 in the child *)
  k_setsid : W -> sysres Z * W;
  k_sigignore : Z -> W -> sysres unit * W;        (* sigaction with SIG_IGN *)
  k_chdir : bytes -> W -> sysres unit * W;
}.

Record attrs := Attrs { a_umask : Z; a_cwd : bytes; a_ignored : gset Z; a_leader : bool }.

(** What POSIX says of them: the attributes a call sets, and that it keeps the descriptors; a
    process made by [fork] leads no session. *)
Class ProcSpec (W : Type) `{FS : FdSpec W} `{ProcOps W} := {
  attrs_of : W -> attrs;
  hard_limit : W -> Z;                            (* of RLIMIT_NOFILE *)
  umask_law m w : fds (k_umask m w) = fds w /\ hard_limit (k_umask m w) = hard_limit w /\
    attrs_of (k_umask m w) = Attrs m (a_cwd (attrs_of w)) (a_ignored (attrs_of w)) (a_leader (attrs_of w));
  getrlimit_law w r w' : k_getrlimit 7 w = (r, w') -> w' = w /\
    (forall lim, r = SysOk lim -> lim.2 = hard_limit w);
  fork_law w r w' : k_fork w = (r, w') ->
    fds w' = fds w /\ hard_limit w' = hard_limit w /\
    (r = SysOk 0 -> attrs_of w' = Attrs (a_umask (attrs_of w)) (a_cwd (attrs_of w))
                                    (a_ignored (attrs_of w)) false);
  setsid_law w r w' : k_setsid w = (r, w') ->
    fds w' = fds w /\ hard_limit w' = hard_limit w /\ a_umask (attrs_of w') = a_umask (attrs_of w) /\
    a_cwd (attrs_of w') = a_cwd (attrs_of w) /\ a_ignored (attrs_of w') = a_ignored (attrs_of w);
  sigignore_law s w r w' : k_sigignore s w = (r, w') ->
    fds w' = fds w /\ hard_limit w' = hard_limit w /\
    (r = SysOk tt -> a_umask (attrs_of w') = a_umask (attrs_of w) /\
       a_cwd (attrs_of w') = a_cwd (attrs_of w) /\ a_ignored (attrs_of w') = {[s]} ∪ a_ignored (attrs_of w));
  chdir_law d w r w' : k_chdir d w = (r, w') ->
    fds w' = fds w /\ hard_limit w' = hard_limit w /\
    (r = SysOk tt -> attrs_of w' = Attrs (a_umask (attrs_of w)) d (a_ignored (attrs_of w))
                                     (a_leader (attrs_of w)));
  open_attrs path fl m w : attrs_of (k_open path fl m w).2 = attrs_of w;
  dup_attrs fd w : attrs_of (k_dup fd w).2 = attrs_of w;
  close_attrs fd w : attrs_of (k_close fd w).2 = attrs_of w;
}.

Definition SIGHUP : Z := 1.
Definition SIGTERM : Z := 15.
Definition RLIMIT_NOFILE : Z := 7.
Definition RLIM_INFINITY : Z := 18446744073709551615.
Definition O_RDWR : Z := 2.
Definition O_CREAT : Z := 64.
Definition LOCKFILE : bytes := str "/var/run/daemon.pid".
Definition LOCKMODE : Z := 420.

Section Daemonize.
Context {W : Type} `{FileOps W} `{ProcOps W} `{CLib}.

(** [for (i = 0; i < n; i++) close(i)]: the descriptor is an [int]. *)
Fixpoint close_from (i : Z) (n : nat) : M W unit :=
  match n with
  | O => mret tt
  | S n => close (to_int i) ;; close_from (i + 1) n
  end.

(** Descriptors 0, 1 and 2 of the daemon, after every other was closed. *)
Definition open_null : M W unit :=
  fd0 ← open (str "/dev/null") O_RDWR 0;
  fd1 ← dup 0;
  fd2 ← dup 0;
  if negb (fd0 =? 0) || negb (fd1 =? 1) || negb (fd2 =? 2) then
    emit (Syslog LOG_ERR (str "error fd " ++ to_string fd0 ++ str " " ++ to_string fd1
                            ++ str " " ++ to_string fd2)) ;;
    sys_exit 1
  else set_log_to_stderr false.

(** From [setsid] on, in the first child. *)
Definition daemonize_child (cmd : bytes) (rlim_max : Z) : M W unit :=
  syscall_int k_setsid ;;
  r ← syscall_unit (k_sigignore SIGHUP);
  if r <? 0 then err_quit (str "{}: call sigaction to ignore SIGHUP") [cmd]
  else
    pid ← syscall_int k_fork;
    if pid <? 0 then err_quit (str "{}: call fork") [cmd]
    else if negb (pid =? 0) then sys_exit 0
    else
      r ← syscall_unit (k_chdir (str "/"));
      if r <? 0 then err_quit (str "{}: call chdir(" ++ [34] ++ str "/" ++ [34] ++ str ")") [cmd]
      else
        let rlim_max := if rlim_max =? RLIM_INFINITY then 1024 else rlim_max in
        close_from 0 (Z.to_nat rlim_max) ;; open_null.

Definition daemonize (cmd : bytes) : M W unit :=
  (fun p => (Ret tt, Proc (errno p) (log_to_stderr p) (console p) (k_umask 0 (kern p)))) ;;
  rl ← syscall (k_getrlimit RLIMIT_NOFILE);
  match rl with
  | SysErr _ => err_quit (str "{}: cant get max descriptor number") [cmd]
  | SysOk (_, rlim_max) =>
      pid ← syscall_int k_fork;
      if pid <? 0 then err_quit (str "{}: call fork") [cmd]
      else if negb (pid =? 0) then sys_exit 0
      else daemonize_child cmd rlim_max
  end.

End Daemonize.

(** ** [daemonize] *)

Section DaemonizeFacts.
Context {W : Type} `{PS : ProcSpec W} `{CLib}.
Implicit Types p : proc W.

Lemma close_from_spec i n p :
  0 <= i -> i + Z.of_nat n <= 2147483648 ->
  returns (close_from i n) (fun _ p' =>
    attrs_of (kern p') = attrs_of (kern p) /\ log_to_stderr p' = log_to_stderr p /\
    console p' = console p /\
    forall x, x ∈ fds (kern p') <-> x ∈ fds (kern p) /\ ~ (i <= x < i + Z.of_nat n)) p.
Proof.
  revert i p. induction n as [|n IH]; intros i p Hi Hn; simpl.
  - mstep. split_and!; [done..|]. intros x. split; [|tauto]. intros. split; [done|lia].
  - rewrite to_int_small by (unfold is_int, INT_MAX, INT_MIN; lia).
    mstep. unfold close.
    assert (Hk : forall e r w', k_close i (kern p) = (r, w') ->
      returns (close_from (i + 1) n) (fun _ p' =>
        attrs_of (kern p') = attrs_of (kern p) /\ log_to_stderr p' = log_to_stderr p /\
        console p' = console p /\
        forall x, x ∈ fds (kern p') <-> x ∈ fds (kern p) /\ ~ (i <= x < i + Z.of_nat (S n)))
        (Proc e (log_to_stderr p) (console p) w')).
    { intros e r w' E. pose proof (close_fds _ _ _ _ E) as Hf.
      pose proof (close_attrs i (kern p)) as Ha. rewrite E in Ha. simpl in Ha.
      eapply returns_mono; [apply IH; lia|]. simpl. intros _ p' (Ha' & Hl & Hc & Hx).
      split_and!; [congruence|done|done|]. intros x. rewrite Hx, Hf.
      rewrite elem_of_difference, elem_of_singleton.
      split; [intros [[? ?] ?]|intros [? ?]]; split_and!; (done || lia). }
    apply returns_syscall_unit; intros; by eapply Hk.
Qed.

(** On a table that holds exactly the descriptors below [n], a new descriptor is [n]. *)
Lemma alloc_next (n : Z) s r s' :
  0 <= n -> (forall x, x ∈ s <-> 0 <= x < n) -> fd_alloc s r s' ->
  match r with SysOk fd => fd = n /\ (forall x, x ∈ s' <-> 0 <= x < n + 1) | SysErr _ => True end.
Proof.
  intros Hn Hs Ha. destruct r as [fd|e]; [|done].
  destruct Ha as (Hpos & Hni & -> & Hlow).
  assert (fd = n) as ->.
  { rewrite Hs in Hni. destruct (decide (n < fd)) as [Hlt|]; [|lia].
    specialize (Hlow n ltac:(lia)). rewrite Hs in Hlow. lia. }
  split; [done|]. intros x. rewrite elem_of_union, elem_of_singleton, Hs. lia.
Qed.

Lemma wp_alloc n (f : W -> sysres Z * W) (k : Z -> M W unit) Q p :
  (forall r w', f (kern p) = (r, w') ->
     fd_alloc (fds (kern p)) r (fds w') /\ attrs_of w' = attrs_of (kern p)) ->
  0 <= n -> (forall x, x ∈ fds (kern p) <-> 0 <= x < n) ->
  (forall w', (forall x, x ∈ fds w' <-> 0 <= x < n + 1) -> attrs_of w' = attrs_of (kern p) ->
     wp (k n) Q (Proc (errno p) (log_to_stderr p) (console p) w')) ->
  (forall e w', wp (k (-1)) Q (Proc e (log_to_stderr p) (console p) w')) ->
  wp (syscall_int f ≫= k) Q p.
Proof.
  intros Hf Hn Hx Hok Herr. apply wp_bind_ret, returns_syscall_int; [|auto].
  intros fd w' E. apply Hf in E as [Ha Hat]. apply (alloc_next n) in Ha as [-> Hx']; auto.
Qed.

Definition descriptor_limit (w : W) : Z :=
  if hard_limit w =? RLIM_INFINITY then 1024 else hard_limit w.

(** The attributes of a daemon. *)
Definition daemon_state (p : proc W) : Prop :=
  (forall fd, fd ∈ fds (kern p) <-> 0 <= fd < 3) /\
  a_umask (attrs_of (kern p)) = 0 /\ a_cwd (attrs_of (kern p)) = str "/" /\
  SIGHUP ∈ a_ignored (attrs_of (kern p)) /\ a_leader (attrs_of (kern p)) = false /\
  log_to_stderr p = false.

Definition daemonize_post (p : proc W) (o : outcome unit) (p' : proc W) : Prop :=
  match o with
  | Ret _ => daemon_state p' /\ console p' = console p
  | Exited 0 => console p' = console p
  | Exited 1 => exists m, console p' = console p ++ [m]
  | _ => False
  end.

Lemma open_null_spec p0 p :
  (forall x, x ∉ fds (kern p)) -> console p = console p0 ->
  a_umask (attrs_of (kern p)) = 0 /\ a_cwd (attrs_of (kern p)) = str "/" /\
    SIGHUP ∈ a_ignored (attrs_of (kern p)) /\ a_leader (attrs_of (kern p)) = false ->
  wp open_null (daemonize_post p0) p.
Proof.
  intros Hempty Hc Hat.
  assert (Hfail : forall s q, console q = console p0 ->
    wp (emit s ;; sys_exit 1) (daemonize_post p0) q).
  { intros s q Hq. wstep. wstep. rewrite Hq. eauto. }
  unfold open_null, open, dup.
  assert (Hdup : forall w r w', k_dup 0 w = (r, w') ->
    fd_alloc (fds w) r (fds w') /\ attrs_of w' = attrs_of w).
  { intros w r w' E. split; [by eapply dup_fds|]. pose proof (dup_attrs 0 w) as Ha.
    by rewrite E in Ha. }
  apply (wp_alloc 0); [|lia|intros x; split; [by intros ?%Hempty|lia]| |].
  { intros r w' E. split; [by eapply open_fds|].
    pose proof (open_attrs (str "/dev/null") O_RDWR 0 (kern p)) as Ha. by rewrite E in Ha. }
  2:{ intros e w'. repeat wstep; by apply Hfail. }
  intros w1 Hx1 Ha1. apply (wp_alloc 1); [apply Hdup|lia|done| |].
  2:{ intros e w'. repeat wstep; by apply Hfail. }
  simpl. intros w2 Hx2 Ha2. apply (wp_alloc 2); [apply Hdup|lia|done| |].
  2:{ intros e w'. by apply Hfail. }
  simpl. intros w3 Hx3 Ha3. red. simpl. split; [|done]. unfold daemon_state. simpl.
  destruct Hat as (? & ? & ? & ?). rewrite Ha3, Ha2, Ha1. by split_and!.
Qed.

Lemma daemonize_child_spec p0 p cmd :
  (forall fd, fd ∈ fds (kern p) -> 0 <= fd < descriptor_limit (kern p0)) ->
  descriptor_limit (kern p0) <= 2147483648 -> console p = console p0 ->
  a_umask (attrs_of (kern p)) = 0 ->
  wp (daemonize_child cmd (hard_limit (kern p0))) (daemonize_post p0) p.
Proof.
  intros Hfds Hlim Hc Hu.
  assert (Hsid : exists e w1, fds w1 = fds (kern p) /\ a_umask (attrs_of w1) = 0 /\
    forall B (k : M W B) Q, wp k Q (Proc e (log_to_stderr p) (console p) w1) ->
                            wp (syscall_int k_setsid ;; k) Q p).
  { destruct (k_setsid (kern p)) as [[sid|e] w1] eqn:E;
      destruct (setsid_law _ _ _ E) as (Hf & _ & Hu1 & _); rewrite Hu in Hu1.
    - exists (errno p), w1. split_and!; [done..|]. intros B k Q Hk.
      apply wp_bind_ret, returns_syscall_int; intros * E'; rewrite E in E'; by simplify_eq.
    - exists e, w1. split_and!; [done..|]. intros B k Q Hk.
      apply wp_bind_ret, returns_syscall_int; intros * E'; rewrite E in E'; by simplify_eq. }
  destruct Hsid as (e1 & w1 & Hf1 & Hu1 & Hsid). unfold daemonize_child. apply Hsid. clear Hsid.
  apply wp_bind_ret, returns_syscall_unit; simpl; intros * E2;
    destruct (sigignore_law _ _ _ _ E2) as (Hf2 & _ & Ha2); [|wstep; simpl; rewrite Hc; eauto].
  destruct (Ha2 eq_refl) as (Hu2 & _ & Hi2).
  apply wp_bind_ret, returns_syscall_int; simpl; intros pid w3 E3;
    destruct (fork_law _ _ _ E3) as (Hf3 & _ & Ha3); [|wstep; simpl; rewrite Hc; eauto].
  destruct (Z.ltb_spec pid 0); [wstep; simpl; rewrite Hc; eauto|].
  destruct (Z.eqb_spec pid 0) as [->|]; [|simpl; by wstep]. specialize (Ha3 eq_refl). simpl.
  apply wp_bind_ret, returns_syscall_unit; simpl; intros * E4;
    destruct (chdir_law _ _ _ _ E4) as (Hf4 & _ & Ha4); [|wstep; simpl; rewrite Hc; eauto].
  specialize (Ha4 eq_refl). fold (descriptor_limit (kern p0)).
  assert (0 <= descriptor_limit (kern p0) \/ forall x, x ∉ fds (kern p)) as Hnn.
  { destruct (decide (0 <= descriptor_limit (kern p0))); [by left|right].
    intros x Hx%Hfds. lia. }
  apply wp_bind_ret. eapply returns_mono; [apply close_from_spec; lia|]. simpl.
  intros _ p5 (Ha5 & _ & Hc5 & Hx5). apply open_null_spec.
  - intros x Hx. apply Hx5 in Hx as [Hx Hn]. rewrite Hf4, Hf3, Hf2, Hf1 in Hx.
    destruct Hnn as [Hnn|Hnn]; [|by eapply Hnn]. apply Hfds in Hx. lia.
  - congruence.
  - rewrite Ha5, Ha4. simpl. rewrite Ha3. simpl. rewrite Hu2, Hi2. split_and!; [congruence|done| |done].
    apply elem_of_union_l, elem_of_singleton. done.
Qed.

(** A run of [daemonize] from descriptors below the limit. *)
Lemma daemonize_wp cmd p :
  (forall fd, fd ∈ fds (kern p) -> 0 <= fd < descriptor_limit (kern p)) ->
  descriptor_limit (kern p) <= 2147483648 ->
  wp (daemonize cmd) (daemonize_post p) p.
Proof.
  intros Hfds Hlim. unfold daemonize. apply wp_bind. red. simpl.
  destruct (umask_law 0 (kern p)) as (Hf0 & Hh0 & Ha0).
  apply wp_bind_ret, returns_syscall. intros rl w1 Erl. simpl in Erl.
  destruct (getrlimit_law _ _ _ Erl) as [-> Hrl]. clear Erl.
  destruct rl as [[soft hard]|e]; [|wstep; simpl; eauto].
  specialize (Hrl _ eq_refl). simpl in Hrl. rewrite Hh0 in Hrl. subst hard.
  apply wp_bind_ret, returns_syscall_int; simpl; intros pid w2 E2;
    destruct (fork_law _ _ _ E2) as (Hf2 & _ & Ha2); [|wstep; simpl; eauto].
  destruct (Z.ltb_spec pid 0); [wstep; simpl; eauto|].
  destruct (Z.eqb_spec pid 0) as [->|]; [|simpl; by wstep]. specialize (Ha2 eq_refl). simpl.
  apply (daemonize_child_spec p); simpl; [|done|..].
  - intros x. rewrite Hf2, Hf0. apply Hfds.
  - done.
  - by rewrite Ha2, Ha0.
Qed.

(** C18: where [daemonize] returns, it does so in a process that is a proper daemon: its open
    descriptors are exactly 0, 1 and 2 (all earlier ones were closed, none leaked), the file mode
    mask is 0, the working directory is the root, SIGHUP is ignored, it leads no session and
    errors go to syslog; otherwise the process was a parent that ends with 0 silently, or an
    error that ends with 1 and one report.  The descriptors of the caller have to lie below the
    limit the loop closes up to. *)
Theorem daemonize_spec cmd p :
  (forall fd, fd ∈ fds (kern p) -> 0 <= fd < descriptor_limit (kern p)) ->
  descriptor_limit (kern p) <= 2147483648 ->
  wp (daemonize cmd) (daemonize_post p) p.
Proof. apply daemonize_wp. Qed.

End DaemonizeFacts.

(** ** [already_running] and the programs of chapter 13 *)

Section AlreadyRunning.
Context {W : Type} `{FileOps W} `{LockOps W} `{CLib}.
Context (getpid : W -> Z) (junk : Z).

(** The lock file is this process's: its id is written into it. *)
Definition write_pid (fd : Z) : M W Z :=
  r ← ftruncate fd 0;
  (if r <? 0 then err_sys (str "ftruncate error") [] else mret tt) ;;
  pid ← (fun p => (Ret (getpid (kern p)), p));
  let str_buf := to_string pid in
  r ← writen fd str_buf (zlen str_buf);
  (if failed r then err_quit (str "call write") [] else mret tt) ;;
  mret 0.

Definition already_running : M W Z :=
  fd ← open LOCKFILE (Z.lor O_RDWR O_CREAT) LOCKMODE;
  if fd <? 0 then
    e ← get_errno;
    emit (Syslog LOG_ERR (str "can't open " ++ LOCKFILE ++ str ": " ++ strerror e)) ;; sys_exit 1
  else
    r ← lockfile junk fd;
    if r <? 0 then
      e ← get_errno;
      if (e =? EACCES) || (e =? EAGAIN) then close fd ;; mret 1
      else
        emit (Syslog LOG_ERR (str "can't set block for " ++ LOCKFILE ++ str ": " ++ strerror e)) ;;
        sys_exit 1
    else write_pid fd.

(** [13/2_singletone_daemon.cpp], up to the loop that waits for signals. *)
Definition singletone_main : M W unit :=
  running ← already_running;
  if truthy running then
    emit (Syslog LOG_ERR (str "daemon already running")) ;; sys_exit 1
  else emit (Syslog LOG_INFO (str "daemon is running")).

End AlreadyRunning.

(** What the file calls do to the locks: a path names one file; a process that closes a file
    loses only its own locks. *)
Class LockFileSpec (W : Type) `{FS : FileOps W} `{LS : LockSpec W} := {
  file_at : bytes -> Z;
  me_pid w : is_int (me w);
  open_locks path fl m w r w' : k_open path fl m w = (r, w') ->
    me w' = me w /\ (forall f q b, lock_at w' f q b = lock_at w f q b) /\
    (forall fd, r = SysOk fd -> 0 <= fd /\ node w' fd = Some (file_at path));
  close_locks fd w r w' : k_close fd w = (r, w') ->
    me w' = me w /\ (forall f q b, q <> me w -> lock_at w' f q b = lock_at w f q b);
  ftruncate_locks fd n w r w' : k_ftruncate fd n w = (r, w') ->
    me w' = me w /\ (forall f q b, lock_at w' f q b = lock_at w f q b);
  write_locks fd d w r w' : k_write fd d w = (r, w') ->
    me w' = me w /\ (forall f q b, lock_at w' f q b = lock_at w f q b);
  become : Z -> W -> W;                            (* let another process run *)
  valid_pid : Z -> Prop;
  become_law q w : valid_pid q -> me (become q w) = q /\
    (forall f r b, lock_at (become q w) f r b = lock_at w f r b);
}.

Section Singleton.
Context {W : Type} `{FS : FileOps W} `{ST : !StreamSpec W}.
Context `{LO : LockOps W} `{LS : !LockSpec W} `{LF : !LockFileSpec W} `{CLib}.
Context (junk : Z).
Implicit Types p : proc W.

Definition others_kept (w w' : W) : Prop :=
  me w' = me w /\ forall f q b, q <> me w -> lock_at w' f q b = lock_at w f q b.

Definition already_running_post (p : proc W) (o : outcome Z) (p' : proc W) : Prop :=
  others_kept (kern p) (kern p') /\
  match o with
  | Ret r => r = 1 \/
      r = 0 /\ owns (kern p') (file_at LOCKFILE) (me (kern p)) /\
      forall q, q <> me (kern p) -> ~ owns (kern p) (file_at LOCKFILE) q
  | Exited c => c = 1
  | _ => False
  end.

Lemma write_pid_spec fd (Q : outcome Z -> proc W -> Prop) p :
  (forall o p', (forall f q b, lock_at (kern p') f q b = lock_at (kern p) f q b) ->
     me (kern p') = me (kern p) -> (o = Ret 0 \/ o = Exited 1) -> Q o p') ->
  wp (write_pid me fd) Q p.
Proof.
  intros HQ. unfold write_pid, ftruncate.
  apply wp_bind_ret, returns_syscall_unit; intros * E; apply ftruncate_locks in E as [Hme Hat].
  2:{ apply wp_bind. simpl. wstep. apply HQ; simpl; auto. }
  simpl. apply wp_bind_ret. mstep. apply wp_bind. red. simpl.
  set (s := to_string (me w')). set (q := Proc _ _ _ _).
  assert (Hret : returns (writen fd s (zlen s)) (fun _ p' =>
    me (kern p') = me w' /\ forall f r b, lock_at (kern p') f r b = lock_at w' f r b) q).
  { pose proof (to_string_length _ (me_pid w')) as Hl. fold s in Hl.
    pose proof (zlen_nonneg s).
    assert (Hr : returns (writen fd s (zlen s)) (writen_post fd s (zlen s) q) q).
    { apply writen_returns; [unfold is_size_t, SIZE_MAX; lia|lia]. }
    pose proof (writen_keeps (fun w => me w = me w' /\
      forall f r b, lock_at w f r b = lock_at w' f r b) fd s (zlen s) q) as Hk.
    unfold returns, wp in *. destruct (writen fd s (zlen s) q) as [[o| | | |] q']; try done.
    apply Hk; [|done]. intros d w1 r w2 [Hm Hl']%write_locks [Hm1 Hl1].
    split; [congruence|]. intros. rewrite Hl'. apply Hl1. }
  apply wp_bind_ret. eapply returns_mono; [exact Hret|]. simpl. intros r p' [Hm' Hl'].
  destruct r as [k|]; simpl.
  - apply wp_bind_ret. mstep. wstep. apply HQ; [|congruence|auto].
    intros. by rewrite Hl', Hat.
  - apply wp_bind. wstep. apply HQ; simpl; [|congruence|auto]. intros. by rewrite Hl', Hat.
Qed.

Lemma already_running_post_holds p : wp (already_running me junk) (already_running_post p) p.
Proof.
  unfold already_running, open.
  apply wp_bind_ret, returns_syscall_int; intros * E; apply open_locks in E as (Hme & Hat & Hn).
  2:{ simpl. repeat wstep. split; [|done]. split; [done|]. intros. apply Hat. }
  destruct (Hn _ eq_refl) as [Hpos Hnode]. destruct (Z.ltb_spec n 0); [lia|].
  apply wp_bind_ret. eapply returns_mono; [apply lockfile_owns|]. simpl.
  intros r p1 (_ & Hme1 & Hn1 & [(-> & f & Hf & Hown & Hno & Hoth)|(-> & Hsame)]); simpl.
  - rewrite Hnode in Hf. simplify_eq. rewrite Hme in *.
    apply write_pid_spec. intros o p' Hl Hm Ho. split.
    + split; [congruence|]. intros f q b Hq. rewrite Hl, Hoth by done. apply Hat.
    + destruct Ho as [->| ->]; [right|done]. split_and!; [done| |].
      * intros b Hb. rewrite Hl. by apply Hown.
      * intros q Hq Hown'. apply (Hno q Hq). intros b Hb. rewrite Hat. by apply Hown'.
  - assert (Hk : others_kept (kern p) (kern p1)).
    { split; [congruence|]. intros. by rewrite Hsame, Hat. }
    wstep. destruct (_ || _); [|repeat wstep; by split].
    assert (Hclose : forall e r w2, k_close n (kern p1) = (r, w2) ->
      already_running_post p (Ret 1) (Proc e (log_to_stderr p1) (console p1) w2)).
    { intros e r w2 [Hm2 Hl2]%close_locks. split; [|by left]. destruct Hk as [Hk1 Hk2].
      split; [simpl; congruence|]. intros f q b Hq. simpl. rewrite Hl2 by congruence. by apply Hk2. }
    unfold close. apply wp_bind_ret, returns_syscall_unit; intros * E; wstep; by eapply Hclose.
Qed.

(** Processes that start one after the other, and what [already_running] told each. *)
Fixpoint start_all (pids : list Z) (p : proc W) : list (Z * outcome Z) * proc W :=
  match pids with
  | [] => ([], p)
  | q :: pids =>
      let '(o, p1) := already_running me junk
                        (Proc (errno p) (log_to_stderr p) (console p) (become q (kern p))) in
      let '(l, p2) := start_all pids p1 in ((q, o) :: l, p2)
  end.

(** Once a process owns the lock file nobody else is told to run. *)
Lemma start_all_owned pids q0 p :
  Forall (fun q => valid_pid q /\ q <> q0) pids -> owns (kern p) (file_at LOCKFILE) q0 ->
  forall x, x ∈ (start_all pids p).1 -> x.2 <> Ret 0.
Proof.
  revert p. induction pids as [|q pids IH]; intros p Hq Ho x Hx; simpl in Hx;
    [by apply not_elem_of_nil in Hx|].
  apply Forall_cons_1 in Hq as [[Hpos Hne] Hq].
  destruct (become_law q (kern p) Hpos) as [Hme Hat].
  set (p1 := Proc _ _ _ (become q (kern p))) in *.
  pose proof (already_running_post_holds p1) as Hw. unfold wp in Hw.
  destruct (already_running me junk p1) as [o p2] eqn:E. simpl in Hw. destruct Hw as [[Hm2 Hl2] Hpost].
  assert (Ho2 : owns (kern p2) (file_at LOCKFILE) q0).
  { intros b Hb. rewrite Hl2; simpl; [|by rewrite Hme]. rewrite Hat. by apply Ho. }
  destruct (start_all pids p2) as [l p3] eqn:El. simpl in Hx.
  apply elem_of_cons in Hx as [->|Hx].
  - simpl. intros ->. destruct Hpost as [[=]|(_ & _ & Hno)].
    apply (Hno q0); simpl; [by rewrite Hme|]. intros b Hb. rewrite Hat. by apply Ho.
  - apply (IH p2); [done|done|by rewrite El].
Qed.

(** C14: of any number of processes that call [already_running] one after the other, at most one
    is told that it may run: the result 0 is given to one process only, however the calls fail. *)
Theorem already_running_singleton pids p i j q1 q2 :
  NoDup pids -> Forall valid_pid pids ->
  (start_all pids p).1 !! i = Some (q1, Ret 0) -> (start_all pids p).1 !! j = Some (q2, Ret 0) ->
  i = j.
Proof.
  revert p i j. induction pids as [|q pids IH]; intros p i j Hnd Hpos Hi Hj; [done|].
  apply NoDup_cons in Hnd as [Hq Hnd]. apply Forall_cons_1 in Hpos as [Hqp Hpos].
  simpl in Hi, Hj. destruct (become_law q (kern p) Hqp) as [Hme Hat].
  set (p1 := Proc _ _ _ (become q (kern p))) in *.
  pose proof (already_running_post_holds p1) as Hw. unfold wp in Hw.
  destruct (already_running me junk p1) as [o p2] eqn:E. simpl in Hw. destruct Hw as [_ Hpost].
  destruct (start_all pids p2) as [l p3] eqn:El. simpl in Hi, Hj.
  assert (Hrest : o = Ret 0 -> forall k x, l !! k = Some x -> x.2 <> Ret 0).
  { intros -> k x Hk. destruct Hpost as [[=]|(_ & Ho & _)]. simpl in Ho. rewrite Hme in Ho.
    apply (start_all_owned pids q p2); [|done|rewrite El; by eapply list_elem_of_lookup_2].
    rewrite Forall_forall in *. intros r Hr. split; [by apply Hpos|]. by intros ->. }
  destruct i as [|i], j as [|j]; simpl in Hi, Hj; simplify_eq; [done| | |].
  - by destruct (Hrest eq_refl _ _ Hj).
  - by destruct (Hrest eq_refl _ _ Hi).
  - f_equal. apply (IH p2); rewrite ?El; done.
Qed.

(** [already_running] always ends, with 0, 1 or by exit 1, and never disturbs the locks of
    other processes; 0 means that this process now has the whole lock file write-locked and that
    no other process had. *)
Theorem already_running_spec p : wp (already_running me junk) (already_running_post p) p.
Proof. apply already_running_post_holds. Qed.

End Singleton.

(** ** The daemons that reread their configuration: [13/3_daemon_reread_conf.cpp] and
    [13/3_daemon_thread_reread_conf.cpp] *)

(** [strrchr(argv[0], '/')]: the command name behind the last slash. *)
Fixpoint cmd_name (argv0 : bytes) : bytes :=
  match argv0 with
  | [] => []
  | c :: r => if (c =? 47) || bool_decide (47 ∈ r) then cmd_name r else argv0
  end.

(** Texts the two programs log. *)
Record reread_texts := { t_wait : bytes; t_term : bytes; t_other : bytes }.

Definition texts_reread : reread_texts :=
  {| t_wait := str "call sigwait"; t_term := str "taken SIGTERM";
     t_other := str "taken unforseen signal " |}.

Definition texts_thread_reread : reread_texts :=
  {| t_wait := str "error call sigwait"; t_term := str "taken gignal SIGTERM";
     t_other := str "taken unexpected signal " |}.

(** [thr_fn], over the results of [sigwait] (error and signal number); it returns when these end,
    where the program goes on waiting. *)
Fixpoint thr_fn {W} (t : reread_texts) (events : list (Z * Z)) : M W unit :=
  match events with
  | [] => mret tt
  | (err, signo) :: events =>
      if negb (err =? 0) then emit (Syslog LOG_ERR (t_wait t)) ;; sys_exit 1
      else if signo =? SIGHUP then
        emit (Syslog LOG_INFO (str "reading conf file")) ;; thr_fn t events
      else if signo =? SIGTERM then emit (Syslog LOG_INFO (t_term t)) ;; sys_exit 0
      else emit (Syslog LOG_INFO (t_other t ++ to_string signo)) ;; thr_fn t events
  end.

Definition thr_log (t : reread_texts) (signo : Z) : out :=
  Syslog LOG_INFO (if signo =? SIGHUP then str "reading conf file" else
                   if signo =? SIGTERM then t_term t else t_other t ++ to_string signo).

Lemma thr_fn_cons {W} t s events (p : proc W) :
  s <> SIGTERM ->
  thr_fn t ((0, s) :: events) p
  = thr_fn t events (Proc (errno p) (log_to_stderr p) (console p ++ [thr_log t s]) (kern p)).
Proof.
  intros Hs. cbn [thr_fn]. change (negb (0 =? 0)) with false. unfold thr_log.
  rewrite (proj2 (Z.eqb_neq _ _) Hs). by destruct (s =? SIGHUP).
Qed.

(** The signal thread logs every signal in the order of arrival, survives all of them but
    SIGTERM, and ends the daemon with status 0 at the first SIGTERM, whatever arrives after it. *)
Theorem thr_fn_spec {W} t (before after : list Z) (p : proc W) :
  SIGTERM ∉ before ->
  thr_fn t ((0,.) <$> before) p
    = (Ret tt, Proc (errno p) (log_to_stderr p) (console p ++ (thr_log t <$> before)) (kern p)) /\
  thr_fn t ((0,.) <$> before ++ SIGTERM :: after) p
    = (Exited 0, Proc (errno p) (log_to_stderr p)
                   (console p ++ (thr_log t <$> before) ++ [Syslog LOG_INFO (t_term t)]) (kern p)).
Proof.
  revert p. induction before as [|s before IH]; intros p Hb.
  - split; [|done]. simpl. rewrite app_nil_r. by destruct p.
  - apply not_elem_of_cons in Hb as [Hs Hb]. rewrite <- app_comm_cons, !fmap_cons, !thr_fn_cons by congruence.
    destruct (IH (Proc (errno p) (log_to_stderr p) (console p ++ [thr_log t s]) (kern p)) Hb)
      as [-> ->]. simpl. by rewrite <- !app_assoc.
Qed.

Lemma cmd_name_spec pre name :
  47 ∉ name -> cmd_name name = name /\ cmd_name (pre ++ 47 :: name) = name.
Proof.
  intros Hn. assert (Hname : cmd_name name = name).
  { destruct name as [|c r]; [done|]. apply not_elem_of_cons in Hn as [Hc Hr]. simpl.
    rewrite (proj2 (Z.eqb_neq c 47)), bool_decide_false by (done || congruence). done. }
  split; [done|]. induction pre as [|c pre IH]; [done|]. simpl.
  rewrite bool_decide_true by set_solver. by rewrite orb_true_r.
Qed.

(** ** Witnesses *)

Lemma thr_fn_spec_witness :
  (thr_fn texts_reread ((0,.) <$> [SIGHUP; 10] ++ SIGTERM :: [SIGHUP]) sim0).1 = Exited 0.
Proof.
  destruct (thr_fn_spec texts_reread [SIGHUP; 10] [SIGHUP] sim0) as [_ H];
    [apply (bool_decide_unpack _); vm_compute; exact I|]. rewrite H. reflexivity.
Defined.

#[export, refine] Instance lt_stream : StreamSpec ltab := {
  inbuf w := inbuf (lt_sim w);
  outbuf w := outbuf (lt_sim w);
}.
Proof.
  - intros fd n w r w' E Hn. simpl in E. unfold lift in E.
    destruct (sim_read fd n (lt_sim w)) as [r1 s1] eqn:E1. simplify_eq. simpl.
    exact (read_law (W := sim) _ _ _ _ _ E1 Hn).
  - intros fd n w r w' fd' E. simpl in E. unfold lift in E.
    destruct (sim_read fd n (lt_sim w)) as [r1 s1] eqn:E1. simplify_eq. simpl.
    exact (read_frame (W := sim) _ _ _ _ _ fd' E1).
  - intros fd d w r w' E. simpl in E. unfold lift in E.
    destruct (sim_write fd d (lt_sim w)) as [r1 s1] eqn:E1. simplify_eq. simpl.
    exact (write_law (W := sim) _ _ _ _ _ E1).
Defined.

Lemma lift_keeps {A} (f : sim -> sysres A * sim) w r w' :
  lift f w = (r, w') -> lt_me w' = lt_me w /\ lt_locks w' = lt_locks w.
Proof. unfold lift. destruct (f (lt_sim w)). intros. by simplify_eq. Qed.

#[export, refine] Instance lt_lockfile : LockFileSpec ltab := {
  file_at := path_node;
  become q w := Ltab (lt_sim w) (q - 1) (lt_nodes w) (lt_locks w);
  valid_pid q := 1 <= q <= 32768;
}.
Proof.
  - intros w. unfold is_int, INT_MIN, INT_MAX. simpl. unfold self.
    pose proof (Z.mod_pos_bound (lt_me w) 32768). rewrite Z2Pos.id by lia. lia.
  - intros path fl m w r w' E. simpl in E. unfold lt_open in E.
    destruct (lift _ w) as [[fd|e] w1] eqn:E1; pose proof (lift_keeps _ _ _ _ E1) as [Hm Hl];
      simplify_eq; simpl; unfold self; simpl; rewrite Hm, Hl; split_and!; try done.
    intros fd' [= <-]. rewrite lookup_insert_eq. split; [|done].
    unfold lift in E1. destruct (k_open _ _ _ _) as [r1 s1] eqn:E2. simplify_eq.
    by apply (open_fds (W := sim)) in E2 as [? _].
  - intros fd w r w' E. simpl in E. unfold lt_close in E.
    destruct (lift _ w) as [[[]|e] w1] eqn:E1; pose proof (lift_keeps _ _ _ _ E1) as [Hm Hl];
      simplify_eq; simpl; unfold self; simpl; rewrite Hm, ?Hl; (split; [done|]).
    + intros f q b Hq. destruct (lt_nodes w1 !! fd); simpl; [|done].
      rewrite table_at_drop; done.
    + done.
  - intros fd n w r w' E. simpl in E. apply lift_keeps in E as [Hm Hl]. simpl. unfold self.
    by rewrite Hm, Hl.
  - intros fd d w r w' E. simpl in E. apply lift_keeps in E as [Hm Hl]. simpl. unfold self.
    by rewrite Hm, Hl.
  - intros q w Hq. simpl. split; [|done]. unfold self. simpl.
    rewrite Z.mod_small by lia. rewrite Z2Pos.id by lia. lia.
Defined.

Lemma already_running_singleton_witness :
  0%nat = 0%nat /\
  (start_all 0 [10; 20; 30] lt0).1 = [(10, Ret 0); (20, Ret 1); (30, Ret 1)].
Proof.
  split; [|vm_compute; reflexivity].
  apply (already_running_singleton 0 [10; 20; 30] lt0 0 0 10 10).
  - apply (bool_decide_unpack _). vm_compute. exact I.
  - simpl. repeat constructor; lia.
  - vm_compute. reflexivity.
  - vm_compute. reflexivity.
Defined.

(** A kernel for [daemonize]: [fork] continues in the child. *)
Record dsim := Dsim { d_sim : sim; d_attrs : attrs; d_hard : Z }.

Definition dlift {A} (f : sim -> sysres A * sim) (w : dsim) : sysres A * dsim :=
  let '(r, s) := f (d_sim w) in (r, Dsim s (d_attrs w) (d_hard w)).

#[export] Instance d_file : FileOps dsim := {
  k_read fd n := dlift (k_read fd n);
  k_write fd b := dlift (k_write fd b);
  k_open path fl m := dlift (k_open path fl m);
  k_close fd := dlift (k_close fd);
  k_dup fd := dlift (k_dup fd);
  k_ftruncate fd n := dlift (k_ftruncate fd n);
  k_fsync fd := dlift (k_fsync fd);
  k_getfd fd := dlift (k_getfd fd);
  k_setfd fd v := dlift (k_setfd fd v);
  k_getfl fd := dlift (k_getfl fd);
  k_setfl fd v := dlift (k_setfl fd v);
}.

Lemma dlift_inv {A} (f : sim -> sysres A * sim) w r w' :
  dlift f w = (r, w') -> f (d_sim w) = (r, d_sim w').
Proof. unfold dlift. destruct (f (d_sim w)) as [r1 s1] eqn:E. intros. by simplify_eq. Qed.

#[export, refine] Instance d_fds : FdSpec dsim := { fds w := fds (d_sim w) }.
Proof.
  - intros path fl m w r w' E%dlift_inv. by eapply open_fds.
  - intros fd w r w' E%dlift_inv. by eapply dup_fds.
  - intros fd w r w' E%dlift_inv. by eapply close_fds.
  - intros fd n w r w' E%dlift_inv. by eapply read_fds.
  - intros fd d w r w' E%dlift_inv. by eapply write_fds.
Defined.

Definition d_set (a : attrs) (w : dsim) : dsim := Dsim (d_sim w) a (d_hard w).

#[export] Instance d_proc : ProcOps dsim := {
  k_umask m w := let a := d_attrs w in d_set (Attrs m (a_cwd a) (a_ignored a) (a_leader a)) w;
  k_getrlimit _ w := (SysOk (1024, d_hard w), w);
  k_fork w := let a := d_attrs w in
    (SysOk 0, d_set (Attrs (a_umask a) (a_cwd a) (a_ignored a) false) w);
  k_setsid w := let a := d_attrs w in
    (SysOk 77, d_set (Attrs (a_umask a) (a_cwd a) (a_ignored a) true) w);
  k_sigignore s w := let a := d_attrs w in
    (SysOk tt, d_set (Attrs (a_umask a) (a_cwd a) ({[s]} ∪ a_ignored a) (a_leader a)) w);
  k_chdir d w := let a := d_attrs w in
    (SysOk tt, d_set (Attrs (a_umask a) d (a_ignored a) (a_leader a)) w);
}.

#[export, refine] Instance d_spec : ProcSpec dsim := {
  attrs_of w := d_attrs w;
  hard_limit w := d_hard w;
}.
Proof.
  all: try (intros; simpl in *; unfold dlift in *; by simplify_eq).
  - intros w r w' E. simpl in E. simplify_eq. split; [done|]. intros. by simplify_eq.
  - intros fd w. simpl. unfold dlift. by destruct (s_fds (d_sim w) !! fd); [destruct (sim_alloc _ _)|].
  - intros fd w. simpl. unfold dlift. by destruct (sim_close _ _).
Defined.

Definition d0 : proc dsim := Proc 0 true [] (Dsim (kern sim0) (Attrs 18 (str "/home") ∅ false) 64).

Lemma daemonize_spec_witness : wp (daemonize (str "d")) (daemonize_post d0) d0.
Proof.
  apply (daemonize_spec (str "d") d0).
  - assert (H : set_Forall (fun fd => 0 <= fd < 64) (fds (kern d0))).
    { apply (bool_decide_unpack _). vm_compute. exact I. }
    exact H.
  - vm_compute. discriminate.
Defined.

Example daemonize_returns : (daemonize (str "d") d0).1 = Ret tt.
Proof. vm_compute. reflexivity. Qed.
