(* ===== verification/Sockets.v ===== *)
(** * Sockets, as the programs see them

    The calls of the socket layer as a class over kernel states, and what POSIX and the Linux
    manual pages say of the descriptors they make and keep. *)

From S2P Require Import Prelude Machine Errors Kernel.

(** Socket addresses the programs build: IPv4 with the port in network byte order, and Unix. *)
Inductive sockaddr :=
| InAddr (sin_port s_addr : Z)
| UnAddr (sun_path : bytes) (len : Z).

#[export] Instance sockaddr_eq_dec : EqDecision sockaddr.
Proof. solve_decision. Defined.

(** Control messages of a received message. *)
Inductive cmsg :=
| ScmRights (fd : Z)
| ScmCredentials (uid : Z)
| ScmOther.

Definition AF_UNIX : Z := 1.
Definition AF_INET : Z := 2.
Definition SOCK_STREAM : Z := 1.
Definition SOL_SOCKET : Z := 1.
Definition SO_REUSEADDR : Z := 2.
Definition SO_REUSEPORT : Z := 15.
Definition SO_PASSCRED : Z := 16.
Definition INADDR_ANY : Z := 0.

Class SockOps (W : Type) := {
  k_socket : Z -> Z -> Z -> W -> sysres Z * W;              (* domain, type, protocol *)
  k_setsockopt : Z -> Z -> Z -> Z -> W -> sysres unit * W;  (* fd, level, option, int value *)
  k_so_domain : Z -> W -> sysres Z * W;                     (* getsockopt SO_DOMAIN *)
  k_so_peercred : Z -> W -> sysres Z * W;                   (* getsockopt SO_PEERCRED: the uid *)
  k_bind : Z -> sockaddr -> W -> sysres unit * W;
  k_listen : Z -> Z -> W -> sysres unit * W;
  k_accept : Z -> W -> sysres Z * W;
  k_connect : Z -> sockaddr -> W -> sysres unit * W;
  k_unlink : bytes -> W -> sysres unit * W;
  k_getaddrinfo : bytes -> bytes -> Z -> Z -> W -> (Z + list sockaddr) * W;
      (* node, service, socktype, family: an EAI error or addresses *)
  k_sendmsg : Z -> bytes -> option Z -> W -> sysres Z * W;  (* fd, data, SCM_RIGHTS descriptor *)
  k_recvmsg : Z -> Z -> W -> sysres (bytes * list cmsg) * W;
}.

Section Calls.
Context {W : Type} `{SockOps W}.

Definition socket (domain type protocol : Z) : M W Z := syscall_int (k_socket domain type protocol).
Definition setsockopt (fd level opt v : Z) : M W Z := syscall_unit (k_setsockopt fd level opt v).
Definition bind (fd : Z) (a : sockaddr) : M W Z := syscall_unit (k_bind fd a).
Definition listen (fd n : Z) : M W Z := syscall_unit (k_listen fd n).
Definition accept (fd : Z) : M W Z := syscall_int (k_accept fd).
Definition connect (fd : Z) (a : sockaddr) : M W Z := syscall_unit (k_connect fd a).
Definition unlink (path : bytes) : M W Z := syscall_unit (k_unlink path).
Definition sendmsg (fd : Z) (data : bytes) (rights : option Z) : M W Z :=
  syscall_int (k_sendmsg fd data rights).

Definition getaddrinfo (host port : bytes) (socktype family : Z) : M W (Z + list sockaddr) :=
  fun p => let '(r, w) := k_getaddrinfo host port socktype family (kern p) in
           (Ret r, Proc (errno p) (log_to_stderr p) (console p) w).

End Calls.

(** A call keeps the open descriptors. *)
Definition keeps_fds {W A} `{FdSpec W} (f : W -> A * W) : Prop := forall w, fds (f w).2 = fds w.

Class SockSpec (W : Type) `{FS : FdSpec W} `{SO : SockOps W} := {
  peer : W -> Z -> option sockaddr;                          (* address a socket is connected to *)
  fds_nonneg w x : x ∈ fds w -> 0 <= x;
  socket_fds d t pr w r w' : k_socket d t pr w = (r, w') -> fd_alloc (fds w) r (fds w');
  accept_fds fd w r w' : k_accept fd w = (r, w') -> fd_alloc (fds w) r (fds w');
  setsockopt_fds fd l o v : keeps_fds (k_setsockopt fd l o v);
  so_domain_fds fd : keeps_fds (k_so_domain fd);
  so_peercred_fds fd : keeps_fds (k_so_peercred fd);
  bind_fds fd a : keeps_fds (k_bind fd a);
  listen_fds fd n : keeps_fds (k_listen fd n);
  unlink_fds path : keeps_fds (k_unlink path);
  sendmsg_fds fd d r : keeps_fds (k_sendmsg fd d r);
  getaddrinfo_fds n s t f : keeps_fds (k_getaddrinfo n s t f);
  connect_law fd a w r w' : k_connect fd a w = (r, w') ->
    fds w' = fds w /\ (r = SysOk tt -> fd ∈ fds w /\ peer w' fd = Some a);
}.
