(* ===== verification/Network.v ===== *)
(** * [lib/apue_network.cpp]: IPv4 sockets *)

From S2P Require Import Prelude Machine Errors Kernel Text Sockets.

(** [htons]: the two bytes of a 16-bit number, swapped on a little-endian machine. *)
Definition htons (x : Z) : Z :=
  let x := to_ushort x in Z.lor (Z.shiftl (Z.land x 255) 8) (Z.shiftr x 8).

Definition htonl (x : Z) : Z :=
  let x := to_uint x in
  Z.lor (Z.lor (Z.shiftl (Z.land x 255) 24) (Z.shiftl (Z.land (Z.shiftr x 8) 255) 16))
        (Z.lor (Z.shiftl (Z.land (Z.shiftr x 16) 255) 8) (Z.shiftr x 24)).

Section Network.
Context {W : Type} `{FileOps W} `{SockOps W} `{CLib}.

Definition setup_socket_ipv4 (port type : Z) : M W Z :=
  sockfd ← socket AF_INET type 0;
  if sockfd <? 0 then mret (-1)
  else
    let opt := 1 in
    r ← setsockopt sockfd SOL_SOCKET SO_REUSEADDR opt;
    if r <? 0 then close sockfd ;; mret (-1)
    else
      r ← setsockopt sockfd SOL_SOCKET SO_REUSEPORT opt;
      if r <? 0 then close sockfd ;; mret (-1)
      else
        let serv_addr := InAddr (if 0 <? port then htons port else 0) (htonl INADDR_ANY) in
        r ← bind sockfd serv_addr;
        if r <? 0 then close sockfd ;; mret (-1) else mret sockfd.

Definition connect_ipv4_addr (addr : sockaddr) (port type : Z) : M W Z :=
  sockfd ← setup_socket_ipv4 port type;
  r ← connect sockfd addr;
  if r <? 0 then close sockfd ;; mret (-1) else mret sockfd.

(** The loop over the addresses [getaddrinfo] returned. *)
Fixpoint connect_first (ailist : list sockaddr) (type : Z) : M W Z :=
  match ailist with
  | [] => mret (-1)
  | aip :: rest =>
      sockfd ← connect_ipv4_addr aip 0 type;
      if 0 <=? sockfd then mret sockfd else connect_first rest type
  end.

Definition connect_ipv4_host (host : bytes) (port type : Z) : M W Z :=
  let port_str := to_string port in
  r ← getaddrinfo host port_str type AF_INET;
  match r with
  | inl err => err_ret (str "getaddrinfo error: {}") [gai_strerror err] ;; mret err
  | inr ailist => connect_first ailist type
  end.

End Network.

(** ** Theorems *)

(** The bytes of the port on the wire are most significant first, and swapping is its own
    inverse. *)
Lemma htons_bytes x : is_byte x -> forall y, is_byte y -> htons (x * 256 + y) = y * 256 + x.
Proof.
  unfold is_byte. intros Hx y Hy. unfold htons, to_ushort. rewrite wrap_unsigned_small by lia.
  cbv zeta. rewrite land_255, Z.shiftr_div_pow2 by lia. change (2 ^ 8) with 256.
  rewrite Z.add_comm, Z.mod_add, Z.mod_small, Z.div_add, Z.div_small by lia.
  rewrite lor_shiftl_add by lia. lia.
Qed.

Lemma htons_involutive x : 0 <= x < 65536 -> htons (htons x) = x.
Proof.
  intros Hx. pose proof (Z.div_mod x 256 ltac:(lia)) as E.
  pose proof (Z.mod_pos_bound x 256 ltac:(lia)).
  assert (0 <= x / 256 < 256).
  { split; [apply Z.div_pos; lia|apply Z.div_lt_upper_bound; lia]. }
  rewrite E, Z.mul_comm, htons_bytes by (unfold is_byte; lia).
  by rewrite htons_bytes by (unfold is_byte; lia).
Qed.

Section NetworkFacts.
Context {W : Type} `{SS : SockSpec W} `{CLib}.
Implicit Types p : proc W.

(** A function that makes a socket: the result is a new descriptor, or negative and nothing
    leaked. *)
Definition new_fd (p : proc W) (r : Z) (p' : proc W) : Prop :=
  console p' = console p /\
  ((0 <= r /\ r ∉ fds (kern p) /\ fds (kern p') = {[r]} ∪ fds (kern p)) \/
   (r = -1 /\ fds (kern p') = fds (kern p))).

Lemma close_new (fd : Z) (s : gset Z) : fd ∉ s -> ({[fd]} ∪ s) ∖ {[fd]} = s.
Proof. set_solver. Qed.

(** Closing the socket on an error path undoes its creation. *)
Lemma close_undo p0 p fd (Q : Z -> proc W -> Prop) :
  console p = console p0 -> fds (kern p) ∖ {[fd]} = fds (kern p0) ->
  (forall p', console p' = console p0 -> fds (kern p') = fds (kern p0) -> Q (-1) p') ->
  returns (close fd ;; mret (-1)) Q p.
Proof.
  intros Hc Hf HQ. mstep. unfold close. apply returns_syscall_unit; intros * E; mstep;
    apply close_fds in E; apply HQ; simpl; congruence.
Qed.

Lemma close_undo_new p0 p fd :
  console p = console p0 -> fd ∉ fds (kern p0) -> fds (kern p) = {[fd]} ∪ fds (kern p0) ->
  returns (close fd ;; mret (-1)) (new_fd p0) p.
Proof.
  intros Hc Hn Hf. apply (close_undo p0); [done|by rewrite Hf, close_new|].
  intros p' ??. split; [done|by right].
Qed.

Lemma keeps_fds_eq {A} (f : W -> A * W) w r w' : keeps_fds f -> f w = (r, w') -> fds w' = fds w.
Proof. intros Hk E. pose proof (Hk w) as Hw. by rewrite E in Hw. Qed.

Lemma setup_socket_new port type p : returns (setup_socket_ipv4 port type) (new_fd p) p.
Proof.
  unfold setup_socket_ipv4, socket, setsockopt, bind.
  mstep. apply returns_syscall_int; intros * E1; apply socket_fds in E1; simpl.
  2:{ mstep. split; [done|right]. done. }
  destruct E1 as (Hpos & Hnin & Hf1 & _). destruct (Z.ltb_spec n 0); [lia|].
  mstep. apply returns_syscall_unit; intros * E2;
    apply (keeps_fds_eq _ _ _ _ (setsockopt_fds _ _ _ _)) in E2; simpl in *.
  2:{ apply close_undo_new; simpl; congruence. }
  mstep. apply returns_syscall_unit; intros * E3;
    apply (keeps_fds_eq _ _ _ _ (setsockopt_fds _ _ _ _)) in E3; simpl in *.
  2:{ apply close_undo_new; simpl; congruence. }
  mstep. apply returns_syscall_unit; intros * E4;
    apply (keeps_fds_eq _ _ _ _ (bind_fds _ _)) in E4; simpl in *.
  2:{ apply close_undo_new; simpl; congruence. }
  mstep. split; [done|left]. split_and!; [done|done|]. simpl. congruence.
Qed.

Lemma connect_addr_new addr port type p :
  returns (connect_ipv4_addr addr port type) (fun r p' =>
    new_fd p r p' /\ (0 <= r -> peer (kern p') r = Some addr)) p.
Proof.
  unfold connect_ipv4_addr, connect. mstep.
  eapply returns_mono; [apply setup_socket_new|]. intros fd p1 [Hc1 Hnew].
  mstep. apply returns_syscall_unit; intros * E; apply connect_law in E as [Hf Hok]; simpl.
  - destruct (Hok eq_refl) as [Hin Hpeer]. mstep. split; [|done]. split; [done|].
    destruct Hnew as [(Hp & Hn & Hf1)|[-> Hf1]].
    + left. split_and!; [done|done|]. simpl. congruence.
    + rewrite Hf1 in Hin. apply fds_nonneg in Hin. lia.
  - destruct Hnew as [(Hp & Hn & Hf1)|[-> Hf1]].
    + apply (close_undo p); simpl; [done|rewrite Hf, Hf1; by apply close_new|].
      intros p' Hc' Hf'. split; [split; [done|by right]|lia].
    + apply (close_undo p); simpl; [done| |].
      * rewrite Hf, Hf1. assert (-1 ∉ fds (kern p)) by (intros ?%fds_nonneg; lia). set_solver.
      * intros p' Hc' Hf'. split; [split; [done|by right]|lia].
Qed.

(** [setup_socket_ipv4] returns a new descriptor, or -1 after closing what it opened: on
    every error path the set of open descriptors is what it was before the call. *)
Theorem setup_socket_no_leak port type p : returns (setup_socket_ipv4 port type) (new_fd p) p.
Proof. apply setup_socket_new. Qed.

Lemma connect_first_new ailist type p :
  returns (connect_first ailist type) (fun r p' =>
    new_fd p r p' /\ (0 <= r -> exists addr, addr ∈ ailist /\ peer (kern p') r = Some addr)) p.
Proof.
  revert p. induction ailist as [|a l IH]; intros p; simpl.
  - mstep. split; [split; [done|by right]|lia].
  - mstep. eapply returns_mono; [apply connect_addr_new|]. intros fd p1 [[Hc1 Hnew] Hpeer].
    destruct (Z.leb_spec 0 fd).
    + mstep. split; [by split|]. intros _. exists a. split; [constructor|auto].
    + destruct Hnew as [(? & _)|[_ Hf1]]; [lia|].
      eapply returns_mono; [apply IH|]. intros r p2 [[Hc2 Hnew2] Hp2]. split.
      * split; [congruence|]. by rewrite <- Hf1.
      * intros (a' & ? & ?)%Hp2. exists a'. split; [by constructor|done].
Qed.

(** [connect_ipv4_host] leaks nothing: it returns a new descriptor connected to one of the
    addresses of the host, or -1 with the open descriptors unchanged; when the name does not
    resolve it reports once and returns the error code of [getaddrinfo], not -1. *)
Theorem connect_host_spec host port type p :
  returns (connect_ipv4_host host port type) (fun r p' =>
    match (k_getaddrinfo host (to_string port) type AF_INET (kern p)).1 with
    | inl err => r = err /\ fds (kern p') = fds (kern p) /\
        exists m, console p' = console p ++ [report (log_to_stderr p) m]
    | inr ailist => new_fd p r p' /\
        (0 <= r -> exists addr, addr ∈ ailist /\ peer (kern p') r = Some addr)
    end) p.
Proof.
  unfold connect_ipv4_host. mstep. unfold getaddrinfo at 1. unfold returns at 1, wp.
  destruct (k_getaddrinfo _ _ _ _ _) as [r w'] eqn:E. simpl.
  apply (keeps_fds_eq _ _ _ _ (getaddrinfo_fds _ _ _ _)) in E.
  destruct r as [err|ailist].
  - mstep. apply returns_err_ret. mstep. simpl. eauto.
  - eapply returns_mono; [apply connect_first_new|]. simpl. intros r p' [[Hc Hnew] Hp].
    split; [|done]. split; [done|]. simpl in Hnew. by rewrite E in Hnew.
Qed.

End NetworkFacts.
