(* ===== verification/UnixSocket.v ===== *)
(** * [lib/apue_unix_socket.cpp]: Unix domain sockets and descriptor passing *)

From S2P Require Import Prelude Machine Errors Kernel Text FileIO Sockets Network.

Definition ENAMETOOLONG : Z := 36.
Definition SUN_PATH_SIZE : Z := 108.      (* sizeof(sockaddr_un::sun_path) *)
Definition SUN_PATH_OFFSET : Z := 2.
Definition UNIX_SOCKET_MAX_MSG_SIZE : Z := 1024.
Definition UNIX_SOCKET_MAX_ERR_MSG_SIZE : Z := 1024.

(** ** The wire header

    [struct WireHeader { int code; size_t msg_len; }] in memory: 4 bytes, 4 bytes of padding
    whose contents the sender does not determine, 8 bytes, little endian. *)

Record WireHeader := { h_code : Z; h_msg_len : Z }.

Definition WIRE_HEADER_SIZE : Z := 16.

Definition encode_header (pad : bytes) (h : WireHeader) : bytes :=
  Z_to_little_endian 4 8 (h_code h) ++ pad ++ Z_to_little_endian 8 8 (h_msg_len h).

Definition decode_header (d : bytes) : WireHeader :=
  {| h_code := to_int (little_endian_to_Z 8 (take 4 d));
     h_msg_len := little_endian_to_Z 8 (take 8 (drop 8 d)) |}.

(** The text of a request: [ss << static_cast<int>(cmd) << " " << path << " " << mode]. *)
Inductive UNIX_SOCKET_COMMAND := OPEN.
Definition command_code (c : UNIX_SOCKET_COMMAND) : Z := match c with OPEN => 0 end.

Definition request_text (cmd : UNIX_SOCKET_COMMAND) (path : bytes) (mode : Z) : bytes :=
  to_string (command_code cmd) ++ str " " ++ path ++ str " " ++ to_string mode.

(** [std::string::c_str()] as a C string. *)
Fixpoint c_str (s : bytes) : bytes :=
  match s with
  | [] => []
  | c :: r => if c =? 0 then [] else c :: c_str r
  end.

Section UnixSocket.
Context {W : Type} `{FileOps W} `{SockOps W} `{CLib}.

(** [errout]: close, and return with the [errno] of the call that failed. *)
Definition errout (fd rval : Z) : M W Z :=
  err ← get_errno; close fd ;; set_errno err ;; mret rval.

Definition unix_socket_serv_listen (name : bytes) (qlen : Z) : M W Z :=
  if SUN_PATH_SIZE <=? zlen name then set_errno ENAMETOOLONG ;; mret (-1)
  else
    fd ← socket AF_UNIX SOCK_STREAM 0;
    if fd <? 0 then mret (-2)
    else
      unlink name ;;
      let len := SUN_PATH_OFFSET + zlen name in
      r ← bind fd (UnAddr name len);
      if r <? 0 then errout fd (-3)
      else
        r ← listen fd (to_int qlen);
        if r <? 0 then errout fd (-4) else mret fd.

(** [uidptr] says whether the pointer is not null; the second result is what is stored there. *)
Definition unix_socket_serv_accept (listenfd : Z) (uidptr : bool) : M W (Z * option Z) :=
  clifd ← accept listenfd;
  if clifd <? 0 then mret (-1, None)
  else
    r ← syscall (k_so_peercred clifd);
    match r with
    | SysErr _ => rv ← errout clifd (-2); mret (rv, None)
    | SysOk uid => mret (clifd, if uidptr then Some uid else None)
    end.

Definition unix_socket_cli_conn (name : bytes) : M W Z :=
  if SUN_PATH_SIZE <=? zlen name then set_errno ENAMETOOLONG ;; mret (-1)
  else
    fd ← socket AF_UNIX SOCK_STREAM 0;
    if fd <? 0 then mret (-2)
    else
      let len := SUN_PATH_OFFSET + zlen name in
      r ← connect fd (UnAddr name len);
      if r <? 0 then errout fd (-3) else mret fd.

Definition unix_socket_check_domain (socket_fd : Z) : M W Z :=
  r ← syscall (k_so_domain socket_fd);
  match r with
  | SysErr _ => err_ret (str "[unix_socket_check_domain] call getsockopt") [] ;; mret (-1)
  | SysOk domain => if negb (domain =? AF_UNIX) then mret (-1) else mret 0
  end.

(** What is handed to [sendmsg]: the header, the text, and the descriptor of the control message.
    [pad] is the padding of the header. *)
Definition wire_message (pad : bytes) (status : StatusMsg) (fd_to_send : Z) : bytes * option Z :=
  let msg_len := to_int (Z.min (zlen (msg status)) UNIX_SOCKET_MAX_ERR_MSG_SIZE) in
  let header := {| h_code := code status; h_msg_len := to_size_t msg_len |} in
  (encode_header pad header ++ take (Z.to_nat (h_msg_len header)) (msg status),
   if (0 <=? fd_to_send) && negb (hasError status) then Some fd_to_send else None).

Definition unix_socket_send_fd (pad : bytes) (socket_fd fd_to_send : Z) (status : option StatusMsg)
  : M W Z :=
  d ← unix_socket_check_domain socket_fd;
  if d <? 0 then mret (-1)
  else
    let p_status := from_option id StatusMsg_default status in
    let '(data, rights) := wire_message pad p_status fd_to_send in
    r ← sendmsg socket_fd data rights;
    if r <? 0 then err_ret (str "[unix_socket_send_fd] call sendmsg") [] ;; mret (-1) else mret 0.

(** The loop over the control messages: the descriptor and the user id it leaves. *)
Fixpoint scan_cmsgs (l : list cmsg) (uidptr : bool) (received_fd : Z) (uid : option Z)
  : Z * option Z :=
  match l with
  | [] => (received_fd, uid)
  | ScmRights fd :: l => scan_cmsgs l uidptr fd uid
  | ScmCredentials u :: l => scan_cmsgs l uidptr received_fd (if uidptr then Some u else uid)
  | ScmOther :: l => scan_cmsgs l uidptr received_fd uid
  end.

(** The text that follows a header; [None] on a protocol error.  The string was resized before
    the read, so what the read does not fill stays 0. *)
Definition recv_body (socket_fd msg_len : Z) : M W (option bytes) :=
  if 0 <? msg_len then
    if UNIX_SOCKET_MAX_ERR_MSG_SIZE <? msg_len then
      err_msg (str "[unix_socket_recv_fd] Protocol message error too long") [] ;; mret None
    else
      '(r, buf) ← readn socket_fd msg_len;
      if failed r then
        err_msg (str "[unix_socket_recv_fd] Protocol failed to read message body") [] ;; mret None
      else mret (Some (buf ++ replicate (Z.to_nat msg_len - length buf) 0))
  else mret (Some []).

Definition unix_socket_recv_fd (socket_fd : Z) (uidptr : bool) : M W (Z * option Z) :=
  d ← unix_socket_check_domain socket_fd;
  if d <? 0 then mret (-1, None)
  else
    r ← setsockopt socket_fd SOL_SOCKET SO_PASSCRED 1;
    when (r <? 0) (err_ret (str "[unix_socket_recv_fd] call setsockopt(SO_PASSCRED)") []) ;;
    r ← syscall (k_recvmsg socket_fd WIRE_HEADER_SIZE);
    match r with
    | SysErr _ => err_ret (str "[unix_socket_recv_fd] call recvmsg") [] ;; mret (-1, None)
    | SysOk (d, cmsgs) =>
        if zlen d <? WIRE_HEADER_SIZE then
          err_msg (str "[unix_socket_recv_fd] Protocol message too short") [] ;; mret (-1, None)
        else
          let header := decode_header d in
          body ← recv_body socket_fd (h_msg_len header);
          match body with
          | None => mret (-1, None)
          | Some remote_msg =>
              let status := {| code := h_code header; msg := remote_msg |} in
              if hasError status then err_msg (toString status) [] ;; mret (-1, None)
              else
                let '(received_fd, uid) := scan_cmsgs cmsgs uidptr (-1) None in
                when (received_fd =? -1)
                  (err_ret (str "[unix_socket_recv_fd] Protocol OK but no FD received") []) ;;
                mret (received_fd, uid)
          end
    end.

(** The OPEN command: the descriptor and the status it leaves. *)
Definition serve_open (path : bytes) (mode_val : Z) : M W (Z * StatusMsg) :=
  target_fd ← open (c_str path) (to_int (to_uint mode_val)) 0;
  if target_fd <? 0 then e ← get_errno; mret (target_fd, {| code := e; msg := [] |})
  else mret (target_fd, StatusMsg_default).

(** The [switch] on the command. *)
Definition serve_command (op_int : Z) (ss : bytes) : M W (Z * StatusMsg) :=
  if op_int =? command_code OPEN then
    match (extract_word ss ≫= fun '(path_str, ss) =>
           extract_int ss ≫= fun '(mode_val, _) => Some (path_str, mode_val)) with
    | Some (path_str, mode_val) => serve_open path_str mode_val
    | None => mret (-1, {| code := 0;
                           msg := str "Invalid arguments for OPEN (expected: path mode)" |})
    end
  else mret (-1, {| code := 0; msg := str "Unknown command opcode: " ++ to_string op_int |}).

Definition unix_socket_process_request (pad : bytes) (client_fd : Z) (request_str : bytes) : M W unit :=
  match extract_int request_str with
  | None =>
      let status := {| code := 0; msg := str "Empty request or invalid opcode format" |} in
      unix_socket_send_fd pad client_fd (-1) (Some status) ;; mret tt
  | Some (op_int, ss) =>
      '(target_fd, status) ← serve_command op_int ss;
      (if hasError status then unix_socket_send_fd pad client_fd (-1) (Some status)
       else unix_socket_send_fd pad client_fd target_fd None) ;;
      if 0 <=? target_fd then close target_fd ;; mret tt else mret tt
  end.

Definition unix_socket_send_request (sockfd : Z) (cmd : UNIX_SOCKET_COMMAND) (path : bytes) (mode : Z)
  : M W Z :=
  let req := request_text cmd path mode in
  r ← writen sockfd req (zlen req);
  if failed r then err_ret (str "[unix_socket_send_request] call write") [] ;; mret (-1) else mret 0.

End UnixSocket.

(** ** Setting up a connection *)

Section SetupFacts.
Context {W : Type} `{SS : SockSpec W} `{CLib}.
Implicit Types p : proc W.

Lemma returns_errout p0 p fd rval (Q : Z -> proc W -> Prop) :
  console p = console p0 -> fd ∉ fds (kern p0) -> fds (kern p) = {[fd]} ∪ fds (kern p0) ->
  (forall p', console p' = console p0 -> errno p' = errno p -> fds (kern p') = fds (kern p0) ->
     Q rval p') ->
  returns (errout fd rval) Q p.
Proof.
  intros Hc Hn Hf HQ. unfold errout, close. mstep. mstep. mstep.
  apply returns_syscall_unit; intros * E; apply close_fds in E; do 3 mstep;
    apply HQ; simpl; try done; by rewrite E, Hf, close_new.
Qed.

(** [unix_socket_serv_listen] returns a new listening descriptor or a negative code that
    tells the step that failed; on every failure the open descriptors are unchanged and [errno]
    is the error of that step, not of the [close] that follows; a name too long for the address
    is refused before any system call. *)
Theorem serv_listen_spec name qlen p :
  returns (unix_socket_serv_listen name qlen) (fun r p' =>
    console p' = console p /\
    ((0 <= r /\ zlen name < SUN_PATH_SIZE /\
      (r ∉ fds (kern p)) /\ (fds (kern p') = {[r]} ∪ fds (kern p))) \/
     fds (kern p') = fds (kern p) /\
     ((r = -1 /\ SUN_PATH_SIZE <= zlen name /\ errno p' = ENAMETOOLONG /\ kern p' = kern p) \/
      (r = -2 /\ (k_socket AF_UNIX SOCK_STREAM 0 (kern p)).1 = SysErr (errno p')) \/
      (r = -3 /\ exists w fd, (k_bind fd (UnAddr name (SUN_PATH_OFFSET + zlen name)) w).1 = SysErr (errno p')) \/
      (r = -4 /\ exists w fd, (k_listen fd (to_int qlen) w).1 = SysErr (errno p'))))) p.
Proof.
  unfold unix_socket_serv_listen, socket, unlink, bind, listen.
  destruct (Z.leb_spec SUN_PATH_SIZE (zlen name)).
  { do 3 mstep. split; [done|]. right. split; [done|]. left. done. }
  mstep. apply returns_syscall_int; intros * E1; pose proof (socket_fds _ _ _ _ _ _ E1) as Hf1; simpl.
  2:{ mstep. split; [done|right]. split; [done|]. right. left. simpl. by rewrite E1. }
  destruct Hf1 as (Hpos & Hn & Hf1 & _). destruct (Z.ltb_spec n 0); [lia|].
  mstep.
  assert (Hun : returns (syscall_unit (k_unlink name)) (fun _ p1 =>
    console p1 = console p /\ fds (kern p1) = {[n]} ∪ fds (kern p))
    (Proc (errno p) (log_to_stderr p) (console p) w')).
  { apply returns_syscall_unit; intros * E; apply (keeps_fds_eq _ _ _ _ (unlink_fds _)) in E;
      simpl in *; (split; [done|congruence]). }
  eapply returns_mono; [exact Hun|]. intros _ p1 [Hc1 Hf2].
  mstep. apply returns_syscall_unit; intros * E2;
    pose proof (keeps_fds_eq _ _ _ _ (bind_fds _ _) E2) as Hf3; simpl.
  2:{ apply (returns_errout p); simpl; [done|done|congruence|]. intros p' Hc' He' Hf'.
      split; [done|right]. split; [done|]. right. right. left. split; [done|].
      exists (kern p1), n. by rewrite E2, He'. }
  mstep. apply returns_syscall_unit; intros * E3;
    pose proof (keeps_fds_eq _ _ _ _ (listen_fds _ _) E3) as Hf4; simpl in *.
  2:{ apply (returns_errout p); simpl; [done|done|congruence|]. intros p' Hc' He' Hf'.
      split; [done|right]. split; [done|]. do 3 right. split; [done|].
      eexists _, n. by rewrite E3, He'. }
  mstep. split; [done|left]. split_and!; [done|done|done|]. simpl. congruence.
Qed.

(** [unix_socket_cli_conn] returns a new descriptor connected to the server, or a negative
    code; on failure the open descriptors are unchanged and [errno] is the error of the step that
    failed. *)
Theorem cli_conn_spec name p :
  returns (unix_socket_cli_conn name) (fun r p' =>
    console p' = console p /\
    ((0 <= r /\ (r ∉ fds (kern p)) /\ (fds (kern p') = {[r]} ∪ fds (kern p)) /\
      peer (kern p') r = Some (UnAddr name (SUN_PATH_OFFSET + zlen name))) \/
     fds (kern p') = fds (kern p) /\
     ((r = -1 /\ SUN_PATH_SIZE <= zlen name /\ errno p' = ENAMETOOLONG /\ kern p' = kern p) \/
      (r = -2 /\ (k_socket AF_UNIX SOCK_STREAM 0 (kern p)).1 = SysErr (errno p')) \/
      (r = -3 /\ exists w fd,
         (k_connect fd (UnAddr name (SUN_PATH_OFFSET + zlen name)) w).1 = SysErr (errno p'))))) p.
Proof.
  unfold unix_socket_cli_conn, socket, connect.
  destruct (Z.leb_spec SUN_PATH_SIZE (zlen name)).
  { do 3 mstep. split; [done|]. right. split; [done|]. left. done. }
  mstep. apply returns_syscall_int; intros * E1; pose proof (socket_fds _ _ _ _ _ _ E1) as Hf1; simpl.
  2:{ mstep. split; [done|right]. split; [done|]. right. left. simpl. by rewrite E1. }
  destruct Hf1 as (Hpos & Hn & Hf1 & _). destruct (Z.ltb_spec n 0); [lia|].
  mstep. apply returns_syscall_unit; intros * E2; destruct (connect_law _ _ _ _ _ E2) as [Hf2 Hok]; simpl.
  - destruct (Hok eq_refl) as [_ Hpeer]. mstep. split; [done|left]. simpl in *.
    split_and!; [done|done|congruence|done].
  - apply (returns_errout p); simpl in *; [done|done|congruence|]. intros p' Hc' He' Hf'.
    split; [done|right]. split; [done|]. right. right. split; [done|].
    eexists _, n. by rewrite E2, He'.
Qed.

(** [unix_socket_serv_accept] likewise, and the user id is stored only on success. *)
Lemma serv_accept_spec listenfd uidptr p :
  returns (unix_socket_serv_accept listenfd uidptr) (fun '(r, uid) p' =>
    console p' = console p /\
    ((0 <= r /\ (r ∉ fds (kern p)) /\ (fds (kern p') = {[r]} ∪ fds (kern p)) /\
      (uid <> None <-> uidptr = true)) \/
     ((r = -1 \/ r = -2) /\ uid = None /\ fds (kern p') = fds (kern p)))) p.
Proof.
  unfold unix_socket_serv_accept, accept.
  mstep. apply returns_syscall_int; intros * E1; pose proof (accept_fds _ _ _ _ E1) as Hf1; simpl.
  2:{ mstep. split; [done|right]. split_and!; [by left|done|done]. }
  destruct Hf1 as (Hpos & Hn & Hf1 & _). destruct (Z.ltb_spec n 0); [lia|].
  mstep. apply returns_syscall. intros r w2 E2.
  pose proof (keeps_fds_eq _ _ _ _ (so_peercred_fds _) E2) as Hf2. simpl in Hf2.
  destruct r as [uid|e].
  - mstep. split; [done|left]. simpl. split_and!; [done|done|congruence|]. by destruct uidptr.
  - mstep. apply (returns_errout p); simpl; [done|done|congruence|]. intros p' Hc' He' Hf'.
    mstep. split; [done|right]. split_and!; [by right|done|done].
Qed.

End SetupFacts.

(** ** Descriptor passing *)

Lemma encode_header_length pad h : length pad = 4%nat -> length (encode_header pad h) = 16%nat.
Proof.
  intros Hp. unfold encode_header. rewrite !length_app, Hp.
  pose proof (length_Z_to_little_endian 4 8 (h_code h)).
  pose proof (length_Z_to_little_endian 8 8 (h_msg_len h)). lia.
Qed.

(** The header survives the wire, whatever is in its padding and behind it. *)
Lemma decode_encode_header pad h rest :
  length pad = 4%nat -> is_int (h_code h) -> is_size_t (h_msg_len h) ->
  decode_header (encode_header pad h ++ rest) = h.
Proof.
  intros Hp Hc Hl. unfold decode_header, encode_header. rewrite <- !app_assoc.
  pose proof (length_Z_to_little_endian 4 8 (h_code h)) as L4.
  pose proof (length_Z_to_little_endian 8 8 (h_msg_len h)) as L8.
  rewrite take_app_length' by lia.
  rewrite (app_assoc _ pad), drop_app_length' by (rewrite length_app; lia).
  rewrite take_app_length' by lia.
  rewrite !little_endian_to_Z_to_little_endian by lia.
  destruct h as [c l]; simpl in *. f_equal.
  - rewrite <- (to_int_small c) at 2 by done. unfold to_int, wrap_signed.
    by rewrite Z.mod_mod.
  - apply Z.mod_small. unfold is_size_t, SIZE_MAX in Hl. lia.
Qed.

(** The status the receiver rebuilds: the code, and the text cut to the protocol's limit. *)
Definition received_status (status : StatusMsg) : StatusMsg :=
  {| code := code status; msg := take (Z.to_nat UNIX_SOCKET_MAX_ERR_MSG_SIZE) (msg status) |}.

Lemma received_hasError status : hasError (received_status status) = hasError status.
Proof. unfold hasError. simpl. by destruct (msg status). Qed.

(** The length field of the header. *)
Definition sent_length (status : StatusMsg) : Z :=
  Z.min (zlen (msg status)) UNIX_SOCKET_MAX_ERR_MSG_SIZE.

Lemma wire_message_eq pad status fd :
  wire_message pad status fd =
  (encode_header pad {| h_code := code status; h_msg_len := sent_length status |}
     ++ msg (received_status status),
   if (0 <=? fd) && negb (hasError status) then Some fd else None).
Proof.
  unfold wire_message, sent_length. cbv zeta. pose proof (zlen_nonneg (msg status)).
  assert (Hl : to_size_t (to_int (Z.min (zlen (msg status)) UNIX_SOCKET_MAX_ERR_MSG_SIZE))
               = Z.min (zlen (msg status)) UNIX_SOCKET_MAX_ERR_MSG_SIZE).
  { unfold UNIX_SOCKET_MAX_ERR_MSG_SIZE in *.
    rewrite to_int_small by (unfold is_int, INT_MIN, INT_MAX; lia).
    apply to_size_t_small. unfold is_size_t, SIZE_MAX. lia. }
  rewrite Hl. cbn [received_status msg h_msg_len].
  assert (Ht : take (Z.to_nat (Z.min (zlen (msg status)) UNIX_SOCKET_MAX_ERR_MSG_SIZE)) (msg status)
               = take (Z.to_nat UNIX_SOCKET_MAX_ERR_MSG_SIZE) (msg status)); [|by rewrite Ht].
  unfold UNIX_SOCKET_MAX_ERR_MSG_SIZE, zlen in *.
  destruct (decide (length (msg status) <= 1024)%nat).
  - by rewrite !take_ge by lia.
  - f_equal. lia.
Qed.

#[local] Opaque encode_header decode_header.

Section PassingFacts.
Context {W : Type} `{FO : FileOps W} `{ST : !StreamSpec W} `{SO : SockOps W} `{CLib}.
Implicit Types p : proc W.

(** on a Unix socket [unix_socket_send_fd] hands exactly one message to [sendmsg]: a header
    with the code and the length of the text, the text cut to 1024 bytes, and the descriptor if
    and only if the status is no error; it returns 0 if that call succeeds and otherwise -1 with
    one report. *)
Theorem send_fd_spec pad sock fd status p w1 :
  k_so_domain sock (kern p) = (SysOk AF_UNIX, w1) ->
  let st := from_option id StatusMsg_default status in
  let data := encode_header pad {| h_code := code st; h_msg_len := sent_length st |}
                ++ take 1024 (msg st) in
  let rights := if (0 <=? fd) && negb (hasError st) then Some fd else None in
  returns (unix_socket_send_fd pad sock fd status) (fun r p' =>
    kern p' = (k_sendmsg sock data rights w1).2 /\
    match (k_sendmsg sock data rights w1).1 with
    | SysOk n => 0 <= n -> r = 0 /\ console p' = console p
    | SysErr e => r = -1 /\ errno p' = e /\
        console p' = console p ++ [report (log_to_stderr p) (message (log_to_stderr p) e
                       (str "[unix_socket_send_fd] call sendmsg") [])]
    end) p.
Proof.
  intros Hd st data rights. unfold unix_socket_send_fd, unix_socket_check_domain, sendmsg.
  cbv zeta. fold st. rewrite wire_message_eq. fold rights.
  change (encode_header pad _ ++ _) with data.
  do 2 mstep. apply returns_syscall. intros r w' E. rewrite Hd in E. simplify_eq.
  cbn -[data]. mstep. apply returns_syscall_int; intros * E; simpl in E; rewrite E; simpl.
  - destruct (Z.ltb_spec n 0); repeat mstep; simpl; (split; [done|]); [lia|done].
  - repeat mstep; simpl; done.
Qed.

(** A body of the announced length arrives in full. *)
Lemma recv_body_spec sock body more p :
  inbuf (kern p) sock = body ++ more -> zlen body <= UNIX_SOCKET_MAX_ERR_MSG_SIZE ->
  (forall n w r w', inbuf w sock <> [] -> k_read sock n w = (r, w') -> exists d, r = SysOk d) ->
  returns (recv_body sock (zlen body)) (fun r p' => r = Some body /\ quiet p p' /\
    inbuf (kern p') sock = more) p.
Proof.
  intros Hin Hlen Hread. unfold recv_body.
  destruct (Z.ltb_spec 0 (zlen body)) as [Hpos|Hz].
  2:{ assert (body = []) as -> by (apply zlen_nil_inv; pose proof (zlen_nonneg body); lia). by mstep. }
  destruct (Z.ltb_spec UNIX_SOCKET_MAX_ERR_MSG_SIZE (zlen body)); [lia|].
  mstep. eapply returns_mono.
  { apply readn_returns. unfold is_size_t, SIZE_MAX, UNIX_SOCKET_MAX_ERR_MSG_SIZE in *. lia. }
  intros [r d] p' (Hin' & Hc & Hr). destruct r as [k|].
  - destruct Hr as (-> & Hle & Hshort). simpl. mstep.
    assert (Hfull : zlen d = zlen body).
    { destruct (Z.lt_ge_cases (zlen d) (zlen body)) as [Hlt|]; [|lia].
      destruct (Hshort Hlt) as [Hnil|(e & w & E & _)].
      - rewrite Hnil, app_nil_r, Hin in Hin'. apply (f_equal zlen) in Hin'.
        rewrite zlen_app in Hin'. pose proof (zlen_nonneg more). lia.
      - assert (Hne : inbuf w sock <> []).
        { pose proof (read_law _ _ _ _ _ E ltac:(lia)) as Hw. simpl in Hw. rewrite <- Hw.
          intros Hnil. rewrite Hnil, app_nil_r, Hin in Hin'. apply (f_equal zlen) in Hin'.
          rewrite zlen_app in Hin'. pose proof (zlen_nonneg more). lia. }
        destruct (Hread _ _ _ _ Hne E) as [? [=]]. }
    rewrite Hin in Hin'. apply app_inj_1 in Hin' as [-> <-]; [|unfold zlen in *; lia].
    unfold zlen. rewrite Nat2Z.id, Nat.sub_diag, app_nil_r. done.
  - destruct Hr as (-> & _ & E).
    assert (Hne : inbuf (kern p) sock <> []) by (rewrite Hin; by destruct body).
    destruct (Hread _ _ _ _ Hne E) as [? [=]].
Qed.

(** What the kernel delivers with a message whose sender passed [rights], on a socket with
    SO_PASSCRED set (unix(7)): the descriptor sent arrives as the new number [passed] gives it in
    the receiver, there is no other descriptor, and the credentials are those of the user [uid].
    The order of the control messages is not fixed, and others may come with them. *)
Record delivered (passed : Z -> Z) (uid : Z) (rights : option Z) (cm : list cmsg) : Prop := {
  delivered_rights : forall r, ScmRights r ∈ cm <-> passed <$> rights = Some r;
  delivered_creds : forall u, ScmCredentials u ∈ cm <-> u = uid;
}.

(** The descriptor the loop leaves is the one in the control messages, and the old one if there
    is none. *)
Lemma scan_cmsgs_fd v cm uidptr fd0 uid0 :
  (forall r, ScmRights r ∈ cm -> r = v) -> (fd0 = v \/ ScmRights v ∈ cm) ->
  (scan_cmsgs cm uidptr fd0 uid0).1 = v.
Proof.
  revert fd0 uid0. induction cm as [|c cm IH]; intros fd0 uid0 Hall Hv; simpl.
  - destruct Hv as [|Hv]; [done|by apply elem_of_nil in Hv].
  - destruct c as [r|u|]; apply IH; try (intros; apply Hall; by right).
    + left. apply Hall. by left.
    + destruct Hv as [|[|]%elem_of_cons]; auto; done.
    + destruct Hv as [|[|]%elem_of_cons]; auto; done.
Qed.

(** So is the user id, which is stored only where the caller gave a place for it. *)
Lemma scan_cmsgs_uid u cm fd0 uid0 :
  (forall r, ScmCredentials r ∈ cm -> r = u) -> (uid0 = Some u \/ ScmCredentials u ∈ cm) ->
  (scan_cmsgs cm true fd0 uid0).2 = Some u.
Proof.
  revert fd0 uid0. induction cm as [|c cm IH]; intros fd0 uid0 Hall Hv; simpl.
  - destruct Hv as [|Hv]; [done|by apply elem_of_nil in Hv].
  - destruct c as [r|r|]; apply IH; try (intros; apply Hall; by right).
    + destruct Hv as [|[|]%elem_of_cons]; auto; done.
    + left. f_equal. apply Hall. by left.
    + destruct Hv as [|[|]%elem_of_cons]; auto; done.
Qed.

Lemma scan_cmsgs_no_uid cm fd0 uid0 : (scan_cmsgs cm false fd0 uid0).2 = uid0.
Proof. revert fd0. by induction cm as [|[] cm IH]; simpl. Qed.

Lemma scan_delivered passed uid rights cm uidptr :
  delivered passed uid rights cm ->
  scan_cmsgs cm uidptr (-1) None
  = (from_option passed (-1) rights, if uidptr then Some uid else None).
Proof.
  intros [Hr Hu]. apply injective_projections; simpl.
  - apply scan_cmsgs_fd.
    + intros r Hin%Hr. destruct rights; simpl in *; congruence.
    + destruct rights as [fd|]; [right; by apply Hr|by left].
  - destruct uidptr; [|apply scan_cmsgs_no_uid]. apply scan_cmsgs_uid.
    + intros r Hin. by apply Hu.
    + right. by apply Hu.
Qed.

(** C4: a descriptor sent is the descriptor received.  On a socket whose reads do not fail while
    data is waiting, when the message [unix_socket_send_fd] builds for a descriptor and a status
    arrives -- its header, the control messages the kernel delivers for its rights, and then its
    text -- [unix_socket_recv_fd] behaves as follows.  If the status is no error and a descriptor
    was given, it returns the number the kernel gave that descriptor in the receiver, silently; if
    none was given it returns -1 and reports that once; in both cases the sender's user id is
    stored if the caller asked for it.  If the status is an error, no descriptor is returned: it
    reports the status (its code, and its text cut to 1024 bytes) once and returns -1.  The text is
    consumed exactly, so the next message can follow. *)
Theorem recv_sent_fd pad sock fd uidptr status passed uid p w1 w2 w3 cm more :
  length pad = 4%nat -> is_int (code status) -> 0 <= passed fd ->
  k_so_domain sock (kern p) = (SysOk AF_UNIX, w1) ->
  k_setsockopt sock SOL_SOCKET SO_PASSCRED 1 w1 = (SysOk tt, w2) ->
  k_recvmsg sock WIRE_HEADER_SIZE w2
    = (SysOk (take 16 (wire_message pad status fd).1, cm), w3) ->
  delivered passed uid (wire_message pad status fd).2 cm ->
  inbuf w3 sock = drop 16 (wire_message pad status fd).1 ++ more ->
  (forall n w r w', inbuf w sock <> [] -> k_read sock n w = (r, w') -> exists d, r = SysOk d) ->
  returns (unix_socket_recv_fd sock uidptr) (fun r p' =>
    inbuf (kern p') sock = more /\
    if hasError status then
      r = (-1, None) /\
      console p' = console p ++ [report (log_to_stderr p)
        (message (log_to_stderr p) (-1) (toString (received_status status)) [])]
    else
      r.2 = (if uidptr then Some uid else None) /\
      if 0 <=? fd then r.1 = passed fd /\ console p' = console p
      else r.1 = -1 /\
        console p' = console p ++ [report (log_to_stderr p) (message (log_to_stderr p) (errno p')
          (str "[unix_socket_recv_fd] Protocol OK but no FD received") [])]) p.
Proof.
  intros Hpad Hcode Hpos Hd Hs Hr Hcm Hin Hread.
  rewrite wire_message_eq in Hr, Hcm, Hin. cbn [fst snd] in Hr, Hcm, Hin.
  set (h := {| h_code := code status; h_msg_len := sent_length status |}) in *.
  assert (Hhl : length (encode_header pad h) = 16%nat) by (by apply encode_header_length).
  rewrite take_app_length' in Hr by done. rewrite drop_app_length' in Hin by done.
  assert (Hdec : decode_header (encode_header pad h) = h).
  { rewrite <- (app_nil_r (encode_header pad h)). apply decode_encode_header; [done|done|].
    pose proof (zlen_nonneg (msg status)).
    simpl. unfold is_size_t, SIZE_MAX, sent_length, UNIX_SOCKET_MAX_ERR_MSG_SIZE. lia. }
  revert Hhl Hdec Hr. generalize (encode_header pad h) as d. intros d Hhl Hdec Hr.
  unfold unix_socket_recv_fd, unix_socket_check_domain, setsockopt.
  do 2 mstep. apply returns_syscall. intros r w' E. rewrite Hd in E. simplify_eq. simpl. mstep. simpl.
  mstep. apply returns_syscall_unit; intros * E; simpl in E; rewrite Hs in E; simplify_eq. simpl.
  do 2 mstep. mstep. apply returns_syscall. intros r w4 E. simpl in E. rewrite Hr in E. simplify_eq.
  cbv beta iota. rewrite (proj2 (Z.ltb_ge _ _)) by (unfold zlen, WIRE_HEADER_SIZE; lia).
  rewrite Hdec. cbv zeta.
  assert (Hbody : sent_length status = zlen (msg (received_status status))).
  { unfold sent_length. simpl. rewrite zlen_take. unfold UNIX_SOCKET_MAX_ERR_MSG_SIZE. lia. }
  simpl h_msg_len. rewrite Hbody. mstep. eapply returns_mono; [eapply recv_body_spec|].
  - exact Hin.
  - rewrite <- Hbody. unfold sent_length. lia.
  - exact Hread.
  - intros _ p' (-> & [Hc Hlog] & Hm). simpl in Hc, Hlog. cbn [h_code].
    change {| code := code status; msg := msg (received_status status) |}
      with (received_status status). rewrite received_hasError.
    destruct (hasError status).
    + mstep. apply returns_err_msg. mstep. simpl. rewrite Hc, Hlog. by split_and!.
    + rewrite (scan_delivered _ _ _ _ _ Hcm). cbn [negb]. rewrite andb_true_r.
      destruct (Z.leb_spec 0 fd); cbn [from_option].
      * rewrite (proj2 (Z.eqb_neq _ _)) by lia. unfold when. repeat mstep. by split_and!.
      * unfold when. simpl. repeat mstep. simpl. rewrite Hc, Hlog. by split_and!.
Qed.

End PassingFacts.

(** ** Serving requests *)

Section ServeFacts.
Context {W : Type} `{SS : SockSpec W} `{CLib}.
Implicit Types p : proc W.

Lemma check_domain_fds sock p :
  returns (unix_socket_check_domain sock) (fun _ p' => fds (kern p') = fds (kern p)) p.
Proof.
  unfold unix_socket_check_domain. mstep. apply returns_syscall. intros r w' E.
  apply (keeps_fds_eq _ _ _ _ (so_domain_fds _)) in E. destruct r as [d|e].
  - destruct (negb _); by mstep.
  - mstep. apply returns_err_ret. by mstep.
Qed.

Lemma send_fd_fds pad sock fd status p :
  returns (unix_socket_send_fd pad sock fd status) (fun _ p' => fds (kern p') = fds (kern p)) p.
Proof.
  unfold unix_socket_send_fd. mstep. eapply returns_mono; [apply check_domain_fds|].
  intros d p1 Hf1. destruct (d <? 0); [by mstep|]. destruct (wire_message _ _ _) as [data rights].
  mstep. unfold sendmsg. apply returns_syscall_int; intros * E;
    apply (keeps_fds_eq _ _ _ _ (sendmsg_fds _ _ _)) in E; simpl.
  - destruct (_ <? _); repeat mstep; simpl; congruence.
  - repeat mstep; simpl; congruence.
Qed.

Lemma process_request_fds pad client request p :
  returns (unix_socket_process_request pad client request)
    (fun _ p' => fds (kern p') = fds (kern p)) p.
Proof.
  unfold unix_socket_process_request.
  destruct (extract_int request) as [[op ss]|].
  2:{ mstep. eapply returns_mono; [apply send_fd_fds|]. intros ? p' Hf. by mstep. }
  assert (Hstep : returns (serve_command op ss)
    (fun x p' => fds (kern p') ∖ {[x.1]} = fds (kern p) /\
       (x.1 < 0 -> fds (kern p') = fds (kern p))) p).
  { assert (Hnot : fds (kern p) ∖ {[-1]} = fds (kern p)).
    { assert (-1 ∉ fds (kern p)) by (intros ?%fds_nonneg; lia). apply leibniz_equiv. set_solver. }
    unfold serve_command. destruct (op =? _); [|by mstep]. destruct (_ ≫= _) as [[path mode]|]; [|by mstep].
    unfold serve_open, open. mstep. apply returns_syscall_int; intros * E; apply open_fds in E; simpl.
    - destruct E as (Hpos & Hn & Hf & _). destruct (Z.ltb_spec n 0); [lia|]. mstep. simpl.
      rewrite Hf. split; [by apply close_new|lia].
    - do 3 mstep. simpl in *. by rewrite E. }
  mstep. eapply returns_mono; [exact Hstep|]. intros [fd status] p1 [Hf1 Hneg].
  mstep. eapply returns_mono;
    [destruct (hasError status); apply send_fd_fds|]. intros ? p2 Hf2. simpl in Hf2.
  destruct (Z.leb_spec 0 fd).
  - mstep. unfold close. apply returns_syscall_unit; intros * E; apply close_fds in E; mstep;
      simpl; rewrite E, Hf2; apply Hf1.
  - mstep. rewrite Hf2. by apply Hneg.
Qed.

(** C21: whatever a client sends, serving its request ends and leaves the server's open
    descriptors as they were: the file opened for the client is closed again also when sending it
    failed. *)
Theorem process_request_no_leak pad client request p :
  returns (unix_socket_process_request pad client request)
    (fun _ p' => fds (kern p') = fds (kern p)) p.
Proof. apply process_request_fds. Qed.

End ServeFacts.

Section RequestFacts.
Context {W : Type} `{FileOps W} `{SockOps W} `{CLib}.

(** What a request to open [path] with [mode] asks for: the file is opened with that mode, the
    client gets the descriptor, or the error number in a status, and the server keeps nothing
    open. *)
Definition answer_open (pad : bytes) (client : Z) (path : bytes) (mode : Z) : M W unit :=
  target_fd ← open (c_str path) mode 0;
  if target_fd <? 0 then
    e ← get_errno;
    unix_socket_send_fd pad client (if e =? 0 then target_fd else -1)
      (if e =? 0 then None else Some {| code := e; msg := [] |}) ;; mret tt
  else
    unix_socket_send_fd pad client target_fd None ;; close target_fd ;; mret tt.

Lemma serve_open_answers pad client path mode p :
  is_int mode ->
  mbind (fun '(target_fd, status) =>
    (if hasError status then unix_socket_send_fd pad client (-1) (Some status)
     else unix_socket_send_fd pad client target_fd None) ;;
    (if 0 <=? target_fd then close target_fd ;; mret tt else mret tt))
    (serve_open (W := W) path mode) p
  = answer_open pad client path mode p.
Proof.
  intros Hm. unfold serve_open, answer_open.
  assert (Hmode : to_int (to_uint mode) = mode).
  { rewrite <- (to_int_small mode) at 2 by done. unfold to_int, to_uint, wrap_signed, wrap_unsigned.
    by rewrite Z.mod_mod. }
  rewrite Hmode. unfold mbind, M_bind, mret, M_ret, get_errno.
  destruct (open (c_str path) mode 0 p) as [[fd| | | |] p1]; try done.
  destruct (Z.ltb_spec fd 0) as [Hneg|Hpos].
  - unfold hasError. simpl. rewrite (proj2 (Z.leb_gt 0 fd)) by lia.
    destruct (errno p1 =? 0); done.
  - by rewrite (proj2 (Z.leb_le 0 fd)) by lia.
Qed.

Lemma request_text_parses path mode :
  is_word path -> is_int mode ->
  exists ss, extract_int (request_text OPEN path mode) = Some (0, ss) /\
    (extract_word ss ≫= fun '(path_str, ss) =>
     extract_int ss ≫= fun '(mode_val, _) => Some (path_str, mode_val)) = Some (path, mode).
Proof.
  intros Hp Hm. unfold request_text. eexists. split.
  - apply extract_int_to_string; [by vm_compute|]. by intros c r [= <- _].
  - change (str " " ++ path ++ str " " ++ to_string mode)
      with (32 :: path ++ 32 :: to_string mode).
    rewrite extract_word_app; [|done|by intros c r [= <- _]]. simpl.
    assert (Hs : extract_int (32 :: to_string mode) = extract_int (to_string mode ++ [])).
    { rewrite app_nil_r. unfold extract_int. by simpl skip_ws. }
    rewrite Hs, extract_int_to_string by done. done.
Qed.

(** C8: the server understands what [unix_socket_send_request] writes, for a path that is not empty
    and has no white space ([request_injection] shows what happens to others): the text it builds
    for such a path and any mode makes the server open exactly that path (as a C string) with
    exactly that mode, answer with the descriptor or with the error number of [open], and close
    the descriptor. *)
Theorem request_roundtrip pad client path mode p :
  is_word path -> is_int mode ->
  unix_socket_process_request (W := W) pad client (request_text OPEN path mode) p
  = answer_open pad client path mode p.
Proof.
  intros Hp Hm. destruct (request_text_parses path mode Hp Hm) as (ss & E1 & E2).
  unfold unix_socket_process_request, serve_command. rewrite E1. simpl. rewrite E2.
  by apply serve_open_answers.
Qed.

(** A path with white space is misread, since the text has no quoting: a request to open the
    file "a 2" with mode 0 opens the file "a" with mode 2 (read and write). *)
Theorem request_injection pad client p :
  unix_socket_process_request (W := W) pad client (request_text OPEN (str "a 2") 0) p
  = answer_open pad client (str "a") 2 p.
Proof.
  unfold unix_socket_process_request, serve_command.
  assert (E : extract_int (request_text OPEN (str "a 2") 0) = Some (0, str " a 2 0")).
  { vm_compute. reflexivity. }
  rewrite E. change (0 =? command_code OPEN) with true. cbv iota.
  assert (E2 : (extract_word (str " a 2 0") ≫= fun '(path_str, ss) =>
    extract_int ss ≫= fun '(mode_val, _) => Some (path_str, mode_val)) = Some (str "a", 2)).
  { vm_compute. reflexivity. }
  rewrite E2. by apply serve_open_answers.
Qed.

End RequestFacts.
