(* ===== verification/SockSim.v ===== *)
(** * A concrete kernel with sockets

    The kernel of [SimKernel.v] with the calls of the socket layer, for the witnesses of the
    theorems on sockets: every socket is a Unix socket, [connect] succeeds on an open descriptor,
    and a received message carries the control messages the state holds for it. *)

From S2P Require Import Prelude Machine Errors Kernel SimKernel Text FileIO Sockets Network.
From S2P Require Import UnixSocket.

Record usim := Usim { u_sim : sim; u_peer : gmap Z sockaddr; u_cmsgs : gmap Z (list cmsg) }.

Definition ulift {A} (f : sim -> A * sim) (w : usim) : A * usim :=
  let '(r, s) := f (u_sim w) in (r, Usim s (u_peer w) (u_cmsgs w)).

#[export] Instance u_file : FileOps usim := {
  k_read fd n := ulift (k_read fd n);
  k_write fd b := ulift (k_write fd b);
  k_open path fl m := ulift (k_open path fl m);
  k_close fd := ulift (k_close fd);
  k_dup fd := ulift (k_dup fd);
  k_ftruncate fd n := ulift (k_ftruncate fd n);
  k_fsync fd := ulift (k_fsync fd);
  k_getfd fd := ulift (k_getfd fd);
  k_setfd fd v := ulift (k_setfd fd v);
  k_getfl fd := ulift (k_getfl fd);
  k_setfl fd v := ulift (k_setfl fd v);
}.

Lemma ulift_inv {A} (f : sim -> A * sim) w r w' :
  ulift f w = (r, w') -> f (u_sim w) = (r, u_sim w').
Proof. unfold ulift. destruct (f (u_sim w)) as [r1 s1] eqn:E. intros. by simplify_eq. Qed.

#[export, refine] Instance u_fds : FdSpec usim := { fds w := fds (u_sim w) }.
Proof.
  - intros path fl m w r w' E%ulift_inv. by eapply open_fds.
  - intros fd w r w' E%ulift_inv. by eapply dup_fds.
  - intros fd w r w' E%ulift_inv. by eapply close_fds.
  - intros fd n w r w' E%ulift_inv. by eapply read_fds.
  - intros fd d w r w' E%ulift_inv. by eapply write_fds.
Defined.

#[export, refine] Instance u_stream : StreamSpec usim := {
  inbuf w := inbuf (u_sim w);
  outbuf w := outbuf (u_sim w);
}.
Proof.
  - intros fd n w r w' E%ulift_inv. exact (read_law (W := sim) _ _ _ _ _ E).
  - intros fd n w r w' fd' E%ulift_inv. exact (read_frame (W := sim) _ _ _ _ _ fd' E).
  - intros fd d w r w' E%ulift_inv. exact (write_law (W := sim) _ _ _ _ _ E).
Defined.

(** An operation that succeeds with [v] on an open descriptor. *)
Definition on_open {A} (fd : Z) (v : A) (w : usim) : sysres A * usim :=
  (if decide (0 <= fd /\ fd ∈ fds w) then SysOk v else SysErr EBADF, w).

(** Send and receive whole messages. *)
Definition u_sendmsg (fd : Z) (data : bytes) (w : usim) : sysres Z * usim :=
  match s_fds (u_sim w) !! fd with
  | Some d => (SysOk (zlen data),
      Usim (sim_upd fd (SimFd (sf_in d) (sf_out d ++ data) (sf_fdfl d) (sf_flfl d)) (u_sim w))
        (u_peer w) (u_cmsgs w))
  | None => (SysErr EBADF, w)
  end.

Definition u_recvmsg (fd n : Z) (w : usim) : sysres (bytes * list cmsg) * usim :=
  match s_fds (u_sim w) !! fd with
  | Some d =>
      (SysOk (take (Z.to_nat n) (sf_in d), from_option id [] (u_cmsgs w !! fd)),
       Usim (sim_upd fd (SimFd (drop (Z.to_nat n) (sf_in d)) (sf_out d) (sf_fdfl d) (sf_flfl d)) (u_sim w))
         (u_peer w) (delete fd (u_cmsgs w)))
  | None => (SysErr EBADF, w)
  end.

Definition u_connect (fd : Z) (a : sockaddr) (w : usim) : sysres unit * usim :=
  if decide (fd ∈ fds w) then (SysOk tt, Usim (u_sim w) (<[fd := a]> (u_peer w)) (u_cmsgs w))
  else (SysErr EBADF, w).

#[export] Instance u_sock : SockOps usim := {
  k_socket _ _ _ := ulift (sim_alloc (SimFd [] [] 0 2));
  k_setsockopt fd _ _ _ := on_open fd tt;
  k_so_domain fd := on_open fd AF_UNIX;
  k_so_peercred fd := on_open fd 1000;
  k_bind fd _ := on_open fd tt;
  k_listen fd _ := on_open fd tt;
  k_accept fd w := if decide (fd ∈ fds w) then ulift (sim_alloc (SimFd [] [] 0 2)) w
                   else (SysErr EBADF, w);
  k_connect := u_connect;
  k_unlink _ w := (SysErr 2, w);
  k_getaddrinfo _ _ _ _ w := (inr [InAddr (htons 80) (htonl 2130706433)], w);
  k_sendmsg fd d _ := u_sendmsg fd d;
  k_recvmsg := u_recvmsg;
}.

#[export, refine] Instance u_spec : SockSpec (FS := u_fds) usim := { peer w fd := u_peer w !! fd }.
Proof.
  all: try (intros; intros w; reflexivity).
  - intros w x Hx. exact (sim_fds_nonneg (u_sim w) x Hx).
  - intros d t pr w r w' E%ulift_inv. by eapply sim_alloc_fds.
  - intros fd w r w' E. simpl in E. destruct (decide _); [|by simplify_eq].
    apply ulift_inv in E. by eapply sim_alloc_fds.
  - intros fd d r w. simpl. unfold u_sendmsg. destruct (s_fds (u_sim w) !! fd) eqn:E; [|done].
    apply sim_upd_fds. by apply elem_of_dom_2 in E.
  - intros fd a w r w' E. simpl in E. unfold u_connect in E. case_decide as Hd; simplify_eq.
    + split; [done|]. intros _. split; [done|]. simpl. by rewrite lookup_insert_eq.
    + done.
Defined.

(** ** Witnesses *)

Definition header_pad : bytes := [0; 0; 0; 0].

(** A process whose descriptor 3 is a socket on which a message waits; if it passes a descriptor,
    the kernel delivers it as descriptor 9. *)
Definition u0 (status : StatusMsg) (fd : Z) : proc usim :=
  Proc 0 true [] (Usim (Sim (<[3 := SimFd ((wire_message header_pad status fd).1 ++ str "next") [] 0 2]>
                               sim_fds0) 4) ∅ {[ 3 := ScmCredentials 1000 ::
    if hasError status then [] else [ScmRights 9] ]}).

Definition refused : StatusMsg := {| code := 2; msg := str "no such file" |}.

Lemma u_read_waiting n w r w' : inbuf w 3 <> [] -> k_read 3 n w = (r, w') -> exists d, r = SysOk d.
Proof.
  simpl. unfold sim_in, ulift, sim_read. destruct (s_fds (u_sim w) !! 3); simpl; [|done].
  intros _ E. simplify_eq. eauto.
Qed.

(** The control messages the simulated kernel delivers: descriptor 5 of the sender arrives as 9. *)
Lemma u_delivered status fd cm :
  cm = (if (0 <=? fd) && negb (hasError status) then [ScmCredentials 1000; ScmRights (fd + 4)]
        else [ScmCredentials 1000]) ->
  delivered (Z.add 4) 1000 (wire_message header_pad status fd).2 cm.
Proof.
  intros ->. rewrite wire_message_eq. cbn [snd].
  destruct ((0 <=? fd) && negb (hasError status)); split; intros r; simpl; rewrite ?(Z.add_comm fd 4);
    set_solver.
Qed.

Lemma recv_sent_fd_witness :
  returns (unix_socket_recv_fd 3 true) (fun r p' => r = (9, Some 1000) /\ console p' = [])
    (u0 StatusMsg_default 5) /\
  returns (unix_socket_recv_fd 3 true) (fun r p' => r = (-1, None)) (u0 refused 5).
Proof.
  split.
  - eapply returns_mono.
    + apply (recv_sent_fd header_pad 3 5 true StatusMsg_default (Z.add 4) 1000
               (u0 StatusMsg_default 5)
               (kern (u0 StatusMsg_default 5)) (kern (u0 StatusMsg_default 5))
               (k_recvmsg 3 WIRE_HEADER_SIZE (kern (u0 StatusMsg_default 5))).2
               [ScmCredentials 1000; ScmRights 9] (str "next")).
      1: reflexivity.
      1: vm_compute; split; discriminate.
      1: lia.
      1-3: vm_compute; reflexivity.
      1: apply u_delivered; reflexivity.
      1: vm_compute; reflexivity.
      exact u_read_waiting.
    + intros [r u] p' [_ [H1 [H2 H3]]]. simpl in *. by subst.
  - eapply returns_mono.
    + apply (recv_sent_fd header_pad 3 5 true refused (Z.add 4) 1000 (u0 refused 5)
               (kern (u0 refused 5)) (kern (u0 refused 5))
               (k_recvmsg 3 WIRE_HEADER_SIZE (kern (u0 refused 5))).2
               [ScmCredentials 1000] (str "next")).
      1: reflexivity.
      1: vm_compute; split; discriminate.
      1: lia.
      1-3: vm_compute; reflexivity.
      1: apply u_delivered; reflexivity.
      1: vm_compute; reflexivity.
      exact u_read_waiting.
    + intros r p' [_ [H1 _]]. exact H1.
Defined.

Lemma send_fd_spec_witness :
  returns (unix_socket_send_fd header_pad 3 5 (Some refused)) (fun r p' => r = 0) (u0 refused 5).
Proof.
  eapply returns_mono.
  - apply (send_fd_spec header_pad 3 5 (Some refused) (u0 refused 5) (kern (u0 refused 5))).
    vm_compute. reflexivity.
  - intros r p' [_ H]. vm_compute in H. destruct H as [H _]; [discriminate|exact H].
Defined.

Lemma request_roundtrip_witness :
  unix_socket_process_request header_pad 3 (request_text OPEN (str "/etc/hosts") 0) (u0 refused 5)
  = answer_open header_pad 3 (str "/etc/hosts") 0 (u0 refused 5).
Proof.
  apply (request_roundtrip header_pad 3 (str "/etc/hosts") 0).
  - split; [discriminate|]. apply (bool_decide_unpack _). vm_compute. exact I.
  - apply (bool_decide_unpack _). vm_compute. exact I.
Defined.

Lemma process_request_no_leak_witness :
  returns (unix_socket_process_request header_pad 3 (str "0 /etc/hosts 0"))
    (fun _ p' => fds (kern p') = fds (kern (u0 refused 5))) (u0 refused 5).
Proof. exact (process_request_no_leak header_pad 3 (str "0 /etc/hosts 0") (u0 refused 5)). Defined.

Lemma connect_host_spec_witness :
  returns (connect_ipv4_host (str "localhost") 80 SOCK_STREAM) (fun r p' =>
    new_fd (u0 refused 5) r p' /\
    (0 <= r -> exists addr, addr ∈ [InAddr (htons 80) (htonl 2130706433)] /\
       peer (kern p') r = Some addr)) (u0 refused 5).
Proof. exact (connect_host_spec (str "localhost") 80 SOCK_STREAM (u0 refused 5)). Defined.
