(* ===== verification/FdServer.v ===== *)
(** * Programs that pass descriptors: [17/3], [17/4], [17/5]

    [Fork]: a client that forks a server per request over a socket pair, and the standalone
    client.  [Uring]: the daemon that accepts clients and reads their requests through io_uring,
    as a state machine driven by completions. *)

From S2P Require Import Prelude Machine Errors Kernel SimKernel Text FileIO Daemon Sockets.
From S2P Require Import Network UnixSocket SockSim.

Definition STDOUT_FILENO : Z := 1.
Definition MAXLINE : Z := 4096.
Definition UNIX_SOCKET_CS_OPEN : bytes := str "/tmp/daemon.socket".

Class PairOps (W : Type) := {
  k_socketpair : W -> sysres (Z * Z) * W;
  k_waitpid : Z -> W -> sysres Z * W;
}.

Module Fork.

Section Prog.
Context {W : Type} `{FileOps W} `{SockOps W} `{ProcOps W} `{PairOps W} `{CLib}.
Context (pad : bytes).

(** Requests are read and served until the client closes; fuel bounds the iterations. *)
Fixpoint server_loop (fuel : nat) (socket_fd : Z) : M W unit :=
  match fuel with
  | O => out_of_fuel
  | S fuel =>
      '(n, buf) ← read socket_fd UNIX_SOCKET_MAX_MSG_SIZE;
      if n =? 0 then mret tt
      else if n <? 0 then err_ret (str "[Server] read {}") [to_string socket_fd]
      else unix_socket_process_request pad socket_fd buf ;; server_loop fuel socket_fd
  end.

Definition unix_socket_server_loop (fuel : nat) (socket_fd : Z) : M W unit :=
  d ← unix_socket_check_domain socket_fd;
  if d <? 0 then mret tt else server_loop fuel socket_fd.

Definition unix_socket_client_open (fuel : nat) (path : bytes) (mode : Z) : M W Z :=
  r ← syscall k_socketpair;
  match r with
  | SysErr _ => err_sys (str "call socketpair") []
  | SysOk (fd0, fd1) =>
      pid ← syscall_int k_fork;
      if pid <? 0 then close fd0 ;; close fd1 ;; err_sys (str "call fork") []
      else if pid =? 0 then
        close fd0 ;; unix_socket_server_loop fuel fd1 ;; close fd1 ;; sys_exit 0
      else
        close fd1 ;;
        s ← unix_socket_send_request fd0 OPEN path mode;
        if s <? 0 then mret (-1)
        else
          '(fd, _) ← unix_socket_recv_fd fd0 false;
          close fd0 ;;
          syscall (k_waitpid pid) ;;
          mret fd
  end.

Fixpoint cat_file (fuel : nat) (taken_fd : Z) : M W unit :=
  match fuel with
  | O => out_of_fuel
  | S fuel =>
      '(n, buf) ← read taken_fd MAXLINE;
      if n =? 0 then mret tt
      else if n <? 0 then err_msg (str "call read") []
      else
        r ← writen STDOUT_FILENO buf n;
        if failed r then err_msg (str "call write") [] else cat_file fuel taken_fd
  end.

(** [17/4]: ask the daemon for a descriptor and print the file. *)
Definition daemon_client (fuel : nat) (argv : list bytes) (stoi : bytes -> option Z) : M W Z :=
  match argv with
  | [argv0; path; arg2] =>
      match stoi arg2 with
      | None => throw (str "stoi")
      | Some mode =>
          server_fd ← unix_socket_cli_conn UNIX_SOCKET_CS_OPEN;
          if server_fd <? 0 then err_sys (str "call unix_socket_cli_conn") []
          else
            r ← unix_socket_send_request server_fd OPEN path mode;
            if r <? 0 then err_quit (str "call unix_socket_send_request") []
            else
              '(taken_fd, _) ← unix_socket_recv_fd server_fd false;
              if 0 <=? taken_fd then cat_file fuel taken_fd ;; close taken_fd ;; mret 0
              else mret 0
      end
  | _ => err_quit (str "Usage {} <pathname> <mode>") [default [] (head argv)]
  end.

(** The loop of [main] of [17/3] over the lines read from standard input. *)
Definition prompt : M W unit :=
  r ← writen STDOUT_FILENO [10; 62; 32] 3;
  if failed r then err_sys (str "call write") [] else mret tt.

(** A line without its newline. *)
Definition chomp (line : bytes) : bytes :=
  match last line with Some 10 => removelast line | _ => line end.

Fixpoint client_loop (fuel : nat) (lines : list bytes) : M W unit :=
  match lines with
  | [] => mret tt
  | line :: lines =>
      taken_fd ← unix_socket_client_open fuel (chomp line) 0;
      (if 0 <=? taken_fd then cat_file fuel taken_fd ;; close taken_fd ;; mret tt else mret tt) ;;
      prompt ;;
      client_loop fuel lines
  end.

Definition client_main (fuel : nat) (lines : list bytes) : M W Z :=
  prompt ;; client_loop fuel lines ;; mret 0.

End Prog.

Section Facts.
Context {W : Type} `{FS : StreamSpec W} `{CLib}.

Lemma cat_file_spec I fuel fd p :
  reliable I fd STDOUT_FILENO -> I (kern p) -> (length (inbuf (kern p) fd) < fuel)%nat ->
  returns (cat_file fuel fd) (fun _ p' =>
    outbuf (kern p') STDOUT_FILENO = outbuf (kern p) STDOUT_FILENO ++ inbuf (kern p) fd) p.
Proof.
  intros Hr. revert p. induction fuel as [|fuel IH]; intros p HI Hfuel; [lia|].
  simpl. destruct (reads_succeed _ _ _ Hr MAXLINE (kern p) HI eq_refl) as (d & w' & E & HI').
  unfold read. do 2 mstep. mstep. rewrite E in *. simplify_eq. mstep.
  pose proof (read_law _ _ _ _ _ E ltac:(done)) as (Hd & Hin & Heof).
  destruct (Z.eqb_spec (zlen d) 0) as [Hz|Hnz].
  - apply zlen_nil_inv in Hz as ->. specialize (Heof ltac:(done) eq_refl).
    mstep. simpl in *. by rewrite (read_frame _ _ _ _ _ STDOUT_FILENO E), Heof, app_nil_r.
  - pose proof (zlen_nonneg d). destruct (Z.ltb_spec (zlen d) 0); [lia|].
    mstep. unfold writen. eapply returns_mono.
    { apply (writen_loop_reliable I _ fd); [done|done| |lia|done|lia].
      unfold is_size_t, SIZE_MAX, MAXLINE in *. lia. }
    simpl. intros r p' (-> & Ho & Hi & HI2). simpl.
    eapply returns_mono.
    { apply IH; [done|]. rewrite Hi. rewrite Hin, length_app in Hfuel. unfold zlen in *. lia. }
    simpl. intros _ p2 Ho2. rewrite Ho2, Ho, Hi, Hin, <- app_assoc.
    by rewrite (read_frame _ _ _ _ _ STDOUT_FILENO E).
Qed.

(** [cat_file] of both clients ends and prints exactly the contents of the file it was sent,
    when neither reading nor writing fails. *)
Theorem cat_file_correct I fd p :
  reliable I fd STDOUT_FILENO -> I (kern p) ->
  returns (cat_file (S (length (inbuf (kern p) fd))) fd) (fun _ p' =>
    outbuf (kern p') STDOUT_FILENO = outbuf (kern p) STDOUT_FILENO ++ inbuf (kern p) fd) p.
Proof. intros Hr HI. apply (cat_file_spec I); [done|done|lia]. Qed.

End Facts.

Lemma cat_file_correct_witness :
  inbuf (kern sim0) 3 = str "hello, world" /\
  returns (cat_file (S (length (inbuf (kern sim0) 3))) 3) (fun _ p' =>
    outbuf (kern p') STDOUT_FILENO = outbuf (kern sim0) STDOUT_FILENO ++ inbuf (kern sim0) 3) sim0.
Proof.
  split; [vm_compute; reflexivity|].
  apply (cat_file_correct both_open 3 sim0); [apply sim_reliable|]. split; vm_compute; eauto.
Defined.

Section ServerFacts.
Context {W : Type} `{FO : FileOps W} `{ST : !StreamSpec W} `{FD : !FdSpec W} `{SO : SockOps W}
  `{SS : !SockSpec W} `{CLib}.
Context (pad : bytes).

(** The server of a socket pair never leaks: whatever number of requests it serves, however
    malformed, its open descriptors are those it started with. *)
Theorem server_loop_no_leak fuel sock (p : proc W) :
  wp (server_loop pad fuel sock) (fun o p' =>
    fds (kern p') = fds (kern p) /\ (o = Ret tt \/ o = NoFuel)) p.
Proof.
  revert p. induction fuel as [|fuel IH]; intros p; simpl.
  - red. simpl. split; [done|by right].
  - apply wp_bind_ret. unfold read. mstep. apply returns_syscall. intros r w' E.
    apply read_fds in E. mstep. destruct r as [d|e]; simpl.
    + destruct (Z.eqb_spec (zlen d) 0); [wstep; by split; [|left]|].
      pose proof (zlen_nonneg d). destruct (Z.ltb_spec (zlen d) 0); [lia|].
      apply wp_bind_ret. eapply returns_mono; [apply process_request_fds|].
      simpl. intros _ p1 Hf1. eapply wp_mono; [apply IH|]. intros o p2 [Hf2 Ho].
      split; [congruence|done].
    + unfold wp. rewrite err_ret_eq. simpl. by split; [|left].
Qed.

End ServerFacts.
End Fork.

Module Uring.

Inductive Request := OpAccept | OpRead (client_fd : Z).

#[export] Instance Request_eq_dec : EqDecision Request.
Proof. solve_decision. Defined.

Definition queue_depth : nat := 10.

(** The ring: entries prepared and not yet submitted, and requests the kernel works on. *)
Record ring := Ring { sq : list Request; inflight : list Request }.

(** [io_uring_get_sqe] and the preparation of the entry; [None] when the submission queue is full
    and the program would write through a null pointer. *)
Definition prepare (r : Request) (g : ring) : option ring :=
  if (length (sq g) <? queue_depth)%nat then Some (Ring (sq g ++ [r]) (inflight g)) else None.

Definition add_accept_request : ring -> option ring := prepare OpAccept.
Definition add_read_request (cfd : Z) : ring -> option ring := prepare (OpRead cfd).

Definition io_uring_submit (g : ring) : ring := Ring [] (inflight g ++ sq g).

Section Prog.
Context {W : Type} `{FileOps W} `{SockOps W} `{CLib}.
Context (pad : bytes) (listen_fd : Z).

(** The kernel carries a request out: the result is a value or a negated error number, and
    [errno] is not touched. *)
Definition complete {A} (f : W -> sysres A * W) : M W (sysres A) := fun p =>
  let '(r, w) := f (kern p) in (Ret r, Proc (errno p) (log_to_stderr p) (console p) w).

Definition handle_client_request (client_fd : Z) (buf : bytes) : M W unit :=
  if 0 <? zlen buf then unix_socket_process_request pad client_fd buf else mret tt.

(** What [main] does with a completion: [None] as in [prepare]. *)
Definition handle_cqe (req : Request) (g : ring) : M W (option ring) :=
  match req with
  | OpAccept =>
      r ← complete (k_accept listen_fd);
      match r with
      | SysOk client_fd =>
          emit (Syslog LOG_INFO (str "New client connected " ++ to_string client_fd)) ;;
          mret (add_read_request client_fd g ≫= add_accept_request)
      | SysErr e => err_cont e (str "Accept failed") [] ;; mret (Some g)
      end
  | OpRead client_fd =>
      r ← complete (k_read client_fd UNIX_SOCKET_MAX_MSG_SIZE);
      match r with
      | SysOk buf =>
          if 0 <? zlen buf then
            handle_client_request client_fd buf ;;
            emit (Syslog LOG_INFO (str "Request handled " ++ to_string client_fd)) ;;
            close client_fd ;;
            mret (Some g)
          else close client_fd ;; mret (Some g)
      | SysErr _ => close client_fd ;; mret (Some g)
      end
  end.

(** One iteration: an accept request is added and submitted, the kernel completes the request at
    position [i] of those in flight, and the entries its handling prepared are submitted. *)
Definition iteration (i : nat) (g : ring) : M W (option ring) :=
  match add_accept_request g with
  | None => mret None
  | Some g =>
      let g := io_uring_submit g in
      match inflight g !! i with
      | None => mret (Some g)
      | Some req =>
          g ← handle_cqe req (Ring (sq g) (delete i (inflight g)));
          mret (io_uring_submit <$> g)
      end
  end.

(** The server's loop, for a sequence of completions. *)
Fixpoint serve (picks : list nat) (g : ring) : M W (option ring) :=
  match picks with
  | [] => mret (Some g)
  | i :: picks =>
      r ← iteration i g;
      match r with
      | None => mret None
      | Some g => serve picks g
      end
  end.

Definition initial : ring := Ring [] [].

End Prog.

(** Clients whose requests are being read. *)
Definition clients (l : list Request) : list Z :=
  l ≫= fun r => match r with OpRead fd => [fd] | OpAccept => [] end.

Definition accepts (l : list Request) : nat := length (filter (fun r => r = OpAccept) l).

Section Facts.
Context {W : Type} `{FO : FileOps W} `{FD : !FdSpec W} `{SO : SockOps W} `{SS : !SockSpec W} `{CLib}.
Context (pad : bytes) (listen_fd : Z) (base : gset Z).
Implicit Types p : proc W.

(** The open descriptors are those of the start and one per client being served. *)
Record inv (g : ring) (p : proc W) : Prop := {
  inv_sq : sq g = [];
  inv_nodup : NoDup (clients (inflight g));
  inv_base : forall fd, fd ∈ clients (inflight g) -> fd ∉ base;
  inv_fds : fds (kern p) = base ∪ list_to_set (clients (inflight g));
}.

Lemma clients_app l k : clients (l ++ k) = clients l ++ clients k.
Proof. apply bind_app. Qed.

Lemma accepts_app l k : accepts (l ++ k) = (accepts l + accepts k)%nat.
Proof. unfold accepts. by rewrite filter_app, length_app. Qed.

Lemma delete_parts {A} (l : list A) i x :
  l !! i = Some x -> exists l1 l2, l = l1 ++ x :: l2 /\ delete i l = l1 ++ l2.
Proof.
  intros Hi. exists (take i l), (drop (S i) l). split; [by rewrite take_drop_middle|].
  by rewrite delete_take_drop.
Qed.

Lemma returns_complete {A} (f : W -> sysres A * W) (Q : sysres A -> proc W -> Prop) p :
  (forall r w', f (kern p) = (r, w') -> Q r (Proc (errno p) (log_to_stderr p) (console p) w')) ->
  returns (complete f) Q p.
Proof. unfold returns, wp, complete. destruct (f (kern p)) as [r w'] eqn:E. simpl. auto. Qed.

Lemma returns_close_client fd (Q : option ring -> proc W -> Prop) g p :
  (forall p', fds (kern p') = fds (kern p) ∖ {[fd]} -> Q (Some g) p') ->
  returns (close fd ;; mret (Some g)) Q p.
Proof.
  intros HQ. mstep. unfold close. apply returns_syscall_unit; intros * E; apply close_fds in E; mstep;
    by apply HQ.
Qed.

(** Serving a read ends with the client's descriptor closed. *)
Lemma handle_read fd g p :
  returns (handle_cqe pad listen_fd (OpRead fd) g) (fun r p' =>
    r = Some g /\ fds (kern p') = fds (kern p) ∖ {[fd]}) p.
Proof.
  unfold handle_cqe. mstep. apply returns_complete. intros r w' E. apply read_fds in E.
  destruct r as [buf|e].
  - destruct (Z.ltb_spec 0 (zlen buf)).
    + mstep. unfold handle_client_request. rewrite (proj2 (Z.ltb_lt _ _)) by done.
      eapply returns_mono; [apply process_request_fds|]. simpl. intros _ p1 Hf1. do 2 mstep.
      apply returns_close_client. simpl. intros p' Hf. split; [done|]. congruence.
    + apply returns_close_client. simpl. intros p' Hf. split; [done|]. congruence.
  - apply returns_close_client. simpl. intros p' Hf. split; [done|]. congruence.
Qed.

Lemma handle_accept g p :
  sq g = [] ->
  returns (handle_cqe pad listen_fd OpAccept g) (fun r p' =>
    (exists fd, r = Some (Ring [OpRead fd; OpAccept] (inflight g)) /\ (fd ∉ fds (kern p)) /\
       fds (kern p') = {[fd]} ∪ fds (kern p)) \/
    (r = Some g /\ fds (kern p') = fds (kern p))) p.
Proof.
  intros Hsq. unfold handle_cqe. mstep. apply returns_complete. intros r w' E.
  apply accept_fds in E. destruct r as [fd|e].
  - destruct E as (_ & Hn & Hf & _). do 2 mstep. mstep. left. exists fd.
    unfold add_read_request, add_accept_request, prepare. rewrite Hsq. simpl. done.
  - mstep. unfold returns at 1, wp. rewrite err_cont_eq. simpl. mstep. right. done.
Qed.

(** One iteration keeps the invariant and prepares no entry beyond the queue. *)
Lemma iteration_inv i g p :
  inv g p ->
  returns (iteration pad listen_fd i g) (fun r p' => exists g', r = Some g' /\ inv g' p') p.
Proof.
  intros [Hsq Hnd Hbase Hfds]. unfold iteration, add_accept_request, prepare. rewrite Hsq. simpl.
  unfold io_uring_submit. simpl.
  destruct (_ !! i) as [req|] eqn:Ei.
  2:{ mstep. eexists. split; [done|].
      split; simpl; rewrite ?clients_app, ?app_nil_r; done. }
  apply delete_parts in Ei as (l1 & l2 & Hl & ->).
  assert (Hcl : clients (inflight g) ≡ₚ clients [req] ++ clients (l1 ++ l2)).
  { transitivity (clients (inflight g ++ [OpAccept])).
    - by rewrite clients_app, app_nil_r.
    - rewrite Hl. change (req :: l2) with ([req] ++ l2). rewrite !clients_app.
      by rewrite Permutation_app_swap_app. }
  clear Hl. revert Hcl. generalize (l1 ++ l2) as L. clear l1 l2. intros L Hcl.
  rewrite Hcl in Hnd. mstep. destruct req as [|fd].
  - eapply returns_mono; [apply handle_accept; done|]. simpl.
    assert (Hf : fds (kern p) = base ∪ list_to_set (clients L)).
    { rewrite Hfds. f_equal. apply list_to_set_perm_L. exact Hcl. }
    assert (Hb : forall fd, fd ∈ clients L -> fd ∉ base).
    { intros fd Hfd. apply Hbase. by rewrite Hcl. }
    intros r p1 [(fd & -> & Hn & Hf1)|[-> Hf1]]; mstep; simpl; eexists; (split; [done|]).
    + rewrite Hf in Hn. apply not_elem_of_union in Hn as [Hnb Hnc]. rewrite elem_of_list_to_set in Hnc.
      split; simpl; rewrite ?clients_app; simpl.
      * done.
      * apply NoDup_app. split_and!; [done| |by apply NoDup_singleton].
        intros x Hx ->%list_elem_of_singleton. done.
      * intros x [Hx|Hx]%elem_of_app; [by apply Hb|]. by apply list_elem_of_singleton in Hx as ->.
      * rewrite Hf1, Hf, list_to_set_app_L. simpl. apply leibniz_equiv. set_solver.
    + split; simpl; rewrite ?app_nil_r; [done|done|done|congruence].
  - eapply returns_mono; [apply handle_read|]. simpl. intros r p1 [-> Hf1]. mstep. simpl.
    eexists. split; [done|]. simpl in Hnd. apply NoDup_cons in Hnd as [Hnin Hnd].
    assert (Hnb : fd ∉ base) by (apply Hbase; rewrite Hcl; by constructor).
    split; simpl; rewrite ?app_nil_r; [done|done| |].
    + intros x Hx. apply Hbase. rewrite Hcl. by constructor.
    + rewrite Hf1, Hfds, (list_to_set_perm_L _ _ Hcl). simpl. apply leibniz_equiv. set_solver.
Qed.

Lemma serve_inv picks g p :
  inv g p ->
  returns (serve pad listen_fd picks g) (fun r p' => exists g', r = Some g' /\ inv g' p') p.
Proof.
  revert g p. induction picks as [|i picks IH]; intros g p Hi; simpl.
  - mstep. eauto.
  - mstep. eapply returns_mono; [by apply iteration_inv|]. intros r p1 (g' & -> & Hi'). by apply IH.
Qed.

End Facts.

(** C19: the daemon serves any sequence of completions without ever running out of submission
    entries (it never uses the null pointer [io_uring_get_sqe] returns when the queue is full) and
    without leaking descriptors: those open are the ones of the start and exactly one for each
    client whose request is still being read. *)
Theorem uring_server_no_leak {W} `{SS : SockSpec W} `{CLib} pad listen_fd picks (p : proc W) :
  returns (serve pad listen_fd picks initial) (fun r p' =>
    exists g, r = Some g /\ NoDup (clients (inflight g)) /\
      fds (kern p') = fds (kern p) ∪ list_to_set (clients (inflight g))) p.
Proof.
  eapply returns_mono; [apply (serve_inv pad listen_fd (fds (kern p)))|].
  - split; simpl; [done|constructor|set_solver|]. apply leibniz_equiv. set_solver.
  - intros r p' (g & -> & Hi). exists g. destruct Hi. eauto.
Qed.

Lemma accepts_nil : accepts [] = 0%nat.
Proof. done. Qed.

Lemma accepts_accept l : accepts (OpAccept :: l) = S (accepts l).
Proof. done. Qed.

Lemma accepts_read fd l : accepts (OpRead fd :: l) = accepts l.
Proof. done. Qed.

(** Every iteration leaves one accept request more in flight than it found, unless the
    completion it handled was a failed accept: the loop adds one at its start and the handler of a
    new client another one, so accept requests pile up with every request served. *)
Theorem accepts_accumulate {W} `{SS : SockSpec W} `{CLib} pad listen_fd i g (p : proc W) :
  sq g = [] ->
  returns (iteration pad listen_fd i g) (fun r p' => exists g', r = Some g' /\
    (accepts (inflight g') = S (accepts (inflight g)) \/
     (accepts (inflight g') = accepts (inflight g) /\
      exists e, (k_accept listen_fd (kern p)).1 = SysErr e))) p.
Proof.
  intros Hsq. unfold iteration, add_accept_request, prepare. rewrite Hsq. simpl.
  unfold io_uring_submit. simpl.
  destruct (_ !! i) as [req|] eqn:Ei.
  2:{ mstep. eexists. split; [done|left]. simpl. rewrite accepts_app, accepts_accept. rewrite ?accepts_nil in *. lia. }
  apply delete_parts in Ei as (l1 & l2 & Hl & ->).
  assert (Hacc : S (accepts (inflight g)) = (accepts [req] + accepts (l1 ++ l2))%nat).
  { transitivity (accepts (inflight g ++ [OpAccept])).
    - rewrite accepts_app, accepts_accept. rewrite ?accepts_nil in *. lia.
    - rewrite Hl. change (req :: l2) with ([req] ++ l2). rewrite !accepts_app. lia. }
  mstep. destruct req as [|fd].
  - unfold handle_cqe. mstep. apply returns_complete. intros r w' E. destruct r as [fd|e].
    + do 2 mstep. mstep. unfold add_read_request, add_accept_request, prepare. simpl. mstep.
      eexists. split; [done|left]. simpl. rewrite ?accepts_app, ?accepts_read, ?accepts_accept in *. rewrite ?accepts_nil in *. lia.
    + mstep. unfold returns at 1, wp. rewrite err_cont_eq. simpl. do 2 mstep. eexists.
      split; [done|right]. rewrite E. split; [|eauto]. simpl. rewrite app_nil_r.
      rewrite accepts_accept in Hacc. rewrite ?accepts_nil in *. lia.
  - eapply returns_mono; [apply handle_read|]. simpl. intros r p1 [-> _]. mstep. eexists.
    split; [done|left]. simpl. rewrite app_nil_r.
    rewrite accepts_read in Hacc. rewrite ?accepts_nil in *. lia.
Qed.

Lemma accepts_accumulate_witness :
  returns (iteration header_pad 3 0 initial) (fun r p' => exists g', r = Some g' /\
    (accepts (inflight g') = 1%nat \/ accepts (inflight g') = 0%nat)) (u0 refused 5).
Proof.
  eapply returns_mono; [apply (accepts_accumulate header_pad 3 0 initial (u0 refused 5)); reflexivity|].
  intros r p' (g' & H1 & [H2|[H2 _]]); exists g'; (split; [exact H1|]); [left|right]; exact H2.
Defined.

Lemma uring_server_no_leak_witness :
  returns (serve header_pad 3 [0; 0; 1]%nat initial) (fun r p' =>
    exists g, r = Some g /\ NoDup (clients (inflight g)) /\
      fds (kern p') = fds (kern (u0 refused 5)) ∪ list_to_set (clients (inflight g))) (u0 refused 5).
Proof. exact (uring_server_no_leak header_pad 3 [0; 0; 1]%nat (u0 refused 5)). Defined.

(** After three iterations that accept a client, read its request and accept another one, three
    accept requests wait. *)
Example accepts_three :
  exists g p', serve header_pad 3 [0; 0; 1]%nat initial (u0 refused 5) = (Ret (Some g), p') /\
    accepts (inflight g) = 3%nat.
Proof. eexists _, _. split; [vm_compute; reflexivity|vm_compute; reflexivity]. Qed.

End Uring.
