(* ===== verification/Handshake.v ===== *)
(** * Turn taking with signals: [lib/apue_ipc_signal.cpp], [10/24], [15/12]

    [Signals]: the library's functions that install the handlers and the mask, over the signal
    calls of the kernel.  [Turns]: two processes that take turns with the TELL and WAIT functions
    on a shared counter, as a transition system in which the kernel interleaves them step by
    step. *)

From S2P Require Import Prelude Machine Errors Kernel SimKernel.

Definition SIGUSR1 : Z := 10.
Definition SIGUSR2 : Z := 12.
Definition SIGALRM : Z := 14.
Definition SA_RESTART : Z := 268435456.
Definition NSIG : Z := 65.

Module Signals.

(** Signal handlers: default, ignore, or a function of the program. *)
Inductive handler := SIG_DFL | SIG_IGN | Func (name : Z).

#[export] Instance handler_eq_dec : EqDecision handler.
Proof. solve_decision. Defined.

Inductive how := SIG_BLOCK | SIG_UNBLOCK | SIG_SETMASK.

Class SigOps (W : Type) := {
  k_sigaction : Z -> handler -> Z -> W -> sysres handler * W;    (* signal, handler, flags *)
  k_sigprocmask : option (how * gset Z) -> W -> sysres (gset Z) * W;
  k_kill : Z -> Z -> W -> sysres unit * W;
}.

Class SigSpec (W : Type) `{SigOps W} := {
  handler_of : W -> Z -> handler;
  mask_of : W -> gset Z;
  sigaction_law s h fl w r w' : k_sigaction s h fl w = (r, w') ->
    mask_of w' = mask_of w /\
    match r with
    | SysOk old => old = handler_of w s /\
        forall t, handler_of w' t = if t =? s then h else handler_of w t
    | SysErr _ => forall t, handler_of w' t = handler_of w t
    end;
  sigprocmask_law a w r w' : k_sigprocmask a w = (r, w') ->
    (forall t, handler_of w' t = handler_of w t) /\
    match r with
    | SysOk old => old = mask_of w /\
        mask_of w' = match a with
                     | None => mask_of w
                     | Some (SIG_BLOCK, s) => mask_of w ∪ s
                     | Some (SIG_UNBLOCK, s) => mask_of w ∖ s
                     | Some (SIG_SETMASK, s) => s
                     end
    | SysErr _ => mask_of w' = mask_of w
    end;
}.

(** The file-level variables of [lib/apue_ipc_signal.cpp] that [TELL_WAIT_SIGNAL] sets. *)
Record statics := {
  newmask : gset Z;
  oldmask : gset Z;
  zeromask : gset Z;
  old_handler_usr1 : handler;
  old_handler_usr2 : handler;
}.

(** The handler [sig_usr] of the library. *)
Definition sig_usr : handler := Func 0.

Section Prog.
Context {W : Type} `{SigOps W} `{CLib}.

(** [None] is SIG_ERR. SA_INTERRUPT is not defined on the systems the library targets. *)
Definition apue_signal (signo : Z) (func : handler) : M W (option handler) :=
  let sa_flags := if signo =? SIGALRM then 0 else Z.lor 0 SA_RESTART in
  r ← syscall (k_sigaction signo func sa_flags);
  mret (match r with SysOk oact => Some oact | SysErr _ => None end).

Definition sigprocmask (a : option (how * gset Z)) : M W (sysres (gset Z)) :=
  syscall (k_sigprocmask a).

Definition TELL_WAIT_SIGNAL : M W statics :=
  h1 ← apue_signal SIGUSR1 sig_usr;
  match h1 with
  | None => err_sys (str "call signal(SIGUSR1)") []
  | Some old1 =>
      h2 ← apue_signal SIGUSR2 sig_usr;
      match h2 with
      | None => err_sys (str "call signal(SIGUSR2)") []
      | Some old2 =>
          let newmask := {[SIGUSR1; SIGUSR2]} in
          r ← sigprocmask (Some (SIG_BLOCK, newmask));
          match r with
          | SysErr _ => err_sys (str "call sigprocmask(SIG_BLOCK)") []
          | SysOk old => mret {| newmask := newmask; oldmask := old; zeromask := ∅;
                                 old_handler_usr1 := old1; old_handler_usr2 := old2 |}
          end
      end
  end.

Definition TELL_DONE_SIGNAL (st : statics) : M W unit :=
  r ← sigprocmask (Some (SIG_SETMASK, oldmask st));
  match r with
  | SysErr _ => err_sys (str "call sigprocmask(SIG_SETMASK)") []
  | SysOk _ =>
      h1 ← apue_signal SIGUSR1 (old_handler_usr1 st);
      match h1 with
      | None => err_sys (str "call signal(SIGUSR1)") []
      | Some _ =>
          h2 ← apue_signal SIGUSR2 (old_handler_usr2 st);
          match h2 with
          | None => err_sys (str "call signal(SIGUSR2)") []
          | Some _ => mret tt
          end
      end
  end.

Definition TELL_PARENT_SIGNAL (pid : Z) : M W unit := syscall (k_kill pid SIGUSR2) ;; mret tt.
Definition TELL_CHILD_SIGNAL (pid : Z) : M W unit := syscall (k_kill pid SIGUSR1) ;; mret tt.

(** [pr_mask]: the signals of the mask, by name. *)
Fixpoint mask_text (sigs : list Z) (mask : gset Z) (first : bool) (s : bytes) : bytes :=
  match sigs with
  | [] => s
  | i :: sigs =>
      if decide (i ∈ mask) then
        if first then mask_text sigs mask true (s ++ str " | " ++ strsignal i)
        else mask_text sigs mask true (s ++ str " " ++ strsignal i)
      else mask_text sigs mask first s
  end.

Definition pr_mask (text : bytes) : M W unit :=
  errno_save ← get_errno;
  r ← sigprocmask None;
  match r with
  | SysErr _ => err_ret (str "call sigprocmask") []
  | SysOk sigset =>
      emit (Stdout ([10] ++ mask_text (seqZ 1 (NSIG - 1)) sigset false text ++ [10]))
  end ;;
  set_errno errno_save.

End Prog.

Section Facts.
Context {W : Type} `{SS : SigSpec W} `{CLib}.
Implicit Types p : proc W.

Lemma apue_signal_spec s h p :
  returns (apue_signal s h) (fun r p' =>
    quiet p p' /\ mask_of (kern p') = mask_of (kern p) /\
    match r with
    | Some old => old = handler_of (kern p) s /\
        forall t, handler_of (kern p') t = if t =? s then h else handler_of (kern p) t
    | None => forall t, handler_of (kern p') t = handler_of (kern p) t
    end) p.
Proof.
  unfold apue_signal. cbv zeta. mstep. apply returns_syscall. intros r w' E.
  apply sigaction_law in E as [Hm Hr]. mstep. simpl. split; [done|]. by destruct r.
Qed.

(** The state [TELL_WAIT_SIGNAL] sets up: both signals are blocked and handled. *)
Definition armed (p : proc W) (st : statics) (p' : proc W) : Prop :=
  quiet p p' /\
  mask_of (kern p') = mask_of (kern p) ∪ {[SIGUSR1; SIGUSR2]} /\ oldmask st = mask_of (kern p) /\
  zeromask st = ∅ /\
  old_handler_usr1 st = handler_of (kern p) SIGUSR1 /\
  old_handler_usr2 st = handler_of (kern p) SIGUSR2 /\
  forall t, handler_of (kern p') t =
    if (t =? SIGUSR1) || (t =? SIGUSR2) then sig_usr else handler_of (kern p) t.

Lemma tell_wait_armed p :
  wp TELL_WAIT_SIGNAL (fun o p' =>
    match o with Ret st => armed p st p' | Exited c => c = 1 | _ => False end) p.
Proof.
  unfold TELL_WAIT_SIGNAL. apply wp_bind_ret. eapply returns_mono; [apply apue_signal_spec|].
  intros r1 p1 ([Hc1 Hl1] & Hm1 & H1). destruct r1 as [old1|]; [|by wstep].
  apply wp_bind_ret. eapply returns_mono; [apply apue_signal_spec|].
  intros r2 p2 ([Hc2 Hl2] & Hm2 & H2). destruct r2 as [old2|]; [|by wstep].
  unfold sigprocmask. apply wp_bind_ret, returns_syscall. intros r w' E.
  apply sigprocmask_law in E as [Hh Hr]. destruct r as [old|e]; [|by wstep].
  wstep. destruct Hr as [-> Hm]. destruct H1 as [-> H1], H2 as [-> H2].
  split; [split; simpl; congruence|]. simpl. split_and!; [congruence|congruence|done|done| |].
  - by rewrite H1.
  - intros t. rewrite Hh, H2, H1. by destruct (t =? SIGUSR1), (t =? SIGUSR2).
Qed.

(** [TELL_WAIT_SIGNAL] leaves SIGUSR1 and SIGUSR2 blocked and handled (so that neither can
    be lost before the process waits for it), and a later [TELL_DONE_SIGNAL] restores the mask
    and the two handlers of the caller exactly; a failing call ends the program with status 1. *)
Theorem tell_wait_done_restores p :
  wp (st ← TELL_WAIT_SIGNAL; TELL_DONE_SIGNAL st) (fun o p' =>
    match o with
    | Ret _ => quiet p p' /\ mask_of (kern p') = mask_of (kern p) /\
        forall t, handler_of (kern p') t = handler_of (kern p) t
    | Exited c => c = 1
    | _ => False
    end) p.
Proof.
  apply wp_bind. eapply wp_mono; [apply tell_wait_armed|]. intros o p1.
  destruct o as [st| | | |]; try done.
  intros ([Hc Hl] & Hm & Hold & _ & H1 & H2 & Hh). unfold TELL_DONE_SIGNAL, sigprocmask.
  apply wp_bind_ret, returns_syscall. intros r w' E. apply sigprocmask_law in E as [Hh' Hr].
  destruct r as [old|e]; [|by wstep]. destruct Hr as [_ Hm'].
  apply wp_bind_ret. eapply returns_mono; [apply apue_signal_spec|]. simpl.
  intros r3 p3 ([Hc3 Hl3] & Hm3 & H3). destruct r3 as [o3|]; [|by wstep].
  apply wp_bind_ret. eapply returns_mono; [apply apue_signal_spec|].
  intros r4 p4 ([Hc4 Hl4] & Hm4 & H4). destruct r4 as [o4|]; [|by wstep]. wstep.
  destruct H3 as [_ H3], H4 as [_ H4]. simpl in *.
  split; [split; congruence|]. split; [congruence|].
  intros t. rewrite H4, H3, Hh', Hh, H1, H2.
  destruct (Z.eqb_spec t SIGUSR2) as [->|]; [done|].
  by destruct (Z.eqb_spec t SIGUSR1) as [->|].
Qed.

(** [pr_mask] keeps [errno] and the mask. *)
Lemma pr_mask_keeps text p :
  returns (pr_mask text) (fun _ p' => errno p' = errno p /\ mask_of (kern p') = mask_of (kern p)) p.
Proof.
  unfold pr_mask, sigprocmask. do 2 mstep. mstep. apply returns_syscall. intros r w' E.
  apply sigprocmask_law in E as [_ Hr]. destruct r as [s|e]; repeat mstep; simpl.
  - split; [done|]. by destruct Hr.
  - done.
Qed.

End Facts.

(** A concrete kernel: handlers and a mask. *)
Record sigsim := SigSim { ss_handlers : gmap Z handler; ss_mask : gset Z }.

#[export] Instance sigsim_ops : SigOps sigsim := {
  k_sigaction s h _ w :=
    (SysOk (default SIG_DFL (ss_handlers w !! s)), SigSim (<[s := h]> (ss_handlers w)) (ss_mask w));
  k_sigprocmask a w :=
    (SysOk (ss_mask w),
     SigSim (ss_handlers w) (match a with
                             | None => ss_mask w
                             | Some (SIG_BLOCK, s) => ss_mask w ∪ s
                             | Some (SIG_UNBLOCK, s) => ss_mask w ∖ s
                             | Some (SIG_SETMASK, s) => s
                             end));
  k_kill _ _ w := (SysOk tt, w);
}.

#[export, refine] Instance sigsim_spec : SigSpec sigsim := {
  handler_of w s := default SIG_DFL (ss_handlers w !! s);
  mask_of w := ss_mask w;
}.
Proof.
  - intros s h fl w r w' E. simpl in E. simplify_eq. simpl. split; [done|]. split; [done|].
    intros t. destruct (Z.eqb_spec t s) as [->|]; [by rewrite lookup_insert_eq|].
    by rewrite lookup_insert_ne.
  - intros a w r w' E. simpl in E. by simplify_eq.
Defined.

Lemma tell_wait_done_restores_witness :
  wp (st ← TELL_WAIT_SIGNAL; TELL_DONE_SIGNAL st) (fun o p' =>
    match o with
    | Ret _ => mask_of (kern p') = {[SIGALRM]}
    | _ => True
    end) (Proc 0 true [] (SigSim {[SIGUSR1 := SIG_IGN]} {[SIGALRM]})).
Proof.
  eapply wp_mono; [apply tell_wait_done_restores|].
  intros o p'. destruct o; [|exact (fun _ => I)..]. intros (_ & H & _). exact H.
Defined.

End Signals.

Module Turns.

(** What a process does between and in the library's functions: read the shared counter, write it
    back incremented, [TELL_*] and [WAIT_*]. *)
Inductive instr := Read | Write | Tell | Wait.

(** A process: the rest of its program, the value it read, the library's [sigflag], whether it is
    inside [sigsuspend], and its pending signals (blocked everywhere else). *)
Record process := Process {
  prog : list instr;
  local : Z;
  sigflag : bool;
  suspended : bool;
  pending : gset Z;
}.

(** The process that moves first, the other one, the counter in the file or the shared page, and
    the values read in the order of the updates ([true]: by the leader). *)
Record system := System {
  leader : process;
  follower : process;
  counter : Z;
  updates : list (bool * Z);
}.

Definition set_prog (p : process) (c : list instr) : process :=
  Process c (local p) (sigflag p) (suspended p) (pending p).

(** One step of a process; [tell] is the signal it sends and [who] its name.  [None]: finished, or
    blocked in [sigsuspend].  [WAIT_*] is [while (sigflag == 0) sigsuspend(&zeromask); sigflag =
    0;], and [sigsuspend] returns after the handler, which sets [sigflag], has run. *)
Definition exec (who : bool) (tell : Z) (me other : process) (c : Z) (u : list (bool * Z))
  : option (process * process * Z * list (bool * Z)) :=
  if suspended me then
    if decide (pending me = ∅) then None
    else Some (Process (prog me) (local me) true false ∅, other, c, u)
  else
    match prog me with
    | [] => None
    | Read :: k => Some (Process k c (sigflag me) false (pending me), other, c, u)
    | Write :: k => Some (set_prog me k, other, local me + 1, u ++ [(who, local me)])
    | Tell :: k =>
        Some (set_prog me k,
              Process (prog other) (local other) (sigflag other) (suspended other)
                ({[tell]} ∪ pending other), c, u)
    | Wait :: k =>
        if sigflag me then Some (Process k (local me) false false (pending me), other, c, u)
        else Some (Process (prog me) (local me) false true (pending me), other, c, u)
    end.

Section Pair.
(** The signals the leader and the follower send. *)
Context (tell_l tell_f : Z).

Inductive step : system -> system -> Prop :=
| step_leader s l f c u :
    exec true tell_l (leader s) (follower s) (counter s) (updates s) = Some (l, f, c, u) ->
    step s (System l f c u)
| step_follower s l f c u :
    exec false tell_f (follower s) (leader s) (counter s) (updates s) = Some (f, l, c, u) ->
    step s (System l f c u).

(** The loops of the two programs with [n] rounds. *)
Fixpoint leader_prog (n : nat) : list instr :=
  match n with O => [] | S n => Read :: Write :: Tell :: Wait :: leader_prog n end.

Fixpoint follower_prog (n : nat) : list instr :=
  match n with O => [] | S n => Wait :: Read :: Write :: Tell :: follower_prog n end.

Definition initial (n : nat) (c : Z) : system :=
  System (Process (leader_prog n) 0 false false ∅) (Process (follower_prog n) 0 false false ∅) c [].

Definition reachable (n : nat) (c : Z) (s : system) : Prop := rtc step (initial n c) s.

(** Strict alternation: the [j]th update is the leader's for even [j], and reads [c + j]. *)
Definition alternating (c : Z) (m : nat) : list (bool * Z) :=
  (fun j => (Nat.even j, c + Z.of_nat j)) <$> seq 0 m.

Lemma alternating_S c m :
  alternating c (S m) = alternating c m ++ [(Nat.even m, c + Z.of_nat m)].
Proof. unfold alternating. by rewrite seq_S, fmap_app. Qed.

(** ** The phases of a round *)

Definition idle (k : list instr) (x : Z) (b : bool) : process := Process k x false b ∅.

Inductive inv (n : nat) (c : Z) : system -> Prop :=
| ph_read k r x y b : (k + S r = n)%nat ->
    inv n c (System (idle (leader_prog (S r)) x false) (idle (follower_prog (S r)) y b)
               (c + Z.of_nat (2 * k)) (alternating c (2 * k)))
| ph_write k r y b : (k + S r = n)%nat ->
    inv n c (System (idle (Write :: Tell :: Wait :: leader_prog r) (c + Z.of_nat (2 * k)) false)
               (idle (follower_prog (S r)) y b) (c + Z.of_nat (2 * k)) (alternating c (2 * k)))
| ph_tell k r x y b : (k + S r = n)%nat ->
    inv n c (System (idle (Tell :: Wait :: leader_prog r) x false) (idle (follower_prog (S r)) y b)
               (c + Z.of_nat (2 * k + 1)) (alternating c (2 * k + 1)))
| ph_sent k r x y a b : (k + S r = n)%nat ->
    inv n c (System (idle (Wait :: leader_prog r) x a)
               (Process (follower_prog (S r)) y false b {[tell_l]})
               (c + Z.of_nat (2 * k + 1)) (alternating c (2 * k + 1)))
| ph_woken k r x y a : (k + S r = n)%nat ->
    inv n c (System (idle (Wait :: leader_prog r) x a)
               (Process (follower_prog (S r)) y true false ∅)
               (c + Z.of_nat (2 * k + 1)) (alternating c (2 * k + 1)))
| ph_f_read k r x y a : (k + S r = n)%nat ->
    inv n c (System (idle (Wait :: leader_prog r) x a)
               (idle (Read :: Write :: Tell :: follower_prog r) y false)
               (c + Z.of_nat (2 * k + 1)) (alternating c (2 * k + 1)))
| ph_f_write k r x a : (k + S r = n)%nat ->
    inv n c (System (idle (Wait :: leader_prog r) x a)
               (idle (Write :: Tell :: follower_prog r) (c + Z.of_nat (2 * k + 1)) false)
               (c + Z.of_nat (2 * k + 1)) (alternating c (2 * k + 1)))
| ph_f_tell k r x y a : (k + S r = n)%nat ->
    inv n c (System (idle (Wait :: leader_prog r) x a) (idle (Tell :: follower_prog r) y false)
               (c + Z.of_nat (2 * S k)) (alternating c (2 * S k)))
| ph_answered k r x y a b : (k + S r = n)%nat -> (b = true -> r <> 0%nat) ->
    inv n c (System (Process (Wait :: leader_prog r) x false a {[tell_f]}) (idle (follower_prog r) y b)
               (c + Z.of_nat (2 * S k)) (alternating c (2 * S k)))
| ph_resumed k r x y b : (k + S r = n)%nat -> (b = true -> r <> 0%nat) ->
    inv n c (System (Process (Wait :: leader_prog r) x true false ∅) (idle (follower_prog r) y b)
               (c + Z.of_nat (2 * S k)) (alternating c (2 * S k)))
| ph_done x y :
    inv n c (System (idle [] x false) (idle [] y false) (c + Z.of_nat (2 * n)) (alternating c (2 * n))).

Lemma turns_inv_initial n c : inv n c (initial n c).
Proof.
  destruct n as [|r].
  - replace c with (c + Z.of_nat (2 * 0)) at 2 by lia. apply (ph_done 0).
  - replace c with (c + Z.of_nat (2 * 0)) at 2 by lia. by apply (ph_read (S r) c 0 r).
Qed.

Lemma singleton_not_empty (x : Z) : ({[x]} : gset Z) <> ∅.
Proof. set_solver. Qed.

(** The next update of the alternation. *)
Lemma alternating_even c k :
  alternating c (2 * k) ++ [(true, c + Z.of_nat (2 * k))] = alternating c (2 * k + 1).
Proof.
  replace (2 * k + 1)%nat with (S (2 * k)) by lia. rewrite alternating_S. do 3 f_equal.
  rewrite Nat.even_even. done.
Qed.

Lemma alternating_odd c k :
  alternating c (2 * k + 1) ++ [(false, c + Z.of_nat (2 * k + 1))] = alternating c (2 * S k).
Proof.
  replace (2 * S k)%nat with (S (2 * k + 1)) by lia. rewrite alternating_S. do 3 f_equal.
  rewrite Nat.even_odd. done.
Qed.

#[local] Arguments Nat.mul : simpl never.
#[local] Arguments Nat.add : simpl never.

Lemma inv_leader n c s l f c' u :
  inv n c s -> exec true tell_l (leader s) (follower s) (counter s) (updates s) = Some (l, f, c', u) ->
  inv n c (System l f c' u).
Proof.
  intros Hi E. pose proof singleton_not_empty as Hne.
  destruct Hi as [k r x y b Hk|k r y b Hk|k r x y b Hk|k r x y a b Hk|k r x y a Hk|k r x y a Hk
    |k r x a Hk|k r x y a Hk|k r x y a b Hk Hb|k r x y b Hk Hb|x y]; unfold exec, idle in E; simpl in E.
  - simplify_eq. by apply ph_write.
  - simplify_eq. rewrite alternating_even. unfold set_prog. simpl.
    replace (c + Z.of_nat (2 * k) + 1) with (c + Z.of_nat (2 * k + 1)) by lia.
    by apply ph_tell.
  - simplify_eq. unfold set_prog. simpl. rewrite union_empty_r_L. by apply ph_sent.
  - destruct a; [by rewrite decide_True in E|]. simplify_eq. by apply ph_sent.
  - destruct a; [by rewrite decide_True in E|]. simplify_eq. by apply ph_woken.
  - destruct a; [by rewrite decide_True in E|]. simplify_eq. by apply ph_f_read.
  - destruct a; [by rewrite decide_True in E|]. simplify_eq. by apply ph_f_write.
  - destruct a; [by rewrite decide_True in E|]. simplify_eq. by apply ph_f_tell.
  - destruct a; [|simplify_eq; by apply ph_answered].
    rewrite decide_False in E by done. simplify_eq. by apply ph_resumed.
  - simplify_eq. destruct r as [|r].
    + destruct b; [by destruct Hb|]. replace (S k) with (k + 1)%nat by lia. apply ph_done.
    + apply ph_read. lia.
  - done.
Qed.

Lemma inv_follower n c s l f c' u :
  inv n c s -> exec false tell_f (follower s) (leader s) (counter s) (updates s) = Some (f, l, c', u) ->
  inv n c (System l f c' u).
Proof.
  intros Hi E. pose proof singleton_not_empty as Hne.
  destruct Hi as [k r x y b Hk|k r y b Hk|k r x y b Hk|k r x y a b Hk|k r x y a Hk|k r x y a Hk
    |k r x a Hk|k r x y a Hk|k r x y a b Hk Hb|k r x y b Hk Hb|x y]; unfold exec, idle in E; simpl in E.
  - destruct b; [by rewrite decide_True in E|]. simplify_eq. by apply ph_read.
  - destruct b; [by rewrite decide_True in E|]. simplify_eq. by apply ph_write.
  - destruct b; [by rewrite decide_True in E|]. simplify_eq. by apply ph_tell.
  - destruct b; [|simplify_eq; by apply ph_sent].
    rewrite decide_False in E by done. simplify_eq. by apply ph_woken.
  - simplify_eq. by apply ph_f_read.
  - simplify_eq. by apply ph_f_write.
  - simplify_eq. rewrite alternating_odd. unfold set_prog. simpl.
    replace (c + Z.of_nat (2 * k + 1) + 1) with (c + Z.of_nat (2 * S k)) by lia.
    by apply ph_f_tell.
  - simplify_eq. unfold set_prog. simpl. rewrite union_empty_r_L. by apply ph_answered.
  - destruct b; [by rewrite decide_True in E|]. destruct r as [|r]; simplify_eq/=.
    by apply (ph_answered _ c k (S r) x y a true).
  - destruct b; [by rewrite decide_True in E|]. destruct r as [|r]; simplify_eq/=.
    by apply (ph_resumed _ c k (S r) x y true).
  - done.
Qed.

Lemma turns_inv_step n c s s' : inv n c s -> step s s' -> inv n c s'.
Proof.
  intros Hi Hst. destruct Hst as [s l f c' u E|s l f c' u E].
  - exact (inv_leader n c s l f c' u Hi E).
  - exact (inv_follower n c s l f c' u Hi E).
Qed.

Lemma turns_inv_reachable n c s : reachable n c s -> inv n c s.
Proof.
  intros Hr. apply (rtc_ind_r (fun s => inv n c s) (initial n c)) in Hr; [done|apply turns_inv_initial|].
  intros ???. eauto using turns_inv_step.
Qed.

(** Whoever holds the turn can move: no wake-up is lost. *)
Lemma inv_progress n c s :
  inv n c s -> (exists s', step s s') \/
  (prog (leader s) = [] /\ prog (follower s) = [] /\
   counter s = c + Z.of_nat (2 * n) /\ updates s = alternating c (2 * n)).
Proof.
  intros Hi. pose proof singleton_not_empty as Hne.
  destruct Hi as [k r x y b Hk|k r y b Hk|k r x y b Hk|k r x y a b Hk|k r x y a Hk|k r x y a Hk
    |k r x a Hk|k r x y a Hk|k r x y a b Hk Hb|k r x y b Hk Hb|x y].
  1-3: left; eexists; by apply step_leader.
  1: left; destruct b; eexists; apply step_follower; unfold exec; simpl; [by rewrite decide_False|done].
  1-4: left; eexists; by apply step_follower.
  1: left; destruct a; eexists; apply step_leader; unfold exec; simpl; [by rewrite decide_False|done].
  1: left; eexists; by apply step_leader.
  by right.
Qed.

(** ** Every schedule ends *)

Definition weight (i : instr) : nat :=
  match i with Read => 1 | Write => 1 | Tell => 3 | Wait => 2 end.

Definition weigh (p : process) : nat :=
  sum_list_with weight (prog p) + Nat.b2n (negb (suspended p)) +
  (if decide (pending p = ∅) then 0 else 2).

Definition measure (s : system) : nat := weigh (leader s) + weigh (follower s).

Lemma exec_weigh who tell me other c u me' other' c' u' :
  exec who tell me other c u = Some (me', other', c', u') ->
  (weigh me' + weigh other' < weigh me + weigh other)%nat.
Proof.
  unfold exec, weigh, set_prog. destruct (suspended me) eqn:Es; simpl.
  - intros E. destruct (decide (pending me = ∅)) as [Hp|Hp]; [done|]. simplify_eq. simpl.
    rewrite decide_True by done. simpl. lia.
  - destruct (prog me) as [|[] k]; intros E; simplify_eq; simpl; rewrite ?Es; simpl; try lia.
    + repeat case_decide; lia.
    + destruct (sigflag me); simplify_eq; simpl; repeat case_decide; lia.
Qed.

Lemma turns_measure_step s s' : step s s' -> (measure s' < measure s)%nat.
Proof. intros [? ? ? ? ? E%exec_weigh|? ? ? ? ? E%exec_weigh]; unfold measure; simpl; lia. Qed.

Lemma turns_measure_nsteps k s s' : nsteps step k s s' -> (k + measure s' <= measure s)%nat.
Proof.
  induction 1 as [|k s1 s2 s3 Hst Hk IH]; [done|]. apply turns_measure_step in Hst. lia.
Qed.

Lemma measure_initial n c : measure (initial n c) = (14 * n + 2)%nat.
Proof.
  unfold measure, weigh, initial. simpl. rewrite decide_True by done.
  assert (H1 : sum_list_with weight (leader_prog n) = (7 * n)%nat).
  { induction n as [|n IH]; [done|]. cbn [leader_prog sum_list_with weight]. rewrite IH. lia. }
  assert (H2 : sum_list_with weight (follower_prog n) = (7 * n)%nat).
  { clear H1. induction n as [|n IH]; [done|]. cbn [follower_prog sum_list_with weight]. rewrite IH. lia. }
  rewrite H1, H2. lia.
Qed.

(** C2: two processes that take turns with the TELL and WAIT functions are correct under every
    interleaving of their steps: a state in which neither can move is the end of both programs,
    the counter was incremented [2 n] times and no update was lost, and the updates alternate
    strictly, each reading the value the other left (so the checks of [15/12] never fail).  No
    wake-up is lost and there is no deadlock. *)
Theorem turns_correct n c s :
  reachable n c s -> (forall s', ~ step s s') ->
  prog (leader s) = [] /\ prog (follower s) = [] /\
  counter s = c + Z.of_nat (2 * n) /\ updates s = alternating c (2 * n).
Proof.
  intros Hr Hstuck. destruct (inv_progress n c s) as [[s' Hs]|Hdone].
  - by apply turns_inv_reachable.
  - by destruct (Hstuck s').
  - done.
Qed.

(** every run of the two processes ends: it has at most [14 n + 2] steps. *)
Theorem turns_terminate n c k s : nsteps step k (initial n c) s -> (k <= 14 * n + 2)%nat.
Proof. intros Hk%turns_measure_nsteps. rewrite measure_initial in Hk. lia. Qed.

(** A process between its read and its write. *)
Definition critical (p : process) : Prop := exists k, prog p = Write :: k.

(** The read and the write of an update are never interleaved with the other process's: at
    most one of the two is between them, and the value it read is still the value of the
    counter. *)
Theorem turns_exclusive n c s :
  reachable n c s ->
  ~ (critical (leader s) /\ critical (follower s)) /\
  (critical (leader s) -> local (leader s) = counter s) /\
  (critical (follower s) -> local (follower s) = counter s).
Proof.
  intros Hr%turns_inv_reachable. unfold critical.
  destruct Hr as [k r x y b Hk|k r y b Hk|k r x y b Hk|k r x y a b Hk|k r x y a Hk|k r x y a Hk
    |k r x a Hk|k r x y a Hk|k r x y a b Hk Hb|k r x y b Hk Hb|x y]; simpl.
  all: split_and!; [intros [[? ?] [? ?]]|intros [? ?]|intros [? ?]]; try done.
  all: destruct r; done.
Qed.

End Pair.

(** ** The programs *)

(** [10/24]: the child moves first and sends SIGUSR2, the counter starts at 0, ten rounds. *)
Definition handshake_main : system := initial 10 0.

(** [15/12]: the parent moves first and sends SIGUSR1; NLOOPS / 2 rounds. *)
Definition shm_main : system := initial 500 0.

(** A scheduler: run the leader when it can move, otherwise the follower. *)
Fixpoint run (tell_l tell_f : Z) (fuel : nat) (s : system) : system :=
  match fuel with
  | O => s
  | S fuel =>
      match exec true tell_l (leader s) (follower s) (counter s) (updates s) with
      | Some (l, f, c, u) => run tell_l tell_f fuel (System l f c u)
      | None =>
          match exec false tell_f (follower s) (leader s) (counter s) (updates s) with
          | Some (f, l, c, u) => run tell_l tell_f fuel (System l f c u)
          | None => s
          end
      end
  end.

Lemma run_rtc tell_l tell_f fuel s : rtc (step tell_l tell_f) s (run tell_l tell_f fuel s).
Proof.
  revert s. induction fuel as [|fuel IH]; intros s; simpl; [apply rtc_refl|].
  destruct (exec true _ _ _ _ _) as [[[[l f] c] u]|] eqn:E1.
  { eapply rtc_l; [by apply step_leader|apply IH]. }
  destruct (exec false _ _ _ _ _) as [[[[f l] c] u]|] eqn:E2; [|apply rtc_refl].
  eapply rtc_l; [by apply step_follower|apply IH].
Qed.

Definition handshake_end : system := Eval vm_compute in run SIGUSR2 SIGUSR1 142 handshake_main.

Lemma handshake_reaches : reachable SIGUSR2 SIGUSR1 10 0 handshake_end.
Proof.
  replace handshake_end with (run SIGUSR2 SIGUSR1 142 handshake_main) by (vm_compute; reflexivity).
  apply run_rtc.
Qed.

Lemma turns_correct_witness :
  counter handshake_end = 20 /\ updates handshake_end = alternating 0 20.
Proof.
  destruct (turns_correct SIGUSR2 SIGUSR1 10 0 handshake_end) as (_ & _ & H1 & H2).
  - exact handshake_reaches.
  - intros s' Hs. inversion Hs as [? ? ? ? ? E|? ? ? ? ? E]; vm_compute in E; discriminate E.
  - split; [exact H1|exact H2].
Defined.

Lemma turns_terminate_witness : (0 <= 14 * 10 + 2)%nat.
Proof. apply (turns_terminate SIGUSR2 SIGUSR1 10 0 0 handshake_main). constructor. Defined.

Lemma turns_exclusive_witness :
  ~ (critical (leader handshake_end) /\ critical (follower handshake_end)).
Proof. apply (turns_exclusive SIGUSR2 SIGUSR1 10 0 handshake_end). exact handshake_reaches. Defined.

End Turns.
