(* ===== verification/Pipes.v ===== *)
(** * Turn taking with pipes: [lib/apue_ipc_pipe.cpp] *)

From S2P Require Import Prelude Machine Errors Kernel SimKernel FileIO.

(** [pipe] makes two descriptors. *)
Class PipeOps (W : Type) := { k_pipe : W -> sysres (Z * Z) * W }.

(** The file-level arrays [pfd1] and [pfd2]. *)
Record pipes := { pfd1 : Z * Z; pfd2 : Z * Z }.

Section Prog.
Context {W : Type} `{FileOps W} `{PipeOps W} `{CLib}.

Definition TELL_WAIT_PIPE : M W pipes :=
  r1 ← syscall k_pipe;
  match r1 with
  | SysErr _ => err_sys (str "TELL_WAIT_PIPE: call pipe") []
  | SysOk p1 =>
      r2 ← syscall k_pipe;
      match r2 with
      | SysErr _ => err_sys (str "TELL_WAIT_PIPE: call pipe") []
      | SysOk p2 => mret {| pfd1 := p1; pfd2 := p2 |}
      end
  end.

Definition TELL_DONE_PIPE (st : pipes) : M W unit :=
  close (pfd1 st).1 ;; close (pfd1 st).2 ;; close (pfd2 st).1 ;; close (pfd2 st).2 ;; mret tt.

Definition TELL_PARENT_PIPE (st : pipes) : M W unit :=
  r ← writen (pfd2 st).2 (str "c") 1;
  if failed r then err_sys (str "TELL_PARENT: call write") [] else mret tt.

Definition WAIT_PARENT_PIPE (st : pipes) : M W unit :=
  '(n, c) ← read (pfd1 st).1 1;
  if negb (n =? 1) then err_sys (str "WAIT_PARENT: call read") []
  else if negb (bool_decide (c = str "p")) then
    err_quit (str "WAIT_PARENT: taken incorrect data") []
  else mret tt.

(** [if (!writen(...) != 1)]: the negation is taken first, then compared with 1. *)
Definition TELL_CHILD_PIPE (st : pipes) : M W unit :=
  r ← writen (pfd1 st).2 (str "p") 1;
  let not_r : Z := if failed r then 1 else 0 in
  if negb (not_r =? 1) then err_sys (str "TELL_CHILD: call write") [] else mret tt.

Definition WAIT_CHILD_PIPE (st : pipes) : M W unit :=
  '(n, c) ← read (pfd2 st).1 1;
  if negb (n =? 1) then err_sys (str "WAIT_CHILD: call read") []
  else if negb (bool_decide (c = str "c")) then
    err_quit (str "WAIT_CHILD: taken incorrect data") []
  else mret tt.

End Prog.

Section Facts.
Context {W : Type} `{FS : StreamSpec W} `{CLib}.
Implicit Types p : proc W.

(** A one-byte [writen] is one [write]: it fails if and only if that call fails. *)
Lemma writen_byte fd b p :
  returns (writen fd [b] 1) (fun r p' =>
    quiet p p' /\ kern p' = (k_write fd [b] (kern p)).2 /\
    match (k_write fd [b] (kern p)).1 with
    | SysOk n => r = Some n
    | SysErr e => r = None /\ errno p' = e
    end) p.
Proof.
  unfold writen, write. simpl. mstep. apply returns_syscall_int; intros * E; rewrite E; simpl.
  - destruct (write_law _ _ _ _ _ E) as [Hn _]. change (zlen [b]) with 1 in Hn.
    assert (n = 0 \/ n = 1) as [->| ->] by lia; simpl; by mstep.
  - by mstep.
Qed.

(** [WAIT_CHILD_PIPE] accepts exactly the byte [TELL_PARENT_PIPE] sends: it returns if the
    next byte of the pipe is 'c' and was consumed, and ends the program with status 1 and one
    report if the pipe ends, the read fails or another byte comes. *)
Theorem wait_child_pipe_spec st p :
  wp (WAIT_CHILD_PIPE st) (fun o p' =>
    match o with
    | Ret _ => quiet p p' /\ inbuf (kern p) (pfd2 st).1 = str "c" ++ inbuf (kern p') (pfd2 st).1
    | Exited c => c = 1 /\ (exists m, console p' = console p ++ [report (log_to_stderr p) m]) /\
        (forall rest, inbuf (kern p) (pfd2 st).1 = str "c" ++ rest ->
           exists e, k_read (pfd2 st).1 1 (kern p) = (SysErr e, kern p'))
    | _ => False
    end) p.
Proof.
  unfold WAIT_CHILD_PIPE, read. apply wp_bind_ret. mstep. apply returns_syscall. intros r w' E. mstep.
  pose proof (read_law _ _ _ _ _ E ltac:(lia)) as Hl. destruct r as [d|e].
  - destruct Hl as (Hlen & Hin & Heof). destruct (Z.eqb_spec (zlen d) 1) as [H1|H1]; simpl.
    + destruct (bool_decide_reflect (d = str "c")) as [->|Hne]; simpl; wstep; simpl.
      * done.
      * split_and!; [done|eauto|]. intros rest Hr. exfalso. rewrite Hr in Hin.
        destruct d as [|x [|y d]]; [done| |unfold zlen in H1; simpl in H1; lia].
        apply Hne. change (str "c" ++ rest) with (99 :: rest) in Hin. simpl in Hin.
        injection Hin as Hx _. by rewrite <- Hx.
    + wstep. simpl. split_and!; [done|eauto|]. intros rest Hr. exfalso.
      assert (d = []) as ->.
      { apply zlen_nil_inv. pose proof (zlen_nonneg d). lia. }
      specialize (Heof ltac:(lia) eq_refl). by rewrite Heof in Hr.
  - simpl. wstep. simpl. split_and!; [done|eauto|]. intros _ _. eauto.
Qed.

(** The byte of the partner is taken. *)
Lemma wait_takes_byte st q rest :
  inbuf (kern q) (pfd2 st).1 = str "c" ++ rest ->
  match (k_read (pfd2 st).1 1 (kern q)).1 with SysOk d => d <> [] | SysErr _ => False end ->
  returns (WAIT_CHILD_PIPE st) (fun _ q' => quiet q q' /\ inbuf (kern q') (pfd2 st).1 = rest) q.
Proof.
  intros Hin Hread. unfold WAIT_CHILD_PIPE, read. mstep. mstep. apply returns_syscall.
  intros r w' E. mstep. rewrite E in Hread. destruct r as [d|]; [|done].
  destruct (read_law _ _ _ _ _ E ltac:(lia)) as (Hlen & Hd & _). rewrite Hin in Hd.
  destruct d as [|x [|y d]]; [done| |unfold zlen in Hlen; simpl in Hlen; lia].
  change (str "c" ++ rest) with (99 :: rest) in Hd. simpl in Hd. injection Hd as <- ->. simpl.
  by mstep.
Qed.

(** C24: both calls that tell the partner make exactly one [write], of the byte 'c' to [pfd2] or
    'p' to [pfd1].  [TELL_PARENT_PIPE] then returns silently if the call did not fail, so if it
    accepted the byte the byte is in the pipe, and [WAIT_CHILD_PIPE] of a partner whose end holds
    that byte takes it and returns; if the call failed, the program ends with status 1 and one
    report of its error.  [TELL_CHILD_PIPE] does the opposite, because the negation binds tighter
    than the comparison: when the call succeeded, the byte is in the pipe and the program ends with
    status 1 and an error report, and when it failed the function returns as if all were well. *)
Theorem tell_pipe_spec st p :
  (let call := k_write (pfd2 st).2 (str "c") (kern p) in
   wp (TELL_PARENT_PIPE st) (fun o p' => kern p' = call.2 /\
     match call.1 with
     | SysOk n => o = Ret tt /\ quiet p p' /\
         outbuf (kern p') (pfd2 st).2 = outbuf (kern p) (pfd2 st).2 ++ take (Z.to_nat n) (str "c")
     | SysErr e => o = Exited 1 /\
         console p' = console p ++ [report (log_to_stderr p)
           (message (log_to_stderr p) e (str "TELL_PARENT: call write") [])]
     end) p) /\
  (forall q rest, inbuf (kern q) (pfd2 st).1 = str "c" ++ rest ->
     match (k_read (pfd2 st).1 1 (kern q)).1 with SysOk d => d <> [] | SysErr _ => False end ->
     returns (WAIT_CHILD_PIPE st) (fun _ q' =>
       quiet q q' /\ inbuf (kern q') (pfd2 st).1 = rest) q) /\
  (let call := k_write (pfd1 st).2 (str "p") (kern p) in
   wp (TELL_CHILD_PIPE st) (fun o p' => kern p' = call.2 /\
     match call.1 with
     | SysOk n => o = Exited 1 /\
         outbuf (kern p') (pfd1 st).2 = outbuf (kern p) (pfd1 st).2 ++ take (Z.to_nat n) (str "p") /\
         console p' = console p ++ [report (log_to_stderr p)
           (message (log_to_stderr p) (errno p') (str "TELL_CHILD: call write") [])]
     | SysErr _ => o = Ret tt /\ quiet p p'
     end) p).
Proof.
  split_and!.
  - cbv zeta. unfold TELL_PARENT_PIPE. apply wp_bind_ret. eapply returns_mono; [apply writen_byte|].
    intros r p' ([Hc Hl] & Hk & Hr). change [99] with (str "c") in *.
    destruct (k_write _ _ _) as [[n|e] w] eqn:E; simpl in *; subst.
    + destruct (write_law _ _ _ _ _ E) as [_ Ho]. simpl. by wstep.
    + destruct Hr as [-> <-]. simpl. wstep. simpl. by rewrite Hc, Hl.
  - intros q rest Hin Hread. apply (wait_takes_byte st q rest Hin Hread).
  - cbv zeta. unfold TELL_CHILD_PIPE. apply wp_bind_ret. eapply returns_mono; [apply writen_byte|].
    intros r p' ([Hc Hl] & Hk & Hr). change [112] with (str "p") in *.
    destruct (k_write _ _ _) as [[n|e] w] eqn:E; simpl in *; subst.
    + destruct (write_law _ _ _ _ _ E) as [_ Ho]. simpl. wstep. simpl. by rewrite Hc, Hl.
    + destruct Hr as [-> _]. simpl. by wstep.
Qed.

End Facts.

(** A process whose descriptor 3 is a pipe that holds [b]. *)
Definition pipe_holding (b : bytes) : proc sim :=
  Proc 0 true [] (Sim (<[3 := SimFd b [] 0 0]> sim_fds0) 4).

Lemma tell_pipe_spec_witness :
  let st := {| pfd1 := (3, 1); pfd2 := (3, 1) |} in
  returns (WAIT_CHILD_PIPE st) (fun _ q' => inbuf (kern q') 3 = []) (pipe_holding (str "c")) /\
  outbuf (kern (TELL_PARENT_PIPE st sim0).2) 1 = str "c" /\
  (TELL_CHILD_PIPE st sim0).1 = Exited 1.
Proof.
  pose (st := {| pfd1 := (3, 1); pfd2 := (3, 1) |}).
  destruct (tell_pipe_spec st sim0) as (H1 & H2 & H3). split; [|split].
  - eapply returns_mono; [apply (H2 (pipe_holding (str "c")) []); vm_compute; done|].
    intros ? ? [_ H]. exact H.
  - vm_compute. reflexivity.
  - vm_compute in H3. apply H3.
Defined.
