(* ===== verification/CpHoles.v ===== *)
(** * [4/11_cp_holes.cpp]: copying files with holes

    Runs of zero bytes are not written: the program seeks over them and sets the size of the copy
    at the end. *)

From S2P Require Import Prelude FileModel Machine Errors Kernel SimKernel FileIO Locks.

Definition BUFF_SIZE : Z := 4096.
Definition FILE_MODE : Z := 420.
Definition EEXIST : Z := 17.
Definition O_RDONLY : Z := 0.
Definition O_WRONLY_CREAT_TRUNC : Z := 577.

Class SeekOps (W : Type) := {
  k_lseek : Z -> Z -> Z -> W -> sysres Z * W;      (* fd, offset, whence *)
  k_mkdir : bytes -> Z -> W -> sysres unit * W;
}.

(** [std::find] for a zero and [std::find_if] for a non-zero byte, as the prefixes they skip. *)
Fixpoint nonzeros (l : bytes) : bytes :=
  match l with
  | c :: r => if c =? 0 then [] else c :: nonzeros r
  | [] => []
  end.

Fixpoint zeros (l : bytes) : nat :=
  match l with
  | c :: r => if c =? 0 then S (zeros r) else O
  | [] => O
  end.

Section Prog.
Context {W : Type} `{FileOps W} `{SeekOps W} `{CLib}.

(** The iterators leave the buffer: undefined behaviour. *)
Definition undefined {A} : M W A := sys_abort.

(** The inner loop over a buffer of [r] bytes read; each iteration makes progress, so its length
    is enough fuel. *)
Fixpoint copy_chunk (fuel : nat) (fd_dest : Z) (dest_path : bytes) (buf : bytes) (written : nat)
  : M W unit :=
  match fuel with
  | O => out_of_fuel
  | S fuel =>
      if (written <? length buf)%nat then
        let rest := drop written buf in
        let non_zero_size := length (nonzeros rest) in
        (if (0 <? non_zero_size)%nat then
           r ← writen fd_dest rest (Z.of_nat non_zero_size);
           if failed r then err_sys (str "call write to destination file") [] else mret tt
         else mret tt) ;;
        if (non_zero_size =? length rest)%nat then mret tt
        else
          let zero_size := zeros (drop non_zero_size rest) in
          r ← syscall_int (k_lseek fd_dest (Z.of_nat zero_size) SEEK_CUR);
          when (r <? 0) (err_ret (str "call lseek in destination file {}") [dest_path]) ;;
          copy_chunk fuel fd_dest dest_path buf (written + non_zero_size + zero_size)
      else mret tt
  end.

(** The loop over the reads.  The result of [read] is kept in an unsigned variable, so the test
    for a negative result never succeeds and a failed read is taken for a huge count. *)
Fixpoint copy_loop (fuel : nat) (fd_src fd_dest : Z) (dest_path : bytes) (total_size : Z) : M W Z :=
  match fuel with
  | O => out_of_fuel
  | S fuel =>
      '(n, buf) ← read fd_src BUFF_SIZE;
      let r := to_size_t n in
      if r =? 0 then mret total_size
      else if r <? 0 then err_sys (str "call read from source file {}") []
      else if BUFF_SIZE <? r then undefined
      else
        copy_chunk (S (length buf)) fd_dest dest_path buf 0 ;;
        copy_loop fuel fd_src fd_dest dest_path (to_size_t (total_size + r))
  end.

Definition copy_file (fuel : nat) (dir file : bytes) : M W unit :=
  fd_src ← open file O_RDONLY 0;
  if fd_src <? 0 then err_ret (str "call open source file {}") [file]
  else
    let dest_path := dir ++ str "/" ++ file in
    fd_dest ← open dest_path O_WRONLY_CREAT_TRUNC FILE_MODE;
    if fd_dest <? 0 then err_ret (str "call open destination file {}") [dest_path]
    else
      total_size ← copy_loop fuel fd_src fd_dest dest_path 0;
      r ← ftruncate fd_dest total_size;
      when (r <? 0) (err_ret (str "call ftruncate for destination file {}") [dest_path]) ;;
      close fd_src ;; close fd_dest ;; mret tt.

Fixpoint copy_files (fuel : nat) (dir : bytes) (files : list bytes) : M W unit :=
  match files with
  | [] => mret tt
  | file :: files => copy_file fuel dir file ;; copy_files fuel dir files
  end.

Definition main (fuel : nat) (argv : list bytes) : M W Z :=
  match argv, last argv with
  | argv0 :: (_ :: _ :: _) as args, Some dir =>
      r ← syscall_unit (k_mkdir dir FILE_MODE);
      e ← get_errno;
      (if (r <? 0) && negb (e =? EEXIST) then err_sys (str "call mkdir for {}") [dir] else mret tt) ;;
      copy_files fuel dir (removelast (tail argv)) ;;
      mret 0
  | _, _ => err_quit (str "Usage: {} <file> ... <directory>") [default [] (head argv)]
  end.

End Prog.

(** ** Regular files *)

(** The contents of the file behind a descriptor and the descriptor's offset. *)
Class RegSpec (W : Type) `{FO : FileOps W} `{SO : SeekOps W} := {
  content : W -> Z -> bytes;
  pos : W -> Z -> nat;
  reg_write fd d w r w' : k_write fd d w = (r, w') ->
    match r with
    | SysOk k => 0 <= k <= zlen d /\
        content w' fd = pwrite (pos w fd) (take (Z.to_nat k) d) (content w fd) /\
        pos w' fd = (pos w fd + Z.to_nat k)%nat
    | SysErr _ => content w' fd = content w fd /\ pos w' fd = pos w fd
    end;
  reg_lseek fd off w r w' : k_lseek fd off SEEK_CUR w = (r, w') -> 0 <= off ->
    content w' fd = content w fd /\
    match r with
    | SysOk _ => pos w' fd = (pos w fd + Z.to_nat off)%nat
    | SysErr _ => pos w' fd = pos w fd
    end;
  reg_ftruncate fd n w r w' : k_ftruncate fd n w = (r, w') -> 0 <= n ->
    match r with
    | SysOk _ => content w' fd = truncate (Z.to_nat n) (content w fd)
    | SysErr _ => content w' fd = content w fd
    end;
  reg_read fd n w r w' fd' : k_read fd n w = (r, w') -> fd' <> fd ->
    content w' fd' = content w fd' /\ pos w' fd' = pos w fd';
}.

Lemma take_nonzeros l : take (length (nonzeros l)) l = nonzeros l.
Proof. induction l as [|c r IH]; [done|]. simpl. destruct (c =? 0); [done|]. simpl. by rewrite IH. Qed.

Lemma take_zeros l : take (zeros l) l = replicate (zeros l) 0.
Proof.
  induction l as [|c r IH]; [done|]. simpl. destruct (Z.eqb_spec c 0) as [->|]; [|done].
  simpl. by rewrite IH.
Qed.

Lemma zeros_le l : (zeros l <= length l)%nat.
Proof. induction l as [|c r IH]; [done|]. simpl. destruct (c =? 0); simpl; lia. Qed.

Lemma nonzeros_le l : (length (nonzeros l) <= length l)%nat.
Proof. induction l as [|c r IH]; [done|]. simpl. destruct (c =? 0); simpl; lia. Qed.

(** Where the scan stops before the end there is a zero. *)
Lemma zeros_pos l : length (nonzeros l) <> length l -> (0 < zeros (drop (length (nonzeros l)) l))%nat.
Proof.
  induction l as [|c r IH]; [done|]. simpl. destruct (Z.eqb_spec c 0) as [->|]; simpl.
  - intros _. lia.
  - intros E. apply IH. lia.
Qed.

(** A write behind the end of a file, and the size set behind it. *)
Lemma pwrite_behind off d f :
  d <> [] -> (length f <= off)%nat -> pwrite off d f = truncate off f ++ d.
Proof.
  intros Hd Hf. unfold pwrite, truncate. destruct d as [|x d]; [done|].
  rewrite (drop_ge f) by lia. by rewrite app_nil_r, <- app_assoc.
Qed.

Lemma truncate_more n z f :
  (length f <= n)%nat -> truncate (n + z) f = truncate n f ++ replicate z 0.
Proof.
  intros Hf. rewrite !truncate_extend by lia. rewrite <- app_assoc, <- replicate_add. do 2 f_equal. lia.
Qed.

Section Facts.
Context {W : Type} `{FO : FileOps W} `{ST : !StreamSpec W} `{SO : SeekOps W} `{RS : !RegSpec W} `{CLib}.
Implicit Types p : proc W.

(** No call on the two descriptors fails in the states [I], a write moves at least one byte, and
    what happens to the copy leaves the source alone. *)
Record healthy (I : W -> Prop) (src dst : Z) : Prop := {
  h_neq : src <> dst;
  h_read n w : I w -> 0 < n -> exists d w', k_read src n w = (SysOk d, w') /\ I w';
  h_write d w : I w -> d <> [] ->
    exists k w', k_write dst d w = (SysOk k, w') /\ 0 < k /\ I w' /\ inbuf w' src = inbuf w src;
  h_lseek off w : I w -> 0 < off ->
    exists k w', k_lseek dst off SEEK_CUR w = (SysOk k, w') /\ 0 <= k /\ I w' /\
      inbuf w' src = inbuf w src;
  h_ftruncate n w : I w -> 0 <= n -> exists w', k_ftruncate dst n w = (SysOk tt, w') /\ I w';
}.

(** The copy so far: [done] has been written or sought over. *)
Definition copied (w : W) (dst : Z) (d : bytes) : Prop :=
  (length (content w dst) <= pos w dst)%nat /\ pos w dst = length d /\
  truncate (pos w dst) (content w dst) = d.

Definition ok (I : W -> Prop) (src dst : Z) (p : proc W) (d : bytes) (p' : proc W) : Prop :=
  I (kern p') /\ copied (kern p') dst d /\ inbuf (kern p') src = inbuf (kern p) src /\ quiet p p'.

Lemma writen_copies I src dst fuel n nleft ptr d p0 p :
  healthy I src dst -> is_size_t n -> 0 <= nleft <= n -> nleft <= zlen ptr -> (Z.to_nat nleft < fuel)%nat ->
  ok I src dst p0 d p ->
  returns (writen_loop fuel dst n nleft ptr) (fun r p' =>
    r = Some n /\ ok I src dst p0 (d ++ take (Z.to_nat nleft) ptr) p') p.
Proof.
  intros Hh Hn. revert nleft ptr d p.
  induction fuel as [|fuel IH]; intros nleft ptr d p Hl Hptr Hfuel Hok; [lia|].
  simpl. destruct (Z.ltb_spec 0 nleft) as [Hpos|Hz].
  2:{ mstep. replace nleft with 0 by lia. rewrite take_0, app_nil_r. split; [f_equal; lia|done]. }
  destruct Hok as (HI & (Hle & Hp & Ht) & Hin & Hq).
  set (t := take (Z.to_nat nleft) ptr).
  assert (Htl : zlen t = nleft) by (unfold t; rewrite zlen_take; lia).
  assert (Hne : t <> []) by (intros E; rewrite E, zlen_nil in Htl; lia).
  destruct (h_write _ _ _ Hh t (kern p) HI Hne) as (k & w' & E & Hk & HI' & Hin').
  unfold write. mstep. apply returns_syscall_int; rewrite E; [intros x w2 [= -> <-]|discriminate].
  pose proof (reg_write _ _ _ _ _ E) as (Hkr & Hc & Hps).
  destruct (Z.ltb_spec x 0); [lia|]. destruct (Z.eqb_spec x 0); [lia|].
  rewrite to_size_t_small by (unfold is_size_t in *; lia).
  set (t1 := take (Z.to_nat x) t) in *.
  assert (Ht1 : length t1 = Z.to_nat x) by (unfold t1, zlen in *; rewrite length_take; lia).
  assert (Hne1 : t1 <> []) by (intros E1; rewrite E1 in Ht1; simpl in Ht1; lia).
  eapply returns_mono.
  { apply (IH _ _ (d ++ t1)); [lia|rewrite zlen_drop; lia|lia|].
    split_and!; [done| |simpl; congruence|done]. simpl. unfold copied.
    rewrite Hc, pwrite_behind, Ht, Hps by done.
    rewrite !length_app, Ht1. split_and!; [lia|lia|].
    rewrite Hp, <- Ht1, <- length_app. apply truncate_all. }
  intros r p' [-> Hok']. split; [done|].
  replace (d ++ t) with ((d ++ t1) ++ take (Z.to_nat (nleft - x)) (drop (Z.to_nat x) ptr)); [done|].
  rewrite <- app_assoc. f_equal. unfold t1, t. rewrite take_take, Nat.min_l, take_take_drop by lia.
  f_equal. lia.
Qed.

Lemma lseek_copies I src dst z d p0 p :
  healthy I src dst -> (0 < z)%nat -> ok I src dst p0 d p ->
  returns (syscall_int (k_lseek dst (Z.of_nat z) SEEK_CUR)) (fun r p' =>
    0 <= r /\ ok I src dst p0 (d ++ replicate z 0) p') p.
Proof.
  intros Hh Hz (HI & (Hle & Hp & Ht) & Hin & Hq).
  destruct (h_lseek _ _ _ Hh (Z.of_nat z) (kern p) HI) as (k & w' & E & Hk & HI' & Hin'); [lia|].
  apply returns_syscall_int; rewrite E; [intros x w2 [= -> <-]|discriminate].
  destruct (reg_lseek _ _ _ _ _ E ltac:(lia)) as [Hc Hps]. rewrite Nat2Z.id in Hps.
  split; [done|]. split_and!; [done| |simpl; congruence|done]. simpl. unfold copied.
  rewrite Hc, Hps, truncate_more, Ht, length_app, length_replicate by done. split_and!; [lia|lia|done].
Qed.

Lemma copy_chunk_spec I src dst path fuel buf written d p0 p :
  healthy I src dst -> zlen buf <= BUFF_SIZE -> (length buf - written < fuel)%nat ->
  (written <= length buf)%nat -> ok I src dst p0 (d ++ take written buf) p ->
  returns (copy_chunk fuel dst path buf written) (fun _ p' => ok I src dst p0 (d ++ buf) p') p.
Proof.
  intros Hh Hbuf. revert written p. induction fuel as [|fuel IH]; intros written p Hf Hw Hok; [lia|].
  simpl. destruct (Nat.ltb_spec written (length buf)) as [Hlt|Hge].
  2:{ mstep. by rewrite take_ge in Hok. }
  set (rest := drop written buf). set (nz := length (nonzeros rest)).
  assert (Hrest : length rest = (length buf - written)%nat) by (unfold rest; by rewrite length_drop).
  pose proof (nonzeros_le rest) as Hnz. fold nz in Hnz.
  assert (Hwr : returns (if (0 <? nz)%nat then
      r ← writen dst rest (Z.of_nat nz);
      if failed r then err_sys (str "call write to destination file") [] else mret tt
    else mret tt) (fun _ p' => ok I src dst p0 (d ++ take (written + nz) buf) p') p).
  { assert (Htake : take (written + nz) buf = take written buf ++ take nz rest).
    { unfold rest. by rewrite take_take_drop. }
    rewrite Htake, app_assoc. destruct (Nat.ltb_spec 0 nz).
    - mstep. eapply returns_mono.
      + unfold writen. eapply (writen_copies I src dst); [done| |lia| |lia|exact Hok].
        * unfold is_size_t, SIZE_MAX, BUFF_SIZE, zlen in *. lia.
        * unfold zlen. lia.
      + intros r p' [-> Hok']. simpl. mstep. by rewrite Nat2Z.id in Hok'.
    - mstep. replace nz with 0%nat by lia. by rewrite take_0, app_nil_r. }
  mstep. eapply returns_mono; [exact Hwr|]. intros ? p1 Hok1.
  destruct (Nat.eqb_spec nz (length rest)) as [Heq|Hne].
  - mstep. by rewrite take_ge in Hok1 by lia.
  - pose proof (zeros_pos rest Hne) as Hzp. fold nz in Hzp.
    set (z := zeros (drop nz rest)) in *.
    assert (Hzl : (nz + z <= length rest)%nat).
    { pose proof (zeros_le (drop nz rest)) as Hzd. rewrite length_drop in Hzd. unfold z. lia. }
    mstep. eapply returns_mono; [eapply (lseek_copies I src dst z _ p0); [done|done|exact Hok1]|]. intros r p2 [Hr Hok2].
    destruct (Z.ltb_spec r 0); [lia|]. mstep. unfold when. mstep. apply IH; [lia|lia|].
    replace (take (written + nz + z) buf) with (take (written + nz) buf ++ replicate z 0);
      [by rewrite app_assoc|].
    assert (Hz : take z (drop nz rest) = replicate z 0) by apply take_zeros.
    rewrite <- Hz. unfold rest. rewrite drop_drop. by rewrite take_take_drop.
Qed.

Lemma copy_loop_spec I src dst path fuel d total p :
  healthy I src dst -> I (kern p) -> copied (kern p) dst d ->
  total = zlen d -> zlen d + zlen (inbuf (kern p) src) <= SIZE_MAX ->
  (length (inbuf (kern p) src) < fuel)%nat ->
  returns (copy_loop fuel src dst path total) (fun t p' =>
    t = zlen (d ++ inbuf (kern p) src) /\ I (kern p') /\
    copied (kern p') dst (d ++ inbuf (kern p) src)) p.
Proof.
  intros Hh. revert d total p. induction fuel as [|fuel IH]; intros d total p HI Hc Ht Hsz Hf; [lia|].
  cbn [copy_loop]. destruct (h_read _ _ _ Hh BUFF_SIZE (kern p) HI eq_refl) as (b & w' & E & HI').
  unfold read. do 2 mstep. apply returns_syscall. intros r w2 E2. rewrite E in E2.
  injection E2 as <- <-. mstep.
  pose proof (read_law _ _ _ _ _ E ltac:(done)) as (Hb & Hin & Heof).
  pose proof (reg_read _ _ _ _ _ dst E (not_eq_sym (h_neq _ _ _ Hh))) as [Hcont Hpos].
  pose proof (zlen_nonneg b). pose proof (zlen_nonneg d).
  assert (Hc' : copied w' dst d) by (unfold copied in *; by rewrite Hcont, Hpos).
  rewrite to_size_t_small by (unfold is_size_t, SIZE_MAX, BUFF_SIZE in *; lia).
  destruct (Z.eqb_spec (zlen b) 0) as [Hz|Hnz].
  - apply zlen_nil_inv in Hz as ->. rewrite (Heof eq_refl eq_refl), app_nil_r. by mstep.
  - destruct (Z.ltb_spec (zlen b) 0); [lia|]. destruct (Z.ltb_spec BUFF_SIZE (zlen b)); [lia|].
    set (q := Proc _ _ _ _). rewrite Hin, zlen_app in Hsz. rewrite Hin, length_app in Hf.
    mstep. eapply returns_mono.
    { eapply (copy_chunk_spec I src dst path _ b 0 d q); [done|done|lia|lia|].
      rewrite take_0, app_nil_r. by split_and!. }
    intros ? p1 (HI1 & Hc1 & Hin1 & _). simpl in Hin1.
    rewrite to_size_t_small by (unfold is_size_t in *; pose proof (zlen_nonneg (inbuf w' src)); lia).
    eapply returns_mono.
    { eapply (IH (d ++ b)); [done|done| | |].
      - by rewrite zlen_app, Ht.
      - rewrite Hin1, zlen_app. lia.
      - rewrite Hin1. unfold zlen in *. lia. }
    rewrite Hin1, <- app_assoc, Hin. done.
Qed.

(** C6: copying with holes is exact: when no call fails, the loops end and, after the size is set,
    the copy has exactly the bytes of the source, although zero bytes were only sought over, also
    where runs of zeros cross the buffer or end the file. *)
Theorem cp_holes_exact I src dst path p :
  healthy I src dst -> I (kern p) -> content (kern p) dst = [] -> pos (kern p) dst = 0%nat ->
  zlen (inbuf (kern p) src) <= SIZE_MAX ->
  returns (total_size ← copy_loop (S (length (inbuf (kern p) src))) src dst path 0;
           ftruncate dst total_size)
    (fun r p' => r = 0 /\ content (kern p') dst = inbuf (kern p) src) p.
Proof.
  intros Hh HI Hc Hp Hsz. mstep.
  eapply returns_mono.
  { eapply (copy_loop_spec I src dst path _ []); [done|done| |done| |lia].
    - unfold copied. by rewrite Hc, Hp.
    - rewrite zlen_nil. lia. }
  simpl. intros t p1 (-> & HI1 & (_ & Hp1 & Ht)).
  destruct (h_ftruncate _ _ _ Hh (zlen (inbuf (kern p) src)) (kern p1) HI1) as (w' & E & _);
    [apply zlen_nonneg|].
  unfold ftruncate. apply returns_syscall_unit; rewrite E; [intros w2 [= <-]|discriminate]. split; [done|]. simpl.
  pose proof (reg_ftruncate _ _ _ _ _ E (zlen_nonneg _)) as Hct. simpl in Hct.
  rewrite Hct. unfold zlen. rewrite Nat2Z.id, <- Hp1. done.
Qed.

(** A failed [read] is never reported: its result is converted to an unsigned number before
    it is tested, and the program goes on with a count far beyond its buffer. *)
Theorem cp_holes_read_error src dst path fuel total p e w' :
  k_read src BUFF_SIZE (kern p) = (SysErr e, w') ->
  copy_loop (S fuel) src dst path total p = (Aborted, Proc e (log_to_stderr p) (console p) w').
Proof.
  intros E. cbn [copy_loop]. unfold read, syscall, mbind, M_bind. rewrite E. simpl.
  change (to_size_t (-1)) with SIZE_MAX. done.
Qed.

End Facts.

(** ** A concrete kernel with regular files *)

Record regfile := RegFile { rf_content : bytes; rf_pos : nat; rf_log : bytes }.
Abbreviation rsim := (gmap Z regfile).

Definition on_file {A} (fd : Z) (f : regfile -> A * regfile) (w : rsim) : sysres A * rsim :=
  match w !! fd with
  | Some r => let '(a, r') := f r in (SysOk a, <[fd := r']> w)
  | None => (SysErr EBADF, w)
  end.

Definition rf_read (n : Z) (r : regfile) : bytes * regfile :=
  let d := take (Z.to_nat n) (drop (rf_pos r) (rf_content r)) in
  (d, RegFile (rf_content r) (rf_pos r + length d) (rf_log r)).

Definition rf_write (d : bytes) (r : regfile) : Z * regfile :=
  (zlen d, RegFile (pwrite (rf_pos r) d (rf_content r)) (rf_pos r + length d) (rf_log r ++ d)).

#[export] Instance r_file : FileOps rsim := {
  k_read fd n := on_file fd (rf_read n);
  k_write fd d := on_file fd (rf_write d);
  k_open _ _ _ w := (SysErr 2, w);
  k_close fd w := (SysOk tt, delete fd w);
  k_dup _ w := (SysErr 24, w);
  k_ftruncate fd n :=
    on_file fd (fun r => (tt, RegFile (truncate (Z.to_nat n) (rf_content r)) (rf_pos r) (rf_log r)));
  k_fsync fd := on_file fd (fun r => (tt, r));
  k_getfd fd := on_file fd (fun r => (0, r));
  k_setfd fd _ := on_file fd (fun r => (tt, r));
  k_getfl fd := on_file fd (fun r => (2, r));
  k_setfl fd _ := on_file fd (fun r => (tt, r));
}.

#[export] Instance r_seek : SeekOps rsim := {
  k_lseek fd off whence :=
    on_file fd (fun r =>
      let pos := if whence =? SEEK_SET then Z.to_nat off else (rf_pos r + Z.to_nat off)%nat in
      (Z.of_nat pos, RegFile (rf_content r) pos (rf_log r)));
  k_mkdir _ _ w := (SysOk tt, w);
}.

Lemma on_file_inv {A} fd (f : regfile -> A * regfile) w r w' :
  on_file fd f w = (r, w') ->
  (w !! fd = None /\ w' = w /\ r = SysErr EBADF) \/
  (exists x a x', w !! fd = Some x /\ f x = (a, x') /\ w' = <[fd := x']> w /\ r = SysOk a).
Proof.
  unfold on_file. destruct (w !! fd) as [x|] eqn:E.
  - destruct (f x) as [a x'] eqn:Ef. intros. simplify_eq. right. eauto 10.
  - intros. simplify_eq. by left.
Qed.

#[export, refine] Instance r_stream : StreamSpec rsim := {
  inbuf w fd := from_option (fun r => drop (rf_pos r) (rf_content r)) [] (w !! fd);
  outbuf w fd := from_option rf_log [] (w !! fd);
}.
Proof.
  - intros fd n w r w' E Hn. apply on_file_inv in E as [(E & -> & ->)|(x & a & x' & E & Ef & -> & ->)];
      [done|]. simpl. rewrite ?lookup_insert_eq, ?E. unfold rf_read in Ef. simplify_eq. simpl.
    split_and!.
    + rewrite zlen_take. lia.
    + rewrite <- drop_drop.
      set (l := drop (rf_pos x) (rf_content x)).
      rewrite length_take. destruct (decide (Z.to_nat n <= length l)%nat).
      * rewrite Nat.min_l by done. by rewrite take_drop.
      * rewrite Nat.min_r, take_ge, drop_ge by lia. by rewrite app_nil_r.
    + intros Hpos Hnil. destruct (drop (rf_pos x) (rf_content x)) as [|c l]; [done|].
      destruct (Z.to_nat n) eqn:En; [lia|done].
  - intros fd n w r w' fd' E. apply on_file_inv in E as [(E & -> & ->)|(x & a & x' & E & Ef & -> & ->)];
      [done|]. unfold rf_read in Ef. simplify_eq.
    destruct (decide (fd = fd')) as [<-|]; [by rewrite lookup_insert_eq, E|by rewrite lookup_insert_ne].
  - intros fd d w r w' E. apply on_file_inv in E as [(E & -> & ->)|(x & a & x' & E & Ef & -> & ->)];
      [done|]. rewrite lookup_insert_eq, E. unfold rf_write in Ef. simplify_eq. simpl.
    split; [pose proof (zlen_nonneg d); lia|]. unfold zlen. rewrite Nat2Z.id. by rewrite firstn_all.
Defined.

#[export, refine] Instance r_reg : RegSpec rsim := {
  content w fd := from_option rf_content [] (w !! fd);
  pos w fd := from_option rf_pos 0%nat (w !! fd);
}.
Proof.
  - intros fd d w r w' E. apply on_file_inv in E as [(E & -> & ->)|(x & a & x' & E & Ef & -> & ->)];
      [done|]. rewrite lookup_insert_eq, E. unfold rf_write in Ef. simplify_eq. simpl.
    unfold zlen. rewrite Nat2Z.id, firstn_all. split; [lia|done].
  - intros fd off w r w' E Hoff. apply on_file_inv in E as [(E & -> & ->)|(x & a & x' & E & Ef & -> & ->)];
      [done|]. rewrite lookup_insert_eq, E. injection Ef as <- <-. done.
  - intros fd n w r w' E Hn. apply on_file_inv in E as [(E & -> & ->)|(x & a & x' & E & Ef & -> & ->)];
      [done|]. rewrite lookup_insert_eq, E. by simplify_eq.
  - intros fd n w r w' fd' E Hne.
    apply on_file_inv in E as [(E & -> & ->)|(x & a & x' & E & Ef & -> & ->)]; [done|].
    by rewrite lookup_insert_ne.
Defined.

(** A source with a hole in the middle and zeros at its end, and an empty copy. *)
Definition holes : bytes := str "ab" ++ replicate 5 0 ++ str "c" ++ replicate 3 0.
Definition r0 : proc rsim :=
  Proc 0 true [] (<[3 := RegFile holes 0 []]> (<[4 := RegFile [] 0 []]> ∅)).

Definition r_open (w : rsim) : Prop := is_Some (w !! 3) /\ is_Some (w !! 4).

Lemma r_healthy : healthy r_open 3 4.
Proof.
  split.
  - done.
  - intros n w [[x Hx] H4] _. simpl. unfold on_file. rewrite Hx. do 2 eexists. split; [done|].
    split; [rewrite lookup_insert_eq; eauto|by rewrite lookup_insert_ne].
  - intros d w [H3 [x Hx]] Hd. simpl. unfold on_file. rewrite Hx. do 2 eexists. split; [done|].
    split_and!; [destruct d; [done|unfold zlen; simpl; lia]| |by rewrite lookup_insert_ne].
    split; [by rewrite lookup_insert_ne|rewrite lookup_insert_eq; eauto].
  - intros off w [H3 [x Hx]] Ho. simpl. unfold on_file. rewrite Hx. do 2 eexists. split; [done|].
    split_and!; [lia| |by rewrite lookup_insert_ne].
    split; [by rewrite lookup_insert_ne|rewrite lookup_insert_eq; eauto].
  - intros n w [H3 [x Hx]] Hn. simpl. unfold on_file. rewrite Hx. eexists. split; [done|].
    split; [by rewrite lookup_insert_ne|rewrite lookup_insert_eq; eauto].
Qed.

Lemma cp_holes_exact_witness :
  inbuf (kern r0) 3 = holes /\
  returns (total_size ← copy_loop (S (length (inbuf (kern r0) 3))) 3 4 (str "d/f") 0;
           ftruncate 4 total_size)
    (fun r p' => r = 0 /\ content (kern p') 4 = inbuf (kern r0) 3) r0.
Proof.
  split; [vm_compute; reflexivity|].
  apply (cp_holes_exact r_open 3 4 (str "d/f") r0).
  - apply r_healthy.
  - split; vm_compute; eauto.
  - vm_compute. reflexivity.
  - vm_compute. reflexivity.
  - vm_compute. discriminate.
Defined.

Lemma cp_holes_read_error_witness :
  (copy_loop 1 9 4 (str "d/f") 0 r0).1 = Aborted.
Proof.
  rewrite (cp_holes_read_error 9 4 (str "d/f") 0 0 r0 EBADF (kern r0)); [reflexivity|].
  vm_compute. reflexivity.
Defined.

(** Only the bytes that are not zero were written. *)
Example holes_written :
  outbuf (kern (copy_loop 12 3 4 (str "d/f") 0 r0).2) 4 = str "abc".
Proof. vm_compute. reflexivity. Qed.
