(* ===== verification/Timers.v ===== *)
(** * [10/23_timers.cpp]: many timers on one system alarm

    The program keeps a [std::set] of pairs of seconds and handlers, relative to the moment the
    system alarm was last set, and re-bases them when a timer is added or expires.  Time is counted
    in seconds, as [alarm] does; the signal is delivered when the alarm expires. *)

From stdpp Require Import sorting.
From S2P Require Import Prelude.

(** ** [std::set<std::pair<int, Sigfunc*>>]: sorted, without duplicates *)

Definition timer : Type := Z * Z.

Definition timer_lt (a b : timer) : bool := (a.1 <? b.1) || ((a.1 =? b.1) && (a.2 <? b.2)).

Fixpoint set_insert (x : timer) (s : list timer) : list timer :=
  match s with
  | [] => [x]
  | y :: r => if timer_lt x y then x :: s else if timer_lt y x then y :: set_insert x r else s
  end.

(** The loop that fills [temp_set] with the timers moved by [d] seconds. *)
Definition rebase (d : Z) (s : list timer) : list timer :=
  foldl (fun temp x => set_insert (x.1 - d, x.2) temp) [] s.

(** ** The program's state: its variables, the system alarm (0: none), the clock, and what
    happened: the handlers called and when *)

Record state := State {
  alarm_set : list timer;
  handler_is_set : bool;
  alarm : Z;
  now : Z;
  fired : list timer;
}.

Definition set_alarm (n : Z) (s : state) : state :=
  State (alarm_set s) (handler_is_set s) n (now s) (fired s).

Definition set_timers (l : list timer) (s : state) : state :=
  State l (handler_is_set s) (alarm s) (now s) (fired s).

Definition reset_system_alarm (s : state) : state :=
  match alarm_set s with
  | [] => set_alarm 0 s
  | x :: _ => set_alarm x.1 s
  end.

(** [apue_alarm]; a null handler is [None].  [sigaction_ok] is false when installing the handler
    fails, which ends the program ([None]).  SIGALRM is blocked meanwhile, so no time passes. *)
Definition apue_alarm (sigaction_ok : bool) (seconds : Z) (func : option Z) (s : state)
  : option state :=
  match func with
  | None => Some s
  | Some f =>
      if seconds <=? 0 then Some s
      else if negb (handler_is_set s) && negb sigaction_ok then None
      else
        let elapsed_time := alarm s in
        let s := State (alarm_set s) true 0 (now s) (fired s) in
        let s := if 0 <? elapsed_time then
                   match alarm_set s with
                   | [] => set_timers [] s
                   | x :: _ => set_timers (rebase (x.1 - elapsed_time) (alarm_set s)) s
                   end
                 else s in
        Some (reset_system_alarm (set_timers (set_insert (seconds, f) (alarm_set s)) s))
  end.

(** The handler of SIGALRM; calling a timer's handler is recorded. *)
Definition apue_alarm_handler (s : state) : state :=
  match alarm_set s with
  | [] => s
  | x :: rest =>
      let elapsed_time := x.1 in
      let s := State rest (handler_is_set s) (alarm s) (now s) (fired s ++ [(now s, x.2)]) in
      reset_system_alarm (set_timers (rebase elapsed_time (alarm_set s)) s)
  end.

(** One second passes; the signal comes when the alarm runs out. *)
Definition tick (s : state) : state :=
  let s := State (alarm_set s) (handler_is_set s) (alarm s) (now s + 1) (fired s) in
  if alarm s <=? 0 then s
  else
    let s := set_alarm (alarm s - 1) s in
    if alarm s =? 0 then apue_alarm_handler s else s.

Fixpoint ticks (n : nat) (s : state) : state :=
  match n with O => s | S n => ticks n (tick s) end.

(** [wait_apue_timers]: the loop ends when the set is empty; [n] bounds the seconds waited. *)
Fixpoint wait_apue_timers (n : nat) (s : state) : option state :=
  match alarm_set s with
  | [] => Some s
  | _ => match n with O => None | S n => wait_apue_timers n (tick s) end
  end.

(** ** The sets *)

Definition sorted (l : list timer) : Prop := StronglySorted (fun a b => timer_lt a b = true) l.

Lemma timer_lt_iff a b : timer_lt a b = true <-> a.1 < b.1 \/ (a.1 = b.1 /\ a.2 < b.2).
Proof.
  unfold timer_lt. rewrite orb_true_iff, andb_true_iff, !Z.ltb_lt, Z.eqb_eq. done.
Qed.

Lemma timer_lt_false a b : timer_lt a b = false <-> ~ (a.1 < b.1 \/ (a.1 = b.1 /\ a.2 < b.2)).
Proof. rewrite <- timer_lt_iff. by destruct (timer_lt a b). Qed.

Definition shift (d : Z) (x : timer) : timer := (x.1 - d, x.2).

Lemma timer_lt_shift d x y : timer_lt (shift d x) (shift d y) = timer_lt x y.
Proof. apply eq_true_iff_eq. rewrite !timer_lt_iff. simpl. lia. Qed.

Lemma set_insert_last l x :
  Forall (fun y => timer_lt y x = true) l -> set_insert x l = l ++ [x].
Proof.
  induction l as [|y l IH]; [done|]. intros [Hy Hl]%Forall_cons_1. simpl. rewrite Hy.
  assert (Hxy : timer_lt x y = false).
  { apply timer_lt_false. apply timer_lt_iff in Hy. lia. }
  by rewrite Hxy, IH.
Qed.

(** Re-basing a sorted set moves every timer. *)
Lemma rebase_eq d l : sorted l -> rebase d l = shift d <$> l.
Proof.
  intros Hs. unfold rebase.
  assert (Hgen : forall acc, Forall (fun y => Forall (fun x => timer_lt y (shift d x) = true) l) acc ->
    foldl (fun temp x => set_insert (x.1 - d, x.2) temp) acc l = acc ++ (shift d <$> l)).
  { induction l as [|x l IH]; intros acc Hacc; simpl; [by rewrite app_nil_r|].
    apply StronglySorted_inv in Hs as [Hs Hx].
    rewrite set_insert_last.
    - rewrite IH; [by rewrite <- app_assoc|done|].
      apply Forall_app. split.
      + eapply Forall_impl; [exact Hacc|]. by intros y [_ Hy]%Forall_cons_1.
      + apply Forall_singleton. eapply Forall_impl; [exact Hx|]. intros y Hy.
        exact (eq_trans (timer_lt_shift d x y) Hy).
    - eapply Forall_impl; [exact Hacc|]. by intros y [Hy _]%Forall_cons_1. }
  by apply (Hgen []).
Qed.

Lemma shift_sorted d l : sorted l -> sorted (shift d <$> l).
Proof.
  intros Hs. induction l as [|x l IH]; simpl; [constructor|].
  apply StronglySorted_inv in Hs as [Hs Hx]. constructor; [by apply IH|].
  apply Forall_fmap. eapply Forall_impl; [exact Hx|]. intros y Hy. simpl. by rewrite timer_lt_shift.
Qed.

Lemma set_insert_elem x l y : sorted l -> y ∈ set_insert x l <-> y = x \/ y ∈ l.
Proof.
  intros Hs. induction l as [|z l IH]; simpl; [set_solver|].
  apply StronglySorted_inv in Hs as [Hs _]. specialize (IH Hs).
  destruct (timer_lt x z) eqn:E1; [set_solver|].
  destruct (timer_lt z x) eqn:E2.
  - rewrite !elem_of_cons, IH. tauto.
  - assert (z = x) as ->; [|set_solver].
    rewrite timer_lt_false in *. destruct x, z; simpl in *. f_equal; lia.
Qed.

Lemma set_insert_sorted x l : sorted l -> sorted (set_insert x l).
Proof.
  intros Hs. induction l as [|z l IH]; simpl; [repeat constructor|].
  pose proof Hs as [Hs' Hz]%StronglySorted_inv.
  destruct (timer_lt x z) eqn:E1.
  - constructor; [done|]. constructor; [done|]. eapply Forall_impl; [exact Hz|].
    intros y Hy. rewrite timer_lt_iff in *. lia.
  - destruct (timer_lt z x) eqn:E2; [|done]. constructor; [by apply IH|].
    apply Forall_forall. intros y Hy. apply set_insert_elem in Hy as [->|Hy]; [done| |done].
    rewrite Forall_forall in Hz. by apply Hz.
Qed.

Lemma set_insert_head x l :
  sorted l -> exists y r, set_insert x l = y :: r /\ y.1 <= x.1 /\ (forall z r', l = z :: r' -> y.1 <= z.1).
Proof.
  intros Hs. destruct l as [|z l]; simpl.
  - exists x, []. split_and!; [done|lia|done].
  - destruct (timer_lt x z) eqn:E1.
    + exists x, (z :: l). split_and!; [done|lia|]. intros ? ? [= <- <-]. rewrite timer_lt_iff in E1. lia.
    + destruct (timer_lt z x) eqn:E2.
      * exists z, (set_insert x l). split_and!; [done|rewrite timer_lt_iff in E2; lia|].
        intros ? ? [= <- <-]. lia.
      * exists z, l. rewrite timer_lt_false in *. split_and!; [done|lia|]. intros ? ? [= <- <-]. lia.
Qed.

Lemma set_insert_shift d x l :
  shift d <$> set_insert x l = set_insert (shift d x) (shift d <$> l).
Proof.
  induction l as [|z l IH]; [done|]. rewrite fmap_cons. cbn [set_insert].
  rewrite !timer_lt_shift. destruct (timer_lt x z); [done|]. destruct (timer_lt z x); [|done].
  by rewrite fmap_cons, IH.
Qed.

Lemma shift_shift a b (l : list timer) : shift a <$> (shift b <$> l) = shift (a + b) <$> l.
Proof.
  rewrite <- list_fmap_compose. apply list_fmap_ext. intros i x _. unfold shift. simpl.
  f_equal. lia.
Qed.

(** ** Deadlines *)

(** The absolute times at which the timers are due. *)
Definition deadlines (s : state) : list timer :=
  match alarm_set s with
  | [] => []
  | x :: _ => shift (x.1 - alarm s - now s) <$> alarm_set s
  end.

(** The set is sorted and the system alarm runs exactly while there are timers. *)
Definition good (s : state) : Prop :=
  sorted (alarm_set s) /\ match alarm_set s with [] => alarm s = 0 | _ => 0 < alarm s end.

Lemma deadlines_head s x r :
  alarm_set s = x :: r -> deadlines s = (now s + alarm s, x.2) :: (shift (x.1 - alarm s - now s) <$> r).
Proof. intros E. unfold deadlines. rewrite E. simpl. f_equal. unfold shift. f_equal. lia. Qed.

Lemma sorted_head_le x r y : sorted (x :: r) -> y ∈ x :: r -> x.1 <= y.1.
Proof.
  intros [_ Hx]%StronglySorted_inv [->|Hy]%elem_of_cons; [lia|].
  rewrite Forall_forall in Hx. apply Hx, timer_lt_iff in Hy. lia.
Qed.

(** adding a timer is exact: after [apue_alarm seconds f] the deadlines are those before with
    [(now + seconds, f)] inserted, every earlier timer keeping its absolute deadline however much
    of its time had run, and the system alarm is set for the earliest of them. *)
Theorem apue_alarm_exact seconds f s :
  good s -> 0 < seconds ->
  exists s', apue_alarm true seconds (Some f) s = Some s' /\ good s' /\
    deadlines s' = set_insert (now s + seconds, f) (deadlines s) /\
    now s' = now s /\ fired s' = fired s.
Proof.
  intros [Hs Ha] Hsec. unfold apue_alarm. destruct (Z.leb_spec seconds 0); [lia|].
  rewrite andb_false_r. cbv zeta.
  set (L1 := match alarm_set s with [] => [] | x :: _ => shift (x.1 - alarm s) <$> alarm_set s end).
  assert (HL1 : sorted L1 /\ Forall (fun y => 0 < y.1) L1 /\ shift (- now s) <$> L1 = deadlines s).
  { unfold L1, deadlines. destruct (alarm_set s) as [|x r] eqn:E; [split_and!; [constructor|constructor|done]|].
    split_and!.
    - by apply shift_sorted.
    - apply Forall_fmap, Forall_forall. intros y Hy. simpl. pose proof (sorted_head_le x r y Hs Hy). lia.
    - rewrite shift_shift. apply list_fmap_ext. intros i y _. unfold shift. f_equal. lia. }
  destruct HL1 as (HsL & HpL & HdL).
  destruct (set_insert_head (seconds, f) L1 HsL) as (y & r & Hy & Hle & _).
  assert (Hy0 : 0 < y.1).
  { assert (Hin : y ∈ set_insert (seconds, f) L1) by (rewrite Hy; constructor).
    apply set_insert_elem in Hin as [->|Hin]; [done| |done].
    rewrite Forall_forall in HpL. by apply HpL. }
  pose proof (set_insert_sorted (seconds, f) L1 HsL) as HsI. rewrite Hy in HsI.
  exists (State (y :: r) true y.1 (now s) (fired s)). split_and!; [|by split| |done|done].
  - f_equal. rewrite <- Hy. unfold L1 in *. simpl alarm_set. destruct (alarm_set s) as [|x l] eqn:E.
    + destruct (0 <? alarm s); unfold reset_system_alarm; simpl in *; by simplify_eq.
    + rewrite (proj2 (Z.ltb_lt _ _)) by done. rewrite rebase_eq by done.
      unfold reset_system_alarm. cbn [alarm_set set_timers set_alarm]. rewrite Hy. done.
  - unfold deadlines at 1. simpl alarm_set. simpl now. simpl alarm. cbv iota.
    rewrite <- Hy, <- HdL. replace (y.1 - y.1 - now s) with (- now s) by lia.
    rewrite set_insert_shift. f_equal. unfold shift. simpl. f_equal. lia.
Qed.

(** ** Expiry *)

(** No two timers are due at the same second. *)
Definition distinct (l : list timer) : Prop := StronglySorted (fun a b : timer => a.1 < b.1) l.

Lemma distinct_sorted l : distinct l -> sorted l.
Proof.
  intros Hd. induction Hd as [|x l Hd IH Hx]; constructor; [done|].
  eapply Forall_impl; [exact Hx|]. intros y Hy. apply timer_lt_iff. by left.
Qed.

Lemma distinct_shift d l : distinct l -> distinct (shift d <$> l).
Proof.
  intros Hd. induction Hd as [|x l Hd IH Hx]; simpl; constructor; [done|].
  apply Forall_fmap. eapply Forall_impl; [exact Hx|]. intros y Hy. unfold shift. simpl in *. lia.
Qed.

Definition healthy (s : state) : Prop := good s /\ distinct (alarm_set s).

(** One second later: the timer that is due has fired, the others keep their deadlines. *)
Lemma tick_spec s :
  healthy s ->
  healthy (tick s) /\ now (tick s) = now s + 1 /\
  ((deadlines (tick s) = deadlines s /\ fired (tick s) = fired s /\
    Forall (fun x : timer => now s + 1 < x.1) (deadlines s)) \/
   exists f, deadlines s = (now s + 1, f) :: deadlines (tick s) /\
     fired (tick s) = fired s ++ [(now s + 1, f)]).
Proof.
  intros [[Hs Ha] Hd]. unfold tick. cbn [alarm alarm_set now set_alarm].
  destruct (alarm_set s) as [|x r] eqn:E.
  { rewrite Ha. simpl. split_and!; [|done|].
    - split; [split|]; simpl; rewrite ?E; [constructor|done|constructor].
    - left. unfold deadlines. simpl. by rewrite E. }
  destruct (Z.leb_spec (alarm s) 0); [lia|].
  pose proof Hd as [Hd' Hx]%StronglySorted_inv.
  destruct (Z.eqb_spec (alarm s - 1) 0) as [H1|H1].
  - unfold apue_alarm_handler. cbn [alarm_set set_alarm].
    rewrite rebase_eq by (by apply distinct_sorted). simpl.
    assert (Hdead : deadlines s = (now s + 1, x.2) :: (shift (x.1 - alarm s - now s) <$> r)).
    { rewrite (deadlines_head s x r E). do 2 f_equal. lia. }
    assert (Hr : Forall (fun y : timer => 0 < y.1) (shift x.1 <$> r)).
    { apply Forall_fmap. eapply Forall_impl; [exact Hx|]. intros y Hy. unfold shift. simpl in *. lia. }
    pose proof (distinct_shift x.1 r Hd') as Hdr.
    destruct (shift x.1 <$> r) as [|y r'] eqn:Er; unfold reset_system_alarm; simpl.
    + apply fmap_nil_inv in Er as ->. split_and!; [|done|].
      * split; [split|]; simpl; [constructor|done|constructor].
      * right. exists x.2. rewrite Hdead. done.
    + apply Forall_cons_1 in Hr as [Hy _]. split_and!; [|done|].
      * split; [split|]; simpl; [by apply distinct_sorted|done|done].
      * right. exists x.2. rewrite Hdead. split; [|done]. f_equal.
        change (deadlines _) with (shift (y.1 - y.1 - (now s + 1)) <$> y :: r') at 1.
        rewrite <- Er, shift_shift. apply list_fmap_ext. intros i z _. unfold shift. f_equal. lia.
  - split_and!; [|done|].
    + split; [split|]; simpl; rewrite ?E; [done|lia|done].
    + left. assert (Hsame : deadlines (set_alarm (alarm s - 1) (State (alarm_set s) (handler_is_set s)
        (alarm s) (now s + 1) (fired s))) = deadlines s).
      { unfold deadlines. simpl. rewrite E. apply list_fmap_ext. intros i z _. unfold shift. f_equal. lia. }
      rewrite E in Hsame. rewrite Hsame. split_and!; [done|done|].
      rewrite (deadlines_head s x r E). constructor; [simpl; lia|].
      apply Forall_fmap. eapply Forall_impl; [exact Hx|]. intros y Hy. unfold shift. simpl in *. lia.
Qed.

Lemma filter_none {A} (P : A -> Prop) `{forall x, Decision (P x)} l :
  Forall (fun x => ~ P x) l -> filter P l = [] /\ filter (fun x => ~ P x) l = l.
Proof.
  induction 1 as [|x l Hx Hl [IH1 IH2]]; [done|].
  rewrite filter_cons_False, filter_cons_True by done. by rewrite IH2.
Qed.

(** C13: timers with different deadlines fire on time and in order: after [n] seconds exactly the
    timers due by then have been called, each at its own deadline, and the others are still armed
    with their deadlines unchanged. *)
Theorem timers_fire_on_time n s :
  healthy s ->
  healthy (ticks n s) /\ now (ticks n s) = now s + Z.of_nat n /\
  fired (ticks n s)
    = fired s ++ filter (fun x : timer => x.1 <= now s + Z.of_nat n) (deadlines s) /\
  deadlines (ticks n s)
    = filter (fun x : timer => ~ x.1 <= now s + Z.of_nat n) (deadlines s).
Proof.
  revert s. induction n as [|n IH]; intros s Hh.
  - assert (Hlater : Forall (fun x : timer => ~ x.1 <= now s + Z.of_nat 0) (deadlines s)).
    { destruct Hh as [[Hs Ha] _]. unfold deadlines. destruct (alarm_set s) as [|x r]; [constructor|].
      apply Forall_fmap, Forall_forall. intros y Hy. pose proof (sorted_head_le x r y Hs Hy).
      unfold shift. simpl. lia. }
    simpl ticks. split_and!; [done|lia| |].
    + rewrite (proj1 (filter_none _ _ Hlater)). by rewrite app_nil_r.
    + symmetry. apply (proj2 (filter_none _ _ Hlater)).
  - destruct (tick_spec s Hh) as (Hh' & Hn & Hor). cbn [ticks].
    destruct (IH (tick s) Hh') as (H1 & H2 & H3 & H4). rewrite H2, H3, H4, Hn.
    replace (now s + 1 + Z.of_nat n) with (now s + Z.of_nat (S n)) by lia.
    split_and!; [done|done| |]; destruct Hor as [(Hd & Hf & _)|(f & Hd & Hf)]; rewrite ?Hf, ?Hd.
    + done.
    + rewrite filter_cons_True by (simpl; lia). by rewrite <- app_assoc.
    + done.
    + rewrite filter_cons_False; [done|]. simpl. lia.
Qed.

(** ** Two timers due at the same second *)

Lemma ticks_before_alarm s (k : nat) :
  Z.of_nat k < alarm s ->
  ticks k s = State (alarm_set s) (handler_is_set s) (alarm s - Z.of_nat k) (now s + Z.of_nat k) (fired s).
Proof.
  revert s. induction k as [|k IH]; intros s Hk; cbn [ticks].
  - destruct s; simpl. f_equal; lia.
  - assert (Ht : tick s = State (alarm_set s) (handler_is_set s) (alarm s - 1) (now s + 1) (fired s)).
    { unfold tick. cbn [alarm set_alarm alarm_set handler_is_set now fired].
      destruct (Z.leb_spec (alarm s) 0); [lia|]. destruct (Z.eqb_spec (alarm s - 1) 0); [lia|done]. }
    rewrite Ht, IH by (simpl; lia). simpl. f_equal; lia.
Qed.

Lemma tick_expire s :
  alarm s = 1 ->
  tick s = apue_alarm_handler (State (alarm_set s) (handler_is_set s) 0 (now s + 1) (fired s)).
Proof. intros Ha. unfold tick. cbn [alarm]. by rewrite Ha. Qed.

(** With the alarm off nothing happens any more. *)
Lemma ticks_dead s n : alarm s = 0 -> alarm_set (ticks n s) = alarm_set s /\ fired (ticks n s) = fired s.
Proof.
  revert s. induction n as [|n IH]; intros s Ha; [done|]. cbn [ticks].
  assert (Ht : tick s = State (alarm_set s) (handler_is_set s) 0 (now s + 1) (fired s)).
  { unfold tick. simpl. by rewrite Ha. }
  rewrite Ht. by destruct (IH (State (alarm_set s) (handler_is_set s) 0 (now s + 1) (fired s)) eq_refl).
Qed.

Lemma wait_ticks n s :
  (forall k, (k <= n)%nat -> alarm_set (ticks k s) <> []) -> wait_apue_timers n s = None.
Proof.
  revert s. induction n as [|n IH]; intros s Hk; pose proof (Hk 0%nat ltac:(lia)) as H0; simpl in *.
  - by destruct (alarm_set s).
  - destruct (alarm_set s) as [|x r]; [done|]. apply IH. intros k Hle. apply (Hk (S k)). lia.
Qed.

(** C23: two timers with different handlers that are due at the same second: only the first is
    ever called, the second is left in the set with 0 seconds to go, for which the system alarm is
    switched off, and [wait_apue_timers] never returns. *)
Theorem equal_deadlines_hang s t f g rest n :
  good s -> alarm_set s = (t, f) :: (t, g) :: rest ->
  wait_apue_timers n s = None /\
  (length (fired (ticks n s)) <= length (fired s) + 1)%nat.
Proof.
  intros [Hs Ha] E. rewrite E in Ha, Hs.
  set (a := Z.to_nat (alarm s)).
  assert (Hdead : exists s1, ticks a s = s1 /\ alarm s1 = 0 /\ alarm_set s1 <> [] /\
    fired s1 = fired s ++ [(now s + alarm s, f)]).
  { eexists. split; [done|].
    assert (Hsplit : forall k s, ticks (S k) s = tick (ticks k s)).
    { induction k as [|k IH]; intros u; [done|]. cbn [ticks] in *. by rewrite IH. }
    replace a with (S (a - 1)) by lia. rewrite Hsplit, ticks_before_alarm by lia.
    replace (alarm s - Z.of_nat (a - 1)) with 1 by lia.
    rewrite tick_expire by done. cbn [alarm_set handler_is_set now fired]. rewrite E.
    apply StronglySorted_inv in Hs as [Hs _].
    unfold apue_alarm_handler. cbn [alarm_set]. rewrite rebase_eq by done.
    unfold reset_system_alarm. simpl. split_and!; [lia|done|]. do 3 f_equal. lia. }
  destruct Hdead as (s1 & Hs1 & Ha1 & Hne & Hf1).
  assert (Hadd : forall j k s, ticks (j + k) s = ticks k (ticks j s)).
  { induction j as [|j IH]; intros k u; [done|]. cbn [ticks Nat.add]. apply IH. }
  assert (Hstate : forall k, alarm_set (ticks k s) <> [] /\
    (length (fired (ticks k s)) <= length (fired s) + 1)%nat).
  { intros k. destruct (decide (k < a)%nat) as [Hlt|Hge].
    - rewrite ticks_before_alarm by lia. simpl. rewrite E. split; [done|lia].
    - replace k with (a + (k - a))%nat by lia. rewrite Hadd, Hs1.
      destruct (ticks_dead s1 (k - a) Ha1) as [-> ->]. split; [done|].
      rewrite Hf1, length_app. simpl. lia. }
  split; [|apply Hstate]. apply wait_ticks. intros k _. apply Hstate.
Qed.

(** ** Witnesses: the three timers of [main], all with handler 7 *)

Definition s0 : state := State [] false 0 0 [].

Definition main_state : state :=
  default s0 (s1 ← apue_alarm true 3 (Some 7) s0; s2 ← apue_alarm true 5 (Some 7) s1;
              apue_alarm true 2 (Some 7) s2).

Example main_fires : fired (ticks 5 main_state) = [(2, 7); (3, 7); (5, 7)].
Proof. reflexivity. Qed.

Lemma apue_alarm_exact_witness :
  exists s', apue_alarm true 4 (Some 9) main_state = Some s' /\
    deadlines s' = [(2, 7); (3, 7); (4, 9); (5, 7)].
Proof.
  destruct (apue_alarm_exact 4 9 main_state) as (s' & H1 & _ & H2 & _).
  - split; [|reflexivity]. apply (bool_decide_unpack _). vm_compute. exact I.
  - lia.
  - exists s'. split; [exact H1|]. rewrite H2. reflexivity.
Defined.

Lemma timers_fire_on_time_witness : fired (ticks 3 main_state) = [(2, 7); (3, 7)].
Proof.
  destruct (timers_fire_on_time 3 main_state) as (_ & _ & H & _).
  - split; [split; [|reflexivity]|]; apply (bool_decide_unpack _); vm_compute; exact I.
  - rewrite H. reflexivity.
Defined.

Lemma equal_deadlines_hang_witness :
  wait_apue_timers 100 (State [(2, 7); (2, 8)] true 2 0 []) = None.
Proof.
  destruct (equal_deadlines_hang (State [(2, 7); (2, 8)] true 2 0 []) 2 7 8 [] 100) as [H _].
  - split; [|reflexivity]. apply (bool_decide_unpack _). vm_compute. exact I.
  - reflexivity.
  - exact H.
Defined.
