(* ===== verification/CondQueue.v ===== *)
(** * [11/10_usage_cond.cpp]: a message queue with a condition variable

    A producer that runs [enqueue_msg] for a list of messages and a consumer that runs
    [process_msg], interleaved at every lock operation, wait and signal. *)

From S2P Require Import Prelude Text.

Record msg := Msg { id : Z; data : bytes }.

(** [enqueue_msg]: before the lock, before the push, before the unlock, before the signal. *)
Inductive producer :=
| PLock (todo : list msg)
| PPush (m : msg) (todo : list msg)
| PUnlock (todo : list msg)
| PSignal (todo : list msg).

(** [process_msg]: before the lock, before the test of the inner loop, in [pthread_cond_wait] with
    the lock released, woken and taking the lock again, before the unlock, before the output;
    after the loop. *)
Inductive consumer :=
| CLock
| CTest
| CWaiting
| CRelock
| CUnlock (m : msg)
| CProcess (m : msg)
| CDone.

Inductive owner := ByProducer | ByConsumer.

Record state := State {
  messages : list msg;
  lock : option owner;
  prod : producer;
  cons : consumer;
  processed : list msg;
}.

Definition stops (m : msg) : bool := id m =? -1.

Inductive step : state -> state -> Prop :=
| p_lock q m todo c o :
    step (State q None (PLock (m :: todo)) c o) (State q (Some ByProducer) (PPush m todo) c o)
| p_push q l m todo c o :
    step (State q l (PPush m todo) c o) (State (q ++ [m]) l (PUnlock todo) c o)
| p_unlock q l todo c o :
    step (State q l (PUnlock todo) c o) (State q None (PSignal todo) c o)
| p_signal_waiting q l todo o :
    step (State q l (PSignal todo) CWaiting o) (State q l (PLock todo) CRelock o)
| p_signal_nobody q l todo c o :
    c <> CWaiting -> step (State q l (PSignal todo) c o) (State q l (PLock todo) c o)
| c_lock q p o :
    step (State q None p CLock o) (State q (Some ByConsumer) p CTest o)
| c_relock q p o :
    step (State q None p CRelock o) (State q (Some ByConsumer) p CTest o)
| c_wait l p o :
    step (State [] l p CTest o) (State [] None p CWaiting o)
| c_take m q l p o :
    step (State (m :: q) l p CTest o) (State q l p (CUnlock m) o)
| c_unlock q l p m o :
    step (State q l p (CUnlock m) o) (State q None p (CProcess m) o)
| c_process q l p m o :
    step (State q l p (CProcess m) o)
         (State q l p (if stops m then CDone else CLock) (o ++ [m])).

(** A wait may also end without a signal. *)
Inductive spurious : state -> state -> Prop :=
| c_spurious q l p o : spurious (State q l p CWaiting o) (State q l p CRelock o).

Definition any_step (s s' : state) : Prop := step s s' \/ spurious s s'.

Definition initial (all : list msg) : state := State [] None (PLock all) CLock [].

Definition reachable (all : list msg) (s : state) : Prop := rtc any_step (initial all) s.

(** ** Invariant *)

(** Messages not yet pushed, and the one the consumer holds. *)
Definition unsent (p : producer) : list msg :=
  match p with PLock todo | PUnlock todo | PSignal todo => todo | PPush m todo => m :: todo end.

Definition in_hand (c : consumer) : list msg :=
  match c with CUnlock m | CProcess m => [m] | _ => [] end.

Definition p_holds (p : producer) : bool :=
  match p with PPush _ _ | PUnlock _ => true | _ => false end.

Definition c_holds (c : consumer) : bool :=
  match c with CTest | CUnlock _ => true | _ => false end.

Record inv (all : list msg) (s : state) : Prop := {
  inv_fifo : processed s ++ in_hand (cons s) ++ messages s ++ unsent (prod s) = all;
  inv_lock : match lock s with
             | None => p_holds (prod s) = false /\ c_holds (cons s) = false
             | Some ByProducer => p_holds (prod s) = true /\ c_holds (cons s) = false
             | Some ByConsumer => p_holds (prod s) = false /\ c_holds (cons s) = true
             end;
  (* a waiting consumer and a message in the queue: the signal is still to come *)
  inv_wake : cons s = CWaiting -> messages s <> [] ->
    exists todo, prod s = PUnlock todo \/ prod s = PSignal todo;
  inv_running : cons s <> CDone -> Forall (fun m => stops m = false) (processed s);
  inv_done : cons s = CDone -> exists pre m, processed s = pre ++ [m] /\ stops m = true;
}.

Lemma queue_inv_initial all : inv all (initial all).
Proof. by split. Qed.

(** The fields of [inv] that a step keeps. *)
Ltac keep_field :=
  match goal with
  | H : context [match ?l with Some _ => _ | None => _ end] |- _ => destruct l as [[]|]; destruct H; done
  | H : _ -> Forall _ _ |- _ -> Forall _ _ => intros _; apply H; done
  | H : _ /\ _ |- _ => destruct H; done
  | H : _ = ?all |- _ = ?all => rewrite <- H, <- ?app_assoc; done
  end.

Ltac inv_fields := split; simpl in *; try done; try keep_field.

Lemma queue_inv_step all s s' : inv all s -> any_step s s' -> inv all s'.
Proof.
  intros Hi [Hst|Hst]; destruct Hst; destruct Hi as [Hf Hl Hw Hr Hd]; simpl in *.
  - inv_fields. intros Hc Hq. destruct (Hw Hc Hq) as (x & [[=]|[=]]).
  - inv_fields. intros _ _. exists todo. by left.
  - inv_fields. intros _ _. exists todo. by right.
  - inv_fields.
  - inv_fields.
  - inv_fields.
  - inv_fields.
  - inv_fields.
  - inv_fields.
  - inv_fields.
  - assert (Hrun : Forall (fun m => stops m = false) o) by (by apply Hr).
    destruct (stops m) eqn:E; inv_fields.
    + intros _. eauto.
    + intros _. apply Forall_app; split; [done|by constructor].
  - inv_fields.
Qed.

Lemma queue_inv_reachable all s : reachable all s -> inv all s.
Proof.
  intros Hr. apply (rtc_ind_r (fun s => inv all s) (initial all)) in Hr; [done|apply queue_inv_initial|].
  intros ???. eauto using queue_inv_step.
Qed.

(** ** Progress and termination *)

(** Without a step (spurious wake-ups aside) the consumer has stopped or there is nothing left to
    deliver. *)
Lemma inv_stuck all s :
  inv all s -> (forall s', ~ step s s') ->
  (cons s = CDone /\ unsent (prod s) = []) \/
  (cons s = CWaiting /\ messages s = [] /\ unsent (prod s) = []).
Proof.
  intros [Hf Hl Hw Hr Hd] Hno. destruct s as [q l p c o]; simpl in *.
  assert (Hp : p = PLock []).
  { destruct p as [[|m todo]|m todo|todo|todo]; [done| | | |].
    - exfalso. destruct l as [[]|].
      + by destruct Hl.
      + destruct Hl as [_ Hc]. destruct c; try done.
        * destruct q; eapply Hno; constructor.
        * eapply Hno; constructor.
      + eapply Hno. constructor.
    - exfalso. eapply Hno. constructor.
    - exfalso. eapply Hno. constructor.
    - exfalso. destruct c; try (eapply Hno; by constructor). }
  subst p. destruct l as [[]|]; [by destruct Hl| |].
  - destruct Hl as [_ Hc]. destruct c; try done.
    + destruct q; exfalso; eapply Hno; constructor.
    + exfalso. eapply Hno. constructor.
  - destruct c; try (exfalso; eapply Hno; by constructor); try (by destruct Hl).
    + right. split_and!; [done| |done]. destruct q as [|m q]; [done|].
      destruct (Hw eq_refl) as (x & [[=]|[=]]). done.
    + by left.
Qed.

Definition p_weight (p : producer) : nat :=
  match p with
  | PLock todo => 15 * length todo
  | PPush _ todo => 15 * length todo + 14
  | PUnlock todo => 15 * length todo + 5
  | PSignal todo => 15 * length todo + 4
  end.

Definition c_weight (c : consumer) : nat :=
  match c with
  | CLock | CRelock => 2
  | CTest => 1
  | CWaiting | CDone => 0
  | CUnlock _ => 5
  | CProcess _ => 4
  end.

Definition measure (s : state) : nat := p_weight (prod s) + c_weight (cons s) + 6 * length (messages s).

Lemma queue_measure_step s s' : step s s' -> (measure s' < measure s)%nat.
Proof.
  intros Hst. unfold measure.
  destruct Hst; simpl; rewrite ?length_app; simpl; try lia. destruct (stops m); simpl; lia.
Qed.

Lemma queue_measure_nsteps k s s' : nsteps step k s s' -> (k + measure s' <= measure s)%nat.
Proof. induction 1 as [|k s1 s2 s3 Hst Hk IH]; [done|]. apply queue_measure_step in Hst. lia. Qed.

(** C7: the queue delivers: for messages that end with the stop message, under every
    interleaving and with any spurious wake-ups, a state without further steps is one where the
    consumer has processed exactly the messages enqueued, in their order, and has left its loop; no
    wake-up is lost, although the signal is sent after the lock is released. *)
Theorem queue_delivers body stop s :
  Forall (fun m => stops m = false) body -> stops stop = true ->
  reachable (body ++ [stop]) s -> (forall s', ~ step s s') ->
  cons s = CDone /\ processed s = body ++ [stop].
Proof.
  intros Hb Hs Hr Hno. pose proof (queue_inv_reachable _ _ Hr) as Hi.
  pose proof (inv_fifo _ _ Hi) as Hf.
  destruct (inv_stuck _ _ Hi Hno) as [[Hc Hu]|(Hc & Hq & Hu)].
  - split; [done|]. rewrite Hc, Hu, app_nil_r in Hf. simpl in Hf.
    destruct (inv_done _ _ Hi Hc) as (pre & m & Hp & Hm). rewrite Hp in *.
    assert (Hm' : messages s = []).
    { destruct (messages s) as [|x q] using rev_ind; [done|].
      rewrite app_assoc in Hf. apply app_inj_tail in Hf as [Hf _].
      assert (Hin : m ∈ body) by (rewrite <- Hf; set_solver).
      rewrite Forall_forall in Hb. rewrite (Hb _ Hin) in Hm. done. }
    by rewrite Hm', app_nil_r in Hf.
  - exfalso. rewrite Hc, Hq, Hu in Hf. simpl in Hf. rewrite app_nil_r in Hf.
    assert (Hrun : Forall (fun m => stops m = false) (processed s)).
    { apply (inv_running _ _ Hi). by rewrite Hc. }
    rewrite Hf in Hrun. apply Forall_app in Hrun as [_ Hrun]. apply Forall_cons_1 in Hrun as [Hrun _].
    congruence.
Qed.

(** at every moment the messages processed are a prefix of the messages enqueued (first in,
    first out, none lost, none twice), and at most one of the two threads is in its critical
    section. *)
Theorem queue_fifo all s :
  reachable all s ->
  processed s `prefix_of` all /\ ~ (p_holds (prod s) = true /\ c_holds (cons s) = true).
Proof.
  intros Hr%queue_inv_reachable. destruct Hr as [Hf Hl _ _ _]. split.
  - rewrite <- Hf. by eexists.
  - intros [Hp Hc]. destruct (lock s) as [[]|]; destruct Hl; congruence.
Qed.

(** Apart from spurious wake-ups the two threads take at most [15 n + 2] steps for [n]
    messages. *)
Theorem queue_terminates all k s : nsteps step k (initial all) s -> (k <= 15 * length all + 2)%nat.
Proof. intros Hk%queue_measure_nsteps. unfold measure in Hk at 2. simpl in Hk. lia. Qed.

(** ** The program's run: five messages and the stop message *)

Definition stop_msg : msg := Msg (-1) (str "Stop").
Definition hello (i : Z) : msg := Msg i (str "Hello " ++ to_string i).
Definition main_msgs : list msg := (hello <$> [0; 1; 2; 3; 4]) ++ [stop_msg].

(** A schedule: consumer first, then the producer. *)
Definition c_exec (s : state) : option state :=
  match cons s with
  | CLock | CRelock =>
      match lock s with
      | None => Some (State (messages s) (Some ByConsumer) (prod s) CTest (processed s))
      | Some _ => None
      end
  | CTest =>
      match messages s with
      | [] => Some (State [] None (prod s) CWaiting (processed s))
      | m :: q => Some (State q (lock s) (prod s) (CUnlock m) (processed s))
      end
  | CUnlock m => Some (State (messages s) None (prod s) (CProcess m) (processed s))
  | CProcess m =>
      Some (State (messages s) (lock s) (prod s) (if stops m then CDone else CLock) (processed s ++ [m]))
  | CWaiting | CDone => None
  end.

Definition p_exec (s : state) : option state :=
  match prod s with
  | PLock (m :: todo) =>
      match lock s with
      | None => Some (State (messages s) (Some ByProducer) (PPush m todo) (cons s) (processed s))
      | Some _ => None
      end
  | PLock [] => None
  | PPush m todo => Some (State (messages s ++ [m]) (lock s) (PUnlock todo) (cons s) (processed s))
  | PUnlock todo => Some (State (messages s) None (PSignal todo) (cons s) (processed s))
  | PSignal todo =>
      Some (State (messages s) (lock s) (PLock todo)
              (match cons s with CWaiting => CRelock | c => c end) (processed s))
  end.

Lemma c_exec_step s s' : c_exec s = Some s' -> step s s'.
Proof.
  destruct s as [q l p c o]. unfold c_exec. simpl. destruct c; try done; intros E.
  - destruct l; [done|]. simplify_eq. constructor.
  - destruct q; simplify_eq; constructor.
  - destruct l; [done|]. simplify_eq. constructor.
  - simplify_eq. constructor.
  - simplify_eq. constructor.
Qed.

Lemma p_exec_step s s' : p_exec s = Some s' -> step s s'.
Proof.
  destruct s as [q l p c o]. unfold p_exec. simpl. destruct p as [[|m todo]|m todo|todo|todo]; try done; intros E.
  - destruct l; [done|]. simplify_eq. constructor.
  - simplify_eq. constructor.
  - simplify_eq. constructor.
  - simplify_eq. destruct c; by constructor.
Qed.

Fixpoint run (fuel : nat) (s : state) : state :=
  match fuel with
  | O => s
  | S fuel =>
      match c_exec s with
      | Some s' => run fuel s'
      | None => match p_exec s with Some s' => run fuel s' | None => s end
      end
  end.

Lemma run_reachable fuel s : rtc any_step s (run fuel s).
Proof.
  revert s. induction fuel as [|fuel IH]; intros s; simpl; [apply rtc_refl|].
  destruct (c_exec s) as [s'|] eqn:E; [eapply rtc_l; [left; by apply c_exec_step|apply IH]|].
  destruct (p_exec s) as [s'|] eqn:E'; [|apply rtc_refl].
  eapply rtc_l; [left; by apply p_exec_step|apply IH].
Qed.

Definition main_end : state := run 100 (initial main_msgs).

Lemma queue_delivers_witness : processed main_end = main_msgs.
Proof.
  apply (queue_delivers (hello <$> [0; 1; 2; 3; 4]) stop_msg main_end).
  - repeat constructor.
  - reflexivity.
  - apply run_reachable.
  - intros s' Hst. apply queue_measure_step in Hst. vm_compute in Hst. lia.
Defined.

Lemma queue_fifo_witness : processed main_end `prefix_of` main_msgs.
Proof. apply (queue_fifo _ main_end). apply run_reachable. Defined.

Lemma queue_terminates_witness : (0 <= 15 * 1 + 2)%nat.
Proof. apply (queue_terminates [stop_msg] 0 (initial [stop_msg])). constructor. Defined.
