(* ===== verification/Counter.v ===== *)
(** * A number in a file: [inc] of [10/24_signal_handshake.cpp]

    [Turns] of [Handshake.v] has a counter that is read and written; here the counter is the
    decimal text in the file both processes share, and [inc] is shown to add one to it. *)

From S2P Require Import Prelude FileModel Machine Errors Kernel SimKernel Text FileIO Locks CpHoles.

(** [std::from_chars] for [std::size_t]. *)
Definition from_chars_size_t (s : bytes) : option Z :=
  let '(v, n, _) := scan_digits s 0 0 in
  if (n =? 0)%nat then None else if v <=? SIZE_MAX then Some v else None.

Section Prog.
Context {W : Type} `{FileOps W} `{SeekOps W} `{CLib}.

Definition inc (fd : Z) (msg : bytes) : M W unit :=
  syscall_int (k_lseek fd 0 SEEK_SET) ;;
  '(r, s) ← read fd 10;
  if r <? 0 then err_sys (str "read") []
  else
    match from_chars_size_t s with
    | Some num =>
        let num := to_size_t (num + 1) in
        syscall_int (k_lseek fd 0 SEEK_SET) ;;
        let s := to_string num in
        w ← writen fd s (zlen s);
        if failed w then err_quit (str "call write") []
        else emit (Stdout (msg ++ str " incremented to " ++ to_string num))
    | None => err_quit (str "std::from_chars") []
    end.

(** Calls of [inc] by the processes named. *)
Fixpoint incs (fd : Z) (who : list bytes) : M W unit :=
  match who with
  | [] => mret tt
  | msg :: who => inc fd msg ;; incs fd who
  end.

End Prog.

Lemma from_chars_digits n : 0 <= n <= SIZE_MAX -> from_chars_size_t (digits n) = Some n.
Proof.
  intros Hn. unfold from_chars_size_t.
  pose proof (digits_scan n [] ltac:(lia) ltac:(done)) as Hs. rewrite app_nil_r in Hs. rewrite Hs.
  pose proof (digits_nonempty n). destruct (digits n); [done|]. simpl.
  by rewrite (proj2 (Z.leb_le _ _)) by lia.
Qed.

(** A text that is at least as long replaces the whole file. *)
Lemma pwrite_replace d f : (length f <= length d)%nat -> pwrite 0 d f = d.
Proof.
  intros Hl. destruct d as [|x d]; [by destruct f; [|simpl in Hl; lia]|].
  unfold pwrite. rewrite drop_ge by done. by rewrite app_nil_r.
Qed.

Section Facts.
Context {W : Type} `{FO : FileOps W} `{SO : SeekOps W} `{RS : !RegSpec W} `{CLib}.
Implicit Types p : proc W.

(** Calls on the regular file succeed, and reads and writes are whole. *)
Record seekable (I : W -> Prop) (fd : Z) : Prop := {
  s_lseek w : I w -> exists k w', k_lseek fd 0 SEEK_SET w = (SysOk k, w') /\ I w' /\
    content w' fd = content w fd /\ pos w' fd = 0%nat;
  s_read n w : I w -> exists w',
    k_read fd n w = (SysOk (take (Z.to_nat n) (drop (pos w fd) (content w fd))), w') /\ I w' /\
    content w' fd = content w fd;
  s_write d w : I w -> exists w', k_write fd d w = (SysOk (zlen d), w') /\ I w';
}.

Lemma counter_writen_whole I fd d p :
  seekable I fd -> I (kern p) -> d <> [] -> is_size_t (zlen d) ->
  returns (writen fd d (zlen d)) (fun r p' =>
    r = Some (zlen d) /\ I (kern p') /\ content (kern p') fd = pwrite (pos (kern p) fd) d (content (kern p) fd)
    /\ quiet p p') p.
Proof.
  intros Hs HI Hd Hsz. pose proof (zlen_nonneg d).
  assert (Hpos : 0 < zlen d).
  { destruct d; [done|]. rewrite zlen_cons in *. pose proof (zlen_nonneg d). lia. }
  unfold writen. simpl writen_loop. rewrite (proj2 (Z.ltb_lt _ _)) by done.
  unfold write. mstep.
  assert (Htake : take (Z.to_nat (zlen d)) d = d) by (apply take_ge; unfold zlen; lia).
  rewrite Htake. destruct (s_write _ _ Hs d (kern p) HI) as (w' & E & HI').
  pose proof (reg_write _ _ _ _ _ E) as (_ & Hc & _). rewrite Htake in Hc.
  apply returns_syscall_int; rewrite E; intros x w2 Eq; simplify_eq.
  destruct (Z.ltb_spec (zlen d) 0); [lia|]. destruct (Z.eqb_spec (zlen d) 0); [lia|].
  destruct (Z.to_nat (zlen d)) eqn:En; [lia|]. simpl. rewrite Z.sub_diag.
  change (to_size_t 0) with 0. simpl. mstep. rewrite Z.sub_0_r. done.
Qed.

(** [inc] on a file that holds [n]. *)
Lemma inc_adds I fd msg n p :
  seekable I fd -> I (kern p) -> content (kern p) fd = to_string n -> 0 <= n < 9999999999 ->
  returns (inc fd msg) (fun _ p' => I (kern p') /\ content (kern p') fd = to_string (n + 1) /\
    console p' = console p ++ [Stdout (msg ++ str " incremented to " ++ to_string (n + 1))]) p.
Proof.
  intros Hs HI Hc Hn.
  assert (Hds : forall k, 0 <= k -> to_string k = digits k).
  { intros k Hk. unfold to_string. by destruct (Z.ltb_spec k 0); [lia|]. }
  assert (Hlen : (length (digits n) <= 10)%nat).
  { apply (digits_length_bound 9). change (10 ^ Z.of_nat 10) with 10000000000. lia. }
  unfold inc. destruct (s_lseek _ _ Hs (kern p) HI) as (k1 & w1 & E1 & HI1 & Hc1 & Hp1).
  mstep. apply returns_syscall_int; rewrite E1; intros x w Eq; simplify_eq.
  destruct (s_read _ _ Hs 10 w HI1) as (w2 & E2 & HI2 & Hc2).
  rewrite Hp1, Hc1, Hc, Hds in E2 by lia. rewrite drop_0, take_ge in E2 by (simpl; lia).
  unfold read. mstep. mstep. apply returns_syscall. simpl. rewrite E2. intros r w' Eq. simplify_eq.
  mstep. destruct (Z.ltb_spec (zlen (digits n)) 0); [pose proof (zlen_nonneg (digits n)); lia|].
  rewrite from_chars_digits by (unfold SIZE_MAX; lia).
  rewrite to_size_t_small by (unfold is_size_t, SIZE_MAX; lia).
  destruct (s_lseek _ _ Hs w' HI2) as (k3 & w3 & E3 & HI3 & Hc3 & Hp3).
  mstep. apply returns_syscall_int; simpl; rewrite E3; intros y w4 Eq; simplify_eq.
  mstep. eapply returns_mono.
  { apply (counter_writen_whole I); [done|done| |].
    - rewrite Hds by lia. apply digits_nonempty.
    - assert (Hb : (length (digits (n + 1)) <= 10)%nat).
      { apply (digits_length_bound 9). change (10 ^ Z.of_nat 10) with 10000000000. lia. }
      rewrite Hds by lia. unfold is_size_t, SIZE_MAX, zlen. lia. }
  simpl. intros r p' (-> & HI' & Hc' & Hq & _). simpl. mstep. simpl in *.
  split; [done|]. split; [|by rewrite Hq].
  rewrite Hc', Hp3, Hc3, Hc2, Hc1, Hc, !Hds by lia. apply pwrite_replace, digits_length_mono. lia.
Qed.

(** the number in the file counts the calls of [inc]: from the text of [n], any sequence of
    calls by the two processes leaves the text of [n] plus the number of calls - a shorter text
    never has to be cut - and each call prints the number it wrote; as long as the text fits into
    the ten bytes that are read. *)
Theorem inc_counts I fd who n p :
  seekable I fd -> I (kern p) -> content (kern p) fd = to_string n -> 0 <= n ->
  n + zlen who <= 9999999999 ->
  returns (incs fd who) (fun _ p' => I (kern p') /\
    content (kern p') fd = to_string (n + zlen who) /\
    console p' = console p ++
      imap (fun i msg => Stdout (msg ++ str " incremented to " ++ to_string (n + Z.of_nat i + 1))) who) p.
Proof.
  intros Hs. revert n p. induction who as [|msg who IH]; intros n p HI Hc Hn Hb; simpl.
  - mstep. rewrite zlen_nil, Z.add_0_r, app_nil_r. done.
  - rewrite zlen_cons in *. pose proof (zlen_nonneg who). mstep.
    eapply returns_mono; [apply (inc_adds I fd msg n); try done; lia|].
    intros _ p1 (HI1 & Hc1 & Ho1). eapply returns_mono; [apply (IH (n + 1)); try done; lia|].
    intros _ p2 (HI2 & Hc2 & Ho2). split; [done|]. split; [rewrite Hc2; f_equal; lia|].
    rewrite Ho2, Ho1, <- app_assoc. simpl. rewrite Z.add_0_r. do 2 f_equal.
    apply imap_ext. intros i x _. simpl.
    by replace (n + 1 + Z.of_nat i + 1) with (n + Z.of_nat (S i) + 1) by lia.
Qed.

End Facts.

(** The file of [main] after its first byte. *)
Definition tempfile : proc rsim := Proc 0 true [] {[ 3 := RegFile (str "0") 1 (str "0") ]}.

Lemma r_seekable : seekable (fun w : rsim => is_Some (w !! 3)) 3.
Proof.
  split.
  - intros w [x Hx]. simpl. unfold on_file. rewrite Hx. eexists _, _. split; [done|].
    rewrite !lookup_insert_eq. simpl. eauto.
  - intros n w [x Hx]. simpl. unfold on_file. rewrite Hx. simpl. eexists. split; [done|].
    rewrite !lookup_insert_eq. eauto.
  - intros d w [x Hx]. simpl. unfold on_file. rewrite Hx. simpl. eexists. split; [done|].
    rewrite lookup_insert_eq. eauto.
Qed.

Lemma inc_counts_witness :
  returns (incs 3 (mjoin (replicate 10 [str "Child"; str "Parent"]))) (fun _ p' =>
    content (kern p') 3 = str "20") tempfile.
Proof.
  eapply returns_mono.
  - apply (inc_counts (fun w : rsim => is_Some (w !! 3)) 3
             (mjoin (replicate 10 [str "Child"; str "Parent"])) 0 tempfile).
    + apply r_seekable.
    + vm_compute. eauto.
    + reflexivity.
    + lia.
    + vm_compute. discriminate.
  - intros _ p' (_ & H & _). exact H.
Defined.
