(* ===== verification/RefCount.v ===== *)
(** * Reference counts: [11/5_usage_mutex.cpp] and [11/6_usage_two_mutex.cpp]

    [Simple]: one object with a counter.  [Hashed]: objects in a hash table of linked lists,
    represented as a store of objects that refer to each other, and refined to one list of objects
    per bucket.  An operation under a lock is one transition; [rele] gives up the object's lock
    between its two tests of the counter, so it is two. *)

From S2P Require Import Prelude Machine Text.

Definition zero_count : bytes := str "hold() called on object with count 0".

Module Simple.

Record Foo := MkFoo { count : Z; id : Z }.

Definition print : M Foo unit := fun p =>
  emit (Stdout (str "Foo " ++ to_string (id (kern p)) ++ str " hold, count = "
                  ++ to_string (count (kern p)))) p.

Definition get : M Foo Foo := fun p => (Ret (kern p), p).
Definition set_count (n : Z) : M Foo unit := fun p =>
  (Ret tt, Proc (errno p) (log_to_stderr p) (console p) (MkFoo n (id (kern p)))).

Definition hold : M Foo unit :=
  f ← get;
  if count f =? 0 then throw zero_count
  else set_count (count f + 1) ;; print.

Definition rele : M Foo unit :=
  f ← get;
  if count f =? 0 then throw zero_count
  else set_count (count f - 1) ;; print.

(** [main], from the constructor on. *)
Definition main : M Foo Z :=
  set_count 1 ;; print ;; hold ;; rele ;; rele ;; rele ;; mret 0.

(** A sequence of calls: [true] is [hold], [false] is [rele]. *)
Fixpoint calls (l : list bool) : M Foo unit :=
  match l with
  | [] => mret tt
  | true :: l => hold ;; calls l
  | false :: l => rele ;; calls l
  end.

Fixpoint balance (n : Z) (l : list bool) : option Z :=
  match l with
  | [] => Some n
  | b :: l => if n =? 0 then None else balance (if b : bool then n + 1 else n - 1) l
  end.

(** The counter counts: a sequence of calls of [hold] and [rele] succeeds exactly when the
    counter never is 0 before a call, and then the counter is the balance of the calls; otherwise
    the first call on an object with count 0 throws. *)
Theorem calls_spec l (p : proc Foo) :
  match balance (count (kern p)) l with
  | Some n => exists p', calls l p = (Ret tt, p') /\ count (kern p') = n
  | None => exists p', calls l p = (Threw zero_count, p') /\ count (kern p') = 0
  end.
Proof.
  revert p. induction l as [|b l IH]; intros p; simpl; [eauto|].
  destruct b; unfold hold, rele, mbind, M_bind, get, set_count, print, emit, throw; simpl;
    (destruct (Z.eqb_spec (count (kern p)) 0); [simpl; eauto|]); simpl.
  - match goal with |- context [calls l ?q] => apply (IH q) end.
  - match goal with |- context [calls l ?q] => apply (IH q) end.
Qed.

(** The third [rele] of [main] throws. *)
Example main_throws (p : proc Foo) : (main p).1 = Threw zero_count.
Proof. reflexivity. Qed.

End Simple.

Module Hashed.

Definition NHASH : nat := 29.
Definition HASH (id : Z) : nat := Z.to_nat (to_size_t id mod 29).

Record Foo := MkFoo { count : Z; id : Z; next : option nat }.

(** The objects by address, and the table [fh]. *)
Record store := Store { objs : gmap nat Foo; fh : list (option nat) }.

Inductive failure := Throws | NullDeref | NoFuel.
Abbreviation result A := (failure + A)%type.

Definition fh_at (st : store) (i : nat) : option nat := default None (fh st !! i).

Definition set_obj (x : nat) (f : Foo) (st : store) : store := Store (<[x := f]> (objs st)) (fh st).
Definition set_head (i : nat) (h : option nat) (st : store) : store :=
  Store (objs st) (<[i := h]> (fh st)).

(** [create], with the address the allocator returns. *)
Definition create (x : nat) (id : Z) (st : store) : store :=
  let idx := HASH id in
  let st := set_obj x (MkFoo 1 (to_size_t id) None) st in
  let st := set_obj x (MkFoo 1 (to_size_t id) (fh_at st idx)) st in
  set_head idx (Some x) st.

Definition hold (x : nat) (st : store) : result store :=
  match objs st !! x with
  | None => inl NullDeref
  | Some f =>
      if count f =? 0 then inl Throws
      else inr (set_obj x (MkFoo (to_size_t (count f + 1)) (id f) (next f)) st)
  end.

(** The loop of [find]. *)
Fixpoint find_loop (fuel : nat) (id' : Z) (fp : option nat) (st : store)
  : result (option nat * store) :=
  match fp with
  | None => inr (None, st)
  | Some x =>
      match fuel, objs st !! x with
      | O, _ => inl NoFuel
      | _, None => inl NullDeref
      | S fuel, Some f =>
          if id f =? id' then
            match hold x st with inl e => inl e | inr st => inr (Some x, st) end
          else find_loop fuel id' (next f) st
      end
  end.

Definition find (fuel : nat) (id : Z) (st : store) : result (option nat * store) :=
  find_loop fuel id (fh_at st (HASH id)) st.

(** The loop of [rele] that looks for the predecessor of [x]. *)
Fixpoint unlink (fuel : nat) (tfp x : nat) (nxt : option nat) (st : store) : result store :=
  match fuel, objs st !! tfp with
  | O, _ => inl NoFuel
  | _, None => inl NullDeref
  | S fuel, Some t =>
      if decide (next t = Some x) then inr (set_obj tfp (MkFoo (count t) (id t) nxt) st)
      else match next t with
           | None => inl NullDeref
           | Some n => unlink fuel n x nxt st
           end
  end.

(** [rele] up to the point where it gives up the lock; [true] when it has to go on. *)
Definition rele_begin (x : nat) (st : store) : result (bool * store) :=
  match objs st !! x with
  | None => inl NullDeref
  | Some f =>
      if count f =? 0 then inl Throws
      else if count f =? 1 then inr (true, st)
      else inr (false, set_obj x (MkFoo (to_size_t (count f - 1)) (id f) (next f)) st)
  end.

(** The rest, with both locks held. *)
Definition rele_finish (fuel : nat) (x : nat) (st : store) : result store :=
  match objs st !! x with
  | None => inl NullDeref
  | Some f =>
      if negb (count f =? 1) then inr (set_obj x (MkFoo (to_size_t (count f - 1)) (id f) (next f)) st)
      else
        let idx := HASH (id f) in
        match fh_at st idx with
        | None => inl NullDeref
        | Some tfp =>
            let r := if decide (tfp = x) then inr (set_head idx (next f) st)
                     else unlink fuel tfp x (next f) st in
            match r with
            | inl e => inl e
            | inr st => inr (set_obj x (MkFoo (to_size_t (count f - 1)) (id f) (next f)) st)
            end
        end
  end.

Definition rele (fuel : nat) (x : nat) (st : store) : result store :=
  match rele_begin x st with
  | inl e => inl e
  | inr (true, st) => rele_finish fuel x st
  | inr (false, st) => inr st
  end.

(** ** Buckets as lists *)

Fixpoint chain (m : gmap nat Foo) (start : option nat) (l : list nat) : Prop :=
  match l with
  | [] => start = None
  | x :: l => start = Some x /\ exists f, m !! x = Some f /\ chain m (next f) l
  end.

(** [tbl i] lists the objects of bucket [i]: each is in the bucket of its id and has references. *)
Record wf (st : store) (tbl : nat -> list nat) : Prop := {
  wf_len : length (fh st) = NHASH;
  wf_chain i : (i < NHASH)%nat -> chain (objs st) (fh_at st i) (tbl i);
  wf_nodup i : NoDup (tbl i);
  wf_obj i x : x ∈ tbl i -> exists f, objs st !! x = Some f /\ HASH (id f) = i /\ 0 < count f;
}.

Lemma HASH_lt id : (HASH id < NHASH)%nat.
Proof. unfold HASH, NHASH. pose proof (Z.mod_pos_bound (to_size_t id) 29). lia. Qed.

Lemma HASH_size_t id : HASH (to_size_t id) = HASH id.
Proof. unfold HASH, to_size_t, wrap_unsigned. by rewrite Z.mod_mod. Qed.

(** A chain does not depend on objects outside it, nor on counts. *)
Lemma chain_frame m m' start l :
  (forall x, x ∈ l -> next <$> (m' !! x) = next <$> (m !! x)) -> chain m start l -> chain m' start l.
Proof.
  revert start. induction l as [|x l IH]; intros start Hm; [done|].
  intros [-> (f & Hf & Hl)]. split; [done|].
  pose proof (Hm x ltac:(constructor)) as Hx. rewrite Hf in Hx. simpl in Hx.
  apply fmap_Some in Hx as (f' & Hf' & Hn). exists f'. split; [done|]. rewrite <- Hn.
  apply IH; [|done]. intros y Hy. apply Hm. by constructor.
Qed.

Definition update (tbl : nat -> list nat) (i : nat) (l : list nat) : nat -> list nat :=
  fun j => if decide (j = i) then l else tbl j.

Lemma fh_at_set_head st i h j :
  (i < length (fh st))%nat -> fh_at (set_head i h st) j = if decide (j = i) then h else fh_at st j.
Proof.
  intros Hi. unfold fh_at, set_head. simpl. case_decide as Hj.
  - subst. by rewrite list_lookup_insert_eq.
  - by rewrite list_lookup_insert_ne.
Qed.

Lemma wf_bucket st tbl i j x : wf st tbl -> x ∈ tbl i -> x ∈ tbl j -> i = j.
Proof.
  intros Hw Hi Hj. destruct (wf_obj _ _ Hw i x Hi) as (f & Hf & <- & _).
  destruct (wf_obj _ _ Hw j x Hj) as (f' & Hf' & <- & _). congruence.
Qed.

(** Changing the count of an object keeps the table, if a linked object keeps a reference. *)
Lemma wf_set_count st tbl x f n :
  wf st tbl -> objs st !! x = Some f -> (0 < n \/ forall i, x ∉ tbl i) ->
  wf (set_obj x (MkFoo n (id f) (next f)) st) tbl.
Proof.
  intros Hw Hf Hn. split.
  - apply (wf_len _ _ Hw).
  - intros i Hi. eapply chain_frame; [|by apply (wf_chain _ _ Hw)]. intros y _. simpl.
    destruct (decide (x = y)) as [<-|]; [by rewrite lookup_insert_eq, Hf|by rewrite lookup_insert_ne].
  - apply (wf_nodup _ _ Hw).
  - intros i y Hy. destruct (wf_obj _ _ Hw i y Hy) as (g & Hg & Hh & Hc). simpl.
    destruct (decide (x = y)) as [<-|].
    + rewrite lookup_insert_eq. eexists. split; [done|]. simplify_eq. split; [done|]. simpl.
      destruct Hn as [Hn|Hn]; [done|by destruct (Hn _ Hy)].
    + rewrite lookup_insert_ne by done. eauto.
Qed.

(** A created object is linked. *)
Lemma create_wf x id' st tbl :
  wf st tbl -> objs st !! x = None ->
  wf (create x id' st) (update tbl (HASH id') (x :: tbl (HASH id'))).
Proof.
  intros Hw Hx. unfold create. cbv zeta.
  assert (Hfresh : forall i, x ∉ tbl i).
  { intros i Hi. destruct (wf_obj _ _ Hw i x Hi) as (f & Hf & _). congruence. }
  pose proof (HASH_lt id') as Hlt. pose proof (wf_len _ _ Hw) as Hlen.
  split.
  - simpl. by rewrite length_insert.
  - intros i Hi. rewrite fh_at_set_head by (simpl; lia). unfold update. case_decide as Hd.
    + subst i. split; [done|]. simpl. rewrite lookup_insert_eq. eexists. split; [done|]. simpl.
      eapply chain_frame; [|by apply (wf_chain _ _ Hw)]. intros y Hy. simpl.
      assert (x <> y) by (intros ->; by eapply Hfresh). by rewrite !lookup_insert_ne.
    + change (fh_at (set_obj x _ _) i) with (fh_at st i).
      eapply chain_frame; [|by apply (wf_chain _ _ Hw)]. intros y Hy. simpl.
      assert (x <> y) by (intros ->; by eapply Hfresh). by rewrite !lookup_insert_ne.
  - intros i. unfold update. case_decide; [|apply (wf_nodup _ _ Hw)].
    apply NoDup_cons. split; [apply Hfresh|apply (wf_nodup _ _ Hw)].
  - intros i y Hy. unfold update in Hy.
    destruct (decide (x = y)) as [<-|Hne].
    + simpl. rewrite lookup_insert_eq. eexists. split; [done|]. simpl.
      case_decide as Hd; [|by destruct (Hfresh i)]. subst. by rewrite HASH_size_t.
    + simpl. rewrite !lookup_insert_ne by done. apply (wf_obj _ _ Hw).
      case_decide as Hd; [subst|done]. by apply elem_of_cons in Hy as [->|].
Qed.

(** [create] puts a new object with count 1 at the head of the bucket of its id and leaves
    the rest of the table alone. *)
Theorem create_spec x id' st tbl :
  wf st tbl -> objs st !! x = None ->
  let st' := create x id' st in
  wf st' (update tbl (HASH id') (x :: tbl (HASH id'))) /\
  exists f, objs st' !! x = Some f /\ count f = 1 /\ id f = to_size_t id'.
Proof.
  intros Hw Hx. cbv zeta. split; [by apply create_wf|]. simpl. rewrite lookup_insert_eq. by eexists.
Qed.

(** The first object of a bucket with a given id. *)
Fixpoint first_with (m : gmap nat Foo) (id' : Z) (l : list nat) : option nat :=
  match l with
  | [] => None
  | x :: l =>
      if decide (id <$> m !! x = Some id') then Some x else first_with m id' l
  end.

Lemma first_with_elem m id' l x :
  first_with m id' l = Some x -> x ∈ l /\ id <$> m !! x = Some id'.
Proof.
  induction l as [|y l IH]; simpl; [done|]. case_decide; intros Hx; simplify_eq.
  - split; [constructor|done].
  - destruct (IH Hx). split; [by constructor|done].
Qed.

Lemma find_loop_chain fuel id' l : forall start st,
  (length l < fuel)%nat -> chain (objs st) start l ->
  find_loop fuel id' start st =
  match first_with (objs st) id' l with
  | None => inr (None, st)
  | Some x => match hold x st with inl e => inl e | inr st => inr (Some x, st) end
  end.
Proof.
  revert fuel. induction l as [|x l IH]; intros fuel start st Hfuel Hc.
  - simpl in Hc. subst. destruct fuel; done.
  - destruct Hc as [-> (f & Hf & Hc)]. destruct fuel as [|fuel]; simpl in *; [lia|].
    rewrite Hf. simpl. destruct (Z.eqb_spec (id f) id') as [<-|Hne].
    + by rewrite decide_True.
    + rewrite decide_False by congruence. apply IH; [lia|done].
Qed.

(** The cases of [find]. *)
Lemma find_cases fuel id' st tbl :
  wf st tbl -> (length (tbl (HASH id')) < fuel)%nat ->
  (forall x f, objs st !! x = Some f -> count f < SIZE_MAX) ->
  match first_with (objs st) id' (tbl (HASH id')) with
  | None =>
      find fuel id' st = inr (None, st) /\
      (forall i x f, (i < NHASH)%nat -> x ∈ tbl i -> objs st !! x = Some f -> id f <> id')
  | Some x =>
      exists f, objs st !! x = Some f /\ id f = id' /\
        let st' := set_obj x (MkFoo (count f + 1) (id f) (next f)) st in
        find fuel id' st = inr (Some x, st') /\ wf st' tbl
  end.
Proof.
  intros Hw Hfuel Hbound. unfold find.
  rewrite (find_loop_chain _ _ (tbl (HASH id'))) by
    (try apply (wf_chain _ _ Hw); auto using HASH_lt).
  destruct (first_with _ _ _) as [x|] eqn:Hfirst.
  - apply first_with_elem in Hfirst as [Hx Hid].
    destruct (wf_obj _ _ Hw _ x Hx) as (f & Hf & _ & Hc). rewrite Hf in Hid. simplify_eq/=.
    exists f. split; [done|]. split; [done|]. cbv zeta. split.
    + unfold hold. rewrite Hf. rewrite (proj2 (Z.eqb_neq _ _)) by lia.
      rewrite (to_size_t_small (count f + 1)) by (specialize (Hbound _ _ Hf); unfold is_size_t; lia). done.
    + apply wf_set_count; [done..|]. left. lia.
  - split; [done|]. intros i x f Hi Hx Hf Hid.
    destruct (wf_obj _ _ Hw _ x Hx) as (f' & Hf' & Hh & _). simplify_eq.
    clear -Hfirst Hx Hf. induction (tbl (HASH (id f))) as [|y l IH]; [by apply elem_of_nil in Hx|].
    simpl in Hfirst. case_decide; [done|]. apply elem_of_cons in Hx as [->|Hx]; [|by apply IH].
    rewrite Hf in *. done.
Qed.

(** [find] returns null exactly when no linked object has the id; otherwise the object most
    recently linked with that id, whose count it has increased by one, and nothing else changes. *)
Theorem find_spec fuel id' st tbl :
  wf st tbl -> (length (tbl (HASH id')) < fuel)%nat ->
  (forall x f, objs st !! x = Some f -> count f < SIZE_MAX) ->
  match first_with (objs st) id' (tbl (HASH id')) with
  | None =>
      find fuel id' st = inr (None, st) /\
      (forall i x f, (i < NHASH)%nat -> x ∈ tbl i -> objs st !! x = Some f -> id f <> id')
  | Some x =>
      exists f, objs st !! x = Some f /\ id f = id' /\
        let st' := set_obj x (MkFoo (count f + 1) (id f) (next f)) st in
        find fuel id' st = inr (Some x, st') /\ wf st' tbl
  end.
Proof. apply find_cases. Qed.

(** Unlinking [x] from the chain [l1 ++ x :: l2]. *)
Lemma unlink_chain fuel x fx l2 : forall l1 tfp st,
  (length l1 < fuel)%nat -> objs st !! x = Some fx -> NoDup (tfp :: l1 ++ x :: l2) ->
  chain (objs st) (Some tfp) (tfp :: l1 ++ x :: l2) ->
  exists st' y g, unlink fuel tfp x (next fx) st = inr st' /\
    y ∈ tfp :: l1 /\ objs st !! y = Some g /\
    st' = set_obj y (MkFoo (count g) (id g) (next fx)) st /\
    chain (objs st') (Some tfp) (tfp :: l1 ++ l2).
Proof.
  revert fuel. induction fuel as [|fuel IH]; intros l1 tfp st Hfuel Hx Hnd Hc; [lia|].
  simpl in Hc. destruct Hc as [_ (t & Ht & Hc)]. simpl. rewrite Ht.
  apply NoDup_cons in Hnd as [Hnot Hnd].
  destruct l1 as [|z l1]; simpl in Hc; destruct Hc as [Hnext (g & Hg & Hc)]; rewrite Hnext.
  - rewrite decide_True by done. simplify_eq. eexists _, tfp, t.
    split; [done|]. split; [constructor|]. split; [done|]. split; [done|]. simpl.
    split; [done|]. rewrite lookup_insert_eq. eexists. split; [done|]. simpl.
    eapply chain_frame; [|done]. intros y Hy. rewrite lookup_insert_ne; [done|].
    intros ->. apply Hnot. simpl. by constructor.
  - simpl in Hnd. rewrite decide_False.
    2:{ intros [= ->]. apply NoDup_cons in Hnd as [Hnd _]. apply Hnd.
        apply elem_of_app. right. constructor. }
    destruct (IH l1 z st) as (st' & y & h & Hu & Hy & Hh & -> & Hc'); [simpl in *; lia|done|done| |].
    { simpl. split; [done|]. eauto. }
    rewrite Hu. eexists _, y, h. split; [done|]. split; [by constructor|]. split; [done|].
    split; [done|]. split; [done|].
    assert (tfp <> y).
    { intros ->. apply Hnot. simpl. clear -Hy. apply elem_of_cons in Hy as [->|Hy]; [constructor|].
      constructor. apply elem_of_app. by left. }
    simpl. rewrite lookup_insert_ne by done. exists t. split; [done|]. rewrite Hnext. exact Hc'.
Qed.

(** The bucket of [x] without [x]: what [rele_finish] does to the table. *)
Lemma unlink_bucket fuel x f st l1 l2 :
  (length l1 < fuel)%nat -> objs st !! x = Some f -> (HASH (id f) < length (fh st))%nat ->
  NoDup (l1 ++ x :: l2) -> chain (objs st) (fh_at st (HASH (id f))) (l1 ++ x :: l2) ->
  exists st', match fh_at st (HASH (id f)) with
    | None => inl NullDeref
    | Some tfp => if decide (tfp = x) then inr (set_head (HASH (id f)) (next f) st)
                  else unlink fuel tfp x (next f) st
    end = inr st' /\
    chain (objs st') (fh_at st' (HASH (id f))) (l1 ++ l2) /\
    length (fh st') = length (fh st) /\
    (forall j, j <> HASH (id f) -> fh_at st' j = fh_at st j) /\
    (forall y, y ∉ l1 -> objs st' !! y = objs st !! y) /\
    (forall y g, objs st !! y = Some g ->
       exists g', objs st' !! y = Some g' /\ id g' = id g /\ count g' = count g).
Proof.
  intros Hfuel Hf Hlen Hnd Hc. destruct l1 as [|z l1]; simpl in Hc.
  - destruct Hc as [-> (g & Hg & Hc)]. rewrite decide_True by done. simplify_eq. eexists.
    split; [done|]. rewrite fh_at_set_head by done. rewrite decide_True by done.
    split; [exact Hc|]. split; [apply length_insert|]. split; [|eauto].
    intros j Hj. rewrite fh_at_set_head by done. by rewrite decide_False.
  - destruct Hc as [Hz Hc]. rewrite Hz. rewrite decide_False.
    2:{ intros ->. simpl in Hnd. apply NoDup_cons in Hnd as [Hn _]. apply Hn.
        apply elem_of_app. right. constructor. }
    destruct (unlink_chain fuel x f l2 l1 z st) as (st' & y & g & Hu & Hy & Hg & -> & Hc');
      [simpl in *; lia|done|done|by split|].
    rewrite Hu. eexists. split; [done|]. change (fh_at (set_obj y _ st)) with (fh_at st).
    rewrite Hz. split; [exact Hc'|]. split; [done|]. split; [done|]. split.
    + intros w Hw. simpl. rewrite lookup_insert_ne; [done|]. by intros ->.
    + intros w h Hh. simpl. destruct (decide (y = w)) as [->|].
      * rewrite lookup_insert_eq. simplify_eq. by eexists.
      * rewrite lookup_insert_ne by done. eauto.
Qed.

(** [rele_finish] on the last reference: the other objects keep their ids and counts. *)
Lemma rele_finish_frame fuel x f st tbl l1 l2 :
  wf st tbl -> objs st !! x = Some f -> count f = 1 -> tbl (HASH (id f)) = l1 ++ x :: l2 ->
  (length l1 < fuel)%nat ->
  exists st', rele_finish fuel x st = inr st' /\
    wf st' (update tbl (HASH (id f)) (l1 ++ l2)) /\
    (exists f', objs st' !! x = Some f' /\ count f' = 0 /\ id f' = id f) /\
    (forall y g, y <> x -> objs st' !! y = Some g ->
       exists g0, objs st !! y = Some g0 /\ id g0 = id g /\ count g0 = count g).
Proof.
  intros Hw Hf Hcount Htbl Hfuel. pose proof (HASH_lt (id f)) as Hlt.
  pose proof (wf_nodup _ _ Hw (HASH (id f))) as Hnd.
  pose proof (wf_chain _ _ Hw _ Hlt) as Hc. rewrite Htbl in Hnd, Hc.
  destruct (unlink_bucket fuel x f st l1 l2 Hfuel Hf) as
    (st' & Hu & Hc' & Hlen & Hothers & Hsame & Hobjs);
    [by rewrite (wf_len _ _ Hw)|done|done|].
  assert (Hx12 : x ∉ l1 /\ x ∉ l2).
  { apply NoDup_app in Hnd as (_ & Hd & Hn). apply NoDup_cons in Hn as [Hn _].
    split; [|done]. intros Hx. apply (Hd x Hx). constructor. }
  assert (Hfx : objs st' !! x = Some f) by (rewrite Hsame; [done|apply Hx12]).
  exists (set_obj x (MkFoo (to_size_t (count f - 1)) (id f) (next f)) st'). split_and!.
  - unfold rele_finish. rewrite Hf, Hcount. simpl.
    destruct (fh_at st (HASH (id f))) as [tfp|]; [|done]. by rewrite Hu.
  - apply wf_set_count; [|done|].
    2:{ right. intros i Hx. unfold update in Hx. case_decide as Hd.
        - apply elem_of_app in Hx. tauto.
        - apply Hd. eapply (wf_bucket _ _ i _ x Hw Hx). rewrite Htbl.
          apply elem_of_app. right. constructor. }
    assert (Hsub : forall i y, y ∈ update tbl (HASH (id f)) (l1 ++ l2) i -> y ∈ tbl i).
    { intros i y. unfold update. case_decide as Hd; [|done]. subst. rewrite Htbl.
      rewrite !elem_of_app, elem_of_cons. tauto. }
    split.
    + rewrite Hlen. apply (wf_len _ _ Hw).
    + intros i Hi. unfold update. case_decide as Hd; [by subst|]. rewrite Hothers by done.
      eapply chain_frame; [|by apply (wf_chain _ _ Hw)]. intros y Hy. simpl.
      rewrite Hsame; [done|]. intros Hl1. apply Hd. eapply (wf_bucket _ _ _ _ y Hw Hy).
      rewrite Htbl. apply elem_of_app. by left.
    + intros i. unfold update. case_decide as Hd; [|apply (wf_nodup _ _ Hw)].
      apply NoDup_app in Hnd as (H1 & H2 & H3). apply NoDup_cons in H3 as [_ H3].
      apply NoDup_app. repeat split; try done. intros y Hy Hy2. apply (H2 y Hy). by constructor.
    + intros i y Hy. apply Hsub in Hy. destruct (wf_obj _ _ Hw i y Hy) as (g & Hg & Hh & Hcg).
      destruct (Hobjs _ _ Hg) as (g' & Hg' & Hid & Hcg'). exists g'.
      split; [done|]. rewrite Hid, Hcg'. done.
  - simpl. rewrite lookup_insert_eq. eexists. split; [done|]. simpl. rewrite Hcount. done.
  - intros y g Hne. simpl. rewrite lookup_insert_ne by done. intros Hg.
    destruct (decide (y ∈ l1)) as [Hy|Hy]; [|rewrite Hsame in Hg by done; eauto].
    destruct (wf_obj _ _ Hw (HASH (id f)) y) as (g0 & Hg0 & _).
    { rewrite Htbl. apply elem_of_app. by left. }
    destruct (Hobjs _ _ Hg0) as (g' & Hg' & Hi & Hcg). simplify_eq. eauto.
Qed.

Lemma rele_finish_last fuel x f st tbl l1 l2 :
  wf st tbl -> objs st !! x = Some f -> count f = 1 -> tbl (HASH (id f)) = l1 ++ x :: l2 ->
  (length l1 < fuel)%nat ->
  exists st', rele_finish fuel x st = inr st' /\
    wf st' (update tbl (HASH (id f)) (l1 ++ l2)) /\
    exists f', objs st' !! x = Some f' /\ count f' = 0 /\ id f' = id f.
Proof.
  intros Hw Hf Hc Ht Hfuel.
  destruct (rele_finish_frame fuel x f st tbl l1 l2 Hw Hf Hc Ht Hfuel) as (st' & ? & ? & ? & _). eauto.
Qed.

(** The three cases of [rele]. *)
Lemma rele_cases fuel x f st tbl :
  wf st tbl -> objs st !! x = Some f -> is_size_t (count f) ->
  (length (tbl (HASH (id f))) <= fuel)%nat ->
  (count f = 0 -> rele fuel x st = inl Throws) /\
  (1 < count f ->
   let st' := set_obj x (MkFoo (count f - 1) (id f) (next f)) st in
   rele fuel x st = inr st' /\ wf st' tbl) /\
  (count f = 1 -> forall l1 l2, tbl (HASH (id f)) = l1 ++ x :: l2 ->
   exists st', rele fuel x st = inr st' /\
     wf st' (update tbl (HASH (id f)) (l1 ++ l2)) /\
     exists f', objs st' !! x = Some f' /\ count f' = 0 /\ id f' = id f).
Proof.
  intros Hw Hf Hsz Hfuel. unfold rele, rele_begin. rewrite Hf. split_and!.
  - by intros ->.
  - intros Hc. rewrite (proj2 (Z.eqb_neq _ 0)), (proj2 (Z.eqb_neq _ 1)) by lia.
    rewrite to_size_t_small by (unfold is_size_t in *; lia). split; [done|].
    apply wf_set_count; [done..|]. left. lia.
  - intros Hc l1 l2 Htbl. rewrite Hc. simpl.
    apply (rele_finish_last fuel x f st tbl); [done..|].
    rewrite Htbl, length_app in Hfuel. simpl in Hfuel. lia.
Qed.

(** [rele] on a linked object: while other references remain it only decreases the count; the
    last reference leaves the count zero and takes exactly this object out of its bucket, the
    others staying linked in order; it never follows a null pointer. On an object whose count is
    zero it throws. *)
Theorem rele_spec fuel x f st tbl :
  wf st tbl -> objs st !! x = Some f -> is_size_t (count f) ->
  (length (tbl (HASH (id f))) <= fuel)%nat ->
  (count f = 0 -> rele fuel x st = inl Throws) /\
  (1 < count f ->
   let st' := set_obj x (MkFoo (count f - 1) (id f) (next f)) st in
   rele fuel x st = inr st' /\ wf st' tbl) /\
  (count f = 1 -> forall l1 l2, tbl (HASH (id f)) = l1 ++ x :: l2 ->
   exists st', rele fuel x st = inr st' /\
     wf st' (update tbl (HASH (id f)) (l1 ++ l2)) /\
     exists f', objs st' !! x = Some f' /\ count f' = 0 /\ id f' = id f).
Proof. apply rele_cases. Qed.

(** The recheck of [rele]: when another thread's [find] took a reference between the two
    locks, the object stays linked and only the count is decreased. *)
Theorem rele_recheck fuel x f st tbl :
  wf st tbl -> objs st !! x = Some f -> 1 < count f < SIZE_MAX ->
  let st' := set_obj x (MkFoo (count f - 1) (id f) (next f)) st in
  rele_finish fuel x st = inr st' /\ wf st' tbl.
Proof.
  intros Hw Hf Hc. unfold rele_finish. rewrite Hf.
  rewrite (proj2 (Z.eqb_neq _ 1)) by lia. simpl.
  rewrite to_size_t_small by (unfold is_size_t; lia). split; [done|].
  apply wf_set_count; [done..|]. left. lia.
Qed.

(** ** The two threads of [main] *)

(** The orders in which two threads' calls may come. *)
Inductive interleaving {A} : list A -> list A -> list A -> Prop :=
| il_nil : interleaving [] [] []
| il_left a l1 l2 l : interleaving l1 l2 l -> interleaving (a :: l1) l2 (a :: l)
| il_right a l1 l2 l : interleaving l1 l2 l -> interleaving l1 (a :: l2) (a :: l).

(** The calls of [foo_thread], with the address of the object the thread creates. *)
Inductive call := Create (x : nat) | Find | Rele (x : nat).

Definition foo_thread (x : nat) : list call := [Create x; Find; Rele x; Rele x].

Definition do_call (c : call) (st : store) : result store :=
  match c with
  | Create x => inr (create x 1 st)
  | Find => match find 10 1 st with inl e => inl e | inr (_, st) => inr st end
  | Rele x => rele 10 x st
  end.

Fixpoint do_calls (l : list call) (st : store) : result store :=
  match l with
  | [] => inr st
  | c :: l => match do_call c st with inl e => inl e | inr st => do_calls l st end
  end.

Definition empty : store := Store ∅ (replicate NHASH None).

(** One thread alone releases its object. *)
Example foo_thread_alone :
  exists st, do_calls (foo_thread 0) empty = inr st /\ fh_at st (HASH 1) = None.
Proof. eexists. split; vm_compute; reflexivity. Qed.

(** Both threads use id 1, so [find] may hold the other thread's object: with both objects
    created first, the first thread to release throws at its second [rele]. *)
Theorem two_threads_throw :
  do_calls [Create 0; Create 1; Find; Rele 0; Rele 0] empty = inl Throws /\
  interleaving (foo_thread 0) (foo_thread 1)
    [Create 0; Create 1; Find; Rele 0; Rele 0; Find; Rele 1; Rele 1].
Proof. split; [vm_compute; reflexivity|]. repeat constructor. Qed.

(** ** Any sequence of calls *)

Inductive op := OCreate (x : nat) (id : Z) | OHold (x : nat) | OFind (id : Z) | ORele (x : nat).

Definition run_op (fuel : nat) (o : op) (st : store) : result store :=
  match o with
  | OCreate x id => inr (create x id st)
  | OHold x => hold x st
  | OFind id => match find fuel id st with inl e => inl e | inr (_, st) => inr st end
  | ORele x => rele fuel x st
  end.

(** The allocator gives a new address; the other calls are made on objects that exist. *)
Definition valid (o : op) (st : store) : Prop :=
  match o with
  | OCreate x _ => objs st !! x = None
  | OHold x | ORele x => is_Some (objs st !! x)
  | OFind _ => True
  end.

(** Tables that [n] calls lead to. *)
Inductive reachable (fuel : nat) : nat -> store -> Prop :=
| reach_0 : reachable fuel 0 empty
| reach_S n st o st' :
    reachable fuel n st -> valid o st -> run_op fuel o st = inr st' -> reachable fuel (S n) st'.

(** Well-formed, with objects that have references linked, and counts and chains of at most [n]. *)
Record typed (n : nat) (st : store) (tbl : nat -> list nat) : Prop := {
  ty_wf : wf st tbl;
  ty_count x f : objs st !! x = Some f -> 0 <= count f <= Z.of_nat n;
  ty_linked x f : objs st !! x = Some f -> 0 < count f -> x ∈ tbl (HASH (id f));
  ty_short i : (length (tbl i) <= n)%nat;
}.

Lemma wf_empty : wf empty (fun _ => []).
Proof.
  split; [reflexivity| |constructor|by intros i x ?%elem_of_nil].
  intros i Hi. change (default None (replicate NHASH (@None nat) !! i) = None).
  by rewrite lookup_replicate_2.
Qed.

(** A change of one count. *)
Lemma typed_set_count n st tbl x f c :
  typed n st tbl -> objs st !! x = Some f -> 0 < count f -> 0 < c <= Z.of_nat n + 1 ->
  typed (S n) (set_obj x (MkFoo c (id f) (next f)) st) tbl.
Proof.
  intros [Hw Hc Hl Hs] Hf Hp Hb. split.
  - apply wf_set_count; [done..|]. left. lia.
  - intros y g. simpl. destruct (decide (x = y)) as [<-|]; [rewrite lookup_insert_eq|rewrite lookup_insert_ne by done].
    + intros [= <-]. simpl. lia.
    + intros Hg. specialize (Hc y g Hg). lia.
  - intros y g. simpl. destruct (decide (x = y)) as [<-|]; [rewrite lookup_insert_eq|rewrite lookup_insert_ne by done; auto].
    intros [= <-] _. by apply (Hl x f Hf Hp).
  - intros i. specialize (Hs i). lia.
Qed.

Lemma typed_create n st tbl x id' :
  typed n st tbl -> objs st !! x = None ->
  typed (S n) (create x id' st) (update tbl (HASH id') (x :: tbl (HASH id'))).
Proof.
  intros [Hw Hc Hl Hs] Hx. split.
  - by apply create_wf.
  - intros y g. simpl. destruct (decide (x = y)) as [<-|];
      [rewrite lookup_insert_eq|rewrite !lookup_insert_ne by done].
    + intros [= <-]. simpl. lia.
    + intros Hg. specialize (Hc y g Hg). lia.
  - intros y g. simpl. unfold update. destruct (decide (x = y)) as [<-|];
      [rewrite lookup_insert_eq|rewrite !lookup_insert_ne by done].
    + intros [= <-] _. simpl. rewrite HASH_size_t, decide_True by done. left.
    + intros Hg Hp. specialize (Hl y g Hg Hp). case_decide as E; [rewrite E in Hl; by right|done].
  - intros i. unfold update. case_decide; simpl; [specialize (Hs (HASH id'))|specialize (Hs i)]; lia.
Qed.

(** The last reference: the other objects keep id and count. *)
Lemma typed_last fuel n st tbl x f :
  typed n st tbl -> objs st !! x = Some f -> count f = 1 -> (n < fuel)%nat ->
  exists st' tbl', rele fuel x st = inr st' /\ typed (S n) st' tbl'.
Proof.
  intros [Hw Hc Hl Hs] Hf H1 Hfu. destruct (list_elem_of_split _ _ (Hl x f Hf ltac:(lia))) as (l1 & l2 & Ht).
  assert (Hz : (length (tbl (HASH (id f))) <= fuel)%nat) by (specialize (Hs (HASH (id f))); lia).
  destruct (rele_finish_frame fuel x f st tbl l1 l2 Hw Hf H1 Ht) as (st' & Hr & Hw' & Hx' & Hother).
  { rewrite Ht, length_app in Hz. simpl in Hz. lia. }
  exists st', (update tbl (HASH (id f)) (l1 ++ l2)).
  split; [unfold rele, rele_begin; by rewrite Hf, H1|]. split; [done|..].
  - intros y g Hg. destruct (decide (y = x)) as [->|Hne].
    + destruct Hx' as (f' & Hf' & E & _). simplify_eq. lia.
    + destruct (Hother y g Hne Hg) as (g0 & Hg0 & _ & <-). specialize (Hc y g0 Hg0). lia.
  - intros y g Hg Hp. destruct (decide (y = x)) as [->|Hne].
    + destruct Hx' as (f' & Hf' & E & _). simplify_eq. lia.
    + destruct (Hother y g Hne Hg) as (g0 & Hg0 & Hi & Hcg). rewrite <- Hi.
      specialize (Hl y g0 Hg0 ltac:(lia)). unfold update. case_decide as E; [|done].
      rewrite E, Ht in Hl. rewrite elem_of_app, elem_of_cons in Hl. rewrite elem_of_app. tauto.
  - intros i. unfold update. case_decide; [|specialize (Hs i); lia].
    specialize (Hs (HASH (id f))). rewrite Ht in Hs. rewrite length_app in *. simpl in Hs. lia.
Qed.

(** What a call does to a well-formed table: it gives a well-formed table, or throws because the
    object has no references left. *)
Definition op_result (n : nat) (o : op) (st : store) (r : result store) : Prop :=
  match r with
  | inr st' => exists tbl', typed (S n) st' tbl'
  | inl e => e = Throws /\
      exists x f, (o = OHold x \/ o = ORele x) /\ objs st !! x = Some f /\ count f = 0
  end.

Lemma run_op_typed fuel n o st tbl :
  typed n st tbl -> valid o st -> (n < fuel)%nat -> Z.of_nat n < SIZE_MAX ->
  op_result n o st (run_op fuel o st).
Proof.
  intros Hty Hv Hf Hn. pose proof Hty as [Hw Hc Hl Hs]. destruct o as [x id'|x|id'|x]; simpl in *.
  - eexists. by apply typed_create.
  - destruct Hv as [f Hx]. specialize (Hc x f Hx). unfold hold. rewrite Hx.
    destruct (Z.eqb_spec (count f) 0) as [E|E]; simpl; [split; [done|eauto 6]|].
    exists tbl. rewrite to_size_t_small by (unfold is_size_t; lia).
    apply typed_set_count; [done|done|lia|lia].
  - pose proof (find_cases fuel id' st tbl Hw) as Hfind. destruct (first_with _ _ _) as [x|] eqn:Ef.
    + apply first_with_elem in Ef as [Hin _]. destruct (wf_obj _ _ Hw _ x Hin) as (f0 & Hf0 & _ & Hpos).
      destruct Hfind as (f & Hx & _ & E & _).
      { specialize (Hs (HASH id')). lia. }
      { intros y g Hg. specialize (Hc y g Hg). lia. }
      rewrite E. simpl. exists tbl. specialize (Hc x f Hx). simplify_eq.
      apply typed_set_count; [done|done|lia|lia].
    + destruct Hfind as [E _].
      { specialize (Hs (HASH id')). lia. }
      { intros y g Hg. specialize (Hc y g Hg). lia. }
      rewrite E. simpl. exists tbl. split; [done|..].
      * intros y g Hg. specialize (Hc y g Hg). lia.
      * done.
      * intros i. specialize (Hs i). lia.
  - destruct Hv as [f Hx]. pose proof (Hc x f Hx) as Hcx.
    destruct (rele_cases fuel x f st tbl Hw Hx) as (Hz & Hm & _).
    { unfold is_size_t. lia. }
    { specialize (Hs (HASH (id f))). lia. }
    destruct (Z.eq_dec (count f) 0) as [E|E]; [rewrite Hz by done; simpl; split; [done|eauto 6]|].
    destruct (Z.eq_dec (count f) 1) as [E1|E1].
    + destruct (typed_last fuel n st tbl x f Hty Hx E1 Hf) as (st' & tbl' & -> & Ht). simpl. eauto.
    + destruct Hm as [-> _]; [lia|]. simpl. exists tbl. apply typed_set_count; [done|done|lia|lia].
Qed.

Lemma reachable_typed fuel n st :
  reachable fuel n st -> (n <= fuel)%nat -> Z.of_nat n <= SIZE_MAX -> exists tbl, typed n st tbl.
Proof.
  induction 1 as [|n st o st' _ IH Hv E]; intros Hf Hn.
  - exists (fun _ => []). split; [apply wf_empty|done|done|done].
  - destruct IH as [tbl Hty]; [lia|lia|].
    pose proof (run_op_typed fuel n o st tbl Hty Hv ltac:(lia) ltac:(lia)) as Hr. by rewrite E in Hr.
Qed.

(** C12: The table of [11/6] stays well-formed under every sequence of [create], [hold], [find] and
    [rele] on existing objects: buckets are finite chains without repetition, an object is in the
    bucket of its id exactly while it has references, no null pointer is followed and every loop
    ends; the only failure is the exception for an object whose references are all gone. *)
Theorem table_well_formed fuel n st o :
  reachable fuel n st -> valid o st -> (n < fuel)%nat -> Z.of_nat n < SIZE_MAX ->
  (exists tbl, typed n st tbl) /\ op_result n o st (run_op fuel o st).
Proof.
  intros Hr Hv Hf Hn. destruct (reachable_typed fuel n st Hr) as [tbl Hty]; [lia|lia|].
  split; [by exists tbl|]. by eapply run_op_typed.
Qed.

Lemma table_well_formed_witness : op_result 1 (ORele 0) (create 0 7 empty) (run_op 5 (ORele 0) (create 0 7 empty)).
Proof.
  refine (proj2 (table_well_formed 5 1 (create 0 7 empty) (ORele 0) _ _ _ _)).
  - eapply (reach_S 5 0 empty (OCreate 0 7)); [apply reach_0|reflexivity|reflexivity].
  - eexists. reflexivity.
  - lia.
  - reflexivity.
Defined.


(** ** A table with two objects of one bucket *)

Definition two : store := create 1 30 (create 0 1 empty).
Definition two_tbl : nat -> list nat := fun i => if decide (i = 1%nat) then [1; 0]%nat else [].

Lemma wf_two : wf two two_tbl.
Proof.
  assert (H1 : wf (create 0 1 empty) (update (fun _ => []) (HASH 1) [0%nat])).
  { apply (create_wf 0 1 empty (fun _ => [])); [apply wf_empty|reflexivity]. }
  assert (H2 : wf two (update (update (fun _ => []) (HASH 1) [0%nat]) (HASH 30) [1; 0]%nat)).
  { apply (create_wf 1 30 _ _ H1). reflexivity. }
  destruct H2 as [Hl Hc Hn Ho]. assert (E : forall i, two_tbl i =
    update (update (fun _ => []) (HASH 1) [0%nat]) (HASH 30) [1; 0]%nat i).
  { intros i. unfold update, two_tbl. change (HASH 30) with 1%nat. change (HASH 1) with 1%nat.
    repeat case_decide; done. }
  split; [done| | |]; intros i; rewrite E; auto.
Qed.

Lemma two_counts x f : objs two !! x = Some f -> count f = 1.
Proof.
  unfold two, create, set_obj. simpl. rewrite !lookup_insert_Some, lookup_empty.
  intros H. decompose [and or] H; by subst.
Qed.

Lemma find_spec_witness :
  exists f, objs two !! 0%nat = Some f /\
    find 3 1 two = inr (Some 0%nat, set_obj 0 (MkFoo 2 (id f) (next f)) two).
Proof.
  pose proof (find_spec 3 1 two two_tbl wf_two) as H.
  destruct H as (f & Hf & Hid & Hfind & _).
  - vm_compute. lia.
  - intros x f Hf. rewrite (two_counts x f Hf). reflexivity.
  - exists f. split; [exact Hf|]. rewrite (two_counts _ _ Hf) in Hfind. exact Hfind.
Defined.

Lemma rele_spec_witness :
  exists st', rele 3 0 two = inr st' /\ wf st' (update two_tbl 1 [1%nat]).
Proof.
  destruct (rele_spec 3 0 (MkFoo 1 1 None) two two_tbl wf_two) as (_ & _ & H).
  - reflexivity.
  - vm_compute. split; discriminate.
  - vm_compute. lia.
  - destruct (H eq_refl [1%nat] [] eq_refl) as (st' & Hr & Hw & _). exists st'. split; [exact Hr|exact Hw].
Defined.

End Hashed.
