(* ===== verification/Ftw.v ===== *)
(** * Walking a directory tree: [4/7_myftw.cpp] and [4/12_myftw_chdir.cpp]

    Both programs count the files below a directory by kind.  The first extends one path name and
    cuts it back, the second changes into every directory and uses bare names.  The file system is
    a tree; a directory may be unreadable (its names cannot be listed) or not searchable (its
    entries cannot be reached), and an entry may be gone by the time it is looked at. *)

From S2P Require Import Prelude Machine Errors Kernel SimKernel.

Definition S_IFMT : Z := 61440.
Definition S_IFDIR : Z := 16384.
Definition S_IFREG : Z := 32768.
Definition S_IFBLK : Z := 24576.
Definition S_IFCHR : Z := 8192.
Definition S_IFIFO : Z := 4096.
Definition S_IFLNK : Z := 40960.
Definition S_IFSOCK : Z := 49152.

Definition S_ISDIR (m : Z) : bool := Z.land m S_IFMT =? S_IFDIR.

Record nfiles := NFiles {
  nreg : Z; ndir : Z; nblk : Z; nchr : Z; nfifo : Z; nslink : Z; nsock : Z
}.

Definition no_files : nfiles := NFiles 0 0 0 0 0 0 0.

Definition plus (a b : nfiles) : nfiles :=
  NFiles (nreg a + nreg b) (ndir a + ndir b) (nblk a + nblk b) (nchr a + nchr b)
         (nfifo a + nfifo b) (nslink a + nslink b) (nsock a + nsock b).

Definition one_dir : nfiles := NFiles 0 1 0 0 0 0 0.

(** [printStat]'s [ntot], which it divides by. *)
Definition ntot (nf : nfiles) : Z :=
  let n := nreg nf + ndir nf + nblk nf + nchr nf + nfifo nf + nslink nf + nsock nf in
  if n =? 0 then 1 else n.

Definition dot : bytes := str ".".
Definition dotdot : bytes := str "..".
Definition slash : bytes := str "/".

(** ** System calls *)

Class DirOps (W : Type) := {
  k_lstat : bytes -> W -> sysres Z * W;                    (* st_mode *)
  k_opendir : bytes -> W -> sysres (Z * list bytes) * W;   (* the stream, and what readdir returns *)
  k_closedir : Z -> W -> sysres unit * W;
  k_chdir : bytes -> W -> sysres unit * W;
}.

Section Walk.
Context {W : Type} `{DirOps W} `{CLib}.

(** The [switch] on the kind of a file that is not a directory. *)
Definition count_file (st_mode : Z) (pathname : bytes) (nf : nfiles) : M W nfiles :=
  let k := Z.land st_mode S_IFMT in
  if k =? S_IFREG then mret (plus nf (NFiles 1 0 0 0 0 0 0))
  else if k =? S_IFBLK then mret (plus nf (NFiles 0 0 1 0 0 0 0))
  else if k =? S_IFCHR then mret (plus nf (NFiles 0 0 0 1 0 0 0))
  else if k =? S_IFIFO then mret (plus nf (NFiles 0 0 0 0 1 0 0))
  else if k =? S_IFLNK then mret (plus nf (NFiles 0 0 0 0 0 1 0))
  else if k =? S_IFSOCK then mret (plus nf (NFiles 0 0 0 0 0 0 1))
  else if k =? S_IFDIR then err_dump (str "S_IFDIR for {}") [pathname]
  else mret nf.

(** *** [4/7]: the path name and the counters are references, so both are returned *)

(** The loop over the directory's entries, calling [self] for each. *)
Fixpoint entries_loop (self : bytes -> nfiles -> M W (bytes * nfiles)) (names : list bytes)
  (pathname : bytes) (nf : nfiles) : M W (bytes * nfiles) :=
  match names with
  | [] => mret (pathname, nf)
  | d_name :: names =>
      if decide (d_name = dot \/ d_name = dotdot) then entries_loop self names pathname nf
      else
        let size := length pathname in
        r ← self (pathname ++ slash ++ d_name) nf;
        entries_loop self names (take size r.1) r.2
  end.

(** [fuel] bounds the depth of the recursion. *)
Fixpoint myftw (fuel : nat) (pathname : bytes) (nf : nfiles) : M W (bytes * nfiles) :=
  match fuel with
  | O => out_of_fuel
  | S fuel =>
      st ← syscall (k_lstat pathname);
      match st with
      | SysErr _ => err_ret (str "call stat for {}") [pathname] ;; mret (pathname, nf)
      | SysOk st_mode =>
          if negb (S_ISDIR st_mode) then nf ← count_file st_mode pathname nf; mret (pathname, nf)
          else
            let nf := plus nf one_dir in
            d ← syscall (k_opendir pathname);
            match d with
            | SysErr _ => err_ret (str "call opendir for {}") [pathname] ;; mret (pathname, nf)
            | SysOk (dp, names) =>
                r ← entries_loop (myftw fuel) names pathname nf;
                c ← syscall_unit (k_closedir dp);
                when (c <? 0) (err_ret (str "call closedir for {}") [r.1]) ;;
                mret r
            end
      end
  end.

(** *** [4/12]: path names by value, the status passed along *)

Fixpoint entries_loop_chdir (self : bytes -> option Z -> nfiles -> M W nfiles)
  (names : list bytes) (pathname : bytes) (nf : nfiles) : M W nfiles :=
  match names with
  | [] => mret nf
  | d_name :: names =>
      if decide (d_name = dot \/ d_name = dotdot) then entries_loop_chdir self names pathname nf
      else
        st ← syscall (k_lstat d_name);
        match st with
        | SysErr _ =>
            err_ret (str "call stat for {}") [pathname] ;; entries_loop_chdir self names pathname nf
        | SysOk st_mode =>
            if S_ISDIR st_mode then
              c ← syscall_unit (k_chdir d_name);
              if c <? 0 then
                err_ret (str "call chdir for {}") [d_name] ;;
                entries_loop_chdir self names pathname nf
              else
                nf ← self dot (Some st_mode) nf;
                c ← syscall_unit (k_chdir dotdot);
                when (c <? 0) (err_ret (str "call chdir for {}") [d_name]) ;;
                entries_loop_chdir self names pathname nf
            else
              nf ← self d_name (Some st_mode) nf;
              entries_loop_chdir self names pathname nf
        end
  end.

Fixpoint myftw_chdir (fuel : nat) (pathname : bytes) (st : option Z) (nf : nfiles) : M W nfiles :=
  match fuel with
  | O => out_of_fuel
  | S fuel =>
      st ← match st with
           | Some m => mret (Some m)
           | None =>
               r ← syscall (k_lstat pathname);
               match r with
               | SysErr _ => err_ret (str "call stat for {}") [pathname] ;; mret None
               | SysOk m => mret (Some m)
               end
           end;
      match st with
      | None => mret nf
      | Some st_mode =>
          if negb (S_ISDIR st_mode) then count_file st_mode pathname nf
          else
            let nf := plus nf one_dir in
            d ← syscall (k_opendir pathname);
            match d with
            | SysErr _ => err_ret (str "call opendir for {}") [pathname] ;; mret nf
            | SysOk (dp, names) =>
                nf ← entries_loop_chdir (myftw_chdir fuel) names pathname nf;
                c ← syscall_unit (k_closedir dp);
                when (c <? 0) (err_ret (str "call closedir for {}") [pathname]) ;;
                mret nf
            end
      end
  end.

(** The two [main] functions, up to the printing.  The call of [path_alloc] at the start of that of
    [4/7] is left out: its result is overwritten, and it fails only when memory is exhausted. *)
Definition ftw_main (fuel : nat) (argv1 : bytes) : M W nfiles :=
  r ← myftw fuel argv1 no_files; mret r.2.

Definition ftw_chdir_main (fuel : nat) (argv1 : bytes) : M W nfiles :=
  c ← syscall_unit (k_chdir argv1);
  if c <? 0 then err_sys (str "call chdir for {}") [argv1]
  else myftw_chdir fuel argv1 None no_files.

End Walk.

(** ** The tree *)

Inductive node :=
| Gone
| Leaf (mode : Z)
| Dir (mode : Z) (readable searchable : bool) (entries : list (bytes * node)).

Fixpoint child (es : list (bytes * node)) (name : bytes) : option node :=
  match es with
  | [] => None
  | (n, t) :: es => if decide (n = name) then Some t else child es name
  end.

Definition st_mode (t : node) : option Z :=
  match t with Gone => None | Leaf m => Some m | Dir m _ _ _ => Some m end.

(** The status of a name in a directory. *)
Definition reach (searchable : bool) (es : list (bytes * node)) (name : bytes) : option node :=
  if searchable then child es name else None.

(** A name that can stand in a directory. *)
Definition is_name (n : bytes) : bool :=
  match n with [] => false | _ => forallb (fun c => negb (c =? 47)) n end &&
  negb (bool_decide (n = dot)) && negb (bool_decide (n = dotdot)).

Fixpoint tree_ok (t : node) : bool :=
  match t with
  | Gone => true
  | Leaf m => negb (S_ISDIR m)
  | Dir m _ _ es =>
      S_ISDIR m && bool_decide (NoDup (es.*1)) &&
      (fix all es := match es with
                     | [] => true
                     | (n, t) :: es => is_name n && tree_ok t && all es
                     end) es
  end.

Fixpoint depth (t : node) : nat :=
  match t with
  | Gone | Leaf _ => 0%nat
  | Dir _ _ _ es =>
      S ((fix deepest es := match es with
                            | [] => 0%nat
                            | (_, t) :: es => Nat.max (depth t) (deepest es)
                            end) es)
  end.

(** ** What has to be counted *)

Definition tally_leaf (m : Z) : nfiles :=
  let k := Z.land m S_IFMT in
  let hit x := if k =? x then 1 else 0 in
  NFiles (hit S_IFREG) 0 (hit S_IFBLK) (hit S_IFCHR) (hit S_IFIFO) (hit S_IFLNK) (hit S_IFSOCK).

(** [need_search]: a directory that cannot be searched does not count at all. *)
Fixpoint tally (need_search : bool) (t : node) : nfiles :=
  match t with
  | Gone => no_files
  | Leaf m => tally_leaf m
  | Dir _ r x es =>
      if need_search && negb x then no_files
      else plus one_dir
             (if r && x then
                (fix sum es := match es with
                               | [] => no_files
                               | (_, t) :: es => plus (tally need_search t) (sum es)
                               end) es
              else no_files)
  end.

Fixpoint tally_entries (need_search : bool) (es : list (bytes * node)) : nfiles :=
  match es with
  | [] => no_files
  | (_, t) :: es => plus (tally need_search t) (tally_entries need_search es)
  end.

(** Every directory can be searched. *)
Fixpoint all_searchable (t : node) : bool :=
  match t with
  | Gone | Leaf _ => true
  | Dir _ _ x es => x && (fix all es := match es with
                                        | [] => true
                                        | (_, t) :: es => all_searchable t && all es
                                        end) es
  end.

(** ** Path resolution *)

(** The parts of a path between slashes. *)
Fixpoint components (p : bytes) : list bytes :=
  match p with
  | [] => [[]]
  | c :: p =>
      if c =? 47 then [] :: components p
      else match components p with
           | [] => [[c]]
           | w :: ws => (c :: w) :: ws
           end
  end.

(** A position is a directory with the directories above it. *)
Fixpoint walk (cs : list bytes) (st : list node) : option (list node) :=
  match cs with
  | [] => Some st
  | c :: cs =>
      if decide (c = [] \/ c = dot) then walk cs st
      else if decide (c = dotdot) then walk cs (match st with _ :: (u :: up) => u :: up | _ => st end)
      else match st with
           | Dir _ _ x es :: _ =>
               match reach x es c with Some t => walk cs (t :: st) | None => None end
           | _ => None
           end
  end.

Record fsview := View { root : node; here : list node }.

Definition resolve (v : fsview) (path : bytes) : option (list node) :=
  match path with
  | [] => None
  | c :: _ => walk (components path) (if c =? 47 then [root v] else here v)
  end.

(** The file a path names. *)
Definition at_ (v : fsview) (path : bytes) : option node :=
  match resolve v path with Some (t :: _) => Some t | _ => None end.

(** The position after [chdir path]. *)
Definition cd (v : fsview) (path : bytes) : option (list node) :=
  match resolve v path with
  | Some (Dir m r true es :: up) => Some (Dir m r true es :: up)
  | _ => None
  end.

Definition is_dots (n : bytes) : bool := bool_decide (n = dot \/ n = dotdot).

(** What POSIX documents of the four calls, when descriptors do not run out. *)
Class DirSpec (W : Type) `{DirOps W} := {
  view : W -> fsview;
  lstat_law path w r w' : k_lstat path w = (r, w') ->
    view w' = view w /\
    match at_ (view w) path ≫= st_mode with
    | Some m => r = SysOk m
    | None => exists e, r = SysErr e
    end;
  opendir_law path w r w' : k_opendir path w = (r, w') ->
    view w' = view w /\
    match at_ (view w) path with
    | Some (Dir _ true _ es) =>
        exists dp names, r = SysOk (dp, names) /\
          filter (fun n => is_dots n = false) names = filter (fun n => is_dots n = false) (es.*1)
    | _ => exists e, r = SysErr e
    end;
  closedir_law dp w r w' : k_closedir dp w = (r, w') -> view w' = view w;
  chdir_law path w r w' : k_chdir path w = (r, w') ->
    match cd (view w) path with
    | Some st => r = SysOk tt /\ view w' = View (root (view w)) st
    | None => (exists e, r = SysErr e) /\ view w' = view w
    end;
}.

(** *** Facts *)

Lemma components_nonempty p : components p <> [].
Proof. destruct p as [|c p]; simpl; [done|]. destruct (c =? 47); [done|]. by destruct (components p). Qed.

Lemma components_slash p q : components (p ++ 47 :: q) = components p ++ components q.
Proof.
  induction p as [|c p IH]; [done|]. simpl. rewrite IH.
  destruct (c =? 47); [done|]. pose proof (components_nonempty p). by destruct (components p).
Qed.

Lemma components_name n : forallb (fun c => negb (c =? 47)) n = true -> components n = [n].
Proof.
  induction n as [|c n IH]; [done|]. simpl. rewrite andb_true_iff, negb_true_iff.
  intros [-> Hn]. by rewrite IH.
Qed.

Lemma walk_app a b st : walk (a ++ b) st = walk a st ≫= walk b.
Proof.
  revert st. induction a as [|c a IH]; intros st; [done|]. simpl.
  case_decide; [apply IH|]. case_decide; [apply IH|].
  destruct st as [|[| |m r x es] st]; try done. destruct (reach x es c); [apply IH|done].
Qed.

Lemma is_name_inv n :
  is_name n = true ->
  n <> [] /\ n <> dot /\ n <> dotdot /\ forallb (fun c => negb (c =? 47)) n = true.
Proof.
  unfold is_name. rewrite !andb_true_iff, !negb_true_iff, !bool_decide_eq_false.
  intros [[Hn ?] ?]. by destruct n.
Qed.

(** A name in the directory a path names. *)
Lemma at_child v path m r x es n :
  at_ v path = Some (Dir m r x es) -> is_name n = true ->
  at_ v (path ++ slash ++ n) = reach x es n.
Proof.
  intros Hp (Hn1 & Hn2 & Hn3 & Hn4)%is_name_inv. unfold at_ in *.
  destruct path as [|c path]; [done|]. unfold resolve in *.
  change ((c :: path) ++ slash ++ n) with (c :: path ++ 47 :: n) in *. cbv iota beta.
  change (c :: path ++ 47 :: n) with ((c :: path) ++ 47 :: n).
  rewrite components_slash, walk_app, (components_name n) by done.
  destruct (walk (components (c :: path)) _) as [[|t st]|]; simplify_eq/=.
  rewrite decide_False by tauto. rewrite decide_False by done. by destruct (reach x es n).
Qed.

(** A name in the current directory. *)
Lemma resolve_name v m r x es up n :
  here v = Dir m r x es :: up -> is_name n = true ->
  resolve v n = (fun t => t :: here v) <$> reach x es n.
Proof.
  intros Hh (Hn1 & Hn2 & Hn3 & Hn4)%is_name_inv. destruct n as [|c n]; [done|]. unfold resolve.
  pose proof Hn4 as Hc. simpl in Hc. rewrite andb_true_iff, negb_true_iff in Hc.
  destruct Hc as [-> _]. rewrite components_name, Hh by done. simpl.
  rewrite decide_False by tauto. rewrite decide_False by done. by destruct (reach x es _).
Qed.

Lemma plus_assoc a b c : plus a (plus b c) = plus (plus a b) c.
Proof. unfold plus. simpl. f_equal; lia. Qed.

Lemma plus_0_r a : plus a no_files = a.
Proof. destruct a. unfold plus. simpl. f_equal; lia. Qed.

Lemma plus_0_l a : plus no_files a = a.
Proof. by destruct a. Qed.

Lemma child_elem es n t : NoDup (es.*1) -> (n, t) ∈ es -> child es n = Some t.
Proof.
  induction es as [|[n' t'] es IH]; [by intros _ ?%elem_of_nil|].
  simpl. intros [Hn Hd]%NoDup_cons [E|Hin]%elem_of_cons.
  - simplify_eq. by rewrite decide_True.
  - rewrite decide_False; [by apply IH|]. intros ->. apply Hn.
    apply list_elem_of_fmap. by exists (n, t).
Qed.

Lemma tally_dir ns m r x es :
  tally ns (Dir m r x es) =
  if ns && negb x then no_files
  else plus one_dir (if r && x then tally_entries ns es else no_files).
Proof.
  simpl. destruct (ns && negb x); [done|]. destruct (r && x); [|done]. f_equal.
  induction es as [|[n t] es IH]; [done|]. simpl. by rewrite IH.
Qed.

Lemma depth_child m r x es n t : (n, t) ∈ es -> (depth t < depth (Dir m r x es))%nat.
Proof.
  intros Hin. simpl. induction es as [|[n' t'] es IH]; [by apply elem_of_nil in Hin|].
  apply elem_of_cons in Hin as [E|Hin]; [simplify_eq; lia|]. specialize (IH Hin). lia.
Qed.

Lemma tree_ok_dir m r x es :
  tree_ok (Dir m r x es) = true ->
  S_ISDIR m = true /\ NoDup (es.*1) /\
  forall n t, (n, t) ∈ es -> is_name n = true /\ tree_ok t = true.
Proof.
  simpl. rewrite !andb_true_iff, bool_decide_eq_true. intros [[Hm Hd] Hall].
  split; [done|]. split; [done|]. clear Hm Hd. intros n t Hin.
  induction es as [|[n' t'] es IH]; [by apply elem_of_nil in Hin|].
  rewrite !andb_true_iff in Hall. destruct Hall as [[H1 H2] H3].
  apply elem_of_cons in Hin as [E|Hin]; [by simplify_eq|]. by apply IH.
Qed.

Definition tally_opt (ns : bool) (o : option node) : nfiles :=
  match o with Some t => tally ns t | None => no_files end.

Lemma is_dots_name n : is_name n = true -> is_dots n = false.
Proof. intros (_ & H1 & H2 & _)%is_name_inv. unfold is_dots. rewrite bool_decide_eq_false. tauto. Qed.

Lemma filter_names (es : list (bytes * node)) :
  (forall n t, (n, t) ∈ es -> is_name n = true) ->
  filter (fun n => is_dots n = false) (es.*1) = es.*1.
Proof.
  induction es as [|[n t] es IH]; intros Hn; [done|]. rewrite fmap_cons, filter_cons. simpl.
  rewrite decide_True by (apply is_dots_name, (Hn n t); constructor).
  f_equal. apply IH. intros n' t' Hin. apply (Hn n' t'). by constructor.
Qed.

(** The names of an entry list, in the order the loop meets them. *)
Lemma filter_dots_cons n names l :
  filter (fun n => is_dots n = false) (n :: names) = l ->
  ((n = dot \/ n = dotdot) /\ filter (fun n => is_dots n = false) names = l) \/
  (~ (n = dot \/ n = dotdot) /\ exists l', l = n :: l' /\
     filter (fun n => is_dots n = false) names = l').
Proof.
  rewrite filter_cons. unfold is_dots at 1. intros <-.
  case_decide as Hd; rewrite bool_decide_eq_false in Hd.
  - right. eauto.
  - left. split; [|done]. destruct (decide (n = dot \/ n = dotdot)); tauto.
Qed.

Section WalkFacts.
Context {W : Type} `{DS : DirSpec W} `{CLib}.
Implicit Types p : proc W.

(** The counters go up by [k], and the file system looks as before. *)
Definition adds (p : proc W) (nf k : nfiles) (nf' : nfiles) (p' : proc W) : Prop :=
  nf' = plus nf k /\ view (kern p') = view (kern p).

Lemma count_file_spec m pathname nf p :
  S_ISDIR m = false -> returns (count_file m pathname nf) (adds p nf (tally_leaf m)) p.
Proof.
  intros Hm. unfold count_file, tally_leaf, S_ISDIR in *. cbv zeta.
  apply Z.eqb_neq in Hm.
  repeat (case_cmp; [mstep; split; [|done];
    repeat match goal with E : Z.land _ _ = _ |- _ => rewrite E end; done|]).
  case_cmp; [done|]. mstep. split; [|done].
  repeat match goal with H : Z.land _ _ <> _ |- _ => apply Z.eqb_neq in H; rewrite H; clear H end.
  by rewrite plus_0_r.
Qed.

(** One level of [4/7]. *)
Lemma entries_loop_spec self v path m r x es :
  at_ v path = Some (Dir m r x es) ->
  (forall n t nf p, (n, t) ∈ es -> view (kern p) = v ->
     returns (self (path ++ slash ++ n) nf)
       (fun q p' => q.1 = path ++ slash ++ n /\
          adds p nf (tally_opt false (reach x es n)) q.2 p') p) ->
  forall names es' nf p,
  es' ⊆ es -> NoDup (es.*1) -> (forall n t, (n, t) ∈ es -> is_name n = true) ->
  filter (fun n => is_dots n = false) names = es'.*1 -> view (kern p) = v ->
  returns (entries_loop self names path nf)
    (fun q p' => q.1 = path /\
       adds p nf (if x then tally_entries false es' else no_files) q.2 p') p.
Proof.
  intros Hat Hself. induction names as [|n names IH]; intros es' nf p Hsub Hnd Hok Hf Hv; simpl.
  - destruct es'; [|done]. mstep. split; [done|]. split; [|done]. simpl. destruct x; by rewrite plus_0_r.
  - apply filter_dots_cons in Hf as [[Hd Hf]|[Hd (l & E & Hf)]].
    + rewrite decide_True by done. by apply IH.
    + rewrite decide_False by done. destruct es' as [|[n' t] es']; [done|].
      injection E as E1 E2. subst n' l.
      assert (Hin : (n, t) ∈ es) by (apply Hsub; constructor).
      mstep. eapply returns_mono; [by apply (Hself n t)|].
      intros [path' nf'] p' (E & Hnf & Hview). simpl in E, Hnf. subst path'.
      cbn [fst snd]. rewrite take_app_length.
      eapply returns_mono; [apply (IH es'); try done|].
      * intros y Hy. apply Hsub. by constructor.
      * by rewrite Hview.
      * intros [q nf''] p'' (Eq & Hnf' & Hview'). split; [done|]. split; [|congruence].
        rewrite Hnf', Hnf. unfold reach. destruct x; [|simpl; by rewrite plus_0_r].
        rewrite (child_elem _ _ t) by done. simpl. by rewrite plus_assoc.
Qed.

(** [myftw]: a path that does not resolve counts nothing. *)
Lemma myftw_counts fuel : forall path nf p,
  match at_ (view (kern p)) path with
  | Some t => tree_ok t = true /\ (depth t < fuel)%nat
  | None => (0 < fuel)%nat
  end ->
  returns (myftw fuel path nf)
    (fun q p' => q.1 = path /\ adds p nf (tally_opt false (at_ (view (kern p)) path)) q.2 p') p.
Proof.
  induction fuel as [|fuel IH]; intros path nf p Hok.
  { destruct (at_ _ path); [|lia]. destruct Hok; lia. }
  simpl. mstep. apply returns_syscall. intros r w' Hs. apply lstat_law in Hs as [Hv Hr].
  destruct (at_ (view (kern p)) path) as [t|] eqn:Hat; simpl in Hr.
  2:{ destruct Hr as [e ->]. mstep. mstep. mstep. split; [done|]. split; [by rewrite plus_0_r|done]. }
  destruct Hok as [Hok Hd]. destruct t as [|md|md rd x es]; simpl in Hr.
  - destruct Hr as [e ->]. mstep. mstep. mstep. split; [done|]. split; [by rewrite plus_0_r|done].
  - subst r. simpl in Hok. apply negb_true_iff in Hok. rewrite Hok. simpl. mstep.
    eapply returns_mono; [by apply count_file_spec|]. intros nf' p' [-> Hv']. mstep.
    split; [done|]. split; [done|]. rewrite Hv'. done.
  - subst r. pose proof (tree_ok_dir _ _ _ _ Hok) as (Hm & Hnd & Hall). rewrite Hm. simpl negb.
    cbv iota. mstep. apply returns_syscall. intros r w'' Hs. apply opendir_law in Hs as [Hv' Hr]. simpl in Hv', Hr. rewrite Hv, Hat in Hr.
    unfold adds. cbn [tally_opt]. rewrite (tally_dir false). simpl andb. cbv iota.
    destruct rd.
    2:{ destruct Hr as [e ->]. mstep. mstep. mstep. split; [done|]. simpl. rewrite plus_0_r.
        split; [done|]. congruence. }
    destruct Hr as (dp & names & -> & Hnames).
    rewrite filter_names in Hnames by (intros; by eapply Hall). mstep.
    eapply returns_mono.
    { eapply (entries_loop_spec _ (view (kern p)) path md true x es Hat) with (es' := es);
        try done; [|by intros; eapply Hall|simpl; congruence].
      intros n t nf' p' Hin Hvp. destruct (Hall n t Hin) as [Hname Hokt].
      assert (Hr : at_ (view (kern p')) (path ++ slash ++ n) = reach x es n)
        by (rewrite Hvp; by apply (at_child _ _ md true)).
      rewrite <- Hr. apply IH. rewrite Hr. unfold reach. destruct x.
      - rewrite (child_elem _ _ t) by done. split; [done|].
        pose proof (depth_child md true true es n t Hin). lia.
      - pose proof (depth_child md true false es n t Hin). lia. }
    intros [q nf'] p' (Eq & Hnf & Hview). simpl in Eq, Hnf, Hview. subst q.
    assert (Hfin : forall p'', view (kern p'') = view (kern p') ->
      (path, nf').1 = path /\ (path, nf').2 =
        plus nf (plus one_dir (if true && x then tally_entries false es else no_files)) /\
        view (kern p'') = view (kern p)).
    { intros p'' Hp''. simpl. split; [done|]. split; [|congruence]. rewrite Hnf, plus_assoc. done. }
    mstep. apply returns_syscall_unit; [intros w1 Hs|intros e w1 Hs]; apply closedir_law in Hs.
    + mstep. simpl. mstep. mstep. by apply Hfin.
    + mstep. simpl. mstep. mstep. by apply Hfin.
Qed.

(** One level of [4/12]: the current directory is the one whose names are listed. *)
Lemma entries_loop_chdir_spec self v m r es up pathname :
  here v = Dir m r true es :: up ->
  (forall n t nf p, (n, t) ∈ es -> is_Some (st_mode t) ->
     match t with
     | Dir _ _ x _ => x = true /\ view (kern p) = View (root v) (t :: here v)
     | _ => view (kern p) = v
     end ->
     returns (self (match t with Dir _ _ _ _ => dot | _ => n end) (st_mode t) nf)
       (adds p nf (tally true t)) p) ->
  NoDup (es.*1) -> (forall n t, (n, t) ∈ es -> is_name n = true /\ tree_ok t = true) ->
  forall names es' nf p,
  es' ⊆ es -> filter (fun n => is_dots n = false) names = es'.*1 -> view (kern p) = v ->
  returns (entries_loop_chdir self names pathname nf) (adds p nf (tally_entries true es')) p.
Proof.
  intros Hh Hself Hnd Hok.
  induction names as [|n names IH]; intros es' nf p Hsub Hf Hv; simpl.
  { destruct es'; [|done]. mstep. split; [by rewrite plus_0_r|done]. }
  apply filter_dots_cons in Hf as [[Hd Hf]|[Hd (l & E & Hf)]].
  { rewrite decide_True by done. by apply IH. }
  rewrite decide_False by done. destruct es' as [|[n' t] es']; [done|].
  injection E as E1 E2. subst n' l.
  assert (Hin : (n, t) ∈ es) by (apply Hsub; constructor). destruct (Hok n t Hin) as [Hname Hokt].
  assert (Hrest : forall nf' p', nf' = plus nf (tally true t) -> view (kern p') = v ->
    returns (entries_loop_chdir self names pathname nf')
      (adds p nf (tally_entries true ((n, t) :: es'))) p').
  { intros nf' p' -> Hv'. eapply returns_mono; [apply (IH es'); try done|].
    - intros y Hy. apply Hsub. by constructor.
    - intros nf'' p'' [-> Hv'']. split; [simpl; by rewrite plus_assoc|congruence]. }
  assert (Hres : resolve v n = Some (t :: here v)).
  { rewrite (resolve_name v m r true es up) by done. unfold reach. by rewrite (child_elem _ _ t). }
  assert (Hat : at_ v n = Some t) by (unfold at_; by rewrite Hres).
  mstep. apply returns_syscall. intros res w' Hs. apply lstat_law in Hs as [Hw Hr].
  rewrite Hv, Hat in Hr. simpl in Hr. rewrite Hv in Hw.
  destruct t as [|md|md rd x es2]; simpl in Hr.
  - destruct Hr as [e ->]. mstep. mstep. apply Hrest; [by rewrite plus_0_r|done].
  - subst res. simpl in Hokt. apply negb_true_iff in Hokt. rewrite Hokt. mstep.
    eapply returns_mono; [by apply (Hself n (Leaf md))|].
    intros nf' p' [-> Hv']. apply Hrest; [done|]. by rewrite Hv'.
  - subst res. pose proof (tree_ok_dir _ _ _ _ Hokt) as (Hm & _). rewrite Hm.
    assert (Hcd : cd v n = if x then Some (Dir md rd x es2 :: here v) else None)
      by (unfold cd; rewrite Hres; by destruct x).
    mstep. apply returns_syscall_unit; [intros w1 Hs|intros e w1 Hs]; apply chdir_law in Hs;
      simpl in Hs; rewrite Hw, Hcd in Hs; destruct x; destruct Hs as [He Hv1];
      try done; try (by destruct He).
    + simpl. mstep. eapply returns_mono; [by apply (Hself n (Dir md rd true es2))|].
      intros nf' p' [-> Hv']. simpl in Hv'. rewrite Hv1 in Hv'.
      assert (Hup : cd (view (kern p')) dotdot = Some (here v)) by (rewrite Hv'; simpl; by rewrite Hh).
      mstep. apply returns_syscall_unit; [intros w2 Hs|intros e w2 Hs]; apply chdir_law in Hs;
        rewrite Hup in Hs; destruct Hs as [He' Hv2]; [|done].
      simpl. mstep. mstep. apply Hrest; [done|]. simpl. rewrite Hv2, Hv'. by destruct v.
    + simpl. mstep. mstep. apply Hrest; [by rewrite plus_0_r|]. done.
Qed.

Lemma myftw_chdir_counts fuel : forall path st t nf p,
  at_ (view (kern p)) path = Some t -> tree_ok t = true -> (depth t < fuel)%nat ->
  (st = None \/ st = st_mode t) -> is_Some (st_mode t) ->
  match t with
  | Dir _ _ x _ => x = true /\ head (here (view (kern p))) = Some t
  | _ => True
  end ->
  returns (myftw_chdir fuel path st nf) (adds p nf (tally true t)) p.
Proof.
  induction fuel as [|fuel IH]; intros path st t nf p Hat Hok Hd Hst [m Hm] Ht; [lia|]. simpl.
  apply returns_bind. apply (returns_mono _ (fun st' p' => st' = Some m /\ view (kern p') = view (kern p))).
  { destruct Hst as [->| ->]; [|rewrite Hm; by mstep].
    mstep. apply returns_syscall. intros r w' Hs. apply lstat_law in Hs as [Hv Hr].
    rewrite Hat in Hr. simpl in Hr. rewrite Hm in Hr. subst r. by mstep. }
  intros st' p1 [-> Hv1]. destruct t as [|md|md rd x es]; [done| |]; injection Hm as ->.
  - simpl in Hok. apply negb_true_iff in Hok. rewrite Hok. simpl.
    eapply returns_mono; [by apply count_file_spec|]. intros nf' p' [-> Hv']. split; congruence.
  - destruct Ht as [-> Hhead]. pose proof (tree_ok_dir _ _ _ _ Hok) as (Hmd & Hnd & Hall).
    rewrite Hmd. simpl negb. cbv iota. mstep. apply returns_syscall. intros r w' Hs.
    apply opendir_law in Hs as [Hv2 Hr]. rewrite Hv1, Hat in Hr. unfold adds.
    rewrite (tally_dir true). cbn [andb negb].
    destruct rd.
    2:{ destruct Hr as [e ->]. mstep. mstep. mstep. rewrite plus_0_r. split; [done|]. simpl. congruence. }
    destruct Hr as (dp & names & -> & Hnames).
    rewrite filter_names in Hnames by (intros; by eapply Hall). mstep.
    destruct (here (view (kern p))) as [|t0 up] eqn:Hh; [done|].
    injection Hhead as ->. eapply returns_mono.
    { eapply (entries_loop_chdir_spec _ (view (kern p)) m true es up path Hh) with (es' := es);
        try done; [|simpl; congruence].
      intros n t nf' p' Hin Hsome Hview. destruct (Hall n t Hin) as [Hname Hokt].
      pose proof (depth_child m true true es n t Hin) as Hdc.
      apply IH; try done; [| |by right|].
      - destruct t as [|md'|md' r' x' es'].
        + by destruct Hsome.
        + rewrite Hview. unfold at_. rewrite (resolve_name _ m true true es up) by done.
          unfold reach. by rewrite (child_elem _ _ (Leaf md')).
        + destruct Hview as [-> ->]. done.
      - lia.
      - destruct t; try done. destruct Hview as [-> ->]. done. }
    intros nf' p' [-> Hview]. simpl in Hview.
    mstep. apply returns_syscall_unit; [intros w1 Hs|intros e w1 Hs]; apply closedir_law in Hs.
    + mstep. simpl. mstep. mstep. split; [by rewrite plus_assoc|]. simpl. congruence.
    + mstep. simpl. mstep. mstep. split; [by rewrite plus_assoc|]. simpl. congruence.
Qed.

End WalkFacts.

Lemma tally_searchable t : all_searchable t = true -> tally true t = tally false t.
Proof.
  revert t. fix IH 1. intros [|m|m r x es]; [done|done|]. intros Hs. simpl in Hs.
  apply andb_true_iff in Hs as [-> Hs]. rewrite !tally_dir. cbn [andb negb]. f_equal.
  destruct (r && true); [|done].
  induction es as [|[n t] es IHes]; [done|]. apply andb_true_iff in Hs as [Ht Hs]. simpl.
  rewrite (IH t Ht). f_equal. by apply IHes.
Qed.

(** Number of files that can be reached. *)
Fixpoint reachable_files (t : node) : Z :=
  match t with
  | Gone => 0
  | Leaf _ => 1
  | Dir _ r x es =>
      1 + if r && x then
            (fix sum es := match es with
                           | [] => 0
                           | (_, t) :: es => reachable_files t + sum es
                           end) es
          else 0
  end.

(** The kinds POSIX knows. *)
Fixpoint known_kinds (t : node) : bool :=
  match t with
  | Gone => true
  | Leaf m => existsb (Z.eqb (Z.land m S_IFMT))
                [S_IFREG; S_IFBLK; S_IFCHR; S_IFIFO; S_IFLNK; S_IFSOCK]
  | Dir _ _ _ es => (fix all es := match es with
                                   | [] => true
                                   | (_, t) :: es => known_kinds t && all es
                                   end) es
  end.

Definition total (nf : nfiles) : Z :=
  nreg nf + ndir nf + nblk nf + nchr nf + nfifo nf + nslink nf + nsock nf.

Lemma total_plus a b : total (plus a b) = total a + total b.
Proof. unfold total, plus. simpl. lia. Qed.

Lemma total_leaf m :
  existsb (Z.eqb (Z.land m S_IFMT))
    [S_IFREG; S_IFBLK; S_IFCHR; S_IFIFO; S_IFLNK; S_IFSOCK] = true -> total (tally_leaf m) = 1.
Proof.
  intros H. apply existsb_exists in H as (k & Hk & E). apply Z.eqb_eq in E.
  unfold tally_leaf. cbv zeta. rewrite E. simpl in Hk.
  repeat destruct Hk as [<-|Hk]; done.
Qed.

Lemma total_tally t : known_kinds t = true -> total (tally false t) = reachable_files t.
Proof.
  revert t. fix IH 1. intros [|m|m r x es]; [done|by apply total_leaf|]. intros Hk.
  rewrite tally_dir. cbn [andb]. rewrite total_plus. simpl. destruct (r && x); [|done]. f_equal. simpl in Hk.
  induction es as [|[n t] es IHes]; [done|]. apply andb_true_iff in Hk as [Ht Hk]. simpl.
  rewrite total_plus, (IH t Ht). f_equal. by apply IHes.
Qed.

(** ** Theorems *)

Section Main.
Context {W : Type} `{DS : DirSpec W} `{CLib}.
Implicit Types p : proc W.

(** C17: [myftw] of [4/7] ends and counts every file below the path once, by kind: the counters
    grow by the tally of the tree, their sum by the number of reachable files; the path name it
    extends on the way is restored, and the file system is left as it was. A directory that cannot
    be listed counts as a directory only. *)
Theorem myftw_correct path t nf p fuel :
  at_ (view (kern p)) path = Some t -> tree_ok t = true -> known_kinds t = true ->
  (depth t < fuel)%nat ->
  returns (myftw fuel path nf)
    (fun q p' => q = (path, plus nf (tally false t)) /\
       total q.2 = total nf + reachable_files t /\ view (kern p') = view (kern p)) p.
Proof.
  intros Hat Hok Hk Hd. eapply returns_mono; [apply myftw_counts; by rewrite Hat|].
  rewrite Hat. intros [path' nf'] p' (E & E' & Hv). simpl in *. subst.
  by rewrite total_plus, total_tally.
Qed.

(** C20: the two programs agree: from an absolute path to a directory tree whose directories can
    all be searched, the version that changes directory counts exactly what the version with path
    names counts. *)
Theorem myftw_versions_agree path t p fuel :
  head path = Some 47 -> at_ (view (kern p)) path = Some t -> tree_ok t = true ->
  all_searchable t = true -> (exists m r x es, t = Dir m r x es) -> (depth t < fuel)%nat ->
  returns (ftw_main fuel path) (fun nf _ => nf = tally false t) p /\
  returns (ftw_chdir_main fuel path) (fun nf _ => nf = tally false t) p.
Proof.
  intros Hhead Hat Hok Hs (m & r & x & es & ->) Hd. split.
  - unfold ftw_main. mstep. eapply returns_mono; [apply myftw_counts; by rewrite Hat|].
    rewrite Hat. intros [path' nf'] p' (E & [-> _]). mstep. by rewrite plus_0_l.
  - assert (x = true) as -> by (simpl in Hs; by apply andb_true_iff in Hs as [? _]).
    destruct path as [|c path]; [done|]. injection Hhead as ->.
    unfold at_ in Hat. destruct (resolve _ _) as [[|t up]|] eqn:Hres; try done. injection Hat as ->.
    assert (Hcd : cd (view (kern p)) (47 :: path) = Some (Dir m r true es :: up))
      by (unfold cd; by rewrite Hres).
    unfold ftw_chdir_main. mstep.
    apply returns_syscall_unit; [intros w1 E|intros e w1 E]; apply chdir_law in E;
      rewrite Hcd in E; destruct E as [E Hv]; [|done]. simpl.
    eapply returns_mono.
    { apply (myftw_chdir_counts _ _ _ (Dir m r true es)); [|done|done|by left|by eexists|].
      - simpl. rewrite Hv. unfold at_. change (resolve (View _ _) (47 :: path))
          with (resolve (view (kern p)) (47 :: path)). by rewrite Hres.
      - simpl. by rewrite Hv. }
    intros nf p' [-> _]. by rewrite plus_0_l, tally_searchable.
Qed.

End Main.

(** ** A concrete file system *)

#[export] Instance view_ops : DirOps fsview := {|
  k_lstat path v :=
    (match at_ v path ≫= st_mode with Some m => SysOk m | None => SysErr 2 end, v);
  k_opendir path v :=
    (match at_ v path with
     | Some (Dir _ true _ es) => SysOk (3, dot :: dotdot :: es.*1)
     | _ => SysErr 13
     end, v);
  k_closedir _ v := (SysOk tt, v);
  k_chdir path v :=
    match cd v path with
    | Some st => (SysOk tt, View (root v) st)
    | None => (SysErr 13, v)
    end;
|}.

#[export] Instance view_spec : DirSpec fsview.
Proof.
  refine {| view := fun v => v |}.
  - intros path w r w' [= <- <-]. split; [done|]. destruct (at_ w path ≫= st_mode); eauto.
  - intros path w r w' [= <- <-]. split; [done|].
    destruct (at_ w path) as [[| |m [] x es]|]; eauto.
  - by intros dp w r w' [= <- <-].
  - intros path w r w' E. simpl in E. destruct (cd w path); injection E as <- <-; eauto.
Defined.

Definition reg (n : string) : bytes * node := (str n, Leaf 33188).

(** The root directory with a home that holds files, a link, a locked and an empty directory. *)
Definition home : node :=
  Dir 16877 true true
    [reg "a"; (str "link", Leaf 41471); (str "gone", Gone);
     (str "sub", Dir 16877 true true [reg "b"; (str "pipe", Leaf 4516); reg "c"]);
     (str "locked", Dir 16384 false true [reg "hidden"])].
Definition fs0 : fsview :=
  let r := Dir 16877 true true [(str "home", home)] in View r [r].

Lemma myftw_correct_witness :
  let p0 := Proc 0 true [] fs0 in
  returns (myftw 5 (str "/home") no_files)
    (fun q p' => q = (str "/home", NFiles 3 3 0 0 1 1 0) /\ total q.2 = 8 /\
       view (kern p') = fs0) p0.
Proof.
  exact (myftw_correct (str "/home") home no_files (Proc 0 true [] fs0) 5 eq_refl eq_refl eq_refl
           (le_S _ _ (le_S _ _ (le_n 3)))).
Defined.

Lemma myftw_versions_agree_witness :
  let p0 := Proc 0 true [] fs0 in
  returns (ftw_main 5 (str "/home")) (fun nf _ => nf = NFiles 3 3 0 0 1 1 0) p0 /\
  returns (ftw_chdir_main 5 (str "/home")) (fun nf _ => nf = NFiles 3 3 0 0 1 1 0) p0.
Proof.
  apply (myftw_versions_agree (W := fsview) (str "/home") home (Proc 0 true [] fs0) 5);
    [reflexivity|reflexivity|reflexivity|reflexivity| |].
  - by eexists _, _, _, _.
  - simpl. lia.
Defined.

(** A directory that cannot be searched is counted by one version only. *)
Definition fs1 : fsview :=
  let r := Dir 16877 true true [(str "d", Dir 16804 true false [reg "x"])] in View r [r].

Example versions_differ :
  (ftw_main 5 (str "/") (Proc 0 true [] fs1)).1 = Ret (NFiles 0 2 0 0 0 0 0) /\
  (ftw_chdir_main 5 (str "/") (Proc 0 true [] fs1)).1 = Ret (NFiles 0 1 0 0 0 0 0).
Proof. by vm_compute. Qed.

(** With a relative path the second version looks for the path again after it has changed into
    it, and counts nothing. *)
Example relative_path_counts_nothing :
  (ftw_main 5 (str "home") (Proc 0 true [] fs0)).1 = Ret (NFiles 3 3 0 0 1 1 0) /\
  (ftw_chdir_main 5 (str "home") (Proc 0 true [] fs0)).1 = Ret no_files.
Proof. by vm_compute. Qed.
