(* ===== verification/JobQueue.v ===== *)
(** * A queue of jobs under a reader-writer lock: [11/9_usage_rwlock.cpp]

    [Ops]: the operations of [deque_rwlock], which run with the lock held.  [Threads]: [main] and
    its workers, interleaved at every lock operation and every access to the queue. *)

From S2P Require Import Prelude.

Module Ops.

(** A [std::shared_ptr<job>]: the address it compares by, and the job's [id]. *)
Record job := Job { addr : nat; id : Z }.

#[export] Instance job_eq_dec : EqDecision job.
Proof. solve_decision. Defined.

Definition push_front (j : job) (q : list job) : list job := j :: q.
Definition push_back (j : job) (q : list job) : list job := q ++ [j].

(** [std::find] on the pointers and [erase] of what it found. *)
Fixpoint remove (j : job) (q : list job) : list job :=
  match q with
  | [] => []
  | x :: q => if (addr x =? addr j)%nat then q else x :: remove j q
  end.

Fixpoint find (i : Z) (q : list job) : option job :=
  match q with
  | [] => None
  | x :: q => if id x =? i then Some x else find i q
  end.

Definition size (q : list job) : Z := zlen q.

(** Every pointer to a job is a pointer to the same job. *)
Definition same_jobs (q : list job) : Prop :=
  forall x y, x ∈ q -> y ∈ q -> addr x = addr y -> x = y.

Lemma remove_split j q :
  j ∈ q -> same_jobs q -> exists q1 q2, q = q1 ++ j :: q2 /\ j ∉ q1 /\ remove j q = q1 ++ q2.
Proof.
  induction q as [|x q IH]; intros Hin Hs; [by apply elem_of_nil in Hin|]. simpl.
  destruct (Nat.eqb_spec (addr x) (addr j)) as [E|E].
  - assert (x = j) as -> by (apply Hs; [constructor|done|done]).
    exists [], q. split; [done|]. split; [|done]. apply not_elem_of_nil.
  - apply elem_of_cons in Hin as [->|Hin]; [done|].
    destruct (IH Hin) as (q1 & q2 & -> & Hn & ->).
    { intros a b Ha Hb. apply Hs; by constructor. }
    exists (x :: q1), q2. split; [done|]. split; [|done].
    rewrite not_elem_of_cons. split; [congruence|done].
Qed.

Lemma remove_absent j q : (forall x, x ∈ q -> addr x <> addr j) -> remove j q = q.
Proof.
  induction q as [|x q IH]; intros Hn; [done|]. simpl.
  rewrite (proj2 (Nat.eqb_neq _ _)) by (apply Hn; constructor). f_equal. apply IH.
  intros y Hy. apply Hn. by constructor.
Qed.

(** The operations of the queue: [remove] takes out the first occurrence of the job and
    nothing else, and does nothing for a job that is not queued; [find] returns the first job
    with the id, or null exactly when there is none; [size] follows. *)
Theorem queue_ops_spec j i q :
  same_jobs q ->
  (j ∈ q -> exists q1 q2, q = q1 ++ j :: q2 /\ j ∉ q1 /\ remove j q = q1 ++ q2 /\
     size (remove j q) = size q - 1) /\
  ((forall x, x ∈ q -> addr x <> addr j) -> remove j q = q) /\
  size (push_back j q) = size q + 1 /\ size (push_front j q) = size q + 1 /\
  match find i q with
  | Some x => exists q1 q2, q = q1 ++ x :: q2 /\ id x = i /\ (forall y, y ∈ q1 -> id y <> i)
  | None => forall y, y ∈ q -> id y <> i
  end.
Proof.
  intros Hs. split; [|split; [apply remove_absent|split; [|split]]].
  - intros Hin. destruct (remove_split j q Hin Hs) as (q1 & q2 & E & Hn & Hr).
    exists q1, q2. split; [done|]. split; [done|]. split; [done|]. rewrite Hr, E. unfold size. zlia.
  - unfold size, push_back. zlia.
  - unfold size, push_front. zlia.
  - clear Hs. induction q as [|x q IH]; simpl; [by intros y ?%elem_of_nil|].
    destruct (Z.eqb_spec (id x) i) as [E|E].
    + exists [], q. split; [done|]. split; [done|]. by intros y ?%elem_of_nil.
    + destruct (find i q) as [y|].
      * destruct IH as (q1 & q2 & -> & Hy & Hn). exists (x :: q1), q2. split; [done|].
        split; [done|]. intros z [->|Hz]%elem_of_cons; auto.
      * intros y [->|Hy]%elem_of_cons; auto.
Qed.

Lemma queue_ops_spec_witness :
  let q := [Job 0 7; Job 1 8; Job 2 7] in
  remove (Job 1 8) q = [Job 0 7; Job 2 7] /\ find 7 q = Some (Job 0 7) /\ find 9 q = None.
Proof.
  assert (Hs : same_jobs [Job 0 7; Job 1 8; Job 2 7]).
  { intros x y Hx Hy. rewrite !elem_of_cons, elem_of_nil in Hx, Hy.
    destruct Hx as [->|[->|[->|[]]]], Hy as [->|[->|[->|[]]]]; done. }
  split; [|split]; [|reflexivity|reflexivity].
  destruct (queue_ops_spec (Job 1 8) 7 _ Hs) as [H _].
  destruct H as (q1 & q2 & E & _ & -> & _); [set_solver|].
  destruct q1 as [|a [|b [|c [|d q1]]]]; by simplify_eq/=.
Defined.

End Ops.

Module Threads.
Import Ops.

(** [worker]: before the lock of [push_back], before the push, before the unlock; the same for
    [remove]; after it. *)
Inductive worker := WLock | WPush | WPushed | WSleep | WRemove | WRemoved | WDone.

(** [main]: the first [size] and [find] with their locks, the joins, the second [size]. *)
Inductive main :=
| MLock1 | MSize1 | MUnlock1
| MLock2 | MFind | MUnlock2
| MJoin
| MLock3 | MSize2 | MUnlock3
| MDone.

#[export] Instance worker_eq_dec : EqDecision worker.
Proof. solve_decision. Defined.

(** The queue, the lock (the writer, whether [main] reads), the threads, what [main] saw. *)
Record state := State {
  job_queue : list job;
  writer : option nat;
  reading : bool;
  workers : list worker;
  the_main : main;
  sizes : list Z;
  found : option (option job);
}.

Section Program.
(** [pthread_self] of each worker. *)
Context (tid : nat -> Z).

Definition my_job (i : nat) : job := Job i (tid i).

Definition go (i : nat) (k : worker) (q : list job) (w : option nat) (s : state) : state :=
  State q w (reading s) (<[i := k]> (workers s)) (the_main s) (sizes s) (found s).

Definition go_main (k : main) (r : bool) (s : state) : state :=
  State (job_queue s) (writer s) r (workers s) k (sizes s) (found s).

Definition free (s : state) : Prop := writer s = None /\ reading s = false.

Inductive step (s : state) : state -> Prop :=
| w_lock i : workers s !! i = Some WLock -> free s ->
    step s (go i WPush (job_queue s) (Some i) s)
| w_push i : workers s !! i = Some WPush ->
    step s (go i WPushed (push_back (my_job i) (job_queue s)) (writer s) s)
| w_unlock i : workers s !! i = Some WPushed -> step s (go i WSleep (job_queue s) None s)
| w_lock2 i : workers s !! i = Some WSleep -> free s ->
    step s (go i WRemove (job_queue s) (Some i) s)
| w_remove i : workers s !! i = Some WRemove ->
    step s (go i WRemoved (remove (my_job i) (job_queue s)) (writer s) s)
| w_unlock2 i : workers s !! i = Some WRemoved -> step s (go i WDone (job_queue s) None s)
| m_lock1 : the_main s = MLock1 -> writer s = None -> step s (go_main MSize1 true s)
| m_size1 : the_main s = MSize1 ->
    step s (State (job_queue s) (writer s) (reading s) (workers s) MUnlock1
              (sizes s ++ [size (job_queue s)]) (found s))
| m_unlock1 : the_main s = MUnlock1 -> step s (go_main MLock2 false s)
| m_lock2 : the_main s = MLock2 -> writer s = None -> step s (go_main MFind true s)
| m_find : the_main s = MFind ->
    step s (State (job_queue s) (writer s) (reading s) (workers s) MUnlock2 (sizes s)
              (Some (find (tid 0) (job_queue s))))
| m_unlock2 : the_main s = MUnlock2 -> step s (go_main MJoin false s)
| m_join : the_main s = MJoin -> Forall (eq WDone) (workers s) -> step s (go_main MLock3 false s)
| m_lock3 : the_main s = MLock3 -> writer s = None -> step s (go_main MSize2 true s)
| m_size2 : the_main s = MSize2 ->
    step s (State (job_queue s) (writer s) (reading s) (workers s) MUnlock3
              (sizes s ++ [size (job_queue s)]) (found s))
| m_unlock3 : the_main s = MUnlock3 -> step s (go_main MDone false s).

Definition initial (n : nat) : state := State [] None false (replicate n WLock) MLock1 [] None.

Definition reachable (n : nat) (s : state) : Prop := rtc step (initial n) s.

(** ** Invariant *)

Definition holds (k : worker) : bool :=
  match k with WPush | WPushed | WRemove | WRemoved => true | _ => false end.

Definition queued (k : worker) : bool :=
  match k with WPushed | WSleep | WRemove => true | _ => false end.

Definition reads (k : main) : bool :=
  match k with
  | MSize1 | MUnlock1 | MFind | MUnlock2 | MSize2 | MUnlock3 => true
  | _ => false
  end.

(** After the joins. *)
Definition joined (k : main) : bool :=
  match k with MLock3 | MSize2 | MUnlock3 | MDone => true | _ => false end.

Definition seen_ok (k : main) (l : list Z) : Prop :=
  match k with
  | MUnlock3 | MDone => exists x, l = [x; 0]
  | MLock1 | MSize1 => l = []
  | _ => exists x, l = [x]
  end.

Record inv (n : nat) (s : state) : Prop := {
  inv_len : length (workers s) = n;
  inv_writer i : writer s = Some i <-> exists k, workers s !! i = Some k /\ holds k = true;
  inv_reading : reading s = reads (the_main s);
  inv_excl : writer s <> None -> reading s = false;
  inv_nodup : NoDup (job_queue s);
  inv_queue j : j ∈ job_queue s <->
    exists i k, j = my_job i /\ workers s !! i = Some k /\ queued k = true;
  inv_joined : joined (the_main s) = true -> Forall (eq WDone) (workers s);
  inv_sizes : seen_ok (the_main s) (sizes s);
  inv_found j : found s = Some (Some j) -> id j = tid 0;
}.

Lemma jobs_inv_initial n : inv n (initial n).
Proof.
  split; simpl; try done.
  - apply length_replicate.
  - intros i. split; [done|]. intros (k & [-> _]%lookup_replicate & Hk). done.
  - constructor.
  - intros j. split; [by intros ?%elem_of_nil|]. intros (i & k & _ & [-> _]%lookup_replicate & Hk). done.
Qed.

Lemma queue_same_jobs n s : inv n s -> same_jobs (job_queue s).
Proof.
  intros Hi x y Hx Hy E.
  apply (inv_queue _ _ Hi) in Hx as (i & k & -> & _), Hy as (j & k' & -> & _).
  simpl in E. by subst.
Qed.

(** The lock of a worker that moves from [k0] to [k] at index [i]. *)
Lemma go_writer n s i k0 k w :
  inv n s -> workers s !! i = Some k0 -> writer s = None \/ writer s = Some i ->
  (w = if holds k then Some i else None) ->
  forall j, w = Some j <-> exists k', <[i := k]> (workers s) !! j = Some k' /\ holds k' = true.
Proof.
  intros Hi Hk0 Hw -> j. destruct (decide (i = j)) as [<-|Hne].
  - rewrite list_lookup_insert_eq by (by eapply lookup_lt_Some). split.
    + destruct (holds k) eqn:Hh; [|done]. intros _. eauto.
    + intros (k' & [= <-] & ->). done.
  - rewrite list_lookup_insert_ne by done. split; [by destruct (holds k); intros [=]|].
    intros Hj. apply (inv_writer _ _ Hi) in Hj. destruct Hw; congruence.
Qed.

Lemma go_joined n s i k0 k :
  inv n s -> workers s !! i = Some k0 -> k0 <> WDone ->
  joined (the_main s) = true -> Forall (eq WDone) (<[i := k]> (workers s)).
Proof.
  intros Hi Hk Hd Hj. pose proof (inv_joined _ _ Hi Hj) as Hf. rewrite Forall_lookup in Hf.
  by specialize (Hf _ _ Hk).
Qed.

(** The queue when worker [i] moves without touching it. *)
Lemma go_queue_same n s i k0 k :
  inv n s -> workers s !! i = Some k0 -> queued k = queued k0 ->
  forall j, j ∈ job_queue s <->
    exists i' k', j = my_job i' /\ <[i := k]> (workers s) !! i' = Some k' /\ queued k' = true.
Proof.
  intros Hi Hk0 Hq j. rewrite (inv_queue _ _ Hi). split; intros (i' & k' & -> & Hl & Hk').
  - exists i'. destruct (decide (i = i')) as [<-|].
    + exists k. rewrite list_lookup_insert_eq by (by eapply lookup_lt_Some).
      split; [done|]. split; [done|]. congruence.
    + exists k'. by rewrite list_lookup_insert_ne.
  - exists i'. destruct (decide (i = i')) as [<-|].
    + rewrite list_lookup_insert_eq in Hl by (by eapply lookup_lt_Some). exists k0.
      split; [done|]. split; [done|]. congruence.
    + rewrite list_lookup_insert_ne in Hl by done. by exists k'.
Qed.

(** A worker's move that leaves the queue alone. *)
Lemma go_inv n s i k0 k w :
  inv n s -> workers s !! i = Some k0 -> queued k = queued k0 -> k0 <> WDone ->
  (holds k0 = true \/ free s) -> w = (if holds k then Some i else None) ->
  inv n (go i k (job_queue s) w s).
Proof.
  intros Hi Hk0 Hq Hd Hl Hw.
  assert (Hwr : writer s = None \/ writer s = Some i).
  { destruct Hl as [Hh|[Hf _]]; [right; apply (inv_writer _ _ Hi); eauto|by left]. }
  split; simpl; try apply Hi.
  - rewrite length_insert. apply Hi.
  - by eapply go_writer.
  - intros Hne. destruct Hl as [Hh|[_ Hf]]; [|done].
    apply (inv_excl _ _ Hi). rewrite (proj2 (inv_writer _ _ Hi i)); eauto.
  - by eapply go_queue_same.
  - by eapply go_joined.
Qed.

(** A worker inside its critical section changes the queue. *)
Lemma go_queue_inv n s i k0 k q :
  inv n s -> workers s !! i = Some k0 -> holds k0 = true -> holds k = true -> NoDup q ->
  (forall j, j ∈ q <-> (j = my_job i /\ queued k = true) \/ (j ∈ job_queue s /\ j <> my_job i)) ->
  inv n (go i k q (writer s) s).
Proof.
  intros Hi Hk0 Hh Hh' Hnd Hq.
  assert (Hw : writer s = Some i) by (apply (inv_writer _ _ Hi); eauto).
  split; simpl; try apply Hi; try done.
  - rewrite length_insert. apply Hi.
  - rewrite Hw. eapply go_writer; [done|done|by right|by rewrite Hh'].
  - intros j. rewrite Hq. split.
    + intros [[-> Hk]|[Hj Hne]].
      * exists i, k. rewrite list_lookup_insert_eq by (by eapply lookup_lt_Some). done.
      * apply (inv_queue _ _ Hi) in Hj as (i' & k' & -> & Hl & Hk'). exists i', k'.
        rewrite list_lookup_insert_ne by congruence. done.
    + intros (i' & k' & -> & Hl & Hk'). destruct (decide (i = i')) as [<-|Hne].
      * rewrite list_lookup_insert_eq in Hl by (by eapply lookup_lt_Some). simplify_eq. by left.
      * rewrite list_lookup_insert_ne in Hl by done. right.
        split; [apply (inv_queue _ _ Hi); eauto|]. intros [=]. done.
  - eapply go_joined; [done|done|]. by intros ->.
Qed.

Lemma push_inv n s i :
  inv n s -> workers s !! i = Some WPush ->
  inv n (go i WPushed (push_back (my_job i) (job_queue s)) (writer s) s).
Proof.
  intros Hi Hk. assert (Hn : my_job i ∉ job_queue s).
  { intros (i' & k & [=] & Hl & Hq)%(inv_queue _ _ Hi). subst. by simplify_eq. }
  eapply go_queue_inv; try done.
  - unfold push_back. apply NoDup_app. split; [apply Hi|]. split; [|apply NoDup_singleton].
    intros j Hj ->%list_elem_of_singleton. done.
  - intros j. unfold push_back. rewrite elem_of_app, list_elem_of_singleton. split.
    + intros [Hj| ->]; [right; split; [done|by intros ->]|by left].
    + intros [[-> _]|[Hj _]]; auto.
Qed.

Lemma remove_inv n s i :
  inv n s -> workers s !! i = Some WRemove ->
  inv n (go i WRemoved (remove (my_job i) (job_queue s)) (writer s) s).
Proof.
  intros Hi Hk. assert (Hin : my_job i ∈ job_queue s) by (apply (inv_queue _ _ Hi); by eexists _, _).
  destruct (remove_split _ _ Hin (queue_same_jobs _ _ Hi)) as (q1 & q2 & E & Hn & Hr).
  pose proof (inv_nodup _ _ Hi) as Hnd. rewrite E in Hnd.
  apply NoDup_app in Hnd as (H1 & H2 & H3). apply NoDup_cons in H3 as [H3 H4].
  eapply go_queue_inv; try done; rewrite Hr.
  - apply NoDup_app. split; [done|]. split; [|done]. intros x Hx Hx2. apply (H2 x Hx). by constructor.
  - intros j. rewrite E, !elem_of_app, elem_of_cons. split.
    + intros Hj. right. split; [tauto|]. intros ->. tauto.
    + intros [[_ [=]]|[Hj Hne]]. tauto.
Qed.

(** A move of [main] that touches neither the queue nor the workers. *)
Lemma main_inv n s k r l f :
  inv n s -> r = reads k -> (r = true -> writer s = None) ->
  (joined k = true -> Forall (eq WDone) (workers s)) -> seen_ok k l ->
  (forall j, f = Some (Some j) -> id j = tid 0) ->
  inv n (State (job_queue s) (writer s) r (workers s) k l f).
Proof.
  intros Hi -> Hw Hj Hs Hf. split; simpl; try apply Hi; try done.
  intros Hne. destruct (reads k); [|done]. by rewrite Hw in Hne.
Qed.

(** With every worker done the queue is empty. *)
Lemma done_empty n s : inv n s -> Forall (eq WDone) (workers s) -> job_queue s = [].
Proof.
  intros Hi Hd. destruct (job_queue s) as [|j q] eqn:E; [done|].
  assert (Hj : j ∈ job_queue s) by (rewrite E; constructor).
  apply (inv_queue _ _ Hi) in Hj as (i & k & _ & Hl & Hk). rewrite Forall_lookup in Hd.
  by rewrite <- (Hd _ _ Hl) in Hk.
Qed.

Lemma find_id i q j : find i q = Some j -> id j = i.
Proof.
  induction q as [|x q IH]; simpl; [done|]. destruct (Z.eqb_spec (id x) i); [|done]. by intros [= <-].
Qed.

Lemma reader_excludes n s : inv n s -> reads (the_main s) = true -> writer s = None.
Proof.
  intros Hi Hr. destruct (writer s) eqn:E; [|done].
  rewrite <- (inv_reading _ _ Hi), (inv_excl _ _ Hi) in Hr by (by rewrite E). done.
Qed.

Lemma jobs_inv_step n s s' : inv n s -> step s s' -> inv n s'.
Proof.
  intros Hi Hs. pose proof (inv_sizes _ _ Hi) as Hsz. pose proof (inv_joined _ _ Hi) as Hjo.
  pose proof (inv_found _ _ Hi) as Hfo. pose proof (reader_excludes _ _ Hi) as Hre.
  inversion Hs as [i Hk Hf|i Hk|i Hk|i Hk Hf|i Hk|i Hk|Hm Hw|Hm|Hm|Hm Hw|Hm|Hm|Hm Hd|Hm Hw|Hm|Hm];
    subst; try (rewrite Hm in Hsz, Hjo, Hre; simpl in Hsz, Hjo, Hre);
    try (by apply push_inv); try (by apply remove_inv);
    try (eapply go_inv; (done || (by left) || (by right)));
    try (apply main_inv; try done; try (by apply Hfo); try (by intros; apply Hre); try (by intros; apply Hjo)).
  - rewrite (inv_reading _ _ Hi), Hm. done.
  - subst. rewrite Hsz. by eexists.
  - rewrite (inv_reading _ _ Hi), Hm. done.
  - intros j [= Hj]. by eapply find_id.
  - rewrite (inv_reading _ _ Hi), Hm. done.
  - destruct Hsz as [x ->]. exists x. rewrite (done_empty _ _ Hi) by (by apply Hjo). done.
Qed.

Lemma jobs_inv_reachable n s : reachable n s -> inv n s.
Proof.
  intros Hr. assert (forall s0, inv n s0 -> rtc step s0 s -> inv n s) as H.
  { intros s0 Hi Hs. induction Hs; [done|]. eauto using jobs_inv_step. }
  eapply H, Hr. apply jobs_inv_initial.
Qed.

(** ** Theorems *)

(** C16: no races and no lost jobs: in every reachable state at most one thread is inside a
    section that changes the queue, and then [main] is not reading; the queue holds exactly the
    jobs of the workers between their [push_back] and their [remove], each once; the job [main]
    finds is thread 0's; and when [main] ends, the last size it saw is zero. *)
Theorem jobs_safe n s :
  reachable n s ->
  (forall i j k k', workers s !! i = Some k -> workers s !! j = Some k' ->
     holds k = true -> holds k' = true -> i = j /\ reads (the_main s) = false) /\
  NoDup (job_queue s) /\
  (forall j, j ∈ job_queue s <->
     exists i k, j = my_job i /\ workers s !! i = Some k /\ queued k = true) /\
  (forall j, found s = Some (Some j) -> id j = tid 0) /\
  (the_main s = MDone -> job_queue s = [] /\ exists x, sizes s = [x; 0]).
Proof.
  intros Hr. pose proof (jobs_inv_reachable _ _ Hr) as Hi. split; [|split; [|split; [|split]]]; try apply Hi.
  - intros i j k k' Hk Hk' Hh Hh'.
    assert (E : writer s = Some i) by (apply (inv_writer _ _ Hi); eauto).
    assert (E' : writer s = Some j) by (apply (inv_writer _ _ Hi); eauto).
    split; [congruence|]. rewrite <- (inv_reading _ _ Hi). apply (inv_excl _ _ Hi). by rewrite E.
  - intros Hm. pose proof (inv_sizes _ _ Hi) as Hs. rewrite Hm in Hs. split; [|done].
    apply (done_empty _ _ Hi), (inv_joined _ _ Hi). by rewrite Hm.
Qed.

(** Steps a thread has left. *)
Definition left_w (k : worker) : nat :=
  match k with
  | WLock => 6 | WPush => 5 | WPushed => 4 | WSleep => 3 | WRemove => 2 | WRemoved => 1 | WDone => 0
  end.

Definition left_m (k : main) : nat :=
  match k with
  | MLock1 => 10 | MSize1 => 9 | MUnlock1 => 8 | MLock2 => 7 | MFind => 6 | MUnlock2 => 5
  | MJoin => 4 | MLock3 => 3 | MSize2 => 2 | MUnlock3 => 1 | MDone => 0
  end.

Definition measure (s : state) : nat := sum_list (left_w <$> workers s) + left_m (the_main s).

Lemma sum_list_insert (l : list worker) i k0 k :
  l !! i = Some k0 ->
  (sum_list (left_w <$> <[i := k]> l) + left_w k0 = sum_list (left_w <$> l) + left_w k)%nat.
Proof.
  revert i. induction l as [|x l IH]; intros [|i] Hl; simplify_eq/=; [lia|].
  specialize (IH _ Hl). lia.
Qed.

Lemma jobs_step_measure s s' : step s s' -> (measure s' < measure s)%nat.
Proof.
  intros Hs. unfold measure.
  inversion Hs as [i Hk Hf|i Hk|i Hk|i Hk Hf|i Hk|i Hk|Hm Hw|Hm|Hm|Hm Hw|Hm|Hm|Hm Hd|Hm Hw|Hm|Hm];
    subst; simpl; try (rewrite Hm; simpl; lia);
    match goal with |- context [<[i := ?k]> _] =>
      pose proof (sum_list_insert _ _ _ k Hk) as E; simpl in E; lia end.
Qed.

(** A worker that is not done can move when the lock is free or its own. *)
Lemma worker_moves n s i k :
  inv n s -> workers s !! i = Some k -> k <> WDone -> (holds k = true \/ free s) ->
  exists s', step s s'.
Proof.
  intros Hi Hk Hd Hl.
  destruct k; simpl in Hl; [| | | | | |done]; eexists;
    [apply (w_lock _ i)|apply (w_push _ i)|apply (w_unlock _ i)|apply (w_lock2 _ i)
    |apply (w_remove _ i)|apply (w_unlock2 _ i)]; try exact Hk; by destruct Hl.
Qed.

(** the program ends: every step brings it closer to its end, and a state where no thread can
    move is the one where all workers and [main] are done - the lock never deadlocks. *)
Theorem jobs_terminate n s :
  reachable n s ->
  (forall s', step s s' -> (measure s' < measure s)%nat) /\
  ((forall s', ~ step s s') -> Forall (eq WDone) (workers s) /\ the_main s = MDone).
Proof.
  intros Hr. pose proof (jobs_inv_reachable _ _ Hr) as Hi. split; [intros; by apply jobs_step_measure|].
  intros Hstuck.
  assert (Hmove : forall s', step s s' -> False) by (intros; by eapply Hstuck).
  assert (Hnw : writer s = None).
  { destruct (writer s) as [i|] eqn:E; [|done]. apply (inv_writer _ _ Hi) in E as (k & Hk & Hh).
    destruct (worker_moves n s i k) as [s' Hs]; eauto; [by intros ->|by apply Hmove in Hs]. }
  assert (Hnr : reading s = false).
  { rewrite (inv_reading _ _ Hi). destruct (the_main s) eqn:E; try done; exfalso; eapply Hmove.
    - by apply m_size1.
    - by apply m_unlock1.
    - by apply m_find.
    - by apply m_unlock2.
    - by apply m_size2.
    - by apply m_unlock3. }
  assert (Hd : Forall (eq WDone) (workers s)).
  { apply Forall_lookup. intros i k Hk. destruct (decide (k = WDone)) as [->|Hne]; [done|].
    destruct (worker_moves n s i k) as [s' Hs]; eauto; [by right|by apply Hmove in Hs]. }
  split; [done|]. destruct (the_main s) eqn:E; try done; exfalso; eapply Hmove;
    [by apply m_lock1|by apply m_size1|by apply m_unlock1|by apply m_lock2|by apply m_find
    |by apply m_unlock2|by apply m_join|by apply m_lock3|by apply m_size2|by apply m_unlock3].
Qed.

End Program.

(** The program with its four workers. *)
Definition NUM_THREADS : nat := 4.

(** One worker's run, and a look of [main] while the job is queued. *)
Lemma jobs_safe_witness :
  exists s, reachable Z.of_nat NUM_THREADS s /\ job_queue s = [Job 2 2] /\ NoDup (job_queue s).
Proof.
  eexists. assert (Hr : reachable Z.of_nat NUM_THREADS
    (go 2 WSleep [Job 2 2] None
      (go 2 WPushed [Job 2 2] (Some 2%nat) (go 2 WPush [] (Some 2%nat) (initial NUM_THREADS))))).
  { eapply rtc_l; [by apply (w_lock _ _ 2)|]. eapply rtc_l; [by apply (w_push _ _ 2)|].
    eapply rtc_l; [by apply (w_unlock _ _ 2)|]. apply rtc_refl. }
  split; [exact Hr|]. split; [reflexivity|]. by apply (jobs_safe Z.of_nat NUM_THREADS).
Defined.

Lemma jobs_terminate_witness :
  ~ (forall s', ~ step Z.of_nat (initial NUM_THREADS) s').
Proof.
  intros Hstuck. destruct (jobs_terminate Z.of_nat NUM_THREADS (initial NUM_THREADS)) as [_ H].
  - apply rtc_refl.
  - by destruct (H Hstuck).
Defined.

End Threads.
