(* ===== verification/MmapCopy.v ===== *)
(** * Copying through mapped memory: [14/10_copy_file_with_mmap.cpp] *)

From S2P Require Import Prelude FileModel Machine Errors Kernel SimKernel.

Definition COPYINCR : Z := 1073741824.
Definition FILE_MODE : Z := 420.
Definition O_RDONLY : Z := 0.
Definition O_RDWR_CREAT_TRUNC : Z := 578.
Definition PAGE_SIZE : Z := 4096.

(** Files with shared mappings.  [memcpy] between two mappings is a call here because it changes
    the mapped file. *)
Class MmapOps (W : Type) := {
  k_fstat : Z -> W -> sysres Z * W;                    (* st_size *)
  k_mmap : Z -> bool -> Z -> Z -> W -> sysres Z * W;   (* length, writable, fd, offset: address *)
  k_munmap : Z -> Z -> W -> sysres unit * W;
  k_memcpy : Z -> Z -> Z -> W -> W;                    (* dst, src, count *)
}.

Section Copy.
Context {W : Type} `{FileOps W} `{MmapOps W} `{CLib}.

Definition memcpy (dst src n : Z) : M W unit := fun p =>
  (Ret tt, Proc (errno p) (log_to_stderr p) (console p) (k_memcpy dst src n (kern p))).

(** One window at [fsz]. *)
Definition copy_window (fdin fdout fsz copysz : Z) : M W unit :=
  src ← syscall (k_mmap copysz false fdin fsz);
  match src with
  | SysErr _ => err_sys (str "call mmap for inputfile") []
  | SysOk src =>
      dst ← syscall (k_mmap copysz true fdout fsz);
      match dst with
      | SysErr _ => err_sys (str "call mmap for outputfile") []
      | SysOk dst =>
          memcpy dst src copysz ;;
          syscall_unit (k_munmap src copysz) ;;
          syscall_unit (k_munmap dst copysz) ;;
          mret tt
      end
  end.

Fixpoint window_loop (fuel : nat) (fdin fdout st_size fsz : Z) : M W unit :=
  if fsz <? st_size then
    match fuel with
    | O => out_of_fuel
    | S fuel =>
        let copysz := if COPYINCR <? st_size - fsz then COPYINCR else st_size - fsz in
        copy_window fdin fdout fsz copysz ;;
        window_loop fuel fdin fdout st_size (fsz + copysz)
    end
  else mret tt.

(** [main] from the two descriptors on. *)
Definition copy_mapped (fuel : nat) (fdin fdout : Z) : M W Z :=
  st ← syscall (k_fstat fdin);
  match st with
  | SysErr _ => err_sys (str "call fstat") []
  | SysOk st_size =>
      r ← ftruncate fdout st_size;
      if r <? 0 then err_sys (str "call ftruncate") []
      else window_loop fuel fdin fdout st_size 0 ;; mret 0
  end.

Definition main (fuel : nat) (argv : list bytes) : M W Z :=
  match argv with
  | [_; from; to] =>
      fdin ← open from O_RDONLY 0;
      if fdin <? 0 then err_sys (str "call open ") [from]
      else
        fdout ← open to O_RDWR_CREAT_TRUNC FILE_MODE;
        if fdout <? 0 then err_sys (str "call open ") [to]
        else copy_mapped fuel fdin fdout
  | argv0 :: _ => err_quit (str "Usage {} <fromfile> <tofile>") [argv0]
  | [] => sys_abort
  end.

End Copy.

(** What POSIX documents: contents of files and what the mappings show.  A mapping begins at a
    page, is not empty, and a store through a shared writable one changes the file. *)
Class MmapSpec (W : Type) `{FO : FileOps W} `{MO : MmapOps W} := {
  content : W -> Z -> bytes;
  mapping : W -> Z -> option (Z * Z * Z);              (* address: fd, offset, length *)
  fstat_law fd w r w' : k_fstat fd w = (r, w') -> w' = w /\
    (forall n, r = SysOk n -> n = zlen (content w fd));
  ftruncate_law fd n w r w' : k_ftruncate fd n w = (r, w') -> 0 <= n ->
    (r = SysOk tt -> content w' fd = truncate (Z.to_nat n) (content w fd)) /\
    (forall fd', fd' <> fd -> content w' fd' = content w fd');
  mmap_law n wr fd off w r w' : k_mmap n wr fd off w = (r, w') ->
    (forall fd', content w' fd' = content w fd') /\
    match r with
    | SysOk a => 0 < n /\ off mod PAGE_SIZE = 0 /\ mapping w a = None /\
                 mapping w' a = Some (fd, off, n) /\
                 (forall b, b <> a -> mapping w' b = mapping w b)
    | SysErr _ => True
    end;
  munmap_law a n w r w' : k_munmap a n w = (r, w') ->
    forall fd', content w' fd' = content w fd';
  memcpy_law dst src n w fd1 off1 fd2 off2 :
    mapping w src = Some (fd1, off1, n) -> mapping w dst = Some (fd2, off2, n) -> fd1 <> fd2 ->
    0 <= off1 -> 0 <= off2 -> off1 + n <= zlen (content w fd1) -> off2 + n <= zlen (content w fd2) ->
    (forall fd', fd' <> fd2 -> content (k_memcpy dst src n w) fd' = content w fd') /\
    content (k_memcpy dst src n w) fd2 =
      pwrite (Z.to_nat off2) (take (Z.to_nat n) (drop (Z.to_nat off1) (content w fd1))) (content w fd2);
}.

(** Writing the part of [f] at [i] over a file that already agrees with [f] before [i]. *)
Lemma pwrite_extend (f g : bytes) (i n : nat) :
  length f = length g -> (i + n <= length f)%nat -> take i g = take i f ->
  length (pwrite i (take n (drop i f)) g) = length f /\
  take (i + n) (pwrite i (take n (drop i f)) g) = take (i + n) f.
Proof.
  intros Hlen Hi Hpre. destruct (take n (drop i f)) as [|b d] eqn:E.
  - assert (Hn : n = 0%nat).
    { apply (f_equal length) in E. rewrite length_take, length_drop in E. simpl in E. lia. }
    subst n. rewrite Nat.add_0_r. done.
  - unfold pwrite. rewrite <- E.
    assert (Hd : length (take n (drop i f)) = n) by (rewrite length_take, length_drop; lia).
    replace (i - length g)%nat with 0%nat by lia. simpl. split.
    + rewrite !length_app, Hd, length_take, length_drop. lia.
    + rewrite Hpre. rewrite (app_assoc (take i f)), take_app_length'.
      * rewrite <- (take_drop i (take (i + n) f)), take_take, Nat.min_l by lia.
        f_equal. by rewrite skipn_firstn_comm, Nat.add_comm, Nat.add_sub.
      * rewrite length_app, Hd, length_take. lia.
Qed.

Section CopyFacts.
Context {W : Type} `{MS : MmapSpec W} `{CLib}.
Implicit Types p : proc W.

(** The destination has the size of the source and agrees with it up to [fsz]. *)
Definition copied_upto (p0 p : proc W) (fdin fdout fsz : Z) : Prop :=
  content (kern p) fdin = content (kern p0) fdin /\
  zlen (content (kern p) fdout) = zlen (content (kern p0) fdin) /\
  take (Z.to_nat fsz) (content (kern p) fdout) = take (Z.to_nat fsz) (content (kern p0) fdin).

Lemma copy_window_spec p0 p fdin fdout fsz n :
  fdin <> fdout -> 0 <= fsz -> 0 < n -> fsz + n <= zlen (content (kern p0) fdin) ->
  copied_upto p0 p fdin fdout fsz ->
  wp (copy_window fdin fdout fsz n) (fun o p' =>
    match o with
    | Ret _ => copied_upto p0 p' fdin fdout (fsz + n)
    | _ => o = Exited 1
    end) p.
Proof.
  intros Hne Hf Hn Hsz (Hin & Hlen & Hpre). unfold copy_window.
  apply wp_bind_ret, returns_syscall. intros r1 w1 [Hc1 Hm1]%mmap_law.
  destruct r1 as [src|e]; [|by wstep]. destruct Hm1 as (_ & _ & _ & Hm1 & _).
  apply wp_bind_ret, returns_syscall. intros r2 w2 [Hc2 Hm2]%mmap_law. simpl in *.
  destruct r2 as [dst|e]; [|by wstep]. destruct Hm2 as (_ & _ & Hfree & Hm2 & Hother).
  assert (Hsrc : mapping w2 src = Some (fdin, fsz, n)).
  { rewrite Hother; [done|]. intros ->. congruence. }
  assert (Hcf : forall fd, content w2 fd = content (kern p) fd) by (intros; by rewrite Hc2, Hc1).
  destruct (memcpy_law dst src n w2 fdin fsz fdout fsz) as [Hkeep Hcopy];
    [done|done|done|done|done| | |]; try (rewrite Hcf; lia); [rewrite Hcf, Hin; lia|].
  apply wp_bind_ret. red. unfold wp, memcpy. simpl.
  apply wp_bind_ret, returns_syscall_unit; intros;
    match goal with E : k_munmap _ _ _ = _ |- _ => pose proof (munmap_law _ _ _ _ _ E) as Hu1; clear E end;
    apply wp_bind_ret, returns_syscall_unit; intros;
    match goal with E : k_munmap _ _ _ = _ |- _ => pose proof (munmap_law _ _ _ _ _ E) as Hu2; clear E end;
    wstep; simpl in *.
  all: destruct (pwrite_extend (content (kern p0) fdin) (content (kern p) fdout) (Z.to_nat fsz) (Z.to_nat n))
         as [Hl Ht]; [unfold zlen in *; lia|unfold zlen in *; lia|done|].
  all: red; simpl; rewrite !Hu2, !Hu1, Hkeep, Hcopy, !Hcf, Hin by done.
  all: split; [done|]; split; [unfold zlen; by rewrite Hl|].
  all: by rewrite Z2Nat.inj_add by lia.
Qed.

(** Every call that is made properly succeeds. *)
Record healthy : Prop := {
  healthy_mmap n wr fd off w : 0 < n -> off mod PAGE_SIZE = 0 ->
    exists a w', k_mmap n wr fd off w = (SysOk a, w');
  healthy_fstat fd w : exists n w', k_fstat fd w = (SysOk n, w');
  healthy_ftruncate fd n w : 0 <= n -> exists w', k_ftruncate fd n w = (SysOk tt, w');
}.

Lemma copy_window_healthy fdin fdout fsz n p :
  healthy -> 0 < n -> fsz mod PAGE_SIZE = 0 ->
  exists p', copy_window fdin fdout fsz n p = (Ret tt, p').
Proof.
  intros Hh Hn Hf. unfold copy_window, mbind, M_bind, syscall_unit, syscall, mbind, M_bind, memcpy.
  destruct (healthy_mmap Hh n false fdin fsz (kern p) Hn Hf) as (a & w1 & ->). simpl.
  destruct (healthy_mmap Hh n true fdout fsz w1 Hn Hf) as (b & w2 & ->). simpl.
  destruct (k_munmap _ _ _) as [[] w3]; simpl; destruct (k_munmap _ _ _) as [[] w4]; simpl; eauto.
Qed.

(** What the loop has done when it ends, and that it ends well on a healthy system. *)
Definition copy_post (p0 : proc W) (fdin fdout : Z) (o : outcome unit) (p' : proc W) : Prop :=
  match o with
  | Ret _ => content (kern p') fdout = content (kern p0) fdin /\
             content (kern p') fdin = content (kern p0) fdin
  | _ => o = Exited 1 /\ ~ healthy
  end.

Lemma window_loop_spec p0 fdin fdout fuel : forall fsz p,
  fdin <> fdout -> 0 <= fsz <= zlen (content (kern p0) fdin) ->
  (fsz mod COPYINCR = 0 \/ fsz = zlen (content (kern p0) fdin)) ->
  zlen (content (kern p0) fdin) - fsz <= COPYINCR * Z.of_nat fuel ->
  copied_upto p0 p fdin fdout fsz ->
  wp (window_loop fuel fdin fdout (zlen (content (kern p0) fdin)) fsz)
    (copy_post p0 fdin fdout) p.
Proof.
  induction fuel as [|fuel IH]; intros fsz p Hne Hf Hal Hfuel Hc; simpl;
    destruct (Z.ltb_spec fsz (zlen (content (kern p0) fdin))) as [Hlt|Hge]; try lia.
  - wstep. destruct Hc as (Hin & Hlen & Hpre). split; [|done].
    rewrite !take_ge in Hpre by (unfold zlen in *; lia). done.
  - set (n := if COPYINCR <? _ then _ else _).
    assert (Hn : 0 < n /\ fsz + n <= zlen (content (kern p0) fdin) /\
                 (n = COPYINCR \/ fsz + n = zlen (content (kern p0) fdin))).
    { unfold n. destruct (Z.ltb_spec COPYINCR (zlen (content (kern p0) fdin) - fsz));
        unfold COPYINCR in *; lia. }
    destruct Hn as (Hn & Hend & Hcase). destruct Hal as [Hal|Hal]; [|lia].
    pose proof (copy_window_spec p0 p fdin fdout fsz n Hne (proj1 Hf) Hn Hend Hc) as Hs.
    apply wp_bind. unfold wp in *. destruct (copy_window fdin fdout fsz n p) as [o p'] eqn:E.
    simpl in *. destruct o as [[]| | | |]; try done.
    + apply IH; try done; [lia| |].
      * destruct Hcase as [->|?]; [left|by right]. rewrite <- Zplus_mod_idemp_l, Hal. by vm_compute.
      * destruct Hcase as [->|?]; unfold COPYINCR in *; lia.
    + simplify_eq. split; [done|]. intros Hh.
      destruct (copy_window_healthy fdin fdout fsz n p Hh Hn) as [q Eq]; [|congruence].
      apply Z.mod_divide in Hal as [k ->]; [|done].
      by replace (k * COPYINCR) with (k * 262144 * PAGE_SIZE) by (unfold COPYINCR, PAGE_SIZE; lia);
        rewrite Z.mod_mul.
  - wstep. destruct Hc as (Hin & Hlen & Hpre). split; [|done].
    rewrite !take_ge in Hpre by (unfold zlen in *; lia). done.
Qed.

(** C15: the copy through mapped memory is exact: with [fuel] for every window of COPYINCR bytes it
    ends, and then the destination holds exactly the bytes of the source and the source is
    unchanged; the program fails only when a system call fails that was made properly - every
    mapping it asks for is not empty and begins at a page. *)
Theorem copy_mapped_exact fdin fdout fuel p :
  fdin <> fdout -> zlen (content (kern p) fdin) <= COPYINCR * Z.of_nat fuel ->
  wp (copy_mapped fuel fdin fdout) (fun o p' =>
    match o with
    | Ret r => r = 0 /\ content (kern p') fdout = content (kern p) fdin /\
               content (kern p') fdin = content (kern p) fdin
    | _ => o = Exited 1 /\ ~ healthy
    end) p.
Proof.
  intros Hne Hfuel. unfold copy_mapped.
  apply wp_bind_ret, returns_syscall. intros r1 w1 E1. pose proof (fstat_law _ _ _ _ E1) as [-> Hsz].
  destruct r1 as [sz|e].
  2:{ wstep. split; [done|]. intros Hh. destruct (healthy_fstat Hh fdin (kern p)) as (? & ? & ?).
      congruence. }
  rewrite (Hsz sz eq_refl). clear Hsz E1. pose proof (zlen_nonneg (content (kern p) fdin)) as H0.
  unfold ftruncate. apply wp_bind_ret, returns_syscall_unit; [intros w2 E2|intros e w2 E2]; simpl in *.
  2:{ wstep. split; [done|]. intros Hh.
      destruct (healthy_ftruncate Hh fdout (zlen (content (kern p) fdin)) (kern p) H0). congruence. }
  apply ftruncate_law in E2 as [Ht Hk]; [|done]. specialize (Ht eq_refl).
  apply wp_bind. eapply wp_mono.
  { apply (window_loop_spec p fdin fdout fuel 0); try done; [by left|lia|].
    red. simpl. rewrite Ht, Hk by done. split; [done|]. split; [|done].
    unfold zlen. rewrite length_truncate. lia. }
  intros o p' Ho. destruct o as [[]|c| | |]; try (by destruct Ho as [[=] _]).
  - wstep. by destruct Ho.
  - by destruct Ho as [[= ->] Hh].
Qed.

End CopyFacts.

(** ** Two files and their mappings *)

Record msim := MSim { m_files : gmap Z bytes; m_maps : gmap Z (Z * Z * Z) }.

Definition m_content (w : msim) (fd : Z) : bytes := default [] (m_files w !! fd).

#[export] Instance msim_ops : MmapOps msim := {|
  k_fstat fd w := (SysOk (zlen (m_content w fd)), w);
  k_mmap n wr fd off w :=
    if (0 <? n) && (off mod PAGE_SIZE =? 0)
    then let a := fresh (dom (m_maps w)) in
         (SysOk a, MSim (m_files w) (<[a := (fd, off, n)]> (m_maps w)))
    else (SysErr 22, w);
  k_munmap a n w := (SysOk tt, MSim (m_files w) (delete a (m_maps w)));
  k_memcpy dst src n w :=
    match m_maps w !! src, m_maps w !! dst with
    | Some (fd1, off1, _), Some (fd2, off2, _) =>
        MSim (<[fd2 := pwrite (Z.to_nat off2)
                  (take (Z.to_nat n) (drop (Z.to_nat off1) (m_content w fd1))) (m_content w fd2)]>
                (m_files w)) (m_maps w)
    | _, _ => w
    end;
|}.

#[export] Instance msim_files : FileOps msim := {|
  k_read _ _ w := (SysErr 9, w); k_write _ _ w := (SysErr 9, w); k_open _ _ _ w := (SysErr 2, w);
  k_close _ w := (SysOk tt, w); k_dup _ w := (SysErr 9, w); k_fsync _ w := (SysOk tt, w);
  k_ftruncate fd n w :=
    (SysOk tt, MSim (<[fd := truncate (Z.to_nat n) (m_content w fd)]> (m_files w)) (m_maps w));
  k_getfd _ w := (SysErr 9, w); k_setfd _ _ w := (SysErr 9, w);
  k_getfl _ w := (SysErr 9, w); k_setfl _ _ w := (SysErr 9, w);
|}.

Lemma m_content_insert w fd d maps fd' :
  m_content (MSim (<[fd := d]> (m_files w)) maps) fd' = if decide (fd' = fd) then d else m_content w fd'.
Proof.
  unfold m_content. simpl. case_decide as E; [subst; by rewrite lookup_insert_eq|].
  by rewrite lookup_insert_ne.
Qed.

#[export] Instance msim_spec : MmapSpec msim.
Proof.
  refine {| content := m_content; mapping w a := m_maps w !! a |}.
  - intros fd w r w' [= <- <-]. split; [done|]. by intros n [= <-].
  - intros fd n w r w' [= <- <-] Hn. split.
    + intros _. rewrite m_content_insert. by rewrite decide_True.
    + intros fd' Hne. rewrite m_content_insert. by rewrite decide_False.
  - intros n wr fd off w r w' E. simpl in E.
    destruct (Z.ltb_spec 0 n) as [Hn|]; [|by injection E as <- <-].
    destruct (Z.eqb_spec (off mod PAGE_SIZE) 0) as [Ho|]; [|by injection E as <- <-].
    injection E as <- <-. split; [done|]. split; [done|]. split; [done|]. split.
    + apply not_elem_of_dom, is_fresh.
    + simpl. split; [by rewrite lookup_insert_eq|]. intros b Hb. by rewrite lookup_insert_ne.
  - by intros a n w r w' [= <- <-].
  - intros dst src n w fd1 off1 fd2 off2 Hs Hd Hne _ _ _ _. simpl. rewrite Hs, Hd. split.
    + intros fd' Hfd. rewrite m_content_insert. by rewrite decide_False.
    + rewrite m_content_insert. by rewrite decide_True.
Defined.

Definition m0 : proc msim := Proc 0 true [] (MSim {[ 3 := str "hello"; 4 := str "old contents" ]} ∅).

Lemma copy_mapped_exact_witness :
  zlen (content (kern m0) 3) <= COPYINCR * Z.of_nat 1 /\
  wp (copy_mapped 1 3 4) (fun o p' => match o with
    | Ret r => r = 0 /\ content (kern p') 4 = content (kern m0) 3 /\
               content (kern p') 3 = content (kern m0) 3
    | _ => o = Exited 1 /\ ~ healthy (W := msim) end) m0.
Proof. split; [vm_compute; discriminate|]. apply (copy_mapped_exact 3 4 1 m0); vm_compute; discriminate. Defined.

(** The program runs to its end on this system. *)
Example copy_mapped_runs :
  (copy_mapped 1 3 4 m0).1 = Ret 0 /\ m_content (kern (copy_mapped 1 3 4 m0).2) 4 = str "hello".
Proof. by vm_compute. Qed.
