(* ===== verification/Uptime.v ===== *)
(** * The uptime service: [16/5] and [16/7] (clients), [16/6] and [16/8] (servers)

    Each server waits for one event at a time through io_uring and forks a child that runs
    [uptime] with its output on the socket; each client prints what it receives.  A system call
    that replaces the process image appears by its failure only. *)

From S2P Require Import Prelude Machine Errors Kernel SimKernel Text FileIO Daemon Sockets.
From S2P Require Import Network Handshake UnixSocket SockSim FdServer.
Import Signals Uring.

Definition SOCK_DGRAM : Z := 2.
Definition SIGCHLD : Z := 17.
Definition STDERR_FILENO : Z := 2.
Definition BUFLEN : Z := 128.
Definition ETIME : Z := 62.

(** ** Port numbers *)

(** [std::from_chars] for [int]: a minus sign or none, digits, and the value must fit. *)
Definition from_chars (s : bytes) : option Z :=
  let '(neg, s) := match s with c :: r => if c =? 45 then (true, r) else (false, s) | [] => (false, s) end in
  let '(v, n, _) := scan_digits s 0 0 in
  let v := if neg : bool then - v else v in
  if (n =? 0)%nat then None else if decide (is_int v) then Some v else None.

(** The test all four programs make. *)
Definition parse_port (port_str : bytes) : option Z :=
  match from_chars port_str with
  | None => None
  | Some server_port =>
      if (server_port <=? 0) || (65535 <? server_port) then None else Some server_port
  end.

Class UringOps (W : Type) := {
  k_uring_init : Z -> W -> sysres unit * W;       (* queue depth *)
  k_wait_cqe : W -> sysres unit * W;              (* the wait itself; the result is the request's *)
  k_wait_cqe_timeout : Z -> W -> sysres unit * W; (* seconds *)
  k_recvfrom : Z -> Z -> W -> sysres sockaddr * W; (* fd, length: the sender *)
  k_dup2 : Z -> Z -> W -> sysres Z * W;
  k_execl : list bytes -> W -> Z * W;
}.

Section Servers.
Context {W : Type} `{FileOps W} `{SockOps W} `{ProcOps W} `{SigOps W} `{UringOps W} `{CLib}.

Definition dup2 (fd fd2 : Z) : M W Z := syscall_int (k_dup2 fd fd2).

Definition log_err (text : bytes) : M W unit :=
  e ← get_errno; emit (Syslog LOG_ERR (text ++ strerror e)).

(** The child from [dup2] on: [||] does not make the second call when the first failed. *)
Definition run_uptime (clfd : Z) : M W unit :=
  d ← dup2 clfd STDOUT_FILENO;
  bad ← (if negb (d =? STDOUT_FILENO) then mret true
         else d ← dup2 clfd STDERR_FILENO; mret (negb (d =? STDERR_FILENO)));
  if bad : bool then emit (Syslog LOG_ERR (str "error call dup2")) ;; sys_exit 1
  else
    close clfd ;;
    (fun p => let '(e, w) := k_execl [str "/usr/bin/uptime"; str "uptime"] (kern p) in
              (Ret tt, Proc e (log_to_stderr p) (console p) w)) ;;
    log_err (str "unexpected return from exec: ") ;;
    sys_exit 1.

(** *** [16/6]: TCP *)

Definition handle_client_fork (clfd : Z) : M W unit :=
  pid ← syscall_int k_fork;
  if pid <? 0 then log_err (str "call fork: ") ;; close clfd ;; mret tt
  else if pid =? 0 then run_uptime clfd
  else close clfd ;; mret tt.

(** One iteration, with the accept requests in flight: one is queued and submitted, and when the
    wait succeeds one completes. *)
Definition tcp_iteration (server_fd : Z) (inflight : nat) : M W nat :=
  let inflight := S inflight in
  ret ← complete k_wait_cqe;
  match ret with
  | SysErr e => emit (Syslog LOG_ERR (str "wait_cqe error: " ++ strerror e)) ;; mret inflight
  | SysOk _ =>
      res ← complete (k_accept server_fd);
      match res with
      | SysOk client_fd => handle_client_fork client_fd
      | SysErr e => emit (Syslog LOG_ERR (str "accept failed: " ++ strerror e))
      end ;;
      mret (pred inflight)
  end.

Fixpoint tcp_serve (n : nat) (server_fd : Z) (inflight : nat) : M W nat :=
  match n with
  | O => mret inflight
  | S n => inflight ← tcp_iteration server_fd inflight; tcp_serve n server_fd inflight
  end.

(** [main]; [n] bounds the iterations of its endless loop that are run. *)
Definition tcp_server_main (n : nat) (argv : list bytes) : M W Z :=
  match argv with
  | [_; port_str] =>
      match parse_port port_str with
      | None => err_quit (str "invalid port number: {}") [port_str]
      | Some server_port =>
          daemonize (str "ruptimed tcp") ;;
          s ← apue_signal SIGCHLD SIG_IGN;
          match s with
          | None => log_err (str "can't ignore SIGCHLD: ") ;; sys_exit 1
          | Some _ =>
              server_fd ← setup_socket_ipv4 server_port SOCK_STREAM;
              if server_fd <? 0 then log_err (str "failed to init socket: ") ;; sys_exit 1
              else
                r ← listen server_fd 10;
                if r <? 0 then close server_fd ;; mret (-1)
                else
                  u ← complete (k_uring_init 256);
                  match u with
                  | SysErr _ => emit (Syslog LOG_ERR (str "io_uring_queue_init failed")) ;; sys_exit 1
                  | SysOk _ =>
                      emit (Syslog LOG_INFO (str "started on port tcp/" ++ to_string server_port)) ;;
                      tcp_serve n server_fd 0 ;;
                      mret 0
                  end
          end
      end
  | _ => err_quit (str "usage: ruptimed port") []
  end.

(** *** [16/8]: UDP *)

Definition handle_client_fork_udp (cliaddr : sockaddr) (server_port : Z) : M W unit :=
  pid ← syscall_int k_fork;
  if pid <? 0 then log_err (str "call fork: ")
  else if pid =? 0 then
    new_clfd ← connect_ipv4_addr cliaddr server_port SOCK_DGRAM;
    when (new_clfd <? 0) (emit (Syslog LOG_ERR (str "child connect failed"))) ;;
    run_uptime new_clfd
  else mret tt.

Definition udp_iteration (server_fd server_port : Z) (inflight : nat) : M W nat :=
  let inflight := S inflight in
  ret ← complete k_wait_cqe;
  match ret with
  | SysErr e => emit (Syslog LOG_ERR (str "wait_cqe error: " ++ strerror e)) ;; mret inflight
  | SysOk _ =>
      res ← complete (k_recvfrom server_fd BUFLEN);
      match res with
      | SysOk client_addr => handle_client_fork_udp client_addr server_port
      | SysErr e => emit (Syslog LOG_ERR (str "receive failed: " ++ strerror e))
      end ;;
      mret (pred inflight)
  end.

Fixpoint udp_serve (n : nat) (server_fd server_port : Z) (inflight : nat) : M W nat :=
  match n with
  | O => mret inflight
  | S n =>
      inflight ← udp_iteration server_fd server_port inflight;
      udp_serve n server_fd server_port inflight
  end.

Definition udp_server_main (n : nat) (argv : list bytes) : M W Z :=
  match argv with
  | [_; port_str] =>
      match parse_port port_str with
      | None => err_quit (str "invalid port number: {}") [port_str]
      | Some server_port =>
          daemonize (str "ruptimed upd") ;;
          s ← apue_signal SIGCHLD SIG_IGN;
          match s with
          | None => log_err (str "can't ignore SIGCHLD: ") ;; sys_exit 1
          | Some _ =>
              server_fd ← setup_socket_ipv4 server_port SOCK_DGRAM;
              if server_fd <? 0 then log_err (str "failed to init socket: ") ;; sys_exit 1
              else
                u ← complete (k_uring_init 256);
                match u with
                | SysErr _ => emit (Syslog LOG_ERR (str "io_uring_queue_init failed")) ;; sys_exit 1
                | SysOk _ =>
                    emit (Syslog LOG_INFO (str "started on port udp/" ++ to_string server_port)) ;;
                    udp_serve n server_fd server_port 0 ;;
                    mret 0
                end
          end
      end
  | _ => err_quit (str "usage: ruptimed") []
  end.

(** *** [16/5] and [16/7]: the clients *)

(** TCP: receive and print until the server closes; fuel bounds the iterations. *)
Fixpoint download_uptime (fuel : nat) (sockfd : Z) : M W unit :=
  match fuel with
  | O => out_of_fuel
  | S fuel =>
      ret ← complete k_wait_cqe;
      match ret with
      | SysErr _ => err_sys (str "wait recv") []
      | SysOk _ =>
          res ← complete (k_read sockfd BUFLEN);
          match res with
          | SysErr e => err_exit e (str "recv error: {}") []
          | SysOk buf =>
              if zlen buf =? 0 then mret tt
              else
                r ← writen STDOUT_FILENO buf (zlen buf);
                if failed r then err_sys (str "write error") [] else download_uptime fuel sockfd
          end
      end
  end.

(** UDP: send a byte, wait for one datagram; the loop of the source always breaks. *)
Definition download_uptime_udp (sockfd : Z) : M W unit :=
  ret ← complete k_wait_cqe;
  match ret with
  | SysErr _ => err_sys (str "wait send") []
  | SysOk _ =>
      s ← complete (k_write sockfd [0]);
      match s with
      | SysErr e => err_exit e (str "send error: {}") []
      | SysOk _ =>
          ret ← complete (k_wait_cqe_timeout 4);
          match ret with
          | SysErr e =>
              if e =? ETIME then emit (Stderr (str "Timeout waiting for server response"))
              else err_sys (str "wait recv") []
          | SysOk _ =>
              res ← complete (k_read sockfd BUFLEN);
              match res with
              | SysErr e => err_exit e (str "recv error") []
              | SysOk buf =>
                  r ← writen STDOUT_FILENO buf (zlen buf);
                  if bool_decide (r = Some (zlen buf)) then mret tt
                  else err_sys (str "write error") []
              end
          end
      end
  end.

(** [main] of both; [proto] is the text printed, [download] the function called. *)
Definition client_main (proto : bytes) (type : Z) (download : Z -> M W unit) (argv : list bytes)
  : M W Z :=
  match argv with
  | [_; host; port_str] =>
      match parse_port port_str with
      | None => err_quit (str "invalid port number: {}") [port_str]
      | Some server_port =>
          u ← complete (k_uring_init 8);
          match u with
          | SysErr _ => err_sys (str "io_uring_queue_init failed") []
          | SysOk _ =>
              emit (Stdout (str "Connecting to " ++ host ++ str " on port " ++ proto ++ str "/"
                              ++ to_string server_port ++ str "...")) ;;
              sockfd ← connect_ipv4_host host server_port type;
              if sockfd <? 0 then e ← get_errno; err_exit e (str "can't connect to {}") [host]
              else download sockfd ;; close sockfd ;; mret 0
          end
      end
  | _ => err_quit (str "usage: {} hostname port") [default [] (head argv)]
  end.

Definition tcp_client_main (fuel : nat) : list bytes -> M W Z :=
  client_main (str "tcp") SOCK_STREAM (download_uptime fuel).
Definition udp_client_main : list bytes -> M W Z :=
  client_main (str "upd") SOCK_DGRAM download_uptime_udp.

End Servers.

(** ** Theorems *)

Lemma from_chars_to_string n : from_chars (to_string n) = if decide (is_int n) then Some n else None.
Proof.
  unfold from_chars, to_string. destruct (Z.ltb_spec n 0) as [Hn|Hn].
  - rewrite (proj2 (Z.eqb_eq 45 45)) by done.
    pose proof (digits_scan (- n) [] ltac:(lia) ltac:(done)) as Hs. rewrite app_nil_r in Hs.
    rewrite Hs. pose proof (digits_nonempty (- n)). destruct (digits (- n)) as [|c l] eqn:E; [done|].
    simpl. by rewrite Z.opp_involutive.
  - pose proof (digits_scan n [] ltac:(lia) ltac:(done)) as Hs. rewrite app_nil_r in Hs.
    pose proof (digits_nonempty n). pose proof (digits_digit n) as Hd.
    destruct (digits n) as [|c l] eqn:E; [done|]. apply Forall_cons in Hd as [Hc _].
    destruct (is_digit_not_space c Hc) as (_ & Hm & _). rewrite (proj2 (Z.eqb_neq c 45)) by done.
    rewrite Hs. done.
Qed.

(** The port test of the four programs: a port that is accepted lies in 1..65535, and the
    decimal text of a number is accepted exactly when the number lies in that range, as that
    number. *)
Theorem parse_port_spec :
  (forall s port, parse_port s = Some port -> 1 <= port <= 65535) /\
  (forall n, parse_port (to_string n) = if decide (1 <= n <= 65535) then Some n else None).
Proof.
  split.
  - intros s port. unfold parse_port. destruct (from_chars s) as [q|]; [|done].
    destruct (Z.leb_spec q 0); [done|]. destruct (Z.ltb_spec 65535 q); [done|]. intros [= <-]. lia.
  - intros n. unfold parse_port. rewrite from_chars_to_string. unfold is_int, INT_MIN, INT_MAX.
    repeat case_decide; try lia; repeat case_cmp; try done; lia.
Qed.

Section ServerFacts.
Context {W : Type} `{FO : FileOps W} `{FD : !FdSpec W} `{SO : SockOps W} `{SS : !SockSpec W}
  `{PO : ProcOps W} `{SigOps W} `{UringOps W} `{CLib}.
Context (fork_fds : keeps_fds k_fork) (wait_fds : keeps_fds k_wait_cqe)
  (recvfrom_fds : forall fd n, keeps_fds (k_recvfrom fd n)).
Implicit Types p : proc W.

(** The server itself goes on with the same descriptors; a child ends with status 1. *)
Definition serves {A} (P : A -> Prop) (p : proc W) (o : outcome A) (p' : proc W) : Prop :=
  match o with
  | Ret a => P a /\ fds (kern p') = fds (kern p)
  | _ => o = Exited 1
  end.

Lemma run_uptime_exits clfd p : (run_uptime clfd p).1 = Exited 1.
Proof.
  unfold run_uptime, log_err, dup2, close, syscall_int, syscall_unit, syscall.
  unfold mbind, M_bind, emit, get_errno, sys_exit, mret, M_ret.
  destruct (k_dup2 _ _ _) as [[d|e] w1]; simpl; [|done].
  destruct (d =? STDOUT_FILENO); simpl; [|done].
  destruct (k_dup2 _ _ _) as [[d2|e] w2]; simpl; [|done].
  destruct (d2 =? STDERR_FILENO); simpl; [|done].
  destruct (k_close _ _) as [[] w3]; simpl; by destruct (k_execl _ _).
Qed.

(** A client's descriptor is closed in the server whatever [fork] does. *)
Lemma handle_client_fork_serves clfd p0 p :
  clfd ∉ fds (kern p0) -> fds (kern p) = {[clfd]} ∪ fds (kern p0) ->
  wp (handle_client_fork clfd) (serves (fun _ => True) p0) p.
Proof.
  intros Hn Hf. unfold handle_client_fork.
  assert (Hclose : forall p1, fds (kern p1) = fds (kern p) ->
    wp (close clfd ;; mret tt) (serves (fun _ => True) p0) p1).
  { intros p1 Hp1. unfold close. apply wp_bind_ret, returns_syscall_unit;
      [intros w2 E|intros e w2 E]; apply close_fds in E; wstep; split; try done; simpl;
      rewrite E, Hp1, Hf; by apply close_new. }
  apply wp_bind_ret, returns_syscall_int; [intros pid w1 E|intros e w1 E];
    apply (keeps_fds_eq _ _ _ _ fork_fds) in E; simpl.
  - destruct (pid <? 0).
    + unfold log_err. apply wp_bind, wp_bind_ret, returns_get_errno. by apply Hclose.
    + destruct (pid =? 0); [|by apply Hclose].
      unfold wp. pose proof (run_uptime_exits clfd (Proc (errno p) (log_to_stderr p) (console p) w1)) as ->.
      done.
  - unfold log_err. apply wp_bind, wp_bind_ret, returns_get_errno. by apply Hclose.
Qed.

Lemma serves_trans {A B} (P : A -> Prop) (Q : B -> Prop) (m : M W A) (f : A -> M W B) p0 p :
  wp m (serves P p0) p ->
  (forall a p', P a -> fds (kern p') = fds (kern p0) -> wp (f a) (serves Q p0) p') ->
  wp (m ≫= f) (serves Q p0) p.
Proof.
  intros Hm Hf. apply wp_bind. eapply wp_mono; [exact Hm|]. intros [a| | | |] p' Ho; try done.
  - destruct Ho as [Ha Hfds]. by apply Hf.
  - by injection Ho as ->.
Qed.

Lemma tcp_iteration_serves server_fd inflight p :
  wp (tcp_iteration server_fd inflight)
    (serves (fun k => k = inflight \/ (k = S inflight /\
       exists w e w', k_wait_cqe w = (SysErr e, w'))) p) p.
Proof.
  unfold tcp_iteration. apply wp_bind_ret, returns_complete. intros r w1 E1.
  pose proof (keeps_fds_eq _ _ _ _ wait_fds E1) as Hf1. destruct r as [[]|e].
  2:{ wstep. wstep. split; [right; split; [done|by eexists _, _, _]|done]. }
  apply wp_bind_ret, returns_complete. intros r w2 E2. apply accept_fds in E2. simpl in E2.
  eapply serves_trans with (P := fun _ => True).
  - destruct r as [fd|e].
    + destruct E2 as (_ & Hn & Hf2 & _). rewrite Hf1 in Hn, Hf2. by apply handle_client_fork_serves.
    + split; [done|]. simpl. congruence.
  - intros _ p' _ Hf. wstep. split; [by left|done].
Qed.

Lemma udp_iteration_serves server_fd server_port inflight p :
  wp (udp_iteration server_fd server_port inflight)
    (serves (fun k => k = inflight \/ (k = S inflight /\
       exists w e w', k_wait_cqe w = (SysErr e, w'))) p) p.
Proof.
  unfold udp_iteration. apply wp_bind_ret, returns_complete. intros r w1 E1.
  pose proof (keeps_fds_eq _ _ _ _ wait_fds E1) as Hf1. destruct r as [[]|e].
  2:{ wstep. wstep. split; [right; split; [done|by eexists _, _, _]|done]. }
  apply wp_bind_ret, returns_complete. intros r w2 E2.
  apply (keeps_fds_eq _ _ _ _ (recvfrom_fds _ _)) in E2. simpl in E2.
  eapply serves_trans with (P := fun _ => True).
  - destruct r as [addr|e]; [|split; [done|]; simpl; congruence].
    unfold handle_client_fork_udp.
    apply wp_bind_ret, returns_syscall_int; [intros pid w3 E|intros e w3 E];
      apply (keeps_fds_eq _ _ _ _ fork_fds) in E; simpl in *.
    + destruct (pid <? 0); [split; [done|]; simpl; congruence|].
      destruct (pid =? 0); [|wstep; split; [done|]; simpl; congruence].
      apply wp_bind_ret. eapply returns_mono; [apply connect_addr_new|]. intros fd p3 _.
      apply wp_bind. destruct (fd <? 0); unfold wp; simpl; by rewrite run_uptime_exits.
    + split; [done|]. simpl. congruence.
  - intros _ p' _ Hf. wstep. split; [by left|done].
Qed.

(** the servers leak no descriptors: after any number of clients, whatever fails on the way,
    the TCP and the UDP server have the descriptors they started with, and a child never returns
    into the server's loop; when waiting does not fail, no request is left behind in the ring, so
    exactly one is in flight at a time. *)
Theorem uptime_servers_no_leak n server_fd server_port p :
  wp (tcp_serve n server_fd 0)
    (serves (fun k => (forall w, exists w', k_wait_cqe w = (SysOk tt, w')) -> k = 0%nat) p) p /\
  wp (udp_serve n server_fd server_port 0)
    (serves (fun k => (forall w, exists w', k_wait_cqe w = (SysOk tt, w')) -> k = 0%nat) p) p.
Proof.
  assert (Hgen : forall (serve : nat -> nat -> M W nat) (iter : nat -> M W nat),
    (forall k, serve 0%nat k = mret k) -> (forall m k, serve (S m) k = (iter k ≫= serve m)) ->
    (forall k q, wp (iter k) (serves (fun k' => k' = k \/ (k' = S k /\
       exists w e w', k_wait_cqe w = (SysErr e, w'))) q) q) ->
    forall k q, ((forall w, exists w', k_wait_cqe w = (SysOk tt, w')) -> k = 0%nat) ->
    fds (kern q) = fds (kern p) ->
    wp (serve n k) (serves (fun k => (forall w, exists w', k_wait_cqe w = (SysOk tt, w')) -> k = 0%nat) p) q).
  { intros serve iter Hserve0 HserveS Hiter. induction n as [|m IH]; intros k q Hk Hq.
    - rewrite Hserve0. wstep. by split.
    - rewrite HserveS. apply wp_bind. eapply wp_mono; [apply Hiter|].
      intros [k'| | | |] q' Ho; try done.
      destruct Ho as [Hk' Hf]. apply IH; [|congruence]. intros Hw.
      destruct Hk' as [->|[_ (w & e & w' & E)]]; [by apply Hk|].
      destruct (Hw w) as [w'' E']. congruence. }
  split.
  - apply (Hgen (fun m k => tcp_serve m server_fd k) (tcp_iteration server_fd)); try done.
    intros. apply tcp_iteration_serves.
  - apply (Hgen (fun m k => udp_serve m server_fd server_port k) (udp_iteration server_fd server_port));
      try done. intros. apply udp_iteration_serves.
Qed.

End ServerFacts.

Section ClientFacts.
Context {W : Type} `{FO : FileOps W} `{ST : !StreamSpec W} `{UringOps W} `{CLib}.
Implicit Types p : proc W.

(** Waiting succeeds and moves no data. *)
Record waits (I : W -> Prop) : Prop := {
  wait_succeeds w : I w -> exists w', k_wait_cqe w = (SysOk tt, w') /\ I w' /\
    (forall fd, inbuf w' fd = inbuf w fd) /\ (forall fd, outbuf w' fd = outbuf w fd);
}.

Lemma download_uptime_spec I fuel fd p :
  waits I -> reliable I fd STDOUT_FILENO -> I (kern p) -> (length (inbuf (kern p) fd) < fuel)%nat ->
  returns (download_uptime fuel fd) (fun _ p' =>
    outbuf (kern p') STDOUT_FILENO = outbuf (kern p) STDOUT_FILENO ++ inbuf (kern p) fd) p.
Proof.
  intros Hw Hr. revert p. induction fuel as [|fuel IH]; intros p HI Hfuel; [lia|]. simpl.
  destruct (wait_succeeds _ Hw (kern p) HI) as (w0 & E0 & HI0 & Hi0 & Ho0).
  mstep. apply returns_complete. rewrite E0. intros r w [= <- <-].
  destruct (reads_succeed _ _ _ Hr BUFLEN w0 HI0 eq_refl) as (d & w' & E & HI').
  mstep. apply returns_complete. simpl. rewrite E. intros r w [= <- <-].
  pose proof (read_law _ _ _ _ _ E ltac:(done)) as (Hd & Hin & Heof). rewrite Hi0 in Hin.
  pose proof (read_frame _ _ _ _ _ STDOUT_FILENO E) as Hfr. rewrite Ho0 in Hfr.
  destruct (Z.eqb_spec (zlen d) 0) as [Hz|Hnz].
  - apply zlen_nil_inv in Hz as ->. specialize (Heof ltac:(done) eq_refl). rewrite Hi0 in Heof.
    mstep. simpl. by rewrite Hfr, Heof, app_nil_r.
  - pose proof (zlen_nonneg d). mstep. unfold writen. eapply returns_mono.
    { apply (writen_loop_reliable I _ fd); [done|done| |lia|done|lia].
      unfold is_size_t, SIZE_MAX, BUFLEN in *. lia. }
    simpl. intros r p' (-> & Ho & Hi & HI2). simpl.
    eapply returns_mono.
    { apply IH; [done|]. rewrite Hi. rewrite Hin, length_app in Hfuel. unfold zlen in *. lia. }
    simpl. intros _ p2 Ho2. rewrite Ho2, Ho, Hi, Hin, Hfr. by rewrite <- app_assoc.
Qed.

(** The TCP client ends and prints exactly the bytes the server sent before closing, when no
    call fails. *)
Theorem download_uptime_correct I fd p :
  waits I -> reliable I fd STDOUT_FILENO -> I (kern p) ->
  returns (download_uptime (S (length (inbuf (kern p) fd))) fd) (fun _ p' =>
    outbuf (kern p') STDOUT_FILENO = outbuf (kern p) STDOUT_FILENO ++ inbuf (kern p) fd) p.
Proof. intros Hw Hr HI. apply (download_uptime_spec I); [done|done|done|lia]. Qed.

End ClientFacts.

(** ** The concrete kernels *)

#[export] Instance sim_uring : UringOps sim := {|
  k_uring_init _ w := (SysOk tt, w); k_wait_cqe w := (SysOk tt, w);
  k_wait_cqe_timeout _ w := (SysOk tt, w); k_recvfrom _ _ w := (SysErr 11, w);
  k_dup2 _ _ w := (SysErr 9, w); k_execl _ w := (2, w);
|}.

Lemma download_uptime_correct_witness :
  inbuf (kern sim0) 3 = str "hello, world" /\
  returns (download_uptime (S (length (inbuf (kern sim0) 3))) 3) (fun _ p' =>
    outbuf (kern p') STDOUT_FILENO = outbuf (kern sim0) STDOUT_FILENO ++ inbuf (kern sim0) 3) sim0.
Proof.
  split; [vm_compute; reflexivity|].
  apply (download_uptime_correct both_open 3 sim0); [|apply sim_reliable|].
  - split. intros w Hw. by eexists.
  - split; vm_compute; eauto.
Defined.

(** A parent: [fork] returns the child's number. *)
#[export] Instance u_proc : ProcOps usim := {|
  k_umask _ w := w; k_getrlimit _ w := (SysOk (1024, 1024), w); k_fork w := (SysOk 42, w);
  k_setsid w := (SysOk 1, w); k_sigignore _ w := (SysOk tt, w); Daemon.k_chdir _ w := (SysOk tt, w);
|}.

#[export] Instance u_uring : UringOps usim := {|
  k_uring_init _ w := (SysOk tt, w); k_wait_cqe w := (SysOk tt, w);
  k_wait_cqe_timeout _ w := (SysOk tt, w); k_recvfrom _ _ w := (SysOk (InAddr 0 0), w);
  k_dup2 _ _ w := (SysErr 9, w); k_execl _ w := (2, w);
|}.

Definition u0 : proc usim := Proc 0 false [] (Usim (kern sim0) ∅ ∅).

Lemma uptime_servers_no_leak_witness :
  wp (tcp_serve 5 3 0)
    (serves (fun k => (forall w : usim, exists w', k_wait_cqe w = (SysOk tt, w')) -> k = 0%nat) u0) u0.
Proof.
  assert (Hf : keeps_fds (W := usim) k_fork) by (intros w; reflexivity).
  assert (Hw : keeps_fds (W := usim) k_wait_cqe) by (intros w; reflexivity).
  assert (Hr : forall fd n, keeps_fds (W := usim) (k_recvfrom fd n)) by (intros fd n w; reflexivity).
  exact (proj1 (uptime_servers_no_leak (W := usim) Hf Hw Hr 5 3 3 u0)).
Defined.

(** Five clients are served and the descriptors are as before. *)
Example five_clients :
  (tcp_serve 5 3 0 u0).1 = Ret 0%nat /\ fds (kern (tcp_serve 5 3 0 u0).2) = fds (kern u0).
Proof. by vm_compute. Qed.
