(* ===== verification/Limits.v ===== *)
(** * Reports of system limits

    [2/2_print_sysconf_pathconf.cpp] and [7/8_print_res_limits.cpp]: tables of the limits that the
    system defines at compile time or answers at run time.  What the headers define is a function
    from macro names to values; [sysconf], [pathconf] and [getrlimit] belong to the system.  Text
    written to standard output keeps its newlines, since the programs build lines piecewise. *)

From S2P Require Import Prelude Machine Errors Kernel SimKernel Text.
From S2P Require Import Daemon.

(** ** Output *)

Definition NL : Z := 10.

(** [std::print] and [std::println] on standard output. *)
Definition print {W} (s : bytes) : M W unit := emit (Stdout s).
Definition println {W} (s : bytes) : M W unit := emit (Stdout (s ++ [NL])).

Lemma returns_print {W} s (Q : unit -> proc W -> Prop) p :
  Q tt (Proc (errno p) (log_to_stderr p) (console p ++ [Stdout s]) (kern p)) -> returns (print s) Q p.
Proof. done. Qed.

Lemma returns_println {W} s (Q : unit -> proc W -> Prop) p :
  Q tt (Proc (errno p) (log_to_stderr p) (console p ++ [Stdout (s ++ [NL])]) (kern p)) ->
  returns (println s) Q p.
Proof. done. Qed.

Ltac mstep_hook ::=
  match goal with
  | |- returns (err_ret _ _) _ _ => apply returns_err_ret
  | |- returns (err_msg _ _) _ _ => apply returns_err_msg
  | |- returns (print _) _ _ => apply returns_print
  | |- returns (println _) _ _ => apply returns_println
  end.

(** The replacement field [{:<w}]. *)
Definition pad_right (w : nat) (s : bytes) : bytes := s ++ replicate (w - length s) 32.

Create Rewrite HintDb console.

(** What reached standard output. *)
Definition stdout_text (c : list out) : bytes :=
  mjoin ((fun o => match o with Stdout s => s | _ => [] end) <$> c).

(** Statements in sequence, one per element of a list. *)
Fixpoint each {W A} (f : A -> M W unit) (l : list A) : M W unit :=
  match l with
  | [] => mret tt
  | x :: l => f x ;; each f l
  end.

Lemma stdout_text_app c1 c2 : stdout_text (c1 ++ c2) = stdout_text c1 ++ stdout_text c2.
Proof. unfold stdout_text. by rewrite fmap_app, join_app. Qed.

Lemma stdout_text_snoc c s : stdout_text (c ++ [Stdout s]) = stdout_text c ++ s.
Proof. rewrite stdout_text_app. unfold stdout_text at 2. simpl. by rewrite app_nil_r. Qed.

(** Reports go to another channel. *)
Lemma stdout_text_report c b m : stdout_text (c ++ [report b m]) = stdout_text c.
Proof. rewrite stdout_text_app. destruct b; unfold stdout_text at 2; simpl; by rewrite app_nil_r. Qed.

#[export] Hint Rewrite stdout_text_snoc stdout_text_report : console.

(** Guarded pieces of text are those of the elements that pass the guard. *)
Lemma join_guarded {A} (b : A -> bool) (g : A -> bytes) l :
  mjoin ((fun x => if b x then g x else []) <$> l) = mjoin (g <$> filter (fun x => b x = true) l).
Proof.
  induction l as [|x l IH]; [done|]. rewrite filter_cons, fmap_cons.
  case_decide as D; [rewrite D|destruct (b x); [done|]]; csimpl; by rewrite IH.
Qed.

(** ** Sets of flags as words *)

(** Which of the masks share a bit with the value. *)
Definition bits_of (masks : list Z) (f : Z) : list bool :=
  (fun b => negb (Z.land f b =? 0)) <$> masks.

(** The names whose flag is set, one after another. *)
Definition words (names : list string) (bs : list bool) : bytes :=
  mjoin (zip_with (fun (b : bool) w => if b then str w else []) bs names).

Fixpoint all_bools (n : nat) : list (list bool) :=
  match n with
  | O => [[]]
  | S n => (cons true <$> all_bools n) ++ (cons false <$> all_bools n)
  end.

Lemma all_bools_in bs : bs ∈ all_bools (length bs).
Proof.
  induction bs as [|b bs IH]; simpl; [set_solver|].
  rewrite elem_of_app, !list_elem_of_fmap. destruct b; eauto.
Qed.

(** No two sets of names have the same text. *)
Definition distinguishes (names : list string) : bool :=
  let all := all_bools (length names) in
  forallb (fun b => forallb (fun c =>
    if decide (words names b = words names c) then bool_decide (b = c) else true) all) all.

Lemma words_inj names bs cs :
  distinguishes names = true -> length bs = length names -> length cs = length names ->
  words names bs = words names cs -> bs = cs.
Proof.
  unfold distinguishes. intros Hall Hb Hc E. rewrite forallb_forall in Hall.
  pose proof (all_bools_in bs) as Ib. pose proof (all_bools_in cs) as Ic.
  rewrite Hb in Ib. rewrite Hc in Ic.
  specialize (Hall bs (proj1 (list_elem_of_In _ _) Ib)). rewrite forallb_forall in Hall.
  specialize (Hall cs (proj1 (list_elem_of_In _ _) Ic)).
  rewrite decide_True in Hall by done. by apply bool_decide_eq_true in Hall.
Qed.

(** ** Statements that print *)

(** A statement that, while the invariant holds, prints the text [g x]. *)
Definition prints {W A} (I : proc W -> Prop) (f : A -> M W unit) (g : A -> bytes) (x : A) : Prop :=
  forall p, I p ->
    returns (f x) (fun _ p' => I p' /\ stdout_text (console p') = stdout_text (console p) ++ g x) p.

Lemma each_prints {W A} (I : proc W -> Prop) (f : A -> M W unit) g l p :
  Forall (prints I f g) l -> I p ->
  returns (each f l) (fun _ p' => I p' /\
    stdout_text (console p') = stdout_text (console p) ++ mjoin (g <$> l)) p.
Proof.
  intros Hl. revert p. induction Hl as [|x l Hx Hl IH]; intros p Hp; simpl.
  - mstep. by rewrite app_nil_r.
  - mstep. eapply returns_mono; [by apply Hx|]. intros _ p1 [H1 E1].
    eapply returns_mono; [by apply IH|]. intros _ p2 [H2 E2].
    split; [done|]. rewrite E2, E1. by rewrite <- app_assoc.
Qed.

(** ** [2/2]: sysconf and pathconf *)

Module Conf.

Definition SIZE_NAME : nat := 35.
Definition SIZE_VALUE : nat := 25.
Definition EINVAL : Z := 22.

(** One [#ifdef ... #else ... #endif] group of [main]: what is printed when the name is defined. *)
Inductive limit :=
| Compile (name : string)
| Sysconf (name : string)
| Pathconf (name : string).

Definition limit_name (l : limit) : string :=
  match l with Compile n | Sysconf n | Pathconf n => n end.

Section Report.
Context {W : Type} `{ConfOps W} `{CLib}.

Definition print_compile (name : bytes) (value : Z) : M W unit :=
  println (pad_right SIZE_NAME name ++ pad_right SIZE_VALUE (to_string value)).

Definition print_not_defined (name : bytes) : M W unit :=
  println (pad_right SIZE_NAME name ++ pad_right SIZE_VALUE (str "(not defined)")).

Definition pr_sysconf (mesg : bytes) (name : Z) : M W unit :=
  print (pad_right SIZE_NAME mesg) ;;
  set_errno 0 ;;
  val ← syscall_int (k_sysconf name);
  if val <? 0 then
    e ← get_errno;
    if negb (e =? 0) then
      if e =? EINVAL then println (str "(not supported)")
      else err_ret (str "sysconf error") []
    else println (str "(not limit)")
  else println (pad_right SIZE_VALUE (to_string val)).

Definition pr_pathconf (mesg path : bytes) (name : Z) : M W unit :=
  print (pad_right SIZE_NAME mesg) ;;
  set_errno 0 ;;
  val ← syscall_int (k_pathconf path name);
  if val <? 0 then
    e ← get_errno;
    if negb (e =? 0) then
      if e =? EINVAL then println (str "(not supported)")
      else err_ret (str "pathconf error for path " ++ path) []
    else println (str "(not limit)")
  else println (pad_right SIZE_VALUE (to_string val)).

(** [macro]: the values of the names the headers define. *)
Definition print_limit (macro : string -> option Z) (path : bytes) (l : limit) : M W unit :=
  match macro (limit_name l) with
  | None => print_not_defined (str (limit_name l))
  | Some v =>
      match l with
      | Compile n => print_compile (str n) v
      | Sysconf n => pr_sysconf (str n) v
      | Pathconf n => pr_pathconf (str n) path v
      end
  end.

(** The groups of [main], in order. *)
Definition limits_a : list limit :=
  [Compile "ARG_MAX"; Sysconf "_SC_ARG_MAX"; Compile "ATEXIT_MAX"; Sysconf "_SC_ATEXIT_MAX";
   Compile "CHARCLASS_NAME_MAX"; Sysconf "_SC_CHARCLASS_NAME_MAX"; Compile "CHILD_MAX";
   Sysconf "_SC_CHILD_MAX"; Compile "CLK_TCK"; Sysconf "_SC_CLK_TCK";
   Compile "COLL_WEIGHTS_MAX"; Sysconf "_SC_COLL_WEIGHTS_MAX"; Compile "HOST_NAME_MAX";
   Sysconf "_SC_HOST_NAME_MAX"; Compile "IOV_MAX"; Sysconf "_SC_IOV_MAX"; Compile "LINE_MAX";
   Sysconf "_SC_LINE_MAX"; Compile "LOGIN_NAME_MAX"; Sysconf "_SC_LOGIN_NAME_MAX";
   Compile "NGROUPS_MAX"; Sysconf "_SC_NGROUPS_MAX"].

Definition limits_b : list limit :=
  [Compile "OPEN_MAX"; Sysconf "_SC_OPEN_MAX"; Compile "PAGESIZE"; Compile "PAGE_SIZE";
   Sysconf "_SC_PAGESIZE"; Compile "RE_DUP_MAX"; Sysconf "_SC_RE_DUP_MAX";
   Compile "STREAM_MAX"; Sysconf "_SC_STREAM_MAX"; Compile "SYMLOOP_MAX";
   Sysconf "_SC_SYMLOOP_MAX"; Compile "TTY_NAME_MAX"; Sysconf "_SC_TTY_NAME_MAX";
   Compile "TZNAME_MAX"; Sysconf "_SC_TZNAME_MAX"; Pathconf "_PC_FILESIZEBITS"].

Definition limits_c : list limit :=
  [Compile "LINK_MAX"; Pathconf "_PC_LINK_MAX"; Compile "MAX_CANON"; Pathconf "_PC_MAX_CANON";
   Compile "MAX_INPUT"; Pathconf "_PC_MAX_INPUT"; Compile "NAME_MAX"; Pathconf "_PC_NAME_MAX";
   Compile "PATH_MAX"; Pathconf "_PC_PATH_MAX"; Compile "PIPE_BUF"; Pathconf "_PC_PIPE_BUF";
   Compile "SYMLINK_MAX"; Pathconf "_PC_SYMLINK_MAX"].

(** [argv] without its terminating null pointer. *)
Definition main (macro : string -> option Z) (argv : list bytes) : M W Z :=
  match argv with
  | [_; path] =>
      println (pad_right SIZE_NAME (str "Limit Name") ++ pad_right SIZE_VALUE (str "Value")) ;;
      each (print_limit macro path) limits_a ;;
      each (print_limit macro path) limits_b ;;
      each (print_limit macro path) limits_c ;;
      mret 0
  | _ => emit (Stderr (str "Usage: " ++ hd [] argv ++ str " <directory>")) ;; mret 1
  end.

(** *** What the report says *)

(** The answer of the system after the name; an error other than EINVAL is reported on the error
    channel and leaves the line open. *)
Definition answer_text (r : sysres Z) : bytes :=
  match r with
  | SysOk v => if v <? 0 then str "(not limit)" ++ [NL]
               else pad_right SIZE_VALUE (to_string v) ++ [NL]
  | SysErr e => if e =? EINVAL then str "(not supported)" ++ [NL] else []
  end.

Definition limit_line (macro : string -> option Z) (path : bytes) (w : W) (l : limit) : bytes :=
  pad_right SIZE_NAME (str (limit_name l)) ++
  match macro (limit_name l) with
  | None => pad_right SIZE_VALUE (str "(not defined)") ++ [NL]
  | Some v =>
      match l with
      | Compile _ => pad_right SIZE_VALUE (to_string v) ++ [NL]
      | Sysconf _ => answer_text (k_sysconf v w).1
      | Pathconf _ => answer_text (k_pathconf path v w).1
      end
  end.

Definition header_line : bytes :=
  pad_right SIZE_NAME (str "Limit Name") ++ pad_right SIZE_VALUE (str "Value") ++ [NL].

(** The queries leave the kernel as it is, and an error has a number. *)
Record conf_reads : Prop := {
  sysconf_reads n w : (k_sysconf n w).2 = w;
  pathconf_reads path n w : (k_pathconf path n w).2 = w;
  sysconf_error n w e : (k_sysconf n w).1 = SysErr e -> e <> 0;
  pathconf_error path n w e : (k_pathconf path n w).1 = SysErr e -> e <> 0;
}.

Hypothesis Hconf : conf_reads.


(** The queries as one action: [ask] prints the answer after the name. *)
Lemma query_prints (ask : W -> sysres Z * W) (fmt : bytes) (w : W) p :
  (forall u, (ask u).2 = u) -> (forall u e, (ask u).1 = SysErr e -> e <> 0) -> kern p = w ->
  returns
    (val ← syscall_int ask;
     if val <? 0 then
       e ← get_errno;
       if negb (e =? 0) then
         if e =? EINVAL then println (str "(not supported)") else err_ret fmt []
       else println (str "(not limit)")
     else println (pad_right SIZE_VALUE (to_string val)))
    (fun _ p' => kern p' = w /\
       stdout_text (console p') = stdout_text (console p) ++ answer_text (ask w).1)
    (Proc 0 (log_to_stderr p) (console p) (kern p)).
Proof.
  intros Hst Her <-. mstep. apply returns_syscall_int; simpl; intros x w' E;
    specialize (Hst (kern p)); rewrite E in Hst; simpl in Hst; subst w'; rewrite ?E; simpl.
  - destruct (Z.ltb_spec x 0); unfold println; msteps; split; auto;
      by rewrite stdout_text_snoc.
  - specialize (Her (kern p) x). rewrite E in Her. msteps. rewrite (proj2 (Z.eqb_neq x 0)) by auto. simpl.
    destruct (x =? EINVAL); unfold println; msteps; split; auto;
      autorewrite with console; by rewrite ?app_nil_r.
Qed.

Lemma print_limit_prints macro path w l :
  prints (fun p => kern p = w) (print_limit macro path) (limit_line macro path w) l.
Proof.
  intros p Hp. unfold print_limit, limit_line.
  destruct (macro (limit_name l)) as [v|].
  - destruct l; simpl; [|unfold pr_sysconf|unfold pr_pathconf]; unfold print_compile, println, print.
    + msteps. split; [done|]. by rewrite stdout_text_snoc, <- ?app_assoc.
    + do 4 mstep. simpl. eapply returns_mono.
      { refine (query_prints (k_sysconf v) _ w (Proc 0 (log_to_stderr p) (console p ++ _) (kern p)) _ _ Hp);
          apply Hconf. }
      intros _ p' [Hk E]. split; [done|]. rewrite E. simpl. by rewrite stdout_text_snoc, <- app_assoc.
    + do 4 mstep. simpl. eapply returns_mono.
      { refine (query_prints (k_pathconf path v) _ w (Proc 0 (log_to_stderr p) (console p ++ _) (kern p)) _ _ Hp);
          apply Hconf. }
      intros _ p' [Hk E]. split; [done|]. rewrite E. simpl. by rewrite stdout_text_snoc, <- app_assoc.
  - unfold print_not_defined, println. msteps. split; [done|].
    by rewrite stdout_text_snoc, <- ?app_assoc.
Qed.

(** For every set of macros, every directory and every state of the system, the report of
    [2/2] is the heading followed by one entry per name, in the order of the source: the name in
    its column, then the compile-time value, the answer of the system, "(not limit)" exactly when
    there is no limit, "(not supported)" for EINVAL, or "(not defined)"; a value of [errno] left
    by earlier calls never changes the report. *)
Theorem limits_report macro prog path p :
  returns (main macro [prog; path]) (fun r p' => r = 0 /\ kern p' = kern p /\
    stdout_text (console p') = stdout_text (console p) ++ header_line ++
      mjoin (limit_line macro path (kern p) <$> limits_a ++ limits_b ++ limits_c)) p.
Proof.
  set (I q := kern (W := W) q = kern p).
  assert (Hall : forall l, Forall (prints I (print_limit macro path) (limit_line macro path (kern p))) l).
  { intros l. apply Forall_true. apply print_limit_prints. }
  unfold main. mstep. unfold println. mstep. mstep.
  eapply returns_mono; [apply (each_prints I); [apply Hall|by red]|]. intros _ p1 [H1 E1]. mstep.
  eapply returns_mono; [apply (each_prints I); [apply Hall|done]|]. intros _ p2 [H2 E2]. mstep.
  eapply returns_mono; [apply (each_prints I); [apply Hall|done]|]. intros _ p3 [H3 E3]. mstep.
  split_and!; [done|exact H3|].
  rewrite E3, E2, E1. cbn [console]. rewrite stdout_text_snoc, !fmap_app, !join_app.
  unfold header_line. by rewrite <- !app_assoc.
Qed.

End Report.

Lemma sim_conf_reads : conf_reads (W := sim).
Proof. split; by intros. Qed.

Lemma limits_report_witness :
  exists p', main (W := sim) (fun _ => Some 4) [str "a.out"; str "/"] sim0 = (Ret 0, p').
Proof.
  destruct (proj1 (returns_eq _ _ _)
    (limits_report sim_conf_reads (fun _ => Some 4) (str "a.out") (str "/") sim0))
    as (r & p' & E & -> & _).
  by exists p'.
Defined.

(** A failing [pathconf] is reported with the path as part of the format string, so that a
    directory with a brace in its name is reported as a formatting error, without the cause. *)
Definition denied : ConfOps unit := {|
  k_sysconf _ w := (SysErr 13, w);
  k_pathconf _ _ w := (SysErr 13, w);
|}.

Lemma path_braces_hide_error :
  console (pr_pathconf (H := denied) (str "N") (str "/{") 3 (Proc 0 true [] ())).2
  = [Stdout (pad_right SIZE_NAME (str "N"));
     Stderr (str "Formatting error: pathconf error for path /{ (format error)")].
Proof. vm_compute. reflexivity. Qed.

End Conf.

(** ** [7/8]: resource limits *)

Module Rlimit.

Definition RLIM_INFINITY : Z := SIZE_MAX.

Section Rlimits.
Context {W : Type} `{ProcOps W} `{CLib}.

Definition pr_limits (name : bytes) (resource : Z) : M W unit :=
  r ← syscall (k_getrlimit resource);
  match r with
  | SysErr _ => err_sys (str "call getrlimit for {}") [name]
  | SysOk (rlim_cur, rlim_max) =>
      print (pad_right 20 name ++ str " ") ;;
      (if rlim_cur =? RLIM_INFINITY then print (pad_right 10 (str "(INF)"))
       else print (pad_right 10 (to_string rlim_cur) ++ str " ")) ;;
      (if rlim_max =? RLIM_INFINITY then print (pad_right 10 (str "(INF)"))
       else print (pad_right 10 (to_string rlim_max) ++ str " ")) ;;
      println []
  end.

(** The calls of [main]; the flag says that the call is under an [#ifdef] of the name. *)
Definition resources : list (bool * string) :=
  [(true, "RLIMIT_AS"); (false, "RLIMIT_CORE"); (false, "RLIMIT_CPU"); (false, "RLIMIT_DATA");
   (false, "RLIMIT_FSIZE"); (true, "RLIMIT_MEMLOCK"); (true, "RLIMIT_MSGQUEUE");
   (true, "RLIMIT_NICE"); (false, "RLIMIT_NOFILE"); (true, "RLIMIT_NPROC");
   (true, "RLIMIT_NPTS"); (true, "RLIMIT_RSS"); (true, "RLIMIT_SBSIZE");
   (true, "RLIMIT_SIGPENDING"); (false, "RLIMIT_STACK"); (true, "RLIMIT_SWAP");
   (true, "RLIMIT_VMEM")].

(** The program compiles when the unconditional names are defined: [value] gives the numbers of
    the names, [defined] says which of the conditional ones exist. *)
Definition rlimit_main (value : string -> Z) (defined : string -> bool) : M W Z :=
  each (fun '(conditional, name) =>
          if negb conditional || defined name then pr_limits (str name) (value name) else mret tt)
    resources ;;
  mret 0.

Definition limit_field (v : Z) : bytes :=
  if v =? RLIM_INFINITY then pad_right 10 (str "(INF)") else pad_right 10 (to_string v) ++ str " ".

Definition rlimit_line (name : bytes) (lim : Z * Z) : bytes :=
  pad_right 20 name ++ str " " ++ limit_field lim.1 ++ limit_field lim.2 ++ [NL].

Lemma pr_limits_prints name resource cur max p :
  k_getrlimit resource (kern p) = (SysOk (cur, max), kern p) ->
  returns (pr_limits name resource) (fun _ p' => kern p' = kern p /\
    stdout_text (console p') = stdout_text (console p) ++ rlimit_line name (cur, max)) p.
Proof.
  intros E. unfold pr_limits, rlimit_line, limit_field. mstep. apply returns_syscall.
  rewrite E. intros r w' [= <- <-]. unfold print, println.
  do 2 mstep. simpl. mstep. destruct (cur =? RLIM_INFINITY), (max =? RLIM_INFINITY);
    msteps; (split; [done|]); rewrite !stdout_text_snoc, <- !app_assoc; done.
Qed.

(** The program prints one line per resource the system defines when every [getrlimit] succeeds;
    the line of a resource has both limits, "(INF)" standing for RLIM_INFINITY only. *)
Theorem rlimit_main_spec value defined (lim : Z -> Z * Z) p :
  (forall n, k_getrlimit n (kern p) = (SysOk (lim n), kern p)) ->
  returns (rlimit_main value defined) (fun r p' => r = 0 /\ kern p' = kern p /\
    stdout_text (console p') = stdout_text (console p) ++
      mjoin ((fun e => rlimit_line (str e.2) (lim (value e.2))) <$>
        filter (fun e => (negb e.1 || defined e.2) = true) resources)) p.
Proof.
  intros Hlim. unfold rlimit_main. mstep.
  eapply returns_mono; [apply (each_prints (fun q => kern q = kern p)
    _ (fun e => if negb e.1 || defined e.2 then rlimit_line (str e.2) (lim (value e.2)) else []))|].
  - apply Forall_true. intros [c n] q Hq. simpl. destruct (negb c || defined n).
    + rewrite <- Hq. rewrite (surjective_pairing (lim (value n))). apply pr_limits_prints.
      rewrite <- surjective_pairing, Hq. apply Hlim.
    + mstep. by rewrite app_nil_r.
  - done.
  - intros _ p' [Hk E]. mstep. split_and!; [done..|]. rewrite E. f_equal.
    apply (join_guarded (fun e => negb e.1 || defined e.2)).
Qed.

(** When [getrlimit] fails the program exits with status 1 and names the resource. *)
Lemma pr_limits_error name resource e p :
  k_getrlimit resource (kern p) = (SysErr e, kern p) ->
  (pr_limits name resource p).1 = Exited 1 /\
  console (pr_limits name resource p).2
  = console p ++ [report (log_to_stderr p)
      (message (log_to_stderr p) e (str "call getrlimit for {}") [name])].
Proof.
  intros E. change (wp (pr_limits name resource) (fun o p' => o = Exited 1 /\ console p' =
    console p ++ [report (log_to_stderr p)
      (message (log_to_stderr p) e (str "call getrlimit for {}") [name])]) p).
  unfold pr_limits. wstep. rewrite E in H1. simplify_eq. wstep. done.
Qed.

End Rlimits.
End Rlimit.
