(* ===== verification/ProcThreads.v ===== *)
(** * Processes and threads: [makethread], [system] and [pr_exit] of
    [lib/apue_proc_threads.cpp], and [timeout] of [12/2_recursive_mutex.cpp] *)

From S2P Require Import Prelude Machine Errors Kernel SimKernel Text Time Limits.

(** ** [pr_exit]: the status words of [wait] *)

(** The macros of <sys/wait.h>. *)
Definition WTERMSIG (status : Z) : Z := Z.land status 127.
Definition WIFEXITED (status : Z) : bool := WTERMSIG status =? 0.
Definition WEXITSTATUS (status : Z) : Z := Z.shiftr (Z.land status 65280) 8.
Definition WIFSIGNALED (status : Z) : bool :=
  0 <? Z.shiftr (wrap_signed 8 (Z.land status 127 + 1)) 1.
Definition WCOREDUMP (status : Z) : bool := negb (Z.land status 128 =? 0).
Definition WIFSTOPPED (status : Z) : bool := Z.land status 255 =? 127.
Definition WSTOPSIG (status : Z) : Z := WEXITSTATUS status.

Section PrExit.
Context {W : Type}.

Definition pr_exit (status : Z) : M W unit :=
  if WIFEXITED status then
    println (str "Normal exit, exit code = " ++ to_string (WEXITSTATUS status))
  else if WIFSIGNALED status then
    println (str "Abort, exit code = " ++ to_string (WTERMSIG status) ++
               (if WCOREDUMP status then str " (created dump core)" else []))
  else if WIFSTOPPED status then
    println (str "Child process stopped, code signal = " ++ to_string (WSTOPSIG status))
  else mret tt.

End PrExit.

(** How a child changed state, and the word Linux reports for it. *)
Inductive change :=
| Exits (code : Z)
| Killed (signo : Z) (core : bool)
| Stopped (signo : Z).

Definition change_ok (c : change) : Prop :=
  match c with
  | Exits code => 0 <= code < 256
  | Killed signo _ => 1 <= signo < 65
  | Stopped signo => 1 <= signo < 65
  end.

Definition encode_status (c : change) : Z :=
  match c with
  | Exits code => Z.shiftl code 8
  | Killed signo core => Z.lor signo (if core then 128 else 0)
  | Stopped signo => Z.lor (Z.shiftl signo 8) 127
  end.

Definition change_text (c : change) : bytes :=
  match c with
  | Exits code => str "Normal exit, exit code = " ++ to_string code
  | Killed signo core =>
      str "Abort, exit code = " ++ to_string signo ++
      (if core then str " (created dump core)" else [])
  | Stopped signo => str "Child process stopped, code signal = " ++ to_string signo
  end.

(** The status of each change is recognised, and the number it carries is read back. *)
Definition decoded (c : change) : bool :=
  let s := encode_status c in
  match c with
  | Exits code => WIFEXITED s && (WEXITSTATUS s =? code)
  | Killed signo core =>
      negb (WIFEXITED s) && WIFSIGNALED s && (WTERMSIG s =? signo) && eqb (WCOREDUMP s) core
  | Stopped signo =>
      negb (WIFEXITED s) && negb (WIFSIGNALED s) && WIFSTOPPED s && (WSTOPSIG s =? signo)
  end.

Lemma all_decoded c : change_ok c -> decoded c = true.
Proof.
  assert (He : forallb (fun n => decoded (Exits (Z.of_nat n))) (seq 0 256) = true) by by vm_compute.
  assert (Hk : forallb (fun n => decoded (Killed (Z.of_nat n) true) && decoded (Killed (Z.of_nat n) false)
                                 && decoded (Stopped (Z.of_nat n))) (seq 1 64) = true) by by vm_compute.
  rewrite forallb_forall in He, Hk.
  destruct c as [code|signo core|signo]; simpl; intros Hc.
  - rewrite <- (Z2Nat.id code) by lia. apply He, in_seq. lia.
  - specialize (Hk (Z.to_nat signo) ltac:(apply in_seq; lia)). rewrite Z2Nat.id in Hk by lia.
    rewrite !andb_true_iff in Hk. destruct Hk as [[Ht Hf] _]. by destruct core.
  - specialize (Hk (Z.to_nat signo) ltac:(apply in_seq; lia)). rewrite Z2Nat.id in Hk by lia.
    rewrite !andb_true_iff in Hk. apply Hk.
Qed.

(** [pr_exit] says what happened: for every way a child exits, is killed (with or without a
    core dump) or is stopped, it prints the one line with that kind and its number. *)
Theorem pr_exit_spec {W} c (p : proc W) :
  change_ok c ->
  pr_exit (encode_status c) p =
  (Ret tt, Proc (errno p) (log_to_stderr p) (console p ++ [Stdout (change_text c ++ [NL])]) (kern p)).
Proof.
  intros Hc. pose proof (all_decoded c Hc) as Hd. unfold pr_exit.
  destruct c as [code|signo core|signo]; unfold decoded in Hd; cbv zeta in Hd;
    rewrite !andb_true_iff in Hd; rewrite ?negb_true_iff, ?Z.eqb_eq in Hd.
  - destruct Hd as [-> ->]. done.
  - destruct Hd as [[[-> ->] ->] Hb%eqb_prop]. by rewrite Hb.
  - destruct Hd as [[[-> ->] ->] ->]. done.
Qed.

Lemma pr_exit_spec_witness :
  let p0 : proc unit := Proc 0 true [] tt in
  (pr_exit (encode_status (Killed 11 true)) p0).1 = Ret tt /\
  console (pr_exit 139 p0).2 = [Stdout (str "Abort, exit code = 11 (created dump core)" ++ [NL])].
Proof.
  split.
  - rewrite pr_exit_spec; [reflexivity|]. simpl. lia.
  - reflexivity.
Defined.

(** ** [system] *)

Definition EINTR : Z := 4.

Class WaitOps (W : Type) := {
  k_fork : W -> sysres Z * W;
  k_waitpid : Z -> W -> sysres Z * W;      (* the status *)
  k_execl : list bytes -> W -> Z * W;      (* returns only when it fails: the error *)
}.

Section System.
Context {W : Type} `{WaitOps W}.

(** The parent's loop around [waitpid]. *)
Fixpoint wait_loop (fuel : nat) (pid : Z) : M W Z :=
  match fuel with
  | O => out_of_fuel
  | S fuel =>
      r ← syscall (k_waitpid pid);
      match r with
      | SysOk status => mret status
      | SysErr _ =>
          e ← get_errno;
          if negb (e =? EINTR) then mret (-1) else wait_loop fuel pid
      end
  end.

(** The child, when [execl] comes back. *)
Definition system_child (cmdstring : bytes) : M W Z := fun p =>
  let '(e, w) := k_execl [str "/bin/sh"; str "sh"; str "-c"; cmdstring] (kern p) in
  sys_exit 127 (Proc e (log_to_stderr p) (console p) w).

Definition system (fuel : nat) (cmdstring : option bytes) : M W Z :=
  match cmdstring with
  | None => mret 1
  | Some cmd =>
      pid ← syscall_int k_fork;
      if pid <? 0 then mret (-1)
      else if pid =? 0 then system_child cmd
      else wait_loop fuel pid
  end.

(** [n] calls of [waitpid] were interrupted, leading from [w] to [w']. *)
Inductive interrupted (pid : Z) : nat -> W -> W -> Prop :=
| int_0 w : interrupted pid 0 w w
| int_S n w w1 w2 :
    k_waitpid pid w = (SysErr EINTR, w1) -> interrupted pid n w1 w2 -> interrupted pid (S n) w w2.

Lemma wait_loop_spec pid n w w1 r w2 fuel p :
  interrupted pid n w w1 -> k_waitpid pid w1 = (r, w2) -> r <> SysErr EINTR ->
  kern p = w -> (n < fuel)%nat ->
  (wait_loop fuel pid p).1 = Ret (match r with SysOk status => status | SysErr _ => -1 end) /\
  kern (wait_loop fuel pid p).2 = w2.
Proof.
  intros Hint. revert fuel p. induction Hint as [w|n w wa wb Ha Hint IH]; intros fuel p Hr Hne Hp Hf;
    destruct fuel as [|fuel]; try lia; simpl; unfold mbind, M_bind, syscall; simpl.
  - rewrite Hp, Hr. destruct r as [status|e]; [done|]. simpl.
    destruct (Z.eqb_spec e EINTR) as [->|]; done.
  - rewrite Hp, Ha. simpl. change (EINTR =? EINTR) with true. simpl. apply IH; [done|done|done|lia].
Qed.

(** [system] without a command answers 1; when [fork] fails, -1; otherwise the parent waits
    for this child through any number of interrupting signals and returns the child's status, or
    -1 when waiting fails for another reason; a child whose [exec] fails exits with 127. *)
Theorem system_spec cmd p w0 fuel :
  system fuel None p = (Ret 1, p) /\
  (forall e, k_fork (kern p) = (SysErr e, w0) -> (system fuel (Some cmd) p).1 = Ret (-1)) /\
  (k_fork (kern p) = (SysOk 0, w0) -> (system fuel (Some cmd) p).1 = Exited 127) /\
  (forall pid n w1 r w2, 0 < pid -> k_fork (kern p) = (SysOk pid, w0) ->
     interrupted pid n w0 w1 -> k_waitpid pid w1 = (r, w2) -> r <> SysErr EINTR -> (n < fuel)%nat ->
     (system fuel (Some cmd) p).1 = Ret (match r with SysOk status => status | SysErr _ => -1 end)).
Proof.
  split; [done|]. unfold system, syscall_int, mbind, M_bind, syscall. split; [|split].
  - intros e E. by rewrite E.
  - intros E. rewrite E. simpl. unfold system_child. simpl. by destruct (k_execl _ _).
  - intros pid n w1 r w2 Hpid E Hint Hr Hne Hf. rewrite E. simpl.
    rewrite (proj2 (Z.ltb_ge _ _)), (proj2 (Z.eqb_neq _ _)) by lia.
    by eapply (wait_loop_spec pid n w0 w1).
Qed.

End System.

(** A child that is waited for through two interruptions. *)
#[export] Instance countdown : WaitOps (nat * Z) := {|
  k_fork w := (SysOk 42, w);
  k_waitpid _ w := match w.1 with O => (SysOk w.2, w) | S n => (SysErr EINTR, (n, w.2)) end;
  k_execl _ w := (2, w);
|}.

Lemma system_spec_witness :
  (system 3 (Some (str "date")) (Proc 0 true [] (2%nat, 256))).1 = Ret 256.
Proof.
  destruct (system_spec (str "date") (Proc 0 true [] (2%nat, 256)) (2%nat, 256) 3) as (_ & _ & _ & H).
  apply (H 42 2%nat (0%nat, 256) (SysOk 256) (0%nat, 256)); try done; [|lia].
  eapply int_S; [reflexivity|]. eapply int_S; [reflexivity|]. apply int_0.
Defined.

(** ** [makethread], and [timeout] of [12/2] *)

(** Threads that run a routine of type [F]; calls return an error number. *)
Class ThreadOps (F W : Type) := {
  k_attr_init : W -> Z * W;
  k_attr_setdetachstate : W -> Z * W;      (* PTHREAD_CREATE_DETACHED *)
  k_create : F -> W -> Z * W;
  k_attr_destroy : W -> Z * W;
}.

Section Threads.
Context {F W : Type} `{ThreadOps F W}.

Definition pcall (f : W -> Z * W) : M W Z := fun p =>
  let '(e, w) := f (kern p) in (Ret e, Proc (errno p) (log_to_stderr p) (console p) w).

Definition makethread (fn : F) : M W Z :=
  err ← pcall k_attr_init;
  if negb (err =? 0) then mret err
  else
    err ← pcall k_attr_setdetachstate;
    err ← (if err =? 0 then pcall (k_create fn) else mret err);
    pcall k_attr_destroy ;;
    mret err.

End Threads.

(** What POSIX says: attribute objects in existence, the detach state of the current one, the
    threads created and whether they are detached. *)
Class ThreadSpec (F W : Type) `{ThreadOps F W} := {
  attrs_live : W -> nat;
  attr_detached : W -> bool;
  threads : W -> list (bool * F);
  attr_init_law w e w' : k_attr_init w = (e, w') -> threads w' = threads w /\
    attrs_live w' = (if e =? 0 then S (attrs_live w) else attrs_live w);
  attr_setdetachstate_law w e w' : k_attr_setdetachstate w = (e, w') ->
    threads w' = threads w /\ attrs_live w' = attrs_live w /\ (e = 0 -> attr_detached w' = true);
  create_law f w e w' : k_create f w = (e, w') -> attrs_live w' = attrs_live w /\
    threads w' = (if e =? 0 then threads w ++ [(attr_detached w, f)] else threads w);
  attr_destroy_law w e w' : k_attr_destroy w = (e, w') ->
    threads w' = threads w /\ attrs_live w' = pred (attrs_live w);
}.

Section ThreadFacts.
Context {F W : Type} `{TS : ThreadSpec F W}.
Implicit Types p : proc W.

Lemma returns_pcall f (Q : Z -> proc W -> Prop) p :
  (forall e w', f (kern p) = (e, w') -> Q e (Proc (errno p) (log_to_stderr p) (console p) w')) ->
  returns (pcall f) Q p.
Proof. unfold returns, wp, pcall. destruct (f (kern p)) as [e w'] eqn:E. simpl. auto. Qed.

(** [makethread] creates exactly one thread, detached, with the routine given, when it returns
    zero, and none when it returns an error; in every case it has destroyed the attributes it
    initialised. *)
Lemma makethread_returns (fn : F) p :
  returns (makethread fn) (fun err p' =>
    attrs_live (kern p') = attrs_live (kern p) /\ console p' = console p /\
    threads (kern p') = threads (kern p) ++ (if err =? 0 then [(true, fn)] else [])) p.
Proof.
  unfold makethread. mstep. apply returns_pcall. intros e w1 [Ht1 Hl1]%attr_init_law.
  destruct (Z.eqb_spec e 0) as [->|Hne]; simpl.
  2:{ mstep. simpl. rewrite (proj2 (Z.eqb_neq _ _) Hne), app_nil_r. done. }
  mstep. apply returns_pcall. intros e w2 (Ht2 & Hl2 & Hd)%attr_setdetachstate_law.
  simpl in Ht2, Hl2, Hd.
  assert (Hfin : forall e' p', threads (kern p') = threads (kern p) ++ (if e' =? 0 then [(true, fn)] else []) ->
    attrs_live (kern p') = S (attrs_live (kern p)) -> console p' = console p ->
    returns (pcall k_attr_destroy ;; mret e') (fun err p' =>
      attrs_live (kern p') = attrs_live (kern p) /\ console p' = console p /\
      threads (kern p') = threads (kern p) ++ (if err =? 0 then [(true, fn)] else [])) p').
  { intros e' p' Ht Hl Hc. mstep. apply returns_pcall. intros e'' w3 [Ht3 Hl3]%attr_destroy_law. mstep.
    simpl. rewrite Hl3, Ht3, Hl, Hc. done. }
  mstep. destruct (Z.eqb_spec e 0) as [->|Hne]; simpl.
  - apply returns_pcall. intros e w3 [Hl3 Ht3]%create_law. simpl in Hl3, Ht3.
    apply Hfin; simpl; [|congruence|done]. rewrite Ht3, Ht2, Ht1, Hd by done.
    destruct (e =? 0); by rewrite ?app_nil_r.
  - mstep. apply Hfin; simpl; [|congruence|done].
    rewrite (proj2 (Z.eqb_neq _ _) Hne), app_nil_r. congruence.
Qed.

End ThreadFacts.

(** [to_info] and the routine of the new thread. *)
Record to_info := ToInfo { to_fn : Z; to_arg : Z; absolute_time : timespec }.

Section Timeout.
Context {W : Type} `{ThreadOps to_info W} (call : Z -> Z -> M W unit).

(** [timeout]: [call] is the call of a function with its argument.  The thread runs
    [timeout_helper], which sleeps until the time and calls the function. *)
Definition timeout (when : Z) (func arg : Z) : M W unit :=
  match to_timespec when with
  | None => sys_abort
  | Some ts =>
      err ← makethread (ToInfo func arg ts);
      if err =? 0 then mret tt else call func arg
  end.

Definition timeout_helper (tip : to_info) : M W unit := call (to_fn tip) (to_arg tip).

End Timeout.

(** A function whose calls are printed. *)
Definition traced {W} (label : Z -> Z -> bytes) (func arg : Z) : M W unit :=
  emit (Stdout (label func arg)).

(** [timeout] has its function called exactly once with its argument: either in a new,
    detached thread that sleeps until the time given, or, when no thread could be created, at
    once; and it leaks no thread attributes. *)
Theorem timeout_calls_once {W} `{TS : ThreadSpec to_info W} label when func arg ts (p : proc W) :
  to_timespec when = Some ts ->
  returns (timeout (traced label) when func arg) (fun _ p' =>
    exists new, threads (kern p') = threads (kern p) ++ new /\
      Forall (fun th => th = (true, ToInfo func arg ts)) new /\
      attrs_live (kern p') = attrs_live (kern p) /\
      exists p'', foldl (fun q th => (timeout_helper (traced label) th.2 q).2) p' new = p'' /\
        console p'' = console p ++ [Stdout (label func arg)]) p.
Proof.
  intros Hts. unfold timeout. rewrite Hts. mstep.
  eapply returns_mono; [apply makethread_returns|]. intros err p1 (Hl & Hc & Ht).
  destruct (err =? 0).
  - mstep. exists [(true, ToInfo func arg ts)]. split; [done|]. split; [by constructor|].
    split; [done|]. eexists. split; [done|]. simpl. by rewrite Hc.
  - unfold traced. mstep. exists []. split; [done|]. split; [done|]. split; [done|].
    eexists. split; [done|]. simpl. by rewrite Hc.
Qed.

(** A system with room for one more thread. *)
#[export] Instance room : ThreadOps to_info (nat * bool * list (bool * to_info)) := {|
  k_attr_init w := (0, (S w.1.1, false, w.2));
  k_attr_setdetachstate w := (0, (w.1.1, true, w.2));
  k_create f w := if (length w.2 =? 0)%nat then (0, (w.1, w.2 ++ [(w.1.2, f)])) else (11, w);
  k_attr_destroy w := (0, (pred w.1.1, w.1.2, w.2));
|}.

#[export] Instance room_spec : ThreadSpec to_info (nat * bool * list (bool * to_info)).
Proof.
  refine {| attrs_live w := w.1.1; attr_detached w := w.1.2; threads w := w.2 |}.
  - by intros w e w' [= <- <-].
  - by intros w e w' [= <- <-].
  - intros f w e w' E. simpl in E. destruct (length w.2 =? 0)%nat; by injection E as <- <-.
  - by intros w e w' [= <- <-].
Defined.

Lemma timeout_calls_once_witness :
  let label _ _ := str "Retry" in
  let p0 : proc (nat * bool * list (bool * to_info)) := Proc 0 true [] (0%nat, false, []) in
  returns (timeout (traced label) 2500000000 0 1) (fun _ p' =>
    exists new, threads (kern p') = new /\
      Forall (fun th => th = (true, ToInfo 0 1 (Timespec 2 500000000))) new) p0.
Proof.
  eapply returns_mono; [by apply timeout_calls_once|]. intros _ p' (new & Ht & Hn & _).
  exists new. split; [exact Ht|exact Hn].
Defined.
