(* ===== verification/Stdio.v ===== *)
(** * Buffered streams of the C library

    [getc], [fgets] and [fputs] over streams of the system, and the two copy loops
    [5/1_usage_getc_putc.cpp] and [5/2_usage_fgets_fputs.cpp].  A stream is a number; what it
    still delivers and what was written to it are observations of the state. *)

From S2P Require Import Prelude Machine Errors Kernel SimKernel Text.
From S2P Require Import Limits.

Class StdioOps (W : Type) := {
  k_getc : Z -> W -> option Z * W;              (* None: EOF *)
  k_ferror : Z -> W -> bool;
  k_fwrite : Z -> bytes -> W -> bool * W;       (* false: EOF *)
  k_fflush : Z -> W -> W;
}.

Definition stdin : Z := 0.
Definition stdout : Z := 1.
Definition MAXLINE : nat := 4096.

Section Calls.
Context {W : Type} `{StdioOps W}.

(** A call that leaves [errno] alone. *)
Definition call {A} (f : W -> A * W) : M W A := fun p =>
  let '(a, w) := f (kern p) in (Ret a, Proc (errno p) (log_to_stderr p) (console p) w).

Definition getc (s : Z) : M W (option Z) := call (k_getc s).
Definition putc (c s : Z) : M W bool := call (k_fwrite s [c]).
Definition ferror (s : Z) : M W bool := call (fun w => (k_ferror s w, w)).
Definition fflush (s : Z) : M W unit := call (fun w => (tt, k_fflush s w)).

(** [fputs] writes the C string, without the terminating zero. *)
Definition fputs (buf : bytes) (s : Z) : M W bool := call (k_fwrite s (c_string buf)).

(** [fgets]: at most [n] more characters, up to a newline; [None] at the end of the input when
    nothing was read, or on an error.  The result is the buffer before its terminating zero. *)
Fixpoint fgets_loop (n : nat) (s : Z) (buf : bytes) : M W (option bytes) :=
  match n with
  | O => mret (Some buf)
  | S n =>
      c ← getc s;
      match c with
      | None =>
          e ← ferror s;
          mret (if (e : bool) || empty buf then None else Some buf)
      | Some c => if c =? NL then mret (Some (buf ++ [c])) else fgets_loop n s (buf ++ [c])
      end
  end.

Definition fgets (size : nat) (s : Z) : M W (option bytes) := fgets_loop (size - 1) s [].

End Calls.

(** ** [5/1] and [5/2] *)

Section Programs.
Context {W : Type} `{StdioOps W} `{CLib}.

Fixpoint copy_chars (fuel : nat) : M W unit :=
  match fuel with
  | O => out_of_fuel
  | S fuel =>
      c ← getc stdin;
      match c with
      | None => mret tt
      | Some c =>
          ok ← putc c stdout;
          (if ok : bool then mret tt else err_sys (str "call putc") []) ;;
          copy_chars fuel
      end
  end.

Definition getc_putc_main (fuel : nat) : M W Z :=
  copy_chars fuel ;;
  e ← ferror stdin;
  if e : bool then err_sys (str "call getc") [] else mret 0.

(** [while (fgets(line, MAXLINE, fp) != NULL) body]; the body says whether the loop goes on. *)
Fixpoint while_fgets (fuel : nat) (s : Z) (body : bytes -> M W bool) : M W unit :=
  match fuel with
  | O => out_of_fuel
  | S fuel =>
      l ← fgets MAXLINE s;
      match l with
      | None => mret tt
      | Some buf =>
          go ← body buf;
          if go : bool then while_fgets fuel s body else mret tt
      end
  end.

(** [if (fputs(buf, s) == EOF) err_sys(text);] *)
Definition fputs_or_exit (s : Z) (text buf : bytes) : M W bool :=
  ok ← fputs buf s;
  if ok : bool then mret true else err_sys text [].

Definition copy_line : bytes -> M W bool := fputs_or_exit stdout (str "call fputs").

Definition copy_lines (fuel : nat) : M W unit := while_fgets fuel stdin copy_line.

Definition fgets_fputs_main (fuel : nat) : M W Z :=
  copy_lines fuel ;;
  e ← ferror stdin;
  if e : bool then err_sys (str "call fgets") [] else sys_exit 0.

End Programs.

(** ** Streams *)

(** [input w s]: what [s] still delivers; [breaks w s]: the input ends with an error, not with
    the end of the file; [written w s]: what was written. *)
Class StdioSpec (W : Type) `{StdioOps W} := {
  input : W -> Z -> bytes;
  breaks : W -> Z -> bool;
  written : W -> Z -> bytes;
  getc_law s w c w' : k_getc s w = (c, w') ->
    (forall t, breaks w' t = breaks w t) /\ (forall t, written w' t = written w t) /\
    (forall t, t <> s -> input w' t = input w t) /\
    match c with
    | Some c => input w s = c :: input w' s
    | None => input w s = [] /\ input w' s = [] /\ k_ferror s w' = breaks w s
    end;
  fwrite_law s d w ok w' : k_fwrite s d w = (ok, w') ->
    (forall t, breaks w' t = breaks w t) /\ (forall t, input w' t = input w t) /\
    (forall t, t <> s -> written w' t = written w t) /\
    (ok = true -> written w' s = written w s ++ d);
  fflush_law s w t : breaks (k_fflush s w) t = breaks w t /\ input (k_fflush s w) t = input w t /\
    written (k_fflush s w) t = written w t;
}.

Section Facts.
Context {W : Type} `{SS : StdioSpec W} `{CLib}.
Implicit Types p : proc W.

Lemma returns_call {A} (f : W -> A * W) (Q : A -> proc W -> Prop) p :
  (forall a w, f (kern p) = (a, w) -> Q a (Proc (errno p) (log_to_stderr p) (console p) w)) ->
  returns (call f) Q p.
Proof. unfold returns, wp, call. destruct (f (kern p)) as [a w]. intros HQ. by apply HQ. Qed.

(** Everything but the input of [s] is as in [p]. *)
Record reads (s : Z) (p p' : proc W) : Prop := {
  rd_errno : errno p' = errno p;
  rd_console : console p' = console p;
  rd_stderr : log_to_stderr p' = log_to_stderr p;
  rd_breaks t : breaks (kern p') t = breaks (kern p) t;
  rd_written t : written (kern p') t = written (kern p) t;
  rd_input t : t <> s -> input (kern p') t = input (kern p) t;
  rd_calls : rtc (fun w w' => w' = (k_getc s w).2) (kern p) (kern p');
}.

Lemma reads_refl s p : reads s p p.
Proof. by split. Qed.

Lemma reads_trans s p1 p2 p3 : reads s p1 p2 -> reads s p2 p3 -> reads s p1 p3.
Proof.
  intros [E1 E2 E3 E4 E5 E6 E7] [F1 F2 F3 F4 F5 F6 F7].
  split; intros; rewrite ?F1, ?F2, ?F3, ?F4, ?F5, ?F6; auto. by etrans.
Qed.

(** What [getc] keeps is kept. *)
Lemma reads_keeps {A} (f : W -> A) s p p' :
  (forall w, f (k_getc s w).2 = f w) -> reads s p p' -> f (kern p') = f (kern p).
Proof.
  intros Hf Hr. induction (rd_calls s p p' Hr) as [|w1 w2 w3 -> _ IH]; [done|]. by rewrite IH, Hf.
Qed.

Lemma returns_getc s (Q : option Z -> proc W -> Prop) p :
  (forall c p', input (kern p) s = c :: input (kern p') s -> reads s p p' -> Q (Some c) p') ->
  (forall p', input (kern p) s = [] -> input (kern p') s = [] -> reads s p p' ->
     k_ferror s (kern p') = breaks (kern p) s -> Q None p') ->
  returns (getc s) Q p.
Proof.
  intros H1 H2. apply returns_call. intros c w E.
  assert (Hcall : w = (k_getc s (kern p)).2) by (by rewrite E).
  apply getc_law in E as (Hb & Hw & Hi & Hc).
  assert (Hr : reads s p (Proc (errno p) (log_to_stderr p) (console p) w)).
  { split; simpl; auto. by apply rtc_once. }
  destruct c as [c|]; [by apply H1|]. destruct Hc as (? & ? & ?). by apply H2.
Qed.

Lemma returns_ferror s (Q : bool -> proc W -> Prop) p :
  Q (k_ferror s (kern p)) p -> returns (ferror s) Q p.
Proof. intros HQ. apply returns_call. intros a w [= <- <-]. by destruct p. Qed.

(** What [fgets] takes from the input. *)
Fixpoint take_line (n : nat) (inp : bytes) : bytes :=
  match n, inp with
  | S n, c :: r => if c =? NL then [c] else c :: take_line n r
  | _, _ => []
  end.

Lemma take_line_drop n inp : inp = take_line n inp ++ drop (length (take_line n inp)) inp.
Proof.
  revert inp. induction n as [|n IH]; intros [|c r]; try done. simpl.
  destruct (c =? NL); simpl; [by rewrite drop_0|]. f_equal. apply IH.
Qed.

Lemma take_line_nonempty n c r : (0 < n)%nat -> take_line n (c :: r) <> [].
Proof. destruct n; [lia|]. simpl. by destruct (c =? NL). Qed.

Lemma returns_fgets_loop n s buf (Q : option bytes -> proc W -> Prop) p :
  (forall p', input (kern p') s = drop (length (take_line n (input (kern p) s))) (input (kern p) s) ->
     n = 0%nat \/ buf ++ take_line n (input (kern p) s) <> [] ->
     reads s p p' -> Q (Some (buf ++ take_line n (input (kern p) s))) p') ->
  (forall p', input (kern p') s = [] -> reads s p p' ->
     k_ferror s (kern p') = breaks (kern p) s ->
     breaks (kern p) s = true \/ buf ++ input (kern p) s = [] -> Q None p') ->
  returns (fgets_loop n s buf) Q p.
Proof.
  revert buf p. induction n as [|n IH]; intros buf p HS HN; cbn [fgets_loop].
  - mstep. specialize (HS p eq_refl (or_introl eq_refl) (reads_refl s p)). cbn in HS.
    by rewrite app_nil_r in HS.
  - mstep. apply returns_getc.
    + intros c p' E Hr. rewrite E in *. cbn [take_line] in *. destruct (Z.eqb_spec c NL) as [->|Hc].
      * mstep. apply HS; [simpl; by rewrite drop_0|right; by destruct buf|done].
      * apply IH.
        -- intros p2 E2 _ Hr2. rewrite <- app_assoc.
           apply HS; [done|right; by destruct buf|by eapply reads_trans].
        -- intros p2 E2 Hr2 He Hor. rewrite (rd_breaks s p p' Hr) in *.
           apply HN; [done|by eapply reads_trans|done|]. destruct Hor as [|Hor]; [by left|].
           by rewrite <- app_assoc in Hor; destruct buf.
    + intros p' E E' Hr He. rewrite E in *. mstep. apply returns_ferror. mstep. rewrite He.
      destruct (breaks (kern p) s) eqn:Eb; simpl.
      * apply HN; auto.
      * destruct buf as [|b buf]; simpl; [apply HN; auto|].
        specialize (HS p'). rewrite app_nil_r in HS. apply HS; auto.
Qed.

(** [fgets] takes a line, cut at the size of the buffer; it returns null at the end of the input
    and when the input breaks off. *)
Lemma returns_fgets size s (Q : option bytes -> proc W -> Prop) p :
  let l := take_line (size - 1) (input (kern p) s) in
  (1 < size)%nat ->
  (forall p', input (kern p) s = l ++ input (kern p') s -> l <> [] -> reads s p p' -> Q (Some l) p') ->
  (forall p', input (kern p') s = [] -> reads s p p' -> k_ferror s (kern p') = breaks (kern p) s ->
     breaks (kern p) s = true \/ input (kern p) s = [] -> Q None p') ->
  returns (fgets size s) Q p.
Proof.
  intros l Hsize HS HN. apply returns_fgets_loop.
  - intros p' E Hl Hr. apply HS; [|by destruct Hl; [lia|]|done]. rewrite E. apply take_line_drop.
  - intros p' E Hr He Hor. by apply HN.
Qed.

Lemma returns_fwrite s d (Q : bool -> proc W -> Prop) p :
  (forall ok p', errno p' = errno p -> console p' = console p -> log_to_stderr p' = log_to_stderr p ->
     (forall t, breaks (kern p') t = breaks (kern p) t) ->
     (forall t, input (kern p') t = input (kern p) t) ->
     (forall t, t <> s -> written (kern p') t = written (kern p) t) ->
     (ok = true -> written (kern p') s = written (kern p) s ++ d) -> Q ok p') ->
  returns (call (k_fwrite s d)) Q p.
Proof.
  intros HQ. apply returns_call. intros ok w E. apply fwrite_law in E as (? & ? & ? & ?).
  by apply HQ.
Qed.

(** Some write to the stream fails. *)
Definition fails (s : Z) : Prop := exists d w, (k_fwrite s d w).1 = false.

Lemma returns_fwrite_ok s d (Q : bool -> proc W -> Prop) p :
  (forall (ok : bool) p',
     (forall t, breaks (kern p') t = breaks (kern p) t) ->
     (forall t, input (kern p') t = input (kern p) t) ->
     (if ok then written (kern p') s = written (kern p) s ++ d else fails s) -> Q ok p') ->
  returns (call (k_fwrite s d)) Q p.
Proof.
  intros HQ. apply returns_call. intros ok w E. apply fwrite_law in E as L.
  destruct L as (? & ? & ? & Hw). apply HQ; auto. destruct ok; [by apply Hw|].
  exists d, (kern p). by rewrite E.
Qed.

(** The outcome of a copy of standard input through [f]: everything the input delivered was
    written, or there was an error and the program ended with status 1. *)
Definition copy_post {A} (done : outcome A) (f : bytes -> bytes) (p : proc W)
  (o : outcome A) (p' : proc W) : Prop :=
  (o = done /\ breaks (kern p) stdin = false /\
   written (kern p') stdout = written (kern p) stdout ++ f (input (kern p) stdin)) \/
  (o = Exited 1 /\ (breaks (kern p) stdin = true \/ fails stdout)).

Lemma copy_chars_wp fuel p :
  (length (input (kern p) stdin) < fuel)%nat ->
  wp (copy_chars fuel) (fun o p' =>
    (o = Ret tt /\ k_ferror stdin (kern p') = breaks (kern p) stdin /\
     written (kern p') stdout = written (kern p) stdout ++ input (kern p) stdin) \/
    (o = Exited 1 /\ fails stdout)) p.
Proof.
  revert p. induction fuel as [|fuel IH]; intros p Hf; [lia|]. cbn [copy_chars].
  apply wp_bind_ret, returns_getc.
  - intros c p1 E Hr. rewrite E in *. simpl in Hf.
    apply wp_bind_ret, returns_fwrite_ok. intros ok p2 Hb Hi Hw. destruct ok.
    + apply wp_bind_ret. mstep. eapply wp_mono; [apply IH; rewrite Hi; lia|].
      intros o p3 [(-> & He & Hw3)|?]; [left|by right].
      rewrite He, Hw3, Hw, Hi, Hb, (rd_breaks _ _ _ Hr), (rd_written _ _ _ Hr).
      split_and!; [done..|]. by rewrite <- app_assoc.
    + apply wp_bind. wstep. by right.
  - intros p1 E E1 Hr He. wstep. left. rewrite E, app_nil_r, (rd_written _ _ _ Hr). done.
Qed.

(** [5/1] copies its input byte for byte: when it returns, the input has ended without an
    error and exactly its bytes were written; otherwise it exits with status 1, and only when the
    input broke off or a write failed. *)
Theorem getc_putc_copies fuel p :
  (length (input (kern p) stdin) < fuel)%nat ->
  wp (getc_putc_main fuel) (copy_post (Ret 0) id p) p.
Proof.
  intros Hf. unfold getc_putc_main. apply wp_bind. eapply wp_mono; [by apply copy_chars_wp|].
  intros o p1 [(-> & He & Hw)|[-> Hfail]]; [|right; split; [done|by right]].
  apply wp_bind_ret, returns_ferror. rewrite He. destruct (breaks (kern p) stdin) eqn:Eb; wstep.
  - right. auto.
  - left. done.
Qed.

(** The lines that calls of [fgets] deliver. *)
Fixpoint lines (fuel : nat) (inp : bytes) : list bytes :=
  match fuel, inp with
  | S fuel, _ :: _ =>
      let l := take_line (MAXLINE - 1) inp in l :: lines fuel (drop (length l) inp)
  | _, _ => []
  end.

(** What is left of them as C strings. *)
Definition through_lines (fuel : nat) (inp : bytes) : bytes := mjoin (c_string <$> lines fuel inp).

Lemma take_line_shrinks c r :
  (length (drop (length (take_line (MAXLINE - 1) (c :: r))) (c :: r)) < length (c :: r))%nat.
Proof.
  rewrite length_drop. pose proof (take_line_nonempty (MAXLINE - 1) c r) as Hne.
  destruct (take_line (MAXLINE - 1) (c :: r)); [|simpl; lia].
  exfalso. apply Hne; [unfold MAXLINE; lia|done].
Qed.

Lemma lines_join fuel inp : (length inp <= fuel)%nat -> mjoin (lines fuel inp) = inp.
Proof.
  revert inp. induction fuel as [|fuel IH]; intros [|c r] Hf; try done; [simpl in Hf; lia|].
  cbn [lines]. pose proof (take_line_shrinks c r) as Hs.
  pose proof (take_line_drop (MAXLINE - 1) (c :: r)) as Hsplit.
  set (l := take_line (MAXLINE - 1) (c :: r)) in *. csimpl.
  rewrite IH by (cbn [length] in *; lia). by rewrite <- Hsplit.
Qed.

Lemma through_lines_id fuel inp :
  0 ∉ inp -> (length inp <= fuel)%nat -> through_lines fuel inp = inp.
Proof.
  intros Hz Hf. rewrite <- (lines_join fuel inp Hf) at 2. unfold through_lines. f_equal.
  rewrite <- (list_fmap_id (lines fuel inp)) at 2. apply list_fmap_ext. intros i l Hl.
  apply c_string_no_zero. intros Hin. apply Hz. rewrite <- (lines_join fuel inp Hf).
  apply list_elem_of_join. exists l. split; [done|]. by eapply list_elem_of_lookup_2.
Qed.

(** A text that is made of lines of moderate length is read as these lines. *)
Definition is_line (l : bytes) : Prop :=
  exists r, l = r ++ [NL] /\ NL ∉ r /\ (length r < MAXLINE - 1)%nat.

Lemma take_line_line n r rest :
  NL ∉ r -> (length r < n)%nat -> take_line n (r ++ NL :: rest) = r ++ [NL].
Proof.
  revert n. induction r as [|c r IH]; intros [|n] Hr Hn; try (simpl in Hn; lia).
  - done.
  - apply not_elem_of_cons in Hr as [Hc Hr]. simpl. rewrite (proj2 (Z.eqb_neq c NL)) by done.
    rewrite IH by (done || (simpl in Hn; lia)). done.
Qed.

Lemma lines_of_lines fuel ls :
  Forall is_line ls -> (length (mjoin ls) <= fuel)%nat -> lines fuel (mjoin ls) = ls.
Proof.
  intros Hls. revert fuel. induction Hls as [|l ls (r & -> & Hr & Hn) Hls IH]; intros fuel Hf.
  - by destruct fuel.
  - assert (Hsplit : mjoin ((r ++ [NL]) :: ls) = r ++ NL :: mjoin ls) by (csimpl; by rewrite <- app_assoc).
    rewrite Hsplit in *. destruct fuel as [|fuel]; [rewrite length_app in Hf; simpl in Hf; lia|].
    rewrite length_app in Hf. simpl in Hf.
    assert (Hl : lines (S fuel) (r ++ NL :: mjoin ls)
                 = take_line (MAXLINE - 1) (r ++ NL :: mjoin ls) ::
                   lines fuel (drop (length (take_line (MAXLINE - 1) (r ++ NL :: mjoin ls))) (r ++ NL :: mjoin ls)))
      by (by destruct r). rewrite Hl, take_line_line by done.
    replace (r ++ NL :: mjoin ls) with ((r ++ [NL]) ++ mjoin ls) by (by rewrite <- app_assoc).
    rewrite drop_app_length, IH by lia. done.
Qed.

(** The loop over lines: the body keeps [J] of the lines so far, and the rest of the input, or
    ends the loop early with [E]. *)
Lemma while_fgets_wp fuel s body (J : list bytes -> proc W -> Prop)
    (E : outcome unit -> proc W -> Prop) all sofar p :
  (forall ls q q', J ls q -> reads s q q' -> J ls q') ->
  (forall ls l q, J ls q -> (ls ++ [l]) `prefix_of` all -> wp (body l) (fun o q' =>
     (o = Ret true /\ J (ls ++ [l]) q' /\ input (kern q') s = input (kern q) s /\
      breaks (kern q') s = breaks (kern q) s) \/
     (o <> Ret true /\ E (match o with Ret _ => Ret tt | _ => outcome_cast o NoFuel end) q')) q) ->
  (length (input (kern p) s) < fuel)%nat -> all = sofar ++ lines fuel (input (kern p) s) ->
  J sofar p ->
  wp (while_fgets fuel s body) (fun o p' =>
    (o = Ret tt /\ k_ferror s (kern p') = breaks (kern p) s /\
     exists rest, rest `prefix_of` lines fuel (input (kern p) s) /\ J (sofar ++ rest) p' /\
       (breaks (kern p) s = false -> rest = lines fuel (input (kern p) s))) \/
    E o p') p.
Proof.
  intros Hread Hbody. revert sofar p.
  induction fuel as [|fuel IH]; intros sofar p Hf Hall HJ; [lia|]. cbn [while_fgets].
  apply wp_bind_ret, returns_fgets; [unfold MAXLINE; lia|..].
  - intros p1 Ei Hl Hr. remember (input (kern p) s) as inp eqn:Einp.
    destruct inp as [|c r]; [done|]. pose proof (take_line_shrinks c r) as Hs. cbn [lines] in *.
    set (l := take_line (MAXLINE - 1) (c :: r)) in *.
    assert (E1 : input (kern p1) s = drop (length l) (c :: r)) by (by rewrite Ei, drop_app_length).
    apply wp_bind. eapply wp_mono.
    { apply (Hbody sofar); [by eapply Hread|]. rewrite Hall. apply prefix_app, prefix_cons, prefix_nil. }
    intros o p2 [(-> & HJ2 & Hi & Hb)|[Ho HE]].
    + eapply wp_mono; [apply IH; [rewrite Hi, E1; cbn [length] in *; lia| |exact HJ2]|].
      { rewrite Hall, Hi, E1, <- app_assoc. done. }
      rewrite Hb, Hi, E1, (rd_breaks _ _ _ Hr). intros o p3 [(-> & He & rest & Hp & HJ3 & Hx)|?]; [left|by right].
      split_and!; [done..|]. exists (l :: rest). split_and!.
      * by apply prefix_cons.
      * by rewrite <- app_assoc in HJ3.
      * intros Hnb. by rewrite Hx.
    + destruct o as [[]| | | |]; try (by right); done.
  - intros p1 E1 Hr He Hor. wstep. left. split_and!; [done..|]. exists [].
    rewrite app_nil_r. split_and!; [apply prefix_nil|by eapply Hread|].
    intros Hnb. destruct Hor as [|Hor]; [congruence|]. by rewrite Hor.
Qed.

(** A loop that writes every line of [s] to [out]. *)
Lemma fputs_lines_wp fuel s out text p :
  (length (input (kern p) s) < fuel)%nat ->
  wp (while_fgets fuel s (fputs_or_exit out text)) (fun o p' =>
    (o = Ret tt /\ k_ferror s (kern p') = breaks (kern p) s /\
     (breaks (kern p) s = false ->
      written (kern p') out = written (kern p) out ++ through_lines fuel (input (kern p) s))) \/
    (o = Exited 1 /\ fails out)) p.
Proof.
  intros Hf. eapply wp_mono.
  { apply (while_fgets_wp fuel s (fputs_or_exit out text)
      (fun ls q => written (kern q) out = written (kern p) out ++ mjoin (c_string <$> ls))
      (fun o _ => o = Exited 1 /\ fails out) (lines fuel (input (kern p) s)) [] p); [| |done|done|].
    - intros ls q q' HJ Hr. by rewrite (rd_written _ _ _ Hr).
    - intros ls l q HJ _. unfold fputs_or_exit, fputs. apply wp_bind_ret, returns_fwrite_ok.
      intros ok p2 Hb Hi Hw. destruct ok; wstep; [left|by right].
      rewrite Hw, HJ, Hb, Hi, fmap_app, join_app. csimpl. by rewrite app_nil_r, <- app_assoc.
    - by rewrite app_nil_r. }
  intros o p' [(-> & He & rest & _ & Hw & Hx)|?]; [left|by right].
  split_and!; [done..|]. intros Hnb. rewrite Hw, Hx by done. done.
Qed.

(** C35: [5/2] copies its input line by line; on input without zero bytes its output is the
    input, whatever the lengths of the lines, as it is for [5/1].  Of a line with a zero byte it
    writes the part before it. *)
Theorem fgets_fputs_copies fuel p :
  (length (input (kern p) stdin) < fuel)%nat ->
  wp (fgets_fputs_main fuel) (copy_post (Exited 0) (through_lines fuel) p) p /\
  (0 ∉ input (kern p) stdin -> wp (fgets_fputs_main fuel) (copy_post (Exited 0) id p) p).
Proof.
  intros Hf.
  assert (Hmain : wp (fgets_fputs_main fuel) (copy_post (Exited 0) (through_lines fuel) p) p).
  { unfold fgets_fputs_main. apply wp_bind. eapply wp_mono; [by apply fputs_lines_wp|].
    intros o p1 [(-> & He & Hw)|[-> Hfail]]; [|right; split; [done|by right]].
    apply wp_bind_ret, returns_ferror. rewrite He. destruct (breaks (kern p) stdin) eqn:Eb; wstep.
    - right. auto.
    - left. auto. }
  split; [done|]. intros Hz. eapply wp_mono; [exact Hmain|].
  intros o p' [(-> & Hb & Hw)|?]; [left|by right].
  rewrite through_lines_id in Hw by (done || lia). done.
Qed.

End Facts.

(** ** A concrete system of streams *)

Record streams := Streams { st_in : gmap Z bytes; st_out : gmap Z bytes; st_breaks : bool }.

Definition st_input (w : streams) (s : Z) : bytes := default [] (st_in w !! s).
Definition st_written (w : streams) (s : Z) : bytes := default [] (st_out w !! s).

#[export] Instance streams_ops : StdioOps streams := {
  k_getc s w := match st_input w s with
                | [] => (None, w)
                | c :: r => (Some c, Streams (<[s := r]> (st_in w)) (st_out w) (st_breaks w))
                end;
  k_ferror _ w := st_breaks w;
  k_fwrite s d w :=
    (true, Streams (st_in w) (<[s := st_written w s ++ d]> (st_out w)) (st_breaks w));
  k_fflush _ w := w;
}.

#[export, refine] Instance streams_spec : StdioSpec streams := {
  input := st_input;
  breaks w _ := st_breaks w;
  written := st_written;
}.
Proof.
  - intros s w c w' E. simpl in E. destruct (st_input w s) as [|x r] eqn:Ei; simplify_eq.
    + done.
    + split_and!; try done.
      * intros t Ht. unfold st_input. simpl. by rewrite lookup_insert_ne.
      * unfold st_input. simpl. by rewrite lookup_insert_eq.
  - intros s d w ok w' [= <- <-]. split_and!; try done.
    + intros t Ht. unfold st_written. simpl. by rewrite lookup_insert_ne.
    + intros _. unfold st_written. simpl. by rewrite lookup_insert_eq.
  - done.
Defined.

Definition streams0 (text : bytes) : proc streams :=
  Proc 0 true [] (Streams {[stdin := text]} ∅ false).

Lemma getc_putc_copies_witness :
  written (kern (getc_putc_main 9 (streams0 (str "ab" ++ [0; 7]))).2) stdout = str "ab" ++ [0; 7].
Proof.
  destruct (getc_putc_copies 9 (streams0 (str "ab" ++ [0; 7])) ltac:(apply Nat.ltb_lt; vm_compute; reflexivity))
    as [(_ & _ & E)|[E _]]; [exact E|vm_compute in E; discriminate E].
Defined.

Lemma fgets_fputs_copies_witness :
  written (kern (fgets_fputs_main 9 (streams0 (str "ab" ++ [NL] ++ str "cd"))).2) stdout
  = str "ab" ++ [NL] ++ str "cd".
Proof.
  destruct (proj2 (fgets_fputs_copies 9 (streams0 (str "ab" ++ [NL] ++ str "cd")) ltac:(apply Nat.ltb_lt; vm_compute; reflexivity))
    ltac:(vm_compute; set_solver)) as [(_ & _ & E)|[E _]]; [exact E|vm_compute in E; discriminate E].
Defined.

(** A line with a zero byte loses what follows the zero, the newline included. *)
Lemma zero_byte_is_lost :
  written (kern (fgets_fputs_main 9 (streams0 (str "a" ++ [0] ++ str "b" ++ [NL] ++ str "c"))).2) stdout
  = str "ac".
Proof. vm_compute. reflexivity. Qed.
