(* ===== verification/AddrInfo.v ===== *)
(** * [16/1_usage_getaddrinfo.cpp]: the addresses of a host and a service

    The program prints the list that [getaddrinfo] returns.  The list is the system's; the texts
    made of its fields, the loop over it and the error path are the program's.  [inet_ntop] for
    IPv4 addresses and [ntohs] are modelled, with the size of the caller's buffer. *)

From S2P Require Import Prelude Machine Errors Kernel SimKernel Text.
From S2P Require Import Sockets Limits.

(** A list element; an IPv4 address keeps the bytes of [sin_port] and [sin_addr] in network
    order. *)
Record addrinfo := AddrInfo {
  ai_flags : Z;
  ai_family : Z;
  ai_socktype : Z;
  ai_protocol : Z;
  ai_canonname : option bytes;
  sin_port : Z * Z;
  sin_addr : Z * Z * Z * Z;
}.

Class GaiOps (W : Type) := {
  k_gai : bytes -> bytes -> addrinfo -> W -> (Z + list addrinfo) * W;  (* host, service, hint *)
}.

Definition AF_UNSPEC : Z := 0.
Definition AF_INET6 : Z := 10.
Definition SOCK_DGRAM : Z := 2.
Definition SOCK_RAW : Z := 3.
Definition SOCK_SEQPACKET : Z := 5.
Definition IPPROTO_TCP : Z := 6.
Definition IPPROTO_UDP : Z := 17.
Definition IPPROTO_RAW : Z := 255.
Definition AI_PASSIVE : Z := 1.
Definition AI_CANONNAME : Z := 2.
Definition AI_NUMERICHOST : Z := 4.
Definition AI_V4MAPPED : Z := 8.
Definition AI_ALL : Z := 16.
Definition AI_NUMERICSERV : Z := 1024.
Definition INET_ADDRSTRLEN : nat := 16.

(** ** The C library *)

(** [inet_ntop] for AF_INET: the dotted text, or a null pointer when it does not fit the buffer
    with its terminating zero. *)
Definition dotted (a : Z * Z * Z * Z) : bytes :=
  let '(b1, b2, b3, b4) := a in
  to_string b1 ++ str "." ++ to_string b2 ++ str "." ++ to_string b3 ++ str "." ++ to_string b4.

Definition inet_ntop (a : Z * Z * Z * Z) (size : nat) : option bytes :=
  if (length (dotted a) <? size)%nat then Some (dotted a) else None.

Definition ntohs (port : Z * Z) : Z := port.1 * 256 + port.2.

(** Reading outside an object has no defined behaviour; the model stops there, and no theorem
    that says what a program does accepts this outcome. *)
Definition undefined {W A} : M W A := throw (str "undefined behaviour").

(** Pointer arithmetic on a string literal: the text from the pointer to the terminating zero,
    when the pointer is inside the literal. *)
Definition literal_plus (lit : bytes) (n : Z) : option bytes :=
  if (0 <=? n) && (n <=? zlen lit) then Some (drop (Z.to_nat n) lit) else None.

(** ** The program *)

Section Program.
Context {W : Type} `{GaiOps W} `{CLib}.

Definition print_family (aip : addrinfo) : M W unit :=
  let f := ai_family aip in
  print (str " family " ++
         (if f =? AF_INET then str "inet"
          else if f =? AF_INET6 then str "inet6"
          else if f =? AF_UNIX then str "unix"
          else if f =? AF_UNSPEC then str "unspecified"
          else str "unknow")).

Definition print_type (aip : addrinfo) : M W unit :=
  let t := ai_socktype aip in
  print (str " type " ++
         (if t =? SOCK_STREAM then str "stream"
          else if t =? SOCK_DGRAM then str "datagram"
          else if t =? SOCK_SEQPACKET then str "seqpacket"
          else if t =? SOCK_RAW then str "raw"
          else str "unknown " ++ to_string t)).

(** In the default case an [int] is added to a [const char*]. *)
Definition print_protocol (aip : addrinfo) : M W unit :=
  let n := ai_protocol aip in
  s ← (if n =? 0 then mret (str "default")
       else if n =? IPPROTO_TCP then mret (str "TCP")
       else if n =? IPPROTO_UDP then mret (str "UDP")
       else if n =? IPPROTO_RAW then mret (str "raw")
       else match literal_plus (str "unknow ") n with
            | Some t => mret t
            | None => undefined
            end);
  print (str " protocol " ++ s).

Definition flag (flags bit : Z) (word : bytes) : bytes :=
  if Z.land flags bit =? 0 then [] else word.

Definition flags_text (flags : Z) : bytes :=
  str " flags" ++
  (if flags =? 0 then str " 0"
   else flag flags AI_PASSIVE (str " passive") ++
        flag flags AI_CANONNAME (str " canon") ++
        flag flags AI_NUMERICHOST (str " numhost") ++
        flag flags AI_NUMERICSERV (str " numserv") ++
        flag flags AI_V4MAPPED (str " v4mapped") ++
        flag flags AI_ALL (str " all")).

Definition print_flags (aip : addrinfo) : M W unit := print (flags_text (ai_flags aip)).

(** The body of the loop over the list. *)
Definition print_addr (aip : addrinfo) : M W unit :=
  print_flags aip ;;
  print_family aip ;;
  print_type aip ;;
  print_protocol aip ;;
  print ([NL; 9] ++ str "host " ++ default (str "-") (ai_canonname aip)) ;;
  (if ai_family aip =? AF_INET then
     let addr := inet_ntop (sin_addr aip) INET_ADDRSTRLEN in
     print (str " address " ++ default (str "unknown") addr) ;;
     print (str " port " ++ to_string (ntohs (sin_port aip)))
   else mret tt) ;;
  println [].

Definition hint : addrinfo :=
  AddrInfo AI_CANONNAME 0 0 0 None (0, 0) (0, 0, 0, 0).

Definition gai_main (argv : list bytes) : M W Z :=
  match argv with
  | [_; host; service] =>
      r ← (fun p => let '(r, w) := k_gai host service hint (kern p) in
                    (Ret r, Proc (errno p) (log_to_stderr p) (console p) w));
      match r with
      | inl err => err_quit (str "call getaddrinfo: {}") [gai_strerror err]
      | inr ailist => each print_addr ailist ;; sys_exit 0
      end
  | _ => err_quit (str "usage: {} host_name service") [hd [] argv]
  end.

End Program.

(** ** What is printed *)

Definition family_text (f : Z) : bytes :=
  if f =? AF_INET then str "inet" else if f =? AF_INET6 then str "inet6"
  else if f =? AF_UNIX then str "unix" else if f =? AF_UNSPEC then str "unspecified"
  else str "unknow".

Definition type_text (t : Z) : bytes :=
  if t =? SOCK_STREAM then str "stream" else if t =? SOCK_DGRAM then str "datagram"
  else if t =? SOCK_SEQPACKET then str "seqpacket" else if t =? SOCK_RAW then str "raw"
  else str "unknown " ++ to_string t.

(** The protocols the program knows; for others the intended text is not what is printed. *)
Definition protocol_text (n : Z) : option bytes :=
  if n =? 0 then Some (str "default") else if n =? IPPROTO_TCP then Some (str "TCP")
  else if n =? IPPROTO_UDP then Some (str "UDP") else if n =? IPPROTO_RAW then Some (str "raw")
  else None.

(** Bytes of an IPv4 address. *)
Definition octets (a : Z * Z * Z * Z) : Prop :=
  let '(b1, b2, b3, b4) := a in
  0 <= b1 < 256 /\ 0 <= b2 < 256 /\ 0 <= b3 < 256 /\ 0 <= b4 < 256.

Definition address_text (aip : addrinfo) : bytes :=
  if ai_family aip =? AF_INET
  then str " address " ++ dotted (sin_addr aip) ++ str " port " ++ to_string (ntohs (sin_port aip))
  else [].

Definition entry_text (proto : bytes) (aip : addrinfo) : bytes :=
  flags_text (ai_flags aip) ++ str " family " ++ family_text (ai_family aip) ++
  str " type " ++ type_text (ai_socktype aip) ++ str " protocol " ++ proto ++
  [NL; 9] ++ str "host " ++ default (str "-") (ai_canonname aip) ++ address_text aip ++ [NL].

Lemma octet_length b : 0 <= b < 256 -> (length (to_string b) <= 3)%nat.
Proof.
  intros Hb. assert (Hall : forallb (fun n => (length (to_string (Z.of_nat n)) <=? 3)%nat) (seq 0 256) = true)
    by (vm_compute; reflexivity).
  rewrite forallb_forall in Hall. apply Nat.leb_le. rewrite <- (Z2Nat.id b) by lia.
  apply Hall, in_seq. lia.
Qed.

(** The dotted text of four bytes has at most 15 characters, so that with its terminating zero
    it fits INET_ADDRSTRLEN and the program never prints "unknown" for an address. *)
Lemma inet_ntop_fits a : octets a -> inet_ntop a INET_ADDRSTRLEN = Some (dotted a).
Proof.
  destruct a as [[[b1 b2] b3] b4]. intros (H1 & H2 & H3 & H4). unfold inet_ntop.
  apply octet_length in H1, H2, H3, H4.
  destruct (Nat.ltb_spec (length (dotted (b1, b2, b3, b4))) INET_ADDRSTRLEN) as [|L]; [done|].
  exfalso. revert L. unfold dotted, INET_ADDRSTRLEN. rewrite !length_app. simpl. lia.
Qed.

Section Facts.
Context {W : Type} `{GaiOps W} `{CLib}.
Implicit Types p : proc W.

Definition known (aip : addrinfo) : Prop :=
  is_Some (protocol_text (ai_protocol aip)) /\ octets (sin_addr aip).

Lemma returns_print_protocol aip t (Q : unit -> proc W -> Prop) p :
  protocol_text (ai_protocol aip) = Some t ->
  returns (print (str " protocol " ++ t)) Q p -> returns (print_protocol aip) Q p.
Proof.
  unfold print_protocol, protocol_text. repeat case_match; intros; simplify_eq; by mstep.
Qed.

Lemma print_addr_prints w aip :
  known aip ->
  prints (fun p => kern p = w) print_addr
    (fun a => entry_text (default [] (protocol_text (ai_protocol a))) a) aip.
Proof.
  intros [[t Ht] Ho] p Hp. unfold entry_text. rewrite Ht. simpl default.
  unfold print_addr, print_flags, print_family, print_type.
  fold (family_text (ai_family aip)) (type_text (ai_socktype aip)).
  do 7 mstep. eapply returns_print_protocol; [done|]. mstep.
  unfold address_text. rewrite inet_ntop_fits by done. do 3 mstep.
  destruct (ai_family aip =? AF_INET); repeat mstep;
    (split; [done|]); cbn [console default from_option];
    rewrite !stdout_text_snoc, <- ?app_assoc; done.
Qed.

(** When [getaddrinfo] succeeds with protocols the program knows, it prints the elements in
    order and exits with status 0: per element the flags, family, type and protocol, the
    canonical name or "-", and for IPv4 the dotted address and the port in host order; the
    address always fits its buffer. *)
Theorem gai_main_prints prog host service l p :
  (k_gai host service hint (kern p)).1 = inr l -> Forall known l ->
  wp (gai_main [prog; host; service]) (fun o p' => o = Exited 0 /\
    stdout_text (console p') = stdout_text (console p) ++
      mjoin ((fun a => entry_text (default [] (protocol_text (ai_protocol a))) a) <$> l)) p.
Proof.
  intros E Hl. unfold gai_main. destruct (k_gai _ _ _ _) as [r w] eqn:Eg. simpl in E. subst r.
  apply wp_bind_ret. unfold returns, wp at 1. rewrite Eg. simpl.
  apply wp_bind_ret. eapply returns_mono.
  { apply (each_prints (fun q => kern q = w)); [|done].
    eapply Forall_impl; [exact Hl|]. intros a Ha. by apply print_addr_prints. }
  intros _ p' [_ Hs]. wstep. done.
Qed.

(** A name or service that cannot be resolved is reported with the text of [gai_strerror], and
    the program exits with status 1. *)
Theorem gai_main_error prog host service err p :
  (k_gai host service hint (kern p)).1 = inl err ->
  wp (gai_main [prog; host; service]) (fun o p' => o = Exited 1 /\
    console p' = console p ++ [report (log_to_stderr p)
      (message (log_to_stderr p) (-1) (str "call getaddrinfo: {}") [gai_strerror err])]) p.
Proof.
  intros E. unfold gai_main. destruct (k_gai _ _ _ _) as [r w] eqn:Eg. simpl in E. subst r.
  apply wp_bind_ret. unfold returns, wp at 1. rewrite Eg. simpl. wstep. done.
Qed.

(** A protocol without a name is not printed: above 7 the program reads outside the literal,
    and below it prints an end of the word "unknow ". *)
Theorem unknown_protocol aip p :
  protocol_text (ai_protocol aip) = None ->
  print_protocol (W := W) aip p
  = (if (0 <=? ai_protocol aip) && (ai_protocol aip <=? 7)
     then print (str " protocol " ++ drop (Z.to_nat (ai_protocol aip)) (str "unknow ")) p
     else undefined p).
Proof.
  intros E. unfold protocol_text in E. unfold print_protocol.
  destruct (_ =? 0); [done|]. destruct (_ =? IPPROTO_TCP); [done|].
  destruct (_ =? IPPROTO_UDP); [done|]. destruct (_ =? IPPROTO_RAW); [done|].
  unfold literal_plus. change (zlen (str "unknow ")) with 7. by destruct (_ && _).
Qed.

End Facts.

(** ** The flags *)

(** The six bits the program knows, in the order it prints them. *)
Definition flag_bits (f : Z) : list bool :=
  bits_of [AI_PASSIVE; AI_CANONNAME; AI_NUMERICHOST; AI_NUMERICSERV; AI_V4MAPPED; AI_ALL] f.

Definition flag_names : list string :=
  [" passive"; " canon"; " numhost"; " numserv"; " v4mapped"; " all"]%string.

Lemma flags_text_words f : f <> 0 -> flags_text f = str " flags" ++ words flag_names (flag_bits f).
Proof.
  intros Hf. unfold flags_text, flag. rewrite (proj2 (Z.eqb_neq _ _) Hf). f_equal.
  unfold words, flag_bits, bits_of. cbn [fmap list_fmap zip_with mjoin list_join flag_names].
  repeat (destruct (_ =? 0)); by rewrite ?app_nil_r.
Qed.

(** The printed flags identify the six flags the program knows: two nonzero values print the
    same text exactly when they agree on each of these bits, and the text of 0 is printed for no
    other value. *)
Theorem flags_text_identifies f g :
  (f <> 0 -> g <> 0 -> flags_text f = flags_text g <-> flag_bits f = flag_bits g) /\
  (flags_text f = flags_text 0 <-> f = 0).
Proof.
  split.
  - intros Hf Hg. rewrite !flags_text_words by done. split; [|by intros ->].
    intros E%(inj (app _)). by apply (words_inj flag_names) in E.
  - split; [|by intros ->]. intros E. destruct (Z.eq_dec f 0) as [|Hf]; [done|exfalso].
    rewrite flags_text_words in E by done.
    assert (Hall : forallb (fun b => bool_decide (words flag_names b <> str " 0")) (all_bools 6) = true)
      by (vm_compute; reflexivity).
    rewrite forallb_forall in Hall.
    specialize (Hall (flag_bits f) (proj1 (list_elem_of_In _ _) (all_bools_in _))).
    apply bool_decide_eq_true in Hall. by apply (inj (app _)) in E.
Qed.

(** ** A resolver with two answers *)

Definition two_answers : list addrinfo :=
  [AddrInfo AI_CANONNAME AF_INET SOCK_STREAM IPPROTO_TCP (Some (str "localhost"))
     (0, 80) (127, 0, 0, 1);
   AddrInfo 0 AF_INET6 SOCK_DGRAM IPPROTO_UDP None (0, 0) (0, 0, 0, 0)].

#[export] Instance gai_sim : GaiOps unit := { k_gai _ _ _ w := (inr two_answers, w) }.

Lemma gai_main_prints_witness :
  (gai_main [str "a.out"; str "localhost"; str "http"] (Proc 0 true [] tt)).1 = Exited 0.
Proof.
  refine (proj1 (gai_main_prints (str "a.out") (str "localhost") (str "http") two_answers
    (Proc 0 true [] tt) eq_refl _)).
  repeat constructor; try (vm_compute; discriminate); by eexists.
Defined.

Lemma flags_text_identifies_witness : flags_text 3 <> flags_text 2.
Proof.
  intros E. apply (proj1 (flags_text_identifies 3 2)) in E; [|lia|lia].
  vm_compute in E. discriminate E.
Defined.
