(* ===== verification/Filters.v ===== *)
(** * Filters and pipes of chapter 15

    [Lower]: [15/6], the filter to lower case, and [15/7], which prompts for its lines.
    [Add]: [15/8], the filter that adds two numbers.  [Coproc]: [15/9], which runs that filter as
    a coprocess; the theorem composes the two programs.  [Pager]: [15/1], [15/2] and [15/4], which
    send a text or a file down a pipe. *)

From S2P Require Import Prelude Machine Errors Kernel SimKernel Text FileIO.
From S2P Require Import Daemon Handshake Pipes ProcThreads Limits Stdio AddrInfo.

Definition STDIN_FILENO : Z := 0.
Definition STDOUT_FILENO : Z := 1.
Definition SIGPIPE : Z := 13.

(** Calls these programs make besides those of the other files. *)
Class FilterOps (W : Type) := {
  k_dup2 : Z -> Z -> W -> sysres Z * W;
  k_fopen : bytes -> W -> sysres Z * W;              (* for reading: the stream *)
  k_popen : bytes -> bool -> W -> sysres Z * W;      (* command, for writing?: the stream *)
  k_pclose : Z -> W -> sysres Z * W;
  k_getenv : bytes -> W -> option bytes;
}.

(** ** Lower case *)

Module Lower.

Definition isupper (c : Z) : bool := (65 <=? c) && (c <=? 90).
Definition tolower (c : Z) : Z := if isupper c then c + 32 else c.

Section Lower.
Context {W : Type} `{StdioOps W} `{FilterOps W} `{CLib}.

Fixpoint lower_loop (fuel : nat) : M W unit :=
  match fuel with
  | O => out_of_fuel
  | S fuel =>
      c ← getc stdin;
      match c with
      | None => mret tt
      | Some c =>
          let c := if isupper c then tolower c else c in
          ok ← putc c stdout;
          (if ok : bool then mret tt else err_sys (str "call putchar") []) ;;
          (if c =? NL then fflush stdout else mret tt) ;;
          lower_loop fuel
      end
  end.

Definition lower_main (fuel : nat) : M W Z := lower_loop fuel ;; sys_exit 0.

(** [15/7]: a prompt before each line of the filter's output. *)
Fixpoint prompt_loop (fuel : nat) (fpin : Z) : M W unit :=
  match fuel with
  | O => out_of_fuel
  | S fuel =>
      _ ← fputs (str "prompt> ") stdout;
      fflush stdout ;;
      l ← fgets MAXLINE fpin;
      match l with
      | None => mret tt
      | Some line =>
          ok ← fputs line stdout;
          (if ok : bool then mret tt else err_sys (str "call fputs") []) ;;
          prompt_loop fuel fpin
      end
  end.

Definition filter_cmd : bytes := str "./15_6_filter_lower_case".

Definition prompt_main (fuel : nat) : M W Z :=
  r ← syscall (k_popen filter_cmd false);
  match r with
  | SysErr _ => err_sys (str "call popen {}") [filter_cmd]
  | SysOk fpin =>
      prompt_loop fuel fpin ;;
      r ← syscall_int (k_pclose fpin);
      (if r =? -1 then err_sys (str "call pclose") [] else mret tt) ;;
      _ ← putc NL stdout;
      sys_exit 0
  end.

End Lower.
End Lower.

(** ** The sum of two numbers *)

Module Add.

(** [%d] of [sscanf]: white space, a sign, digits.  A number that does not fit has no defined
    behaviour. *)
Inductive scanned := NoMatch | Overflow | Match (v : Z) (rest : bytes).

Definition scan_d (s : bytes) : scanned :=
  let s := skip_ws s in
  let '(neg, s) := match s with
                   | c :: r => if c =? 45 then (true, r) else if c =? 43 then (false, r) else (false, s)
                   | [] => (false, s)
                   end in
  let '(v, n, rest) := scan_digits s 0 0 in
  let v := if neg : bool then - v else v in
  if (n =? 0)%nat then NoMatch else if decide (is_int v) then Match v rest else Overflow.

(** What the filter answers to a text; [None]: undefined behaviour. *)
Definition reply (line : bytes) : option bytes :=
  match scan_d line with
  | Overflow => None
  | NoMatch => Some (str "invalid arguments" ++ [NL])
  | Match int1 rest =>
      match scan_d rest with
      | Overflow => None
      | NoMatch => Some (str "invalid arguments" ++ [NL])
      | Match int2 _ =>
          if decide (is_int (int1 + int2)) then Some (to_string (int1 + int2) ++ [NL]) else None
      end
  end.

Section Add.
Context {W : Type} `{FileOps W} `{CLib}.

(** One iteration, for [n] bytes read: [line] has MAXLINE bytes, so that [line[n] = 0] is outside
    it when the read filled it. *)
Definition add_body (n : Z) (data : bytes) : M W unit :=
  if n =? Z.of_nat MAXLINE then undefined
  else
    match reply (c_string data) with
    | None => undefined
    | Some line =>
        r ← writen STDOUT_FILENO line (zlen line);
        if failed r then err_sys (str "call write") [] else mret tt
    end.

Fixpoint add_loop (fuel : nat) : M W unit :=
  match fuel with
  | O => out_of_fuel
  | S fuel =>
      '(n, data) ← read STDIN_FILENO (Z.of_nat MAXLINE);
      if 0 <? n then (add_body n data ;; add_loop fuel) else mret tt
  end.

Definition add_main (fuel : nat) : M W Z := add_loop fuel ;; sys_exit 0.

End Add.
End Add.

(** ** The coprocess *)

Module Coproc.
Import Signals.
Section Coproc.
Context {W : Type} `{FileOps W} `{StdioOps W} `{PipeOps W} `{WaitOps W} `{SigOps W} `{FilterOps W} `{CLib}.

(** The handler of SIGPIPE, named by a number in [apue_signal]. *)
Definition sig_pipe_handler : Z := 1.
Definition sig_pipe : M W unit := print (str "taken SIGPIPE" ++ [NL]) ;; sys_exit 1.

(** One line: to the coprocess, its answer back, and out; [false] leaves the loop. *)
Definition parent_body (to_child from_child : Z) (line : bytes) : M W bool :=
  r ← writen to_child (c_string line) (zlen (c_string line));
  (if failed r then err_sys (str "call write to pipe") [] else mret tt) ;;
  '(n, data) ← read from_child (Z.of_nat MAXLINE);
  if n <? 0 then err_sys (str "call read from pipe") []
  else if n =? 0 then (err_msg (str "pipe was closed in child process") [] ;; mret false)
  else if n =? Z.of_nat MAXLINE then undefined
  else
    ok ← fputs data stdout;
    if ok : bool then mret true else err_sys (str "fputs error") [].

Definition parent (fuel : nat) (fd1 fd2 : Z * Z) : M W Z :=
  close fd1.1 ;; close fd2.2 ;;
  while_fgets fuel stdin (parent_body fd1.2 fd2.1) ;;
  e ← ferror stdin;
  (if e : bool then err_sys (str "call fgets") [] else mret tt) ;;
  sys_exit 0.

(** [if (fd != to) { dup2(fd, to); close(fd); }] *)
Definition move_fd (fd to : Z) (text : bytes) : M W unit :=
  if negb (fd =? to) then
    r ← syscall_int (k_dup2 fd to);
    (if negb (r =? to) then err_sys text [] else mret tt) ;;
    close fd ;; mret tt
  else mret tt.

(** A call of [execl], which returns only on failure. *)
Definition execl (args : list bytes) : M W unit := fun p =>
  let '(e, w) := k_execl args (kern p) in
  (Ret tt, Proc e (log_to_stderr p) (console p) w).

Definition child (fd1 fd2 : Z * Z) : M W Z :=
  close fd1.2 ;; close fd2.1 ;;
  move_fd fd1.1 STDIN_FILENO (str "call dup2 for stdin") ;;
  move_fd fd2.2 STDOUT_FILENO (str "call dup2 for stdout") ;;
  execl [str "./15_8_filter_add_2"; str "15_8_filter_add_2"] ;;
  err_sys (str "call exec") [].

Definition coproc_main (fuel : nat) : M W Z :=
  h ← apue_signal SIGPIPE (Func sig_pipe_handler);
  match h with
  | None => err_sys (str "call signal") []
  | Some _ =>
      r1 ← syscall k_pipe;
      match r1 with
      | SysErr _ => err_sys (str "call pipe") []
      | SysOk fd1 =>
          r2 ← syscall k_pipe;
          match r2 with
          | SysErr _ => err_sys (str "call pipe") []
          | SysOk fd2 =>
              pid ← syscall_int k_fork;
              if pid <? 0 then err_sys (str "call fork") []
              else if 0 <? pid then parent fuel fd1 fd2
              else child fd1 fd2
          end
      end
  end.

End Coproc.
End Coproc.

(** ** Texts and files down a pipe *)

Module Pager.
Import Coproc.
Section Pager.
Context {W : Type} `{FileOps W} `{StdioOps W} `{PipeOps W} `{WaitOps W} `{FilterOps W} `{CLib}.

(** [15/1].  A failed [read] gives [writen] the size -1, which is SIZE_MAX, of a small buffer. *)
Definition hello_parent (fd : Z * Z) : M W Z :=
  close fd.1 ;;
  let msg := str "Hello world" ++ [NL] in
  r ← writen fd.2 msg (zlen msg);
  (if failed r then err_sys (str "call write") [] else mret tt) ;;
  sys_exit 0.

Definition hello_child (fd : Z * Z) : M W Z :=
  close fd.2 ;;
  '(n, line) ← read fd.1 (Z.of_nat MAXLINE);
  if n <? 0 then undefined
  else
    r ← writen STDOUT_FILENO line n;
    (if failed r then err_sys (str "call write") [] else mret tt) ;;
    sys_exit 0.

Definition hello_main : M W Z :=
  r ← syscall k_pipe;
  match r with
  | SysErr _ => err_sys (str "call pipe") []
  | SysOk fd =>
      pid ← syscall_int k_fork;
      if pid <? 0 then err_sys (str "call fork") []
      else if 0 <? pid then hello_parent fd else hello_child fd
  end.

(** [15/2]: the parent sends the lines of the file, the child becomes the pager. *)
Definition send_line (fd : Z) (line : bytes) : M W bool :=
  r ← writen fd (c_string line) (zlen (c_string line));
  if failed r then err_sys (str "call write to pipe") [] else mret true.

Definition pager_parent (fuel : nat) (fp : Z) (fd : Z * Z) (pid : Z) : M W Z :=
  close fd.1 ;;
  while_fgets fuel fp (send_line fd.2) ;;
  e ← ferror fp;
  (if e : bool then err_sys (str "call fgets") [] else mret tt) ;;
  close fd.2 ;;
  r ← syscall_int (k_waitpid pid);
  (if r <? 0 then err_sys (str "call waitpid") [] else mret tt) ;;
  sys_exit 0.

Definition DEF_PAGER : bytes := str "/bin/more".

(** [strrchr(pager, '/')]: the name behind the last slash. *)
Definition pager_child (fd : Z * Z) : M W Z :=
  close fd.2 ;;
  move_fd fd.1 STDIN_FILENO (str "call dup2 from pipe to stdin") ;;
  pager ← call (fun w => (default DEF_PAGER (k_getenv (str "PAGER") w), w));
  execl [pager; cmd_name pager] ;;
  err_sys (str "call exec {}") [pager].

Definition pager_main (fuel : nat) (argv : list bytes) : M W Z :=
  match argv with
  | [_; path] =>
      f ← syscall (k_fopen path);
      match f with
      | SysErr _ => err_sys (str "can't open {}") [path]
      | SysOk fp =>
          r ← syscall k_pipe;
          match r with
          | SysErr _ => err_sys (str "call pipe") []
          | SysOk fd =>
              pid ← syscall_int k_fork;
              if pid <? 0 then err_sys (str "call fork") []
              else if 0 <? pid then pager_parent fuel fp fd pid
              else pager_child fd
          end
      end
  | _ => err_quit (str "Usage {}: <pathname>") [hd [] argv]
  end.

(** [15/4]: the same with [popen]; the usage message has a field and no argument. *)
Definition POPEN_PAGER : bytes := str "${PAGER:-more}".

Definition put_line (s : Z) : bytes -> M W bool := fputs_or_exit s (str "call fputs to pipe").

Definition popen_main (fuel : nat) (argv : list bytes) : M W Z :=
  match argv with
  | [_; path] =>
      f ← syscall (k_fopen path);
      match f with
      | SysErr _ => err_sys (str "can't open {}") [path]
      | SysOk fpin =>
          g ← syscall (k_popen POPEN_PAGER true);
          match g with
          | SysErr _ => err_sys (str "call popen") []
          | SysOk fpout =>
              while_fgets fuel fpin (put_line fpout) ;;
              e ← ferror fpin;
              (if e : bool then err_sys (str "call fgets") [] else mret tt) ;;
              r ← syscall_int (k_pclose fpout);
              (if r =? -1 then err_sys (str "call pclose") [] else mret tt) ;;
              sys_exit 0
          end
      end
  | _ => err_quit (str "Usage: {}  <filepath>") []
  end.

End Pager.
End Pager.

(** ** Theorems on the lower-case filter *)

Section LowerFacts.
Import Lower.
Context {W : Type} `{SS : StdioSpec W} `{FilterOps W} `{CLib}.
Implicit Types p : proc W.

Lemma lower_char c : (if isupper c then tolower c else c) = tolower c.
Proof. unfold tolower. by destruct (isupper c). Qed.

Lemma tolower_idem c : tolower (tolower c) = tolower c.
Proof.
  unfold tolower, isupper. repeat case_match; try done.
  all: rewrite ?andb_true_iff, ?andb_false_iff, ?Z.leb_le, ?Z.leb_gt in *; lia.
Qed.

Lemma returns_fflush s (Q : unit -> proc W -> Prop) p :
  (forall p', (forall t, breaks (kern p') t = breaks (kern p) t /\ input (kern p') t = input (kern p) t /\
     written (kern p') t = written (kern p) t) -> Q tt p') -> returns (fflush s) Q p.
Proof. intros HQ. apply returns_call. intros a w [= <- <-]. apply HQ. intros t. apply fflush_law. Qed.

Lemma lower_loop_wp fuel p :
  (length (input (kern p) stdin) < fuel)%nat ->
  wp (lower_loop fuel) (fun o p' =>
    (o = Ret tt /\ written (kern p') stdout
                   = written (kern p) stdout ++ (tolower <$> input (kern p) stdin)) \/
    (o = Exited 1 /\ fails stdout)) p.
Proof.
  revert p. induction fuel as [|fuel IH]; intros p Hf; [lia|]. cbn [lower_loop].
  apply wp_bind_ret, returns_getc.
  - intros c p1 E Hr. rewrite E in *. cbn [length] in Hf. cbv zeta. rewrite lower_char.
    apply wp_bind_ret, returns_fwrite_ok. intros ok p2 Hb Hi Hw. destruct ok.
    2: { apply wp_bind. wstep. by right. }
    assert (Hcont : forall p3, (forall t, input (kern p3) t = input (kern p2) t) ->
      (forall t, written (kern p3) t = written (kern p2) t) ->
      wp (lower_loop fuel) (fun o p' =>
        (o = Ret tt /\ written (kern p') stdout
            = written (kern p) stdout ++ (tolower <$> c :: input (kern p1) stdin)) \/
        (o = Exited 1 /\ fails stdout)) p3).
    { intros p3 Hi3 Hw3. eapply wp_mono; [apply IH; rewrite Hi3, Hi; lia|].
      intros o p4 [[-> Hw4]|?]; [left|by right]. split; [done|].
      rewrite Hw4, Hw3, Hw, Hi3, Hi, (rd_written _ _ _ Hr), <- app_assoc. done. }
    apply wp_bind_ret. mstep. apply wp_bind_ret. destruct (tolower c =? NL).
    + apply returns_fflush. intros p3 H3. by apply Hcont; intros t; destruct (H3 t) as (_ & ? & ?).
    + mstep. by apply Hcont.
  - intros p1 E E1 Hr He. wstep. left. by rewrite E, app_nil_r, (rd_written _ _ _ Hr).
Qed.

(** The filter of [15/6] writes its input with the letters A to Z in lower case, every other
    byte unchanged, and exits with status 0; with status 1 only when a write failed.  Filtering
    twice is filtering once. *)
Theorem lower_main_spec fuel p :
  (length (input (kern p) stdin) < fuel)%nat ->
  wp (lower_main fuel) (fun o p' =>
    (o = Exited 0 /\ written (kern p') stdout
        = written (kern p) stdout ++ (tolower <$> input (kern p) stdin)) \/
    (o = Exited 1 /\ fails stdout)) p /\
  (tolower <$> (tolower <$> input (kern p) stdin)) = (tolower <$> input (kern p) stdin).
Proof.
  intros Hf. split.
  - unfold lower_main. apply wp_bind. eapply wp_mono; [by apply lower_loop_wp|].
    intros o p1 [[-> Hw]|[-> Hfail]]; [|by right]. wstep. by left.
  - rewrite <- list_fmap_compose. apply list_fmap_ext. intros i c _. apply tolower_idem.
Qed.

End LowerFacts.

(** *** [15/7] *)

Section PromptFacts.
Import Lower.
Context {W : Type} `{SS : StdioSpec W} `{CLib}.
Implicit Types p : proc W.

Definition prompt : bytes := str "prompt> ".

Lemma returns_fputs_ok s t (Q : bool -> proc W -> Prop) p :
  ~ fails s ->
  (forall p', (forall u, breaks (kern p') u = breaks (kern p) u) ->
     (forall u, input (kern p') u = input (kern p) u) ->
     written (kern p') s = written (kern p) s ++ c_string t -> Q true p') ->
  returns (fputs t s) Q p.
Proof.
  intros Hok HQ. apply returns_fwrite_ok. intros [] p' Hb Hi Hw; [by apply HQ|contradiction].
Qed.

(** A prompt is printed before every line of the filter's output and once more at its end. *)
Theorem prompt_loop_prints fuel fpin p :
  ~ fails stdout -> breaks (kern p) fpin = false ->
  (length (input (kern p) fpin) < fuel)%nat ->
  returns (prompt_loop fuel fpin) (fun _ p' =>
    written (kern p') stdout = written (kern p) stdout ++
      mjoin ((fun l => prompt ++ c_string l) <$> lines fuel (input (kern p) fpin)) ++ prompt) p.
Proof.
  intros Hok. revert p. induction fuel as [|fuel IH]; intros p Hnb Hf; [lia|]. cbn [prompt_loop].
  mstep. apply returns_fputs_ok; [done|]. intros p1 Hb1 Hi1 Hw1.
  mstep. apply returns_fflush. intros p2 H2.
  destruct (H2 fpin) as (Hb2 & Hi2 & _), (H2 stdout) as (_ & _ & Hw2).
  mstep. apply returns_fgets; [unfold MAXLINE; lia|..]; rewrite !Hi2, !Hi1.
  - intros p3 Ei Hl Hr. remember (input (kern p) fpin) as inp eqn:Einp.
    destruct inp as [|c r]; [done|]. pose proof (take_line_shrinks c r) as Hs. cbn [lines].
    set (l := take_line (MAXLINE - 1) (c :: r)) in *.
    assert (E3 : input (kern p3) fpin = drop (length l) (c :: r)) by (by rewrite Ei, drop_app_length).
    mstep. apply returns_fputs_ok; [done|]. intros p4 Hb4 Hi4 Hw4. mstep. mstep.
    eapply returns_mono; [apply IH|].
    + by rewrite Hb4, (rd_breaks _ _ _ Hr), Hb2, Hb1.
    + rewrite Hi4, E3. cbn [length] in *. lia.
    + intros [] p5 Hw5. rewrite Hw5, Hw4, Hi4, E3, (rd_written _ _ _ Hr), Hw2, Hw1. csimpl.
      change (c_string (str "prompt> ")) with prompt. by rewrite <- !app_assoc.
  - intros p3 E3 Hr He Hor. mstep. destruct Hor as [Hbr|Hin]; [congruence|].
    rewrite Hin, (rd_written _ _ _ Hr), Hw2, Hw1. done.
Qed.

End PromptFacts.

(** ** Theorems on the adding filter *)

Section AddFacts.
Import Add.

Lemma scan_d_extract s v r : extract_int s = Some (v, r) -> scan_d s = Match v r.
Proof.
  unfold extract_int, scan_d. destruct (match skip_ws s with [] => _ | _ => _ end) as [neg t].
  destruct (scan_digits t 0 0) as [[x n] rest]. destruct (n =? 0)%nat; [done|].
  by repeat case_decide; intros; simplify_eq.
Qed.

(** A request line as the programs send it. *)
Definition request (a b : Z) : bytes := to_string a ++ [32] ++ to_string b ++ [NL].

(** The answer to two numbers whose sum fits is the sum; white space may surround them. *)
Theorem reply_adds a b r :
  is_int a -> is_int b -> is_int (a + b) ->
  (forall c r', r = c :: r' -> is_digit c = false) ->
  reply (to_string a ++ [32] ++ to_string b ++ r) = Some (to_string (a + b) ++ [NL]).
Proof.
  intros Ha Hb Hab Hr. unfold reply.
  rewrite (scan_d_extract _ a ([32] ++ to_string b ++ r)).
  2: { apply extract_int_to_string; [done|]. by intros c r' [= <- _]. }
  rewrite (scan_d_extract _ b r).
  2: { rewrite <- (extract_int_to_string b r) by done. done. }
  by rewrite decide_True.
Qed.

Lemma reply_request a b :
  is_int a -> is_int b -> is_int (a + b) -> reply (request a b) = Some (to_string (a + b) ++ [NL]).
Proof. intros. apply reply_adds; try done. by intros c r [= <- _]. Qed.

End AddFacts.

(** *** The filter at the ends of two pipes

    Standard input is a pipe on which one text after the other arrives, each read by itself, and
    which ends after the last; standard output is a pipe that takes what is written. *)

Record pipe_ends := PipeEnds { arriving : list bytes; answered : list bytes }.

#[export] Instance pipe_ends_files : FileOps pipe_ends := {
  k_read fd n w :=
    if fd =? STDIN_FILENO then
      match arriving w with
      | [] => (SysOk [], w)
      | t :: r => (SysOk (take (Z.to_nat n) t),
          PipeEnds (if n <? zlen t then drop (Z.to_nat n) t :: r else r) (answered w))
      end
    else (SysErr EBADF, w);
  k_write fd d w :=
    if fd =? STDOUT_FILENO then (SysOk (zlen d), PipeEnds (arriving w) (answered w ++ [d]))
    else (SysErr EBADF, w);
  k_open _ _ _ w := (SysErr 2, w);
  k_close _ w := (SysOk tt, w);
  k_dup _ w := (SysErr EBADF, w);
  k_ftruncate _ _ w := (SysErr EBADF, w);
  k_fsync _ w := (SysErr EBADF, w);
  k_getfd _ w := (SysErr EBADF, w);
  k_setfd _ _ w := (SysErr EBADF, w);
  k_getfl _ w := (SysErr EBADF, w);
  k_setfl _ _ w := (SysErr EBADF, w);
}.

(** The program of [15/8] run on the texts [ts]; [fuel] covers every read. *)
Definition filter_run `{CLib} (ts : list bytes) : outcome Z * proc pipe_ends :=
  Add.add_main (S (length (mjoin ts))) (Proc 0 true [] (PipeEnds ts [])).

(** What it writes for them.  A program that reads [ts] and then waits has written the same: what
    it wrote cannot depend on how a later read ends. *)
Definition filter_answers `{CLib} (ts : list bytes) : list bytes := answered (kern (filter_run ts).2).

Section FilterFacts.
Context `{CLib}.

(** Answers that fit the buffer and are C strings. *)
Definition printable (a : bytes) : Prop := a <> [] /\ zlen a < Z.of_nat MAXLINE /\ 0 ∉ a.

Lemma to_string_chars z : Forall (fun c => c = 45 \/ is_digit c = true) (to_string z).
Proof.
  assert (Hd : forall n, Forall (fun c => c = 45 \/ is_digit c = true) (digits n)).
  { intros n. eapply Forall_impl; [apply digits_digit|]. auto. }
  unfold to_string. destruct (z <? 0); auto.
Qed.

Lemma to_string_not_in z c : c <> 45 -> is_digit c = false -> c ∉ to_string z.
Proof.
  intros Hc Hd Hin. pose proof (to_string_chars z) as Hall. rewrite Forall_forall in Hall.
  destruct (Hall c Hin); congruence.
Qed.

Lemma to_string_short z : is_int z -> (length (to_string z) <= 11)%nat.
Proof.
  unfold is_int, INT_MIN, INT_MAX. intros Hz.
  assert (Hd : forall n, 0 <= n <= 2147483648 -> (length (digits n) <= 10)%nat).
  { intros n Hn. apply (digits_length_bound 9). change (10 ^ Z.of_nat 10) with 10000000000. lia. }
  unfold to_string. destruct (Z.ltb_spec z 0); [simpl; specialize (Hd (- z))|specialize (Hd z)]; lia.
Qed.

Lemma request_is_line a b : is_int a -> is_int b -> is_line (request a b) /\ 0 ∉ request a b.
Proof.
  intros Ha Hb. split.
  - exists (to_string a ++ [32] ++ to_string b). unfold request. split_and!.
    + by rewrite <- !app_assoc.
    + rewrite !elem_of_app, list_elem_of_singleton. intros [Hin|[Hin|Hin]]; [|done|];
        by apply to_string_not_in in Hin.
    + pose proof (to_string_short a Ha). pose proof (to_string_short b Hb).
      rewrite !length_app. unfold MAXLINE. simpl. lia.
  - unfold request. rewrite !elem_of_app, !list_elem_of_singleton.
    intros [Hin|[Hin|[Hin|Hin]]]; try done; by apply to_string_not_in in Hin.
Qed.

(** Two numbers whose sum is an [int]. *)
Definition summable (ab : Z * Z) : Prop := is_int ab.1 /\ is_int ab.2 /\ is_int (ab.1 + ab.2).

Lemma answers_printable ab :
  summable ab ->
  default [] (Add.reply (request ab.1 ab.2)) = to_string (ab.1 + ab.2) ++ [NL] /\
  printable (default [] (Add.reply (request ab.1 ab.2))).
Proof.
  destruct ab as [a b]. intros (Ha & Hb & Hab). simpl in *. rewrite reply_request by done. simpl.
  split; [done|]. unfold printable. pose proof (to_string_short _ Hab). split_and!.
  - by destruct (to_string (a + b)).
  - unfold zlen. rewrite length_app. unfold MAXLINE. simpl. lia.
  - rewrite elem_of_app, list_elem_of_singleton. intros [Hin|Hin]; [by apply to_string_not_in in Hin|done].
Qed.

(** The lines the parent gets and the lines it is to print. *)
Definition requests (nums : list (Z * Z)) : list bytes := (fun ab => request ab.1 ab.2) <$> nums.
Definition sums (nums : list (Z * Z)) : list bytes := (fun ab => to_string (ab.1 + ab.2) ++ [NL]) <$> nums.

(** The loop of [15/8] answers each text with the sum, until the pipe ends. *)
Lemma add_loop_answers fuel nums (p : proc pipe_ends) :
  Forall summable nums -> arriving (kern p) = requests nums -> (length nums < fuel)%nat ->
  returns (Add.add_loop fuel) (fun _ p' =>
    arriving (kern p') = [] /\ answered (kern p') = answered (kern p) ++ sums nums) p.
Proof.
  intros Hnums. revert fuel p. induction Hnums as [|ab nums Hab Hnums IH];
    intros [|fuel] p Har Hf; try (simpl in Hf; lia); cbn [Add.add_loop]; mstep; unfold read; mstep;
    apply returns_syscall; simpl; rewrite Har; intros r w' [= <- <-]; mstep.
  - simpl. mstep. by rewrite app_nil_r.
  - pose proof Hab as (Ha & Hb & Hs). destruct (request_is_line _ _ Ha Hb) as [Hl Hz].
    destruct Hl as (t & Et & _ & Hlen). set (rq := request ab.1 ab.2) in *.
    assert (Hsm : 0 < zlen rq < Z.of_nat MAXLINE).
    { rewrite Et. unfold zlen. rewrite length_app. simpl. unfold MAXLINE in *. lia. }
    rewrite take_ge by (unfold zlen in Hsm; lia).
    rewrite (proj2 (Z.ltb_lt _ _)) by lia. mstep. unfold Add.add_body.
    rewrite (proj2 (Z.eqb_neq _ _)), c_string_no_zero by (done || lia).
    unfold rq. rewrite reply_request by done. mstep.
    eapply returns_writen_whole.
    { unfold zlen. rewrite length_app. simpl. lia. }
    { rewrite take_ge by (unfold zlen; lia). reflexivity. }
    cbn [failed]. mstep. eapply returns_mono; [apply IH|].
    + simpl. by rewrite (proj2 (Z.ltb_ge _ _)) by (fold rq; lia).
    + simpl in Hf. lia.
    + intros [] p' [H1 H2]. split; [done|]. rewrite H2. simpl. by rewrite <- app_assoc.
Qed.

Lemma requests_length nums : (length nums <= length (mjoin (requests nums)))%nat.
Proof.
  induction nums as [|ab nums IH]; [done|]. simpl. rewrite length_app. unfold request at 1.
  rewrite !length_app. simpl. fold (requests nums). lia.
Qed.

(** [15/8], run on request lines, writes the sums and exits with status 0. *)
Lemma filter_adds nums :
  Forall summable nums ->
  (filter_run (requests nums)).1 = Exited 0 /\ filter_answers (requests nums) = sums nums.
Proof.
  intros Hnums. pose proof (requests_length nums).
  assert (Hr := add_loop_answers (S (length (mjoin (requests nums)))) nums
    (Proc 0 true [] (PipeEnds (requests nums) [])) Hnums eq_refl ltac:(lia)).
  apply returns_eq in Hr as ([] & p' & E & _ & Ha).
  unfold filter_answers, filter_run, Add.add_main. by rewrite (bind_ret_l _ _ _ _ _ E).
Qed.

End FilterFacts.

(** ** The coprocess answers *)

Section CoprocFacts.
Import Coproc.
Context {W : Type} `{FO : FileOps W} `{SS : StdioSpec W} `{CLib}.
Implicit Types p : proc W.

(** The pipes between the parent and a coprocess.  [dialogue] gives the texts the parent has
    written and the number of answers it has read; [filter] gives what the coprocess writes when
    these texts arrive.  A write to the one pipe is one more text, and a read from the other gives
    the next answer, if the coprocess writes one.  The streams of the parent and the pipes do not
    touch each other. *)
Record coprocess (dialogue : W -> list bytes * nat) (filter : list bytes -> list bytes)
    (to_child from_child : Z) : Prop := {
  co_write d w : d <> [] -> exists w', k_write to_child d w = (SysOk (zlen d), w') /\
    dialogue w' = ((dialogue w).1 ++ [d], (dialogue w).2) /\
    (forall t, input w' t = input w t /\ breaks w' t = breaks w t /\ written w' t = written w t);
  co_read a w : filter (dialogue w).1 !! (dialogue w).2 = Some a ->
    zlen a <= Z.of_nat MAXLINE ->
    exists w', k_read from_child (Z.of_nat MAXLINE) w = (SysOk a, w') /\
    dialogue w' = ((dialogue w).1, S (dialogue w).2) /\
    (forall t, input w' t = input w t /\ breaks w' t = breaks w t /\ written w' t = written w t);
  co_close fd w : dialogue (k_close fd w).2 = dialogue w /\
    (forall t, input (k_close fd w).2 t = input w t /\
    breaks (k_close fd w).2 t = breaks w t /\ written (k_close fd w).2 t = written w t);
  co_getc s w : dialogue (k_getc s w).2 = dialogue w;
  co_fwrite s d w : dialogue (k_fwrite s d w).2 = dialogue w;
}.

Lemma parent_body_wp dialogue filter to_child from_child sent l a p :
  coprocess dialogue filter to_child from_child ->
  dialogue (kern p) = (sent, length sent) -> filter (sent ++ [l]) !! length sent = Some a ->
  l <> [] -> 0 ∉ l -> zlen l < Z.of_nat MAXLINE -> printable a -> ~ fails stdout ->
  wp (parent_body to_child from_child l) (fun o p' => o = Ret true /\
    dialogue (kern p') = (sent ++ [l], length (sent ++ [l])) /\
    written (kern p') stdout = written (kern p) stdout ++ a /\
    input (kern p') stdin = input (kern p) stdin /\ breaks (kern p') stdin = breaks (kern p) stdin) p.
Proof.
  intros Hco Hpend Ha Hl Hz Hsmall (Hne & Hfit & Hz') Hok. unfold parent_body.
  rewrite c_string_no_zero by done.
  assert (Hpos : 0 < zlen l) by (destruct l; [done|zlia]).
  destruct (co_write _ _ _ _ Hco l (kern p) Hl) as (w1 & E1 & Hp1 & Hs1).
  rewrite Hpend in Hp1. cbn [fst snd] in Hp1.
  destruct (co_read _ _ _ _ Hco a w1) as (w2 & E2 & Hp2 & Hs2); [by rewrite Hp1|lia|].
  rewrite Hp1 in Hp2. cbn [fst snd] in Hp2.
  apply wp_bind_ret. eapply returns_writen_whole; [done|rewrite take_ge by (unfold zlen; lia); exact E1|].
  apply wp_bind_ret. cbn [failed]. mstep. apply wp_bind_ret. unfold read. mstep. apply returns_syscall. simpl.
  rewrite E2. intros r w' [= <- <-]. mstep.
  assert (0 < zlen a) by (destruct a; [done|zlia]).
  rewrite (proj2 (Z.ltb_ge _ _)), !(proj2 (Z.eqb_neq _ _)) by lia.
  apply wp_bind_ret. unfold fputs. rewrite c_string_no_zero by done. apply returns_call.
  intros ok w3 E3. simpl in E3. pose proof (co_fwrite _ _ _ _ Hco stdout a w2) as Hp3.
  rewrite E3 in Hp3. apply fwrite_law in E3 as L. destruct L as (Hb & Hi & _ & Hw).
  destruct ok; [|exfalso; apply Hok; exists a, w2; by rewrite E3].
  wstep. simpl in *. destruct (Hs1 stdin) as (Hi1 & Hb1 & _), (Hs2 stdin) as (Hi2 & Hb2 & _).
  destruct (Hs1 stdout) as (_ & _ & Hw1), (Hs2 stdout) as (_ & _ & Hw2).
  rewrite Hw by done. rewrite Hp3, Hp2, Hi, Hb, Hi2, Hb2, Hw2, Hw1, Hi1, Hb1, length_app, Nat.add_1_r. done.
Qed.

(** The loop of the parent: each line is answered, in order. *)
Lemma parent_loop_wp dialogue filter answer to_child from_child fuel ls p :
  coprocess dialogue filter to_child from_child -> dialogue (kern p) = ([], 0%nat) ->
  (forall sent, sent `prefix_of` ls -> filter sent = answer <$> sent) ->
  breaks (kern p) stdin = false -> ~ fails stdout ->
  input (kern p) stdin = mjoin ls -> Forall is_line ls -> 0 ∉ mjoin ls ->
  Forall (fun l => printable (answer l)) ls -> (length (mjoin ls) < fuel)%nat ->
  wp (while_fgets fuel stdin (parent_body to_child from_child)) (fun o p' => o = Ret tt /\
    k_ferror stdin (kern p') = false /\
    written (kern p') stdout = written (kern p) stdout ++ mjoin (answer <$> ls)) p.
Proof.
  intros Hco Hpend Hfil Hnb Hok Hin Hls Hz Hans Hf.
  pose proof (lines_of_lines fuel ls Hls ltac:(lia)) as Hlines. rewrite <- Hin in Hlines.
  eapply wp_mono.
  { apply (while_fgets_wp fuel stdin _
      (fun done q => dialogue (kern q) = (done, length done) /\
         written (kern q) stdout = written (kern p) stdout ++ mjoin (answer <$> done))
      (fun _ _ => False) ls [] p).
    - intros done q q' [Hq1 Hq2] Hr. rewrite (rd_written _ _ _ Hr). split; [|done].
      rewrite <- Hq1. apply (reads_keeps dialogue stdin); [|done]. intros w. apply (co_getc _ _ _ _ Hco).
    - intros done l q [Hq1 Hq2] [rest Hpre].
      assert (Hl : l ∈ ls) by (rewrite Hpre; set_solver).
      rewrite Forall_forall in Hans, Hls.
      destruct (Hls l Hl) as (r & -> & Hr & Hlen).
      eapply wp_mono; [eapply (parent_body_wp dialogue filter _ _ done _ (answer (r ++ [NL]))); try done|].
      + rewrite Hfil by (exists rest; by rewrite Hpre, <- app_assoc). rewrite fmap_app.
        rewrite lookup_app_r by (by rewrite length_fmap). by rewrite length_fmap, Nat.sub_diag.
      + by destruct r.
      + intros Hin0. apply Hz. apply list_elem_of_join. eauto.
      + unfold zlen. rewrite length_app. simpl. unfold MAXLINE in *. lia.
      + by apply Hans.
      + intros o q' (-> & Hq' & Hw' & Hi' & Hb'). left. split_and!; [done..| |done|done].
        rewrite Hw', Hq2, fmap_app, join_app. csimpl. by rewrite app_nil_r, <- app_assoc.
    - by rewrite Hin.
    - by rewrite Hlines.
    - by rewrite app_nil_r. }
  intros o p' [(-> & He & rest & _ & [_ Hw] & Hx)|[]].
  rewrite Hx, Hlines in Hw by done. by rewrite He.
Qed.

Lemma returns_close dialogue filter to_child from_child fd (Q : Z -> proc W -> Prop) p :
  coprocess dialogue filter to_child from_child ->
  (forall r p', dialogue (kern p') = dialogue (kern p) -> (forall t, input (kern p') t = input (kern p) t /\
     breaks (kern p') t = breaks (kern p) t /\ written (kern p') t = written (kern p) t) -> Q r p') ->
  returns (close fd) Q p.
Proof.
  intros Hco HQ. pose proof (co_close _ _ _ _ Hco fd (kern p)) as [Hp Ht]. unfold close.
  mstep; match goal with E : k_close _ _ = _ |- _ => rewrite E in * end; apply HQ; done.
Qed.

(** C30: [15/9] with the program of [15/8] as its coprocess.  When the input of the parent is lines
    of two decimal [int]s with a space between them, whose sum is an [int], and no stream or pipe
    fails, the parent writes every line to the coprocess, reads the answer before it sends the
    next, prints the sums line by line in the order of the input, and exits with status 0; and the
    loop of [15/8], which wrote these answers, exits with status 0 when its input ends. *)
Theorem coproc_adds dialogue to_child from_child c1 c2 fuel nums p :
  coprocess dialogue filter_answers to_child from_child ->
  dialogue (kern p) = ([], 0%nat) -> breaks (kern p) stdin = false -> ~ fails stdout ->
  Forall summable nums ->
  input (kern p) stdin = mjoin (requests nums) ->
  (length (input (kern p) stdin) < fuel)%nat ->
  wp (parent fuel (c1, to_child) (from_child, c2)) (fun o p' => o = Exited 0 /\
    written (kern p') stdout = written (kern p) stdout ++ mjoin (sums nums)) p /\
  (filter_run (requests nums)).1 = Exited 0.
Proof.
  intros Hco Hpend Hnb Hok Hnums Hin Hf. split; [|by apply filter_adds].
  unfold parent. simpl fst. simpl snd.
  assert (Hanswers : (fun l => default [] (Add.reply l)) <$> requests nums = sums nums).
  { unfold requests. rewrite <- list_fmap_compose. apply list_fmap_ext. intros i ab Hab. simpl.
    rewrite Forall_lookup in Hnums. by apply answers_printable, (Hnums i). }
  assert (Hfil : forall sent, sent `prefix_of` requests nums ->
    filter_answers sent = (fun l => default [] (Add.reply l)) <$> sent).
  { intros sent [rest Hpre]. unfold requests in Hpre. apply fmap_app_inv in Hpre as (n1 & n2 & -> & -> & ->).
    apply Forall_app in Hnums as [Hn1 _]. fold (requests n1).
    rewrite (proj2 (filter_adds n1 Hn1)). unfold requests. rewrite <- list_fmap_compose.
    apply list_fmap_ext. intros i ab Hab. simpl. rewrite Forall_lookup in Hn1.
    symmetry. by apply answers_printable, (Hn1 i). }
  apply wp_bind_ret. eapply returns_close; [done|]. intros _ p1 Hp1 Hs1.
  apply wp_bind_ret. eapply returns_close; [done|]. intros _ p2 Hp2 Hs2.
  destruct (Hs1 stdin) as (Hi1 & Hb1 & _), (Hs2 stdin) as (Hi2 & Hb2 & _).
  destruct (Hs1 stdout) as (_ & _ & Hw1), (Hs2 stdout) as (_ & _ & Hw2).
  apply wp_bind. eapply wp_mono.
  { apply (parent_loop_wp dialogue _ (fun l => default [] (Add.reply l)) to_child from_child fuel
             (requests nums) p2 Hco); try congruence; [done|..].
    - apply Forall_fmap. eapply Forall_impl; [exact Hnums|]. intros ab (? & ? & ?). by apply request_is_line.
    - intros [l [Hl Hx]]%list_elem_of_join. apply list_elem_of_fmap in Hx as (ab & -> & Hx).
      rewrite Forall_forall in Hnums. destruct (Hnums ab Hx) as (? & ? & ?). by apply request_is_line in Hl.
    - apply Forall_fmap. eapply Forall_impl; [exact Hnums|]. intros ab Hab. by apply answers_printable. }
  intros o p3 (-> & He & Hw). apply wp_bind_ret, returns_ferror. rewrite He.
  apply wp_bind_ret. mstep. wstep. split; [done|]. by rewrite Hw, Hw2, Hw1, Hanswers.
Qed.

End CoprocFacts.

(** *** A kernel with the filter behind a pipe *)

Definition TO : Z := 5.
Definition FROM : Z := 6.

Record cosim := CoSim { co_streams : streams; co_sent : list bytes; co_taken : nat }.

(** A read from the pipe gives what the program of [15/8] has written for the texts so far. *)
#[export] Instance cosim_files : FileOps cosim := {
  k_read fd n w :=
    if fd =? FROM then
      match filter_answers (co_sent w) !! co_taken w with
      | Some a => (SysOk a, CoSim (co_streams w) (co_sent w) (S (co_taken w)))
      | None => (SysOk [], w)
      end
    else (SysErr 9, w);
  k_write fd d w := if fd =? TO
                    then (SysOk (zlen d), CoSim (co_streams w) (co_sent w ++ [d]) (co_taken w))
                    else (SysErr 9, w);
  k_open _ _ _ w := (SysErr 2, w);
  k_close _ w := (SysOk tt, w);
  k_dup _ w := (SysErr 9, w);
  k_ftruncate _ _ w := (SysErr 9, w);
  k_fsync _ w := (SysErr 9, w);
  k_getfd _ w := (SysErr 9, w);
  k_setfd _ _ w := (SysErr 9, w);
  k_getfl _ w := (SysErr 9, w);
  k_setfl _ _ w := (SysErr 9, w);
}.

#[export] Instance cosim_stdio : StdioOps cosim := {
  k_getc s w := let '(c, t) := k_getc s (co_streams w) in (c, CoSim t (co_sent w) (co_taken w));
  k_ferror s w := k_ferror s (co_streams w);
  k_fwrite s d w := let '(ok, t) := k_fwrite s d (co_streams w) in (ok, CoSim t (co_sent w) (co_taken w));
  k_fflush s w := CoSim (k_fflush s (co_streams w)) (co_sent w) (co_taken w);
}.

#[export, refine] Instance cosim_spec : StdioSpec cosim := {
  input w := input (co_streams w);
  breaks w := breaks (co_streams w);
  written w := written (co_streams w);
}.
Proof.
  - intros s w c w' E. cbn -[streams_ops] in E. destruct (k_getc s (co_streams w)) as [c' t] eqn:Eg. simplify_eq.
    exact (getc_law _ _ _ _ Eg).
  - intros s d w ok w' E. cbn -[streams_ops] in E. destruct (k_fwrite s d (co_streams w)) as [o' t] eqn:Eg. simplify_eq.
    exact (fwrite_law _ _ _ _ _ Eg).
  - intros s w t. exact (fflush_law s (co_streams w) t).
Defined.

Definition cosim_dialogue (w : cosim) : list bytes * nat := (co_sent w, co_taken w).

Lemma cosim_coprocess : coprocess cosim_dialogue filter_answers TO FROM.
Proof.
  split.
  - intros d w Hd. eexists. by split.
  - intros a w E _. exists (CoSim (co_streams w) (co_sent w) (S (co_taken w))).
    cbn [k_read cosim_files]. change (FROM =? FROM) with true. cbn iota.
    cbn [cosim_dialogue fst snd] in E. by rewrite E.
  - done.
  - intros s w. simpl. by destruct (st_input (co_streams w) s).
  - done.
Qed.

Definition cosim0 (text : bytes) : proc cosim :=
  Proc 0 true [] (CoSim (Streams {[stdin := text]} ∅ false) [] 0).

Lemma coproc_adds_witness :
  exists p', Coproc.parent 99 (4, TO) (FROM, 7) (cosim0 (request 20 22 ++ request (-7) 3)) = (Exited 0, p')
  /\ written (kern p') stdout = str "42" ++ [NL] ++ str "-4" ++ [NL].
Proof.
  set (nums := [(20, 22); (-7, 3)]).
  assert (Hsum : Forall summable nums).
  { repeat constructor; apply (bool_decide_unpack _); vm_compute; exact I. }
  assert (Hin : input (kern (cosim0 (request 20 22 ++ request (-7) 3))) stdin
                = mjoin (requests nums)) by (vm_compute; reflexivity).
  destruct (proj1 (coproc_adds cosim_dialogue TO FROM 4 7 99 nums
    (cosim0 (request 20 22 ++ request (-7) 3))
    cosim_coprocess eq_refl eq_refl ltac:(by intros (d & w & E)) Hsum Hin
    ltac:(apply Nat.ltb_lt; vm_compute; reflexivity))) as [Ho Hw].
  destruct (Coproc.parent _ _ _ _) as [o p'] eqn:E. simpl in Ho, Hw. subst o.
  exists p'. split; [done|]. exact Hw.
Defined.

Lemma lower_main_spec_witness :
  written (kern (Lower.lower_main 9 (streams0 (str "aBC1"))).2) stdout = str "abc1".
Proof.
  destruct (proj1 (lower_main_spec 9 (streams0 (str "aBC1"))
    ltac:(apply Nat.ltb_lt; vm_compute; reflexivity))) as [[_ E]|[E _]];
    [exact E|vm_compute in E; discriminate E].
Defined.

(** ** [15/4] *)

Section PagerFacts.
Import Pager.
Context {W : Type} `{SS : StdioSpec W} `{CLib}.
Implicit Types p : proc W.

(** The file reaches the pager unchanged when it has no zero bytes. *)
Theorem popen_sends_file fuel fpin fpout p :
  breaks (kern p) fpin = false -> ~ fails fpout -> 0 ∉ input (kern p) fpin ->
  (length (input (kern p) fpin) < fuel)%nat ->
  wp (while_fgets fuel fpin (put_line fpout)) (fun o p' => o = Ret tt /\
    k_ferror fpin (kern p') = false /\
    written (kern p') fpout = written (kern p) fpout ++ input (kern p) fpin) p.
Proof.
  intros Hnb Hok Hz Hf. eapply wp_mono; [by apply fputs_lines_wp|].
  intros o p' [(-> & He & Hw)|[_ ?]]; [|contradiction].
  rewrite Hw, through_lines_id by (done || lia). by rewrite He.
Qed.

(** Without its argument the program reports a formatting error instead of the usage. *)
Theorem popen_usage `{FileOps W} `{FilterOps W} fuel prog p :
  wp (popen_main fuel [prog]) (fun o p' => o = Exited 1 /\
    console p' = console p ++ [report (log_to_stderr p)
      (str "Formatting error: Usage: {}  <filepath> (" ++ format_error_what ArgNotFound ++ str ")")]) p.
Proof. unfold popen_main. wstep. done. Qed.

End PagerFacts.
