(* ===== verification/SignalThread.v ===== *)
(** * Threads, signals and environment: [12/3], [12/6], [12/7]

    [QuitFlag]: [12/6_thread_handle_signal.cpp], a thread that waits for signals and a main thread
    that waits on a condition variable for the flag it sets, as a step relation.
    [GetEnv]: [12/3_thread_safe_getenv.cpp], with the strings it returns in a heap.
    [AtFork]: [12/7_usage_pthread_atfork.cpp], the handlers around [fork]. *)

From S2P Require Import Prelude Machine Errors Kernel SimKernel Text.
From S2P Require Import Limits.

(** ** [12/6]: the quit flag *)

Module QuitFlag.

Definition SIGINT : Z := 2.
Definition SIGQUIT : Z := 3.

(** [mask]: the signals [sigwait] takes. *)
Definition mask : gset Z := {[SIGINT; SIGQUIT]}.

(** Where the threads are: the statement that comes next. *)
Inductive thread_pc := TWait | TLock | TSet | TUnlock | TSignal | TDone.
Inductive main_pc := MLock | MTest | MWaiting | MRelock | MUnlock | MReset | MMask | MExit.

#[export] Instance main_pc_eq_dec : EqDecision main_pc.
Proof. solve_decision. Defined.

Inductive who := TheThread | TheMain.

Record state := State {
  thr : thread_pc;
  main : main_pc;
  lock : option who;
  quitflag : bool;
  output : list bytes;
  taken : list Z;      (* history: the signals [sigwait] returned *)
}.

Definition initial : state := State TWait MLock None false [] [].

(** The switch of [thr_fn]: what is printed, and where the thread goes on; [None]: [exit(1)]. *)
Definition handle (signo : Z) : bytes * option thread_pc :=
  if signo =? SIGINT then ([NL] ++ str "SIGINT", Some TWait)
  else if signo =? SIGQUIT then ([NL] ++ str "SIGQUIT", Some TLock)
  else ([NL] ++ str "taken unforseen signal " ++ to_string signo, None).

Inductive step : state -> state -> Prop :=
(* thr_fn *)
| t_sigwait s signo text pc :
    thr s = TWait -> signo ∈ mask -> handle signo = (text, Some pc) ->
    step s (State pc (main s) (lock s) (quitflag s) (output s ++ [text]) (taken s ++ [signo]))
| t_lock s :
    thr s = TLock -> lock s = None ->
    step s (State TSet (main s) (Some TheThread) (quitflag s) (output s) (taken s))
| t_set s :
    thr s = TSet -> step s (State TUnlock (main s) (lock s) true (output s) (taken s))
| t_unlock s :
    thr s = TUnlock -> step s (State TSignal (main s) None (quitflag s) (output s) (taken s))
| t_signal s :
    thr s = TSignal ->
    step s (State TDone (match main s with MWaiting => MRelock | m => m end) (lock s) (quitflag s)
              (output s) (taken s))
(* main *)
| m_lock s :
    main s = MLock -> lock s = None ->
    step s (State (thr s) MTest (Some TheMain) (quitflag s) (output s) (taken s))
| m_test s :
    main s = MTest ->
    step s (State (thr s) (if quitflag s then MUnlock else MWaiting)
              (if quitflag s then lock s else None) (quitflag s) (output s) (taken s))
| m_spurious s :
    main s = MWaiting ->
    step s (State (thr s) MRelock (lock s) (quitflag s) (output s) (taken s))
| m_relock s :
    main s = MRelock -> lock s = None ->
    step s (State (thr s) MTest (Some TheMain) (quitflag s) (output s) (taken s))
| m_unlock s :
    main s = MUnlock -> step s (State (thr s) MReset None (quitflag s) (output s) (taken s))
| m_reset s :
    main s = MReset -> step s (State (thr s) MMask (lock s) false (output s) (taken s))
| m_mask s :
    main s = MMask -> step s (State (thr s) MExit (lock s) (quitflag s) (output s) (taken s)).

Definition reachable (s : state) : Prop := rtc step initial s.

(** *** Invariant *)

(** The thread took SIGQUIT. *)
Definition quitting (t : thread_pc) : bool := match t with TWait => false | _ => true end.

(** The thread has set the flag. *)
Definition flag_set (t : thread_pc) : bool :=
  match t with TUnlock | TSignal | TDone => true | _ => false end.

Definition main_left (m : main_pc) : bool :=
  match m with MUnlock | MReset | MMask | MExit => true | _ => false end.

Record Inv (s : state) : Prop := {
  i_lock : lock s = match thr s with
                    | TSet | TUnlock => Some TheThread
                    | _ => match main s with MTest | MUnlock => Some TheMain | _ => None end
                    end;
  i_excl : (thr s = TSet \/ thr s = TUnlock) -> main s <> MTest /\ main s <> MUnlock;
  i_flag : quitflag s = flag_set (thr s) && match main s with MMask | MExit => false | _ => true end;
  i_left : main_left (main s) = true -> flag_set (thr s) = true;
  i_wait : main s = MWaiting -> thr s <> TDone;
  i_taken : if quitting (thr s) then exists r, taken s = r ++ [SIGQUIT] /\ Forall (eq SIGINT) r
            else Forall (eq SIGINT) (taken s);
}.

Lemma quitflag_inv_initial : Inv initial.
Proof. split; try done; try (by intros [?|?]). by constructor. Qed.

Lemma handle_cases signo text pc :
  handle signo = (text, Some pc) -> (signo = SIGINT /\ pc = TWait) \/ (signo = SIGQUIT /\ pc = TLock).
Proof.
  unfold handle. destruct (Z.eqb_spec signo SIGINT) as [->|]; [intros; simplify_eq; auto|].
  destruct (Z.eqb_spec signo SIGQUIT) as [->|]; intros; simplify_eq. auto.
Qed.

Lemma quitflag_inv_step s s' : step s s' -> Inv s -> Inv s'.
Proof.
  intros Hst [H1 H2 H3 H4 H5 H6].
  destruct Hst as [s signo text pc Ht Hm Hh|s Ht Hl|s Ht|s Ht|s Ht|s Hm Hl|s Hm|s Hm|s Hm Hl|s Hm|s Hm|s Hm];
    destruct s as [t m l q o tk]; simpl in *; subst.
  1: { apply handle_cases in Hh as [[-> ->]|[-> ->]]; split; simpl; auto.
       - apply Forall_app. auto.
       - by intros [?|?].
       - eauto. }
  all: first [destruct t | destruct m]; simpl in *; try congruence; split; simpl in *;
    first [done | naive_solver | idtac].
Qed.

Lemma quitflag_reachable_inv s : reachable s -> Inv s.
Proof.
  intros Hr. unfold reachable in Hr. remember initial as s0 eqn:E.
  assert (H0 : Inv s0) by (subst; apply quitflag_inv_initial). clear E.
  induction Hr as [|s0 s1 s2 H1 _ IH]; [done|]. apply IH. by eapply quitflag_inv_step.
Qed.

(** C31: In every interleaving, spurious wakeups included, the two threads never hold the mutex
    together, the main thread leaves its loop only after SIGQUIT was taken, and never waits once
    the signal thread is done: no wakeup is lost. *)
Theorem quitflag_safe s :
  reachable s ->
  ~ ((thr s = TSet \/ thr s = TUnlock) /\ (main s = MTest \/ main s = MUnlock)) /\
  (main_left (main s) = true -> SIGQUIT ∈ taken s) /\
  (thr s = TDone -> main s <> MWaiting).
Proof.
  intros [H1 H2 H3 H4 H5 H6]%quitflag_reachable_inv. split_and!.
  - intros [Ht Hm]. destruct (H2 Ht). tauto.
  - intros Hm. specialize (H4 Hm). destruct (thr s); try done; simpl in H6;
      destruct H6 as (r & -> & _); set_solver.
  - intros Ht Hm. by apply H5.
Qed.

(** *** Termination *)

(** Steps left to the main thread and the thread once SIGQUIT was taken, without spurious
    wakeups. *)
Definition t_rank (t : thread_pc) : nat :=
  match t with TWait => 5 | TLock => 4 | TSet => 3 | TUnlock => 2 | TSignal => 1 | TDone => 0 end.

Definition m_rank (m : main_pc) (q : bool) : nat :=
  match m with
  | MLock => 9 | MRelock => 9
  | MTest => 8
  | MWaiting => if q then 10 else 7
  | MUnlock => 4 | MReset => 3 | MMask => 2 | MExit => 0
  end.

(** A step that is not a spurious wakeup. *)
Definition fair_step (s s' : state) : Prop :=
  step s s' /\ ~ (main s = MWaiting /\ main s' = MRelock /\ thr s' = thr s).

(** After SIGQUIT was taken there is such a step until the main thread has exited. *)
Lemma quitflag_progress s :
  Inv s -> quitting (thr s) = true -> main s <> MExit -> exists s', fair_step s s'.
Proof.
  intros [H1 H2 H3 H4 H5 H6] Hq Hm. destruct s as [t m l q o tk]. simpl in *.
  assert (Hfair : forall s', step (State t m l q o tk) s' -> m <> MWaiting \/ thr s' <> t ->
    exists s', fair_step (State t m l q o tk) s').
  { intros s' Hst Hor. exists s'. split; [done|]. simpl. intros (? & ? & ?). tauto. }
  destruct t; simpl in *; try done.
  - destruct m; subst; simpl in *;
      try (eapply Hfair; [by apply t_lock|by right]); (eapply Hfair; [|by left]).
    + by apply m_test.
    + by apply m_unlock.
  - eapply Hfair; [by apply t_set|by right].
  - eapply Hfair; [by apply t_unlock|by right].
  - eapply Hfair; [by apply t_signal|by right].
  - destruct m; subst; simpl in *; try done; try (by destruct (H5 eq_refl)); (eapply Hfair; [|by left]).
    + by apply m_lock.
    + by apply m_test.
    + by apply m_relock.
    + by apply m_unlock.
    + by apply m_reset.
    + by apply m_mask.
Qed.

Definition rank (s : state) : nat := 5 * t_rank (thr s) + m_rank (main s) (quitflag s).

Lemma fair_step_rank s s' :
  quitting (thr s) = true -> fair_step s s' -> quitting (thr s') = true /\ (rank s' < rank s)%nat.
Proof.
  intros Hq [Hst Hf].
  destruct Hst as [s signo text pc Ht Hm Hh|s Ht Hl|s Ht|s Ht|s Ht|s Hm Hl|s Hm|s Hm|s Hm Hl|s Hm|s Hm|s Hm];
    destruct s as [t m l q o tk]; unfold rank; simpl in *; subst; simpl in *; try done.
  all: try (split; [done|]; first [destruct m, q | destruct q]; simpl; lia).
  exfalso. apply Hf. done.
Qed.

(** Once SIGQUIT was taken, the program ends if wakeups are not spurious for ever: no
    execution goes on without end, and one that cannot go on has the main thread at its exit. *)
Theorem quit_terminates s :
  reachable s -> quitting (thr s) = true ->
  sn fair_step s /\
  (forall s', rtc fair_step s s' -> (forall s'', ~ fair_step s' s'') -> main s' = MExit).
Proof.
  intros Hs%quitflag_reachable_inv Hq. split.
  - apply (decreasing_sn fair_step (fun s => quitting (thr s) = true) rank); [..|done].
    + intros x y Hx Hxy. by apply fair_step_rank in Hxy as [? _].
    + intros x y Hx Hxy. by apply fair_step_rank in Hxy as [_ ?].
  - intros s' Hr Hno.
    assert (Hs' : Inv s' /\ quitting (thr s') = true).
    { clear Hno. induction Hr as [|s s1 s2 H1 _ IH]; [done|]. apply IH; [by eapply quitflag_inv_step, Hs; destruct H1|].
      by apply fair_step_rank in H1 as [? _]. }
    destruct Hs' as [HI Hq']. destruct (decide (main s' = MExit)) as [|Hm]; [done|exfalso].
    destruct (quitflag_progress s' HI Hq' Hm) as [s'' Hst]. by apply (Hno s'').
Qed.

End QuitFlag.

(** The state after SIGQUIT was taken at once. *)
Definition quit_taken : QuitFlag.state :=
  QuitFlag.State QuitFlag.TLock QuitFlag.MLock None false
    [[NL] ++ str "SIGQUIT"] [QuitFlag.SIGQUIT].

Lemma quit_taken_reachable : QuitFlag.reachable quit_taken.
Proof.
  eapply rtc_l; [|apply rtc_refl].
  apply (QuitFlag.t_sigwait QuitFlag.initial QuitFlag.SIGQUIT); [done|unfold QuitFlag.mask; set_solver|done].
Qed.

Lemma quitflag_safe_witness : ~ (QuitFlag.thr quit_taken = QuitFlag.TSet /\ QuitFlag.main quit_taken = QuitFlag.MTest).
Proof.
  intros [H1 H2]. apply (proj1 (QuitFlag.quitflag_safe quit_taken quit_taken_reachable)). auto.
Defined.

Lemma quit_terminates_witness : sn QuitFlag.fair_step quit_taken.
Proof. exact (proj1 (QuitFlag.quit_terminates quit_taken quit_taken_reachable eq_refl)). Defined.

(** ** [12/3]: a reentrant [getenv] *)

Module GetEnv.

(** Strings owned by shared pointers live in a heap; each thread's container, made when the
    thread first calls, holds a pointer or null.  The environment can change between calls. *)
Record state := State {
  env : gmap string bytes;
  heap : gmap nat bytes;
  next : nat;                           (* addresses from here on are free *)
  key : bool;                           (* the key was created: [init_done] *)
  keys_made : nat;                      (* history: calls of [thread_init] *)
  containers : gmap nat (option nat);   (* per thread *)
  env_mutex : bool;                     (* locked *)
}.

Definition thread_init (s : state) : state :=
  State (env s) (heap s) (next s) true (S (keys_made s)) (containers s) (env_mutex s).

Definition pthread_once (s : state) : state := if key s then s else thread_init s.

Definition container (tid : nat) (s : state) : state :=
  match containers s !! tid with
  | Some _ => s
  | None => State (env s) (heap s) (next s) (key s) (keys_made s) (<[tid := None]> (containers s)) (env_mutex s)
  end.

Definition set_mutex (b : bool) (s : state) : state :=
  State (env s) (heap s) (next s) (key s) (keys_made s) (containers s) b.

(** [getenv_r]: the address of the string it returns.  The mutex is free when it is called: a
    caller waits until then. *)
Definition getenv_r (tid : nat) (name : string) (s : state) : option nat * state :=
  let s := container tid (pthread_once s) in
  let s := set_mutex true s in
  match env s !! name with
  | None => (None, set_mutex false s)
  | Some val =>
      let a := next s in
      let s := State (env s) (<[a := val]> (heap s)) (S a) (key s) (keys_made s)
                 (<[tid := Some a]> (containers s)) (env_mutex s) in
      (Some a, set_mutex false s)
  end.

(** [*container] of a thread that ends is deleted; strings whose last owner is gone are freed by
    the library, which no holder of a pointer can see. *)
Definition free_thread_buffer (tid : nat) (s : state) : state :=
  State (env s) (heap s) (next s) (key s) (keys_made s) (delete tid (containers s)) (env_mutex s).

(** What can happen between two uses of a returned pointer. *)
Inductive event :=
| Call (tid : nat) (name : string)
| Setenv (name : string) (val : bytes)
| Unsetenv (name : string)
| ThreadExit (tid : nat).

Definition set_env (e : gmap string bytes) (s : state) : state :=
  State e (heap s) (next s) (key s) (keys_made s) (containers s) (env_mutex s).

Definition run1 (s : state) (ev : event) : state :=
  match ev with
  | Call tid name => (getenv_r tid name s).2
  | Setenv name val => set_env (<[name := val]> (env s)) s
  | Unsetenv name => set_env (delete name (env s)) s
  | ThreadExit tid => free_thread_buffer tid s
  end.

Definition run (s : state) (evs : list event) : state := fold_left run1 evs s.

(** Addresses in use are below [next]; the key is created at most once; nobody holds the mutex. *)
Record wf (s : state) : Prop := {
  w_heap a : is_Some (heap s !! a) -> (a < next s)%nat;
  w_key : keys_made s = if key s then 1%nat else 0%nat;
  w_mutex : env_mutex s = false;
}.

Definition initial (e : gmap string bytes) : state := State e ∅ 0 false 0 ∅ false.

Lemma wf_initial e : wf (initial e).
Proof. split; try done. intros a [x Hx]. simpl in Hx. by rewrite lookup_empty in Hx. Qed.

Lemma prepared_parts tid s :
  wf s -> let s' := container tid (pthread_once s) in
  env s' = env s /\ heap s' = heap s /\ next s' = next s /\ keys_made s' = (if key s' then 1 else 0)%nat.
Proof.
  intros [Hh Hk Hm]. unfold container, pthread_once.
  destruct (key s) eqn:Ek; destruct (containers _ !! tid); simpl; rewrite ?Ek, ?Hk; auto.
Qed.

(** What a call does to the parts of the state others see. *)
Lemma getenv_r_parts tid name s :
  wf s ->
  let '(r, s') := getenv_r tid name s in
  wf s' /\ env s' = env s /\
  match env s !! name with
  | None => r = None /\ heap s' = heap s
  | Some val => r = Some (next s) /\ heap s' = <[next s := val]> (heap s)
  end.
Proof.
  intros Hwf. destruct (prepared_parts tid s Hwf) as (He & Hh & Hn & Hk). destruct Hwf as [Hheap _ _].
  unfold getenv_r. set (s1 := container tid (pthread_once s)) in *. simpl. rewrite He.
  destruct (env s !! name) as [val|]; simpl; rewrite ?Hn, ?Hh; split_and!; try done; split; simpl; try done.
  - intros a. rewrite ?Hh, ?Hn. destruct (decide (a = next s)) as [->|Ha]; [lia|].
    rewrite lookup_insert_ne by done. intros Hs. apply Hheap in Hs. lia.
  - intros a. rewrite ?Hh, ?Hn. apply Hheap.
Qed.

Lemma run1_parts s ev :
  wf s -> wf (run1 s ev) /\ (forall a v, heap s !! a = Some v -> heap (run1 s ev) !! a = Some v).
Proof.
  intros Hwf. destruct ev as [tid name|name val|name|tid]; simpl.
  - pose proof (getenv_r_parts tid name s Hwf) as Hp. destruct (getenv_r tid name s) as [r s'].
    destruct Hp as (Hwf' & _ & Hp). split; [done|]. intros a v Ha. simpl.
    destruct (env s !! name); destruct Hp as [_ ->]; [|done].
    rewrite lookup_insert_ne; [done|].
    assert (a < next s)%nat by (apply (w_heap s Hwf); eauto). lia.
  - split; [|done]. by destruct Hwf.
  - split; [|done]. by destruct Hwf.
  - split; [|done]. by destruct Hwf.
Qed.

Lemma run_parts evs s :
  wf s -> wf (run s evs) /\ (forall a v, heap s !! a = Some v -> heap (run s evs) !! a = Some v).
Proof.
  revert s. induction evs as [|ev evs IH]; intros s Hwf; [done|]. cbn [run fold_left].
  destruct (run1_parts s ev Hwf) as [Hwf1 Hk1]. destruct (IH _ Hwf1) as [Hwf2 Hk2].
  split; [done|]. intros a v Ha. by apply Hk2, Hk1.
Qed.

(** [getenv_r] returns a string with the value the variable has at the call, [nullopt]
    exactly when it is not set; the string never changes afterwards, whatever any thread calls,
    sets, unsets or ends; the key is created once and the mutex is free after every call. *)
Theorem getenv_r_stable e before tid name after :
  let s := run (initial e) before in
  let '(r, s1) := getenv_r tid name s in
  let s2 := run s1 after in
  match r with
  | Some a => exists val, env s !! name = Some val /\ heap s1 !! a = Some val /\ heap s2 !! a = Some val
  | None => env s !! name = None
  end /\ keys_made s1 = 1%nat /\ env_mutex s1 = false.
Proof.
  intros s. destruct (run_parts before _ (wf_initial e)) as [Hwf _]. fold s in Hwf.
  pose proof (getenv_r_parts tid name s Hwf) as Hp.
  assert (Hkey : key (getenv_r tid name s).2 = true).
  { unfold getenv_r, container, pthread_once. destruct (key s) eqn:Ek;
      destruct (containers _ !! tid); simpl; destruct (env s !! name); simpl; done. }
  destruct (getenv_r tid name s) as [r s1]. simpl in Hkey.
  destruct Hp as (Hwf1 & _ & Hp). intros s2. split; [|split].
  - destruct (run_parts after s1 Hwf1) as [_ Hkeep].
    destruct (env s !! name) as [val|] eqn:Ee; destruct Hp as [-> Hh]; [|done].
    assert (Ha : heap s1 !! next s = Some val) by (rewrite Hh; by rewrite lookup_insert_eq).
    exists val. split_and!; [done..|]. by apply Hkeep.
  - by rewrite (w_key s1 Hwf1), Hkey.
  - apply (w_mutex s1 Hwf1).
Qed.

End GetEnv.

(** ** [12/7]: handlers around [fork] *)

Module AtFork.

(** Mutexes by number; calls return an error number.  [k_fork] returns 0 in the child. *)
Class MutexOps (W : Type) := {
  k_mutex_lock : Z -> W -> Z * W;
  k_mutex_unlock : Z -> W -> Z * W;
  k_atfork_fork : W -> sysres Z * W;
  k_getpid : W -> Z;
}.

Definition lock1 : Z := 1.
Definition lock2 : Z := 2.

Section AtFork.
Context {W : Type} `{MutexOps W} `{CLib}.

Definition pcall (f : W -> Z * W) : M W Z := fun p =>
  let '(e, w) := f (kern p) in (Ret e, Proc (errno p) (log_to_stderr p) (console p) w).

(** [if ((err = f()) != 0) err_cont(err, text);] *)
Definition checked (f : W -> Z * W) (text : bytes) : M W unit :=
  err ← pcall f; when (negb (err =? 0)) (err_cont err text []).

Definition prepare : M W unit :=
  println (str "preparing blocks...") ;;
  checked (k_mutex_lock lock1) (str "call pthread_mutex_lock(lock1) at prepare") ;;
  checked (k_mutex_lock lock2) (str "call pthread_mutex_lock(lock2) at prepare").

Definition parent : M W unit :=
  println (str "parent is unlocking blocks...") ;;
  checked (k_mutex_unlock lock1) (str "call pthread_mutex_unlock(lock1) at parent") ;;
  checked (k_mutex_unlock lock2) (str "call pthread_mutex_unlock(lock2) at parent").

Definition child : M W unit :=
  println (str "child is unlocking blocks...") ;;
  checked (k_mutex_unlock lock1) (str "call pthread_mutex_unlock(lock1) at child") ;;
  checked (k_mutex_unlock lock2) (str "call pthread_mutex_unlock(lock2) at child").

(** [fork] with the handlers [pthread_atfork] registered. *)
Definition fork : M W Z :=
  prepare ;;
  pid ← syscall_int k_atfork_fork;
  (if pid =? 0 then child else parent) ;;
  mret pid.

(** [main] from the call of [fork] on. *)
Definition atfork_main : M W Z :=
  println (str "parent process is calling fork...") ;;
  pid ← fork;
  self ← (fun p => (Ret (k_getpid (kern p)), p));
  if pid <? 0 then err_quit (str "call fork") []
  else if pid =? 0 then
    println (str "child process " ++ to_string self ++ str " after fork") ;; sys_exit 0
  else println (str "parent process " ++ to_string self ++ str " after fork") ;; sys_exit 0.

End AtFork.

(** Mutexes: a free one can be locked, the holder can unlock; [fork] copies their state. *)
Class MutexSpec (W : Type) `{MutexOps W} := {
  held : W -> gset Z;
  mutex_lock_law m w : m ∉ held w ->
    exists w', k_mutex_lock m w = (0, w') /\ held w' = {[m]} ∪ held w;
  mutex_unlock_law m w : m ∈ held w ->
    exists w', k_mutex_unlock m w = (0, w') /\ held w' = held w ∖ {[m]};
  fork_keeps_mutexes w : held (k_atfork_fork w).2 = held w;
}.

Section AtForkFacts.
Context {W : Type} `{MS : MutexSpec W} `{CLib}.
Implicit Types p : proc W.

Lemma returns_checked f text (Q : unit -> proc W -> Prop) p w' :
  f (kern p) = (0, w') ->
  Q tt (Proc (errno p) (log_to_stderr p) (console p) w') -> returns (checked f text) Q p.
Proof. intros E HQ. unfold returns, wp, checked, mbind, M_bind, pcall. by rewrite E. Qed.

(** The handlers bracket the fork: both locks are held while the process is copied, and free
    again in the parent and in the child, where nobody else could free them; each process prints
    its two lines. *)
Theorem fork_frees_locks p :
  held (kern p) = ∅ ->
  returns fork (fun pid p' => held (kern p') = ∅ /\
    exists q, held (kern q) = {[lock1; lock2]} /\ pid = match (k_atfork_fork (kern q)).1 with
                                                        | SysOk n => n | SysErr _ => -1 end /\
    console p' = console p ++
      [Stdout (str "preparing blocks..." ++ [NL]);
       Stdout ((if pid =? 0 then str "child is unlocking blocks..."
                else str "parent is unlocking blocks...") ++ [NL])]) p.
Proof.
  intros Hfree.
  destruct (mutex_lock_law lock1 (kern p)) as (w1 & E1 & H1); [set_solver|].
  destruct (mutex_lock_law lock2 w1) as (w2 & E2 & H2); [rewrite H1, Hfree; set_solver|].
  rewrite H1, Hfree in H2.
  unfold fork, prepare. mstep. mstep. mstep. mstep.
  eapply returns_checked; [exact E1|]. eapply returns_checked; [exact E2|]. simpl.
  pose proof (fork_keeps_mutexes w2) as Hf. destruct (k_atfork_fork w2) as [r w3] eqn:Ef. simpl in Hf.
  destruct (mutex_unlock_law lock1 w3) as (w4 & E4 & H4); [rewrite Hf, H2; set_solver|].
  destruct (mutex_unlock_law lock2 w4) as (w5 & E5 & H5); [rewrite H4, Hf, H2; set_solver|].
  assert (H5' : held w5 = ∅) by (rewrite H5, H4, Hf, H2; set_solver).
  assert (Hq : held w2 = {[lock1; lock2]}) by (rewrite H2; set_solver).
  mstep. apply returns_syscall_int; simpl; rewrite Ef; intros x w6 [= -> ->].
  - destruct (x =? 0) eqn:Ex; unfold child, parent; mstep; mstep; mstep; mstep;
      (eapply returns_checked; [exact E4|]); (eapply returns_checked; [exact E5|]); mstep; rewrite Ex;
      (split; [done|]); exists (Proc (errno p) (log_to_stderr p) (console p) w2); simpl; rewrite Ef;
      simpl; by rewrite <- app_assoc.
  - simpl. unfold parent. mstep. mstep. mstep. mstep.
    eapply returns_checked; [exact E4|]. eapply returns_checked; [exact E5|]. mstep.
    split; [done|]. exists (Proc (errno p) (log_to_stderr p) (console p) w2). simpl. rewrite Ef.
    simpl. by rewrite <- app_assoc.
Qed.

End AtForkFacts.
End AtFork.
