(* ===== verification/ConfDaemons.v ===== *)
(** * The daemons of chapter 13

    The [main] functions of [13/1_daemonize.cpp], of the two programs [13/3] that take signals in
    a thread, and of [13/4_daemon_reread_conf.cpp], which takes them in handlers.  They compose
    [daemonize] and [already_running] of [Daemon.v] with the signal calls. *)

From S2P Require Import Prelude Machine Errors Kernel SimKernel Text FileIO.
From S2P Require Import Locks LockTable Daemon Handshake ProcThreads.
Import Signals.

(** [sigfillset]: signals 1 to 64. *)
Definition all_signals : gset Z := list_to_set (seqZ 1 64).

(** [sigaction] with a mask of signals to block in the handler. *)
Class SigactOps (W : Type) := {
  k_sigact : Z -> handler -> gset Z -> W -> sysres unit * W;
}.

(** Texts of the two programs [13/3]. *)
Record main_texts := {
  m_running : bytes;
  m_sigaction : bytes;
  m_sigmask : bytes;
  m_create : bytes;
}.

Definition main_texts_reread : main_texts :=
  {| m_running := str "daemon already running";
     m_sigaction := str "call sigaction(SIG_DFL for SIGHUP)";
     m_sigmask := str "pthread_sigmask(SIG_BLOCK)";
     m_create := str "pthread_create" |}.

Definition main_texts_thread_reread : main_texts :=
  {| m_running := str "daemon has already run";
     m_sigaction := str "call sigaction(SIGHUP)";
     m_sigmask := str "call pthread_sigmask(SIG_BLOCK)";
     m_create := str "call pthread_create" |}.

(** The handlers of [13/4], by their names. *)
Definition h_sigterm : Z := 2.
Definition h_sighup : Z := 3.

Section Programs.
Context {F W : Type} `{FileOps W} `{ProcOps W} `{LockOps W} `{SigOps W} `{ThreadOps F W} `{SigactOps W} `{CLib}.
Context (getpid : W -> Z) (junk : Z).

(** [13/1], up to its loop of [pause]. *)
Definition daemonize_main (argv0 : bytes) : M W unit := daemonize argv0.

(** [if (already_running()) { syslog(LOG_ERR, text); exit(1); }] *)
Definition single_instance (text : bytes) : M W unit :=
  running ← already_running getpid junk;
  if truthy running then emit (Syslog LOG_ERR text) ;; sys_exit 1 else mret tt.

(** The programs [13/3], up to the [pause] of the main thread; [thr] is the thread's function. *)
Definition reread_main (t : main_texts) (thr : F) (argv0 : bytes) : M W unit :=
  daemonize (cmd_name argv0) ;;
  single_instance (m_running t) ;;
  r ← syscall (k_sigaction SIGHUP SIG_DFL 0);
  (match r with SysErr _ => err_quit (m_sigaction t) [] | SysOk _ => mret tt end) ;;
  m ← (fun p => let '(r, w) := k_sigprocmask (Some (SIG_BLOCK, all_signals)) (kern p) in
                (Ret r, Proc (errno p) (log_to_stderr p) (console p) w));
  (match m with SysErr err => err_exit err (m_sigmask t) [] | SysOk _ => mret tt end) ;;
  err ← pcall (k_create thr);
  if negb (err =? 0) then err_exit err (m_create t) [] else mret tt.

(** [main] of [13/3_daemon_reread_conf.cpp] and of [13/3_daemon_thread_reread_conf.cpp]. *)
Definition daemon_reread_main : F -> bytes -> M W unit := reread_main main_texts_reread.
Definition daemon_thread_reread_main : F -> bytes -> M W unit := reread_main main_texts_thread_reread.

(** [13/4]. *)
Definition sigterm : M W unit := emit (Syslog LOG_INFO (str "taken signal SIGTERM")) ;; sys_exit 0.
Definition sighup : M W unit := emit (Syslog LOG_INFO (str "reading conf file")).

(** Install one handler; the error is logged with its text. *)
Definition install (signo : Z) (h : handler) (sa_mask : gset Z) (text : bytes) : M W unit :=
  r ← syscall_unit (k_sigact signo h sa_mask);
  if r <? 0 then
    e ← get_errno; emit (Syslog LOG_ERR (text ++ strerror e)) ;; sys_exit 1
  else mret tt.

(** Up to the loop of [pause]. *)
Definition handlers_main (argv0 : bytes) : M W unit :=
  daemonize (cmd_name argv0) ;;
  single_instance (str "daemon has already run") ;;
  install SIGTERM (Func h_sigterm) {[SIGHUP]} (str "error sigaction(SIGTERM): ") ;;
  install SIGHUP (Func h_sighup) {[SIGTERM]} (str "error sigaction(SIGHUP): ").

End Programs.

(** ** What the set-up guarantees *)

Section Setup.
Context {F W : Type} `{FO : FileOps W} `{ST : !StreamSpec W} `{PO : ProcOps W} `{LO : LockOps W}.
Context `{SG : SigOps W} `{SS : !SigSpec W} `{TO : ThreadOps F W} `{TS : !ThreadSpec F W} `{CLib}.
Context (getpid : W -> Z) (junk : Z) (Hpid : forall w, is_int (getpid w)).
Implicit Types p : proc W.

Lemma close_from_settles i n p :
  settles (close_from i n) (fun _ _ => True) p.
Proof.
  revert i p. induction n as [|n IH]; intros i p; [done|]. simpl. unfold close.
  sstep. sstep; apply IH.
Qed.

(** Follow a computation through its system calls and branches. *)
Ltac follow := repeat
  (simpl; match goal with
          | |- settles (if ?b then _ else _) _ _ => destruct b
          | |- settles (match ?r with SysOk _ => _ | SysErr _ => _ end) _ _ => destruct r as [[]|]
          | |- settles (close_from _ _) _ _ => fail 1
          | _ => sstep
          end).

Lemma open_null_settles p : settles open_null (fun _ p' => log_to_stderr p' = false) p.
Proof. unfold open_null, open, dup. follow; apply settles_returns; done. Qed.

(** Every path of [daemonize] ends the process or returns with messages going to the log. *)
Lemma daemonize_settles cmd p : settles (daemonize cmd) (fun _ p' => log_to_stderr p' = false) p.
Proof.
  unfold daemonize, daemonize_child. sstep. apply settles_returns, returns_ret. follow.
  all: eapply settles_mono; [apply close_from_settles|]; intros [] q _; apply open_null_settles.
Qed.


Lemma already_running_settles p :
  settles (already_running getpid junk) (fun _ p' => log_to_stderr p' = log_to_stderr p) p.
Proof.
  unfold already_running, open, close, lockfile, fcntl_lock, write_pid, ftruncate. follow; try done.
  apply settles_returns. red. red. simpl. sstep. set (t := to_string _).
  assert (Hl : zlen t <= 33) by (apply to_string_length, Hpid).
  eapply settles_mono; [apply settles_returns, writen_returns; unfold is_size_t, SIZE_MAX; unfold zlen in *; lia|].
  intros r q [[_ Hlog] _]. follow; done.
Qed.

(** The program ends, or continues with the log file's lock. *)
Lemma single_instance_settles text p :
  settles (single_instance getpid junk text) (fun _ p' => log_to_stderr p' = log_to_stderr p) p.
Proof.
  unfold single_instance. sstep. eapply settles_mono; [apply already_running_settles|].
  intros r q Hq. follow; done.
Qed.

(** What thread creation and signal calls keep of each other. *)
Record independent : Prop := {
  create_keeps_signals f w :
    (forall t, handler_of (k_create f w).2 t = handler_of w t) /\ mask_of (k_create f w).2 = mask_of w;
}.

(** When [main] of either program [13/3] reaches its [pause], SIGHUP has its default action
    again although [daemonize] ignored it, every signal is blocked in the main thread, the last
    thread created is the signal thread, which therefore inherited the mask, and messages go to
    the system log; on every other path the process has exited. *)
Theorem reread_main_ready t thr argv0 p :
  independent ->
  settles (reread_main getpid junk t thr argv0) (fun _ p' =>
    handler_of (kern p') SIGHUP = SIG_DFL /\ all_signals ⊆ mask_of (kern p') /\
    log_to_stderr p' = false /\
    exists w, all_signals ⊆ mask_of w /\
      threads (kern p') = threads w ++ [(attr_detached w, thr)]) p.
Proof.
  intros Hind. unfold reread_main. sstep.
  eapply settles_mono; [apply daemonize_settles|]. intros [] p1 Hlog1. sstep.
  eapply settles_mono; [apply single_instance_settles|]. intros [] p2 Hlog2. rewrite Hlog1 in Hlog2.
  sstep. apply settles_returns, returns_syscall. intros r w1 E1. sstep.
  pose proof (sigaction_law _ _ _ _ _ _ E1) as [Hm1 Hh1].
  destruct r as [old|e]; [|sstep]. destruct Hh1 as [_ Hh1]. sstep. sstep. simpl.
  unfold settles at 1, wp at 1. simpl.
  destruct (k_sigprocmask _ w1) as [m w2] eqn:E2. simpl.
  pose proof (sigprocmask_law _ _ _ _ E2) as [Hh2 Hm2].
  change (settles ((match m with SysErr err => err_exit err (m_sigmask t) [] | SysOk _ => mret tt end) ;;
    err ← pcall (k_create thr); if negb (err =? 0) then err_exit err (m_create t) [] else mret tt)
    (fun _ p' => handler_of (kern p') SIGHUP = SIG_DFL /\ all_signals ⊆ mask_of (kern p') /\
      log_to_stderr p' = false /\ exists w, all_signals ⊆ mask_of w /\
        threads (kern p') = threads w ++ [(attr_detached w, thr)])
    (Proc (errno p2) (log_to_stderr p2) (console p2) w2)).
  sstep. destruct m as [old2|err]; [|sstep]. destruct Hm2 as [_ Hm2]. sstep. sstep.
  apply settles_returns, returns_pcall. simpl. intros e w3 E3.
  destruct (create_keeps_signals Hind thr w2) as [Hh3 Hm3]. rewrite E3 in Hh3, Hm3. simpl in *.
  apply create_law in E3 as [_ Ht].
  destruct (Z.eqb_spec e 0) as [->|]; simpl; sstep. cbn [kern log_to_stderr]. simpl in Ht.
  split; [by rewrite Hh3, Hh2, Hh1|]. split; [rewrite Hm3, Hm2; apply union_subseteq_r|]. split; [done|].
  exists w2. split; [rewrite Hm2; apply union_subseteq_r|done].
Qed.

End Setup.

(** ** [13/4]: handlers that do not interrupt each other *)

Module Nesting.

(** The signals blocked while the handler of [signo] runs: its own and those of its [sa_mask]. *)
Definition sa_mask (signo : Z) : gset Z :=
  if signo =? SIGTERM then {[SIGHUP]} else if signo =? SIGHUP then {[SIGTERM]} else ∅.

Definition blocked (stack : list Z) : gset Z :=
  foldr (fun s acc => {[s]} ∪ sa_mask s ∪ acc) ∅ stack.

(** The handlers that are running, the innermost first, and what was logged; the end of the
    process. *)
Record state := State { running : list Z; logged : list bytes; ended : bool }.

Definition log_of (signo : Z) : bytes :=
  if signo =? SIGTERM then str "taken signal SIGTERM" else str "reading conf file".

Inductive step : state -> state -> Prop :=
| deliver s signo :
    ended s = false -> signo = SIGTERM \/ signo = SIGHUP -> signo ∉ blocked (running s) ->
    step s (State (signo :: running s) (logged s) false)
| body s signo rest :
    ended s = false -> running s = signo :: rest ->
    step s (State (if signo =? SIGTERM then running s else rest)
              (logged s ++ [log_of signo]) (signo =? SIGTERM)).

Definition initial : state := State [] [] false.

(** The handlers of [13/4] never interrupt each other: at most one runs at a time, each one
    logs exactly one message, and SIGTERM's, which ends the process, is the last. *)
Theorem handlers_exclusive s :
  rtc step initial s ->
  (length (running s) <= 1)%nat /\
  exists n, logged s = replicate n (str "reading conf file") ++
                       (if ended s then [str "taken signal SIGTERM"] else []).
Proof.
  intros Hr.
  assert (Hinv : (running s = [] \/ running s = [SIGTERM] \/ running s = [SIGHUP]) /\
    exists n, logged s = replicate n (str "reading conf file") ++
                         (if ended s then [str "taken signal SIGTERM"] else [])).
  { remember initial as s0 eqn:E0.
    assert (H0 : (running s0 = [] \/ running s0 = [SIGTERM] \/ running s0 = [SIGHUP]) /\
      exists n, logged s0 = replicate n (str "reading conf file") ++
                            (if ended s0 then [str "taken signal SIGTERM"] else [])).
    { subst. split; [by left|]. by exists 0%nat. }
    clear E0. induction Hr as [|s0 s1 s2 H1 _ IH]; [done|]. apply IH. clear IH.
    destruct H0 as [Hrun (n & Hlog)].
    destruct H1 as [s0 signo He Hs Hb|s0 signo rest He Hrun0]; simpl; rewrite He, app_nil_r in Hlog.
    - split; [|exists n; by rewrite app_nil_r].
      destruct Hrun as [->|[Hrun|Hrun]]; [destruct Hs as [->| ->]; auto|exfalso..];
        rewrite Hrun in Hb; apply Hb; unfold blocked, sa_mask; simpl;
        destruct Hs as [->| ->]; set_solver.
    - rewrite Hrun0 in Hrun. destruct Hrun as [?|[Hrun|Hrun]]; [done|..]; simplify_eq.
      + split; [rewrite Hrun0; auto|]. exists n. by rewrite Hlog.
      + split; [by left|]. exists (S n). rewrite app_nil_r, Hlog. by rewrite replicate_S_end. }
  destruct Hinv as [Hrun Hlog]. split; [|done]. by destruct Hrun as [->|[->| ->]]; simpl; lia.
Qed.

End Nesting.

(** ** A kernel for the set-up *)

Record dk := DK {
  dk_out : bytes;
  dk_next : Z;                    (* the next descriptor *)
  dk_handlers : Z -> handler;
  dk_mask : gset Z;
  dk_threads : list (bool * unit);
}.

Definition dk_fd (w : dk) : sysres Z * dk :=
  (SysOk (dk_next w), DK (dk_out w) (dk_next w + 1) (dk_handlers w) (dk_mask w) (dk_threads w)).

#[export] Instance dk_files : FileOps dk := {
  k_read _ _ w := (SysOk [], w);
  k_write _ d w := (SysOk (zlen d),
                    DK (dk_out w ++ d) (dk_next w) (dk_handlers w) (dk_mask w) (dk_threads w));
  k_open _ _ _ w := dk_fd w;
  k_close _ w := (SysOk tt, w);
  k_dup _ w := dk_fd w;
  k_ftruncate _ _ w := (SysOk tt, w);
  k_fsync _ w := (SysOk tt, w);
  k_getfd _ w := (SysOk 0, w);
  k_setfd _ _ w := (SysOk tt, w);
  k_getfl _ w := (SysOk 0, w);
  k_setfl _ _ w := (SysOk tt, w);
}.

#[export, refine] Instance dk_stream : StreamSpec dk := {
  inbuf _ _ := [];
  outbuf w _ := dk_out w;
}.
Proof.
  - intros fd n w r w' [= <- <-] Hn. split_and!; [zlia|done..].
  - by intros fd n w r w' fd' [= <- <-].
  - intros fd d w r w' [= <- <-]. split; [zlia|]. simpl.
    by rewrite take_ge by (unfold zlen; lia).
Defined.

#[export] Instance dk_procs : ProcOps dk := {
  k_umask _ w := w;
  k_getrlimit _ w := (SysOk (1024, 1024), w);
  k_fork w := (SysOk 0, w);
  k_setsid w := (SysOk 1, w);
  k_sigignore s w := (SysOk tt, DK (dk_out w) (dk_next w)
    (fun t => if t =? s then SIG_IGN else dk_handlers w t) (dk_mask w) (dk_threads w));
  k_chdir _ w := (SysOk tt, w);
}.

#[export] Instance dk_locks : LockOps dk := {
  k_setlk _ _ _ w := (SysOk tt, w);
  k_getlk _ fl w := (SysOk fl, w);
}.

Definition dk_block (a : option (how * gset Z)) (m : gset Z) : gset Z :=
  match a with
  | None => m
  | Some (SIG_BLOCK, s) => m ∪ s
  | Some (SIG_UNBLOCK, s) => m ∖ s
  | Some (SIG_SETMASK, s) => s
  end.

#[export] Instance dk_sigs : SigOps dk := {
  k_sigaction s h _ w := (SysOk (dk_handlers w s), DK (dk_out w) (dk_next w)
    (fun t => if t =? s then h else dk_handlers w t) (dk_mask w) (dk_threads w));
  k_sigprocmask a w := (SysOk (dk_mask w), DK (dk_out w) (dk_next w) (dk_handlers w)
    (dk_block a (dk_mask w)) (dk_threads w));
  k_kill _ _ w := (SysOk tt, w);
}.

#[export, refine] Instance dk_sigspec : SigSpec dk := {
  handler_of := dk_handlers;
  mask_of := dk_mask;
}.
Proof.
  - by intros s h fl w r w' [= <- <-].
  - intros a w r w' [= <- <-]. done.
Defined.

#[export] Instance dk_threadops : ThreadOps unit dk := {
  k_attr_init w := (12, w);
  k_attr_setdetachstate w := (22, w);
  k_create f w := (0, DK (dk_out w) (dk_next w) (dk_handlers w) (dk_mask w) (dk_threads w ++ [(false, f)]));
  k_attr_destroy w := (0, w);
}.

#[export, refine] Instance dk_threadspec : ThreadSpec unit dk := {
  attrs_live _ := 0%nat;
  attr_detached _ := false;
  threads := dk_threads;
}.
Proof.
  - by intros w e w' [= <- <-].
  - by intros w e w' [= <- <-].
  - intros f w e w' [= <- <-]. done.
  - by intros w e w' [= <- <-].
Defined.

Definition dk0 : proc dk := Proc 0 true [] (DK [] 0 (fun _ => SIG_DFL) ∅ []).

Lemma reread_main_ready_witness :
  settles (reread_main (fun _ => 77) 0 main_texts_reread tt (str "/usr/sbin/confd"))
    (fun _ p' => handler_of (kern p') SIGHUP = SIG_DFL) dk0.
Proof.
  eapply settles_mono.
  - apply (reread_main_ready (fun _ => 77) 0).
    + intros w. split; vm_compute; discriminate.
    + split. intros f w. done.
  - intros a p' H. exact (proj1 H).
Defined.

(** In this kernel the program does reach its [pause]. *)
Lemma dk_reaches_pause :
  (reread_main (fun _ => 77) 0 main_texts_reread tt (str "/usr/sbin/confd") dk0).1 = Ret tt.
Proof. vm_compute. reflexivity. Qed.

Lemma handlers_exclusive_witness : (length (Nesting.running Nesting.initial) <= 1)%nat.
Proof. exact (proj1 (Nesting.handlers_exclusive Nesting.initial (rtc_refl _ _))). Defined.
