(* ===== verification/LockPrograms.v ===== *)
(** * Locking and nonblocking output: the small programs of chapter 14

    [Nonblock]: [14/1_write_nonblock.cpp].  [Deadlock]: [14/4_deadlock_file.cpp], two processes
    that lock the bytes of a file in opposite orders, over a kernel that detects the deadlock.
    [Mandatory]: [14/6_check_mandatority_locking.cpp].  [Readers]: [14/11_forever_lock_file.cpp],
    two readers and a writer. *)

From S2P Require Import Prelude Machine Errors Kernel SimKernel Text FileIO.
From S2P Require Import Locks Limits.

(** ** [14/1]: writing to a nonblocking descriptor *)

Module Nonblock.

Definition BUF_SIZE : Z := 500000.

Section Nonblock.
Context {W : Type} `{FileOps W} `{CLib}.

(** The loop: [ptr] is the rest of the buffer, of [ntowrite] bytes. *)
Fixpoint write_loop (fuel : nat) (ptr : bytes) (ntowrite : Z) : M W unit :=
  match fuel with
  | O => out_of_fuel
  | S fuel =>
      if 0 <? ntowrite then
        nwritten ← write 1 (take (Z.to_nat ntowrite) ptr);
        e ← get_errno;
        emit (Stderr (str "nwrite = " ++ to_string nwritten ++ str ", errno = " ++ to_string e)) ;;
        if 0 <? nwritten
        then write_loop fuel (drop (Z.to_nat nwritten) ptr) (ntowrite - nwritten)
        else write_loop fuel ptr ntowrite
      else mret tt
  end.

Definition nonblock_main (fuel : nat) : M W Z :=
  '(ntowrite, buf) ← read 0 BUF_SIZE;
  emit (Stderr (str "read " ++ to_string ntowrite ++ str " bytes")) ;;
  set_fl 1 O_NONBLOCK ;;
  write_loop fuel buf ntowrite ;;
  clr_fl 1 O_NONBLOCK ;;
  sys_exit 0.

End Nonblock.

(** A descriptor that refuses writes only so often: [stalls] counts the refusals left. *)
Record drains {W} `{FileOps W} (fd : Z) (stalls : W -> nat) : Prop := {
  stall_law d w r w' : k_write fd d w = (r, w') -> d <> [] ->
    match r with
    | SysOk k => (0 < k /\ (stalls w' <= stalls w)%nat) \/ (k <= 0 /\ (stalls w' < stalls w)%nat)
    | SysErr _ => (stalls w' < stalls w)%nat
    end;
}.

Section Facts.
Context {W : Type} `{FS : StreamSpec W}.
Implicit Types p : proc W.

(** C28: The loop of [14/1] ends and delivers every byte, in order and once, however the writes
    are split and however often the descriptor refuses one, as long as it does not refuse for
    ever. *)
Theorem write_loop_delivers stalls fuel ptr p :
  drains 1 stalls -> (length ptr + stalls (kern p) < fuel)%nat ->
  returns (write_loop fuel ptr (zlen ptr)) (fun _ p' =>
    outbuf (kern p') 1 = outbuf (kern p) 1 ++ ptr) p.
Proof.
  intros Hd. revert ptr p. induction fuel as [|fuel IH]; intros ptr p Hf; [lia|]. cbn [write_loop].
  destruct (Z.ltb_spec 0 (zlen ptr)) as [Hpos|Hz].
  2: { mstep. assert (ptr = []) as -> by (apply zlen_nil_inv; zlia). by rewrite app_nil_r. }
  assert (Hne : ptr <> []) by (intros ->; by rewrite (zlen_nil (A := Z)) in Hpos).
  rewrite take_ge by (unfold zlen; lia). unfold write. mstep.
  apply returns_syscall_int; intros k w' E;
    pose proof (stall_law _ _ Hd _ _ _ _ E Hne) as Hs; pose proof (write_law _ _ _ _ _ E) as Hw;
    do 4 mstep; cbn [kern].
  - destruct Hw as [Hk Hw]. destruct (Z.ltb_spec 0 k) as [Hk0|Hk0].
    + destruct Hs as [[_ Hs]|[? _]]; [|lia].
      replace (zlen ptr - k) with (zlen (drop (Z.to_nat k) ptr)) by (rewrite zlen_drop; lia).
      eapply returns_mono; [apply IH; simpl; rewrite length_drop; unfold zlen in *; lia|].
      simpl. intros _ p' ->. rewrite Hw, <- app_assoc. by rewrite take_drop.
    + destruct Hs as [[? _]|[_ Hs]]; [lia|]. assert (k = 0) as -> by lia.
      eapply returns_mono; [apply IH; simpl; lia|]. simpl. intros _ p' ->. rewrite Hw. simpl.
      by rewrite app_nil_r.
  - simpl in *. eapply returns_mono; [apply IH; simpl; lia|]. simpl. intros _ p' ->. by rewrite Hw.
Qed.

End Facts.
End Nonblock.

Section NonblockWitness.

(** A descriptor that refuses every second write: a kernel with one output. *)
Record slow := Slow { slow_out : bytes; slow_refuses : nat }.

#[export] Instance slow_files : FileOps slow := {
  k_read _ _ w := (SysOk [], w);
  k_write _ d w :=
    match slow_refuses w with
    | S n => (SysErr 11, Slow (slow_out w) n)
    | O => let k := Nat.min 2 (length d) in
           (SysOk (Z.of_nat k), Slow (slow_out w ++ take k d) 0)
    end;
  k_open _ _ _ w := (SysErr 2, w);
  k_close _ w := (SysOk tt, w);
  k_dup _ w := (SysErr 9, w);
  k_ftruncate _ _ w := (SysErr 9, w);
  k_fsync _ w := (SysErr 9, w);
  k_getfd _ w := (SysErr 9, w);
  k_setfd _ _ w := (SysErr 9, w);
  k_getfl _ w := (SysErr 9, w);
  k_setfl _ _ w := (SysErr 9, w);
}.

#[export, refine] Instance slow_stream : StreamSpec slow := {
  inbuf _ _ := [];
  outbuf w _ := slow_out w;
}.
Proof.
  - intros fd n w r w' [= <- <-] Hn. split_and!; [zlia|done..].
  - by intros fd n w r w' fd' [= <- <-].
  - intros fd d w r w' E. lazy beta iota zeta delta [k_write slow_files] in E.
    destruct (slow_refuses w); simplify_eq; [|done].
    split; [unfold zlen; lia|]. simpl. by rewrite Nat2Z.id.
Defined.

Lemma slow_drains : Nonblock.drains 1 slow_refuses.
Proof.
  split. intros d w r w' E Hd. lazy beta iota zeta delta [k_write slow_files] in E.
  destruct (slow_refuses w) eqn:Es; simplify_eq; simpl; [|lia].
  left. destruct d; [done|]. simpl. split; lia.
Qed.

Definition slow0 : proc slow := Proc 0 true [] (Slow [] 7).

Lemma write_loop_delivers_witness :
  returns (Nonblock.write_loop 20 (str "hello") (zlen (str "hello")))
    (fun _ p' => outbuf (kern p') 1 = outbuf (kern slow0) 1 ++ str "hello") slow0.
Proof.
  assert (Hf : (length (str "hello") + slow_refuses (kern slow0) < 20)%nat).
  { apply Nat.ltb_lt. vm_compute. reflexivity. }
  exact (Nonblock.write_loop_delivers slow_refuses 20 (str "hello") slow0 slow_drains Hf).
Defined.

End NonblockWitness.

(** ** [14/4]: a deadlock over two bytes *)

Module Deadlock.
Section Prog.
Context {W : Type} `{LockOps W} `{CLib}.
Context (junk : Z).

Definition lockabyte (name : bytes) (fd offset : Z) : M W unit :=
  r ← writew_lock junk fd offset SEEK_SET 1;
  (if r <? 0 then err_sys (str "call writew_lock {}") [name] else mret tt) ;;
  println (name ++ str ": set lock for byte " ++ to_string offset).

(** [lockabyte] returns exactly when the lock was set, and then says so; a failure, EDEADLK
    among them, is reported and ends the process. *)
Lemma lockabyte_spec name fd offset p :
  settles (lockabyte name fd offset) (fun _ p' =>
    console p' = console p ++ [Stdout (name ++ str ": set lock for byte " ++ to_string offset ++ [NL])]) p.
Proof.
  unfold lockabyte, writew_lock, file_lock, lock_reg, fcntl_lock. sstep. sstep; simpl; sstep; sstep.
  sstep. simpl. by rewrite <- !app_assoc.
Qed.

End Prog.

(** What each process does, in order; Tell and Wait are those of [lib/apue_ipc_signal.cpp]. *)
Inductive action := LockByte (b : bool) | Tell | Wait.

Definition child_script : list action := [LockByte false; Tell; Wait; LockByte true].
Definition parent_script : list action := [LockByte true; Tell; Wait; LockByte false].

#[export] Instance action_eq_dec : EqDecision action.
Proof. solve_decision. Defined.

(** How a process stands: with the rest of its script, blocked in [fcntl] for a byte, or ended
    with a status. *)
Inductive status := Running (rest : list action) | Blocked (b : bool) (rest : list action) | Ended (code : Z).

#[export] Instance status_eq_dec : EqDecision status.
Proof. solve_decision. Defined.

(** Processes are [false] (child) and [true] (parent), bytes [false] (0) and [true] (1). *)
Record state := State {
  child : status;
  parent : status;
  owner0 : option bool;
  owner1 : option bool;
  told_child : bool;        (* the signal for the child has arrived *)
  told_parent : bool;
}.

#[export] Instance state_eq_dec : EqDecision state.
Proof. solve_decision. Defined.

Definition status_of (me : bool) (s : state) : status := if me then parent s else child s.
Definition set_status (me : bool) (t : status) (s : state) : state :=
  if me then State (child s) t (owner0 s) (owner1 s) (told_child s) (told_parent s)
  else State t (parent s) (owner0 s) (owner1 s) (told_child s) (told_parent s).
Definition owner (b : bool) (s : state) : option bool := if b then owner1 s else owner0 s.
Definition set_owner (b : bool) (o : option bool) (s : state) : state :=
  if b then State (child s) (parent s) (owner0 s) o (told_child s) (told_parent s)
  else State (child s) (parent s) o (owner1 s) (told_child s) (told_parent s).

(** The locks of a process go when it ends. *)
Definition release (me : bool) (s : state) : state :=
  let drop o := if decide (o = Some me) then None else o in
  State (child s) (parent s) (drop (owner0 s)) (drop (owner1 s)) (told_child s) (told_parent s).

Definition exit_with (me : bool) (code : Z) (s : state) : state :=
  set_status me (Ended code) (release me s).

(** A request for a byte: granted; EDEADLK, on which [err_sys] ends the process, when the holder
    itself waits for a byte of the requester; or the process waits. *)
Definition request (me b : bool) (rest : list action) (s : state) : state :=
  match owner b s with
  | None => set_status me (Running rest) (set_owner b (Some me) s)
  | Some q =>
      if decide (q = me) then set_status me (Running rest) s
      else match status_of q s with
           | Blocked b' _ => if decide (owner b' s = Some me) then exit_with me 1 s
                             else set_status me (Blocked b rest) s
           | _ => set_status me (Blocked b rest) s
           end
  end.

(** What process [me] can do next. *)
Definition moves (me : bool) (s : state) : list state :=
  match status_of me s with
  | Running [] => [exit_with me 0 s]
  | Running (LockByte b :: rest) => [request me b rest s]
  | Running (Tell :: rest) =>
      [set_status me (Running rest)
         (if me then State (child s) (parent s) (owner0 s) (owner1 s) true (told_parent s)
          else State (child s) (parent s) (owner0 s) (owner1 s) (told_child s) true)]
  | Running (Wait :: rest) =>
      if (if me then told_parent s else told_child s) then [set_status me (Running rest) s] else []
  | Blocked b rest =>
      match owner b s with
      | None => [set_status me (Running rest) (set_owner b (Some me) s)]
      | Some _ => []
      end
  | Ended _ => []
  end.

Definition next (s : state) : list state := moves false s ++ moves true s.
Definition step : state -> state -> Prop := steps_to next.

Definition initial : state :=
  State (Running child_script) (Running parent_script) None None false false.

(** All reachable states: no run has more than 12 steps. *)
Definition all_states : list state := explore next 12 [initial].

(** One process has both bytes and ends normally, the other was told EDEADLK. *)
Definition resolved (s : state) : bool :=
  match child s, parent s with
  | Ended 0, Ended 1 | Ended 1, Ended 0 => true
  | _, _ => false
  end.

Definition weight (t : status) : nat :=
  match t with
  | Running rest => 3 * length rest + 2
  | Blocked _ rest => 3 * length rest + 3
  | Ended _ => 0
  end.

Definition measure (s : state) : nat := weight (child s) + weight (parent s).

Lemma all_closed : closed next initial all_states = true.
Proof. vm_compute. reflexivity. Qed.

(** C26: The two processes of [14/4] always end, in every interleaving: the kernel tells exactly
    one of them EDEADLK, which ends it with status 1 and frees its byte, and the other locks both
    bytes and ends with status 0. *)
Theorem deadlock_resolved s :
  rtc step initial s ->
  sn step s /\ ((forall s', ~ step s s') -> resolved s = true).
Proof.
  intros Hr. split.
  - apply (explored_sn next initial all_states measure); [exact all_closed| |done].
    vm_compute. reflexivity.
  - apply (explored_final next initial all_states resolved); [exact all_closed| |done].
    vm_compute. reflexivity.
Qed.

Lemma deadlock_resolved_witness : sn step initial.
Proof. exact (proj1 (deadlock_resolved initial (rtc_refl _ _))). Defined.

End Deadlock.

(** ** [14/6]: mandatory locking *)

Module Mandatory.
Section Mandatory.
Context {W : Type} `{FileOps W} `{LockOps W} `{CLib}.
Context (k_lseek : Z -> Z -> Z -> W -> sysres Z * W) (junk : Z).

(** The child, after the parent has locked the file.  [buf] has five bytes, of which the rest
    [stale] is not initialised; a [char] array is printed as a C string, which runs on past the
    two bytes that were read, and past the array when no byte of it is zero ([None]). *)
Definition shown_buf (data stale : bytes) : option bytes :=
  let buf := data ++ drop (length data) stale in
  if bool_decide (0 ∈ buf) then Some (c_string buf) else None.

Definition mandatory_child (fd : Z) (stale : bytes) : M W Z :=
  set_fl fd O_NONBLOCK ;;
  r ← read_lock junk fd 0 SEEK_SET 0;
  (if negb (r =? -1) then err_sys (str "child: call read_lock success") [] else mret tt) ;;
  e ← get_errno;
  println (str "read_lock for bytes range return code: " ++ to_string e) ;;
  o ← syscall_int (k_lseek fd 0 SEEK_SET);
  (if o =? -1 then err_sys (str "call lseek") [] else mret tt) ;;
  '(n, data) ← read fd 2;
  (if n <? 0 then err_ret (str "call read (mandatory lock works)") []
   else match shown_buf data stale with
        | Some t => println (str "data was read (mandatory lock doesn't work), buf = " ++ t)
        | None => throw (str "undefined behaviour")
        end) ;;
  sys_exit 0.

End Mandatory.

(** What follows the two bytes that were read depends on memory that was never written. *)
Lemma shown_buf_depends :
  shown_buf (str "ab") (str "12345") = None /\
  shown_buf (str "ab") (str "123" ++ [0; 0]) = Some (str "ab3") /\
  shown_buf (str "ab") (replicate 5 0) = Some (str "ab").
Proof. vm_compute. auto. Qed.

End Mandatory.

(** ** [14/11]: readers and a writer *)

Module Readers.
Section Prog.
Context {W : Type} `{LockOps W} `{CLib}.
Context (junk : Z) (tell_parent : M W unit) (nanosleep : M W unit) (getpid : Z).

(** [child_fn]: the iterations from [i] on, of [times]. *)
Definition child_line (i times : nat) (what : bytes) : bytes :=
  str "[" ++ to_string (Z.of_nat i) ++ str "/" ++ to_string (Z.of_nat times) ++ str "] Child " ++
  to_string getpid ++ what.

Fixpoint child_fn (fd : Z) (times togo i : nat) : M W Z :=
  match togo with
  | O => sys_exit 0
  | S togo =>
      r ← readw_lock junk fd 0 SEEK_SET 0;
      (if r =? -1 then err_sys (str "call read_lock for") [] else mret tt) ;;
      tell_parent ;;
      println (child_line i times (str " set read_lock")) ;;
      nanosleep ;;
      r ← un_lock junk fd 0 SEEK_SET 0;
      (if r =? -1 then err_sys (str "call un_lock") [] else mret tt) ;;
      println (child_line i times (str " unset read_lock")) ;;
      child_fn fd times togo (S i)
  end.

(** The parent after [WAIT_CHILD_SIGNAL]. *)
Definition writer (fd : Z) (filepath : bytes) : M W unit :=
  r ← writew_lock junk fd 0 SEEK_SET 0;
  (if r =? -1 then err_sys (str "parent: call writew_lock for {}") [filepath] else mret tt) ;;
  println (str "Parent set write_lock") ;;
  r ← un_lock junk fd 0 SEEK_SET 0;
  (if r =? -1 then err_sys (str "parent: call un_lock for {}") [filepath] else mret tt) ;;
  println (str "Parent unset write_lock").

End Prog.

(** *** The three processes *)

(** A child with some iterations to go: before its lock, with the lock before and after it
    told the parent; ended; or reaped by the parent's [wait]. *)
Inductive reader := Idle (togo : nat) | Locked (togo : nat) | Told (togo : nat) | Finished | Reaped.

Inductive writer_pc := WWait | WWant | WHold | WReap | WDone.

Record state := State { readers : list reader; wpc : writer_pc; told : bool }.

Definition reading (r : reader) : bool := match r with Locked _ | Told _ => true | _ => false end.

(** Blocking requests: a read lock is granted unless the writer holds the file, a write lock
    when no reader holds it. *)
Inductive step : state -> state -> Prop :=
| r_lock s i n :
    readers s !! i = Some (Idle (S n)) -> wpc s <> WHold ->
    step s (State (<[i := Locked n]> (readers s)) (wpc s) (told s))
| r_tell s i n :
    readers s !! i = Some (Locked n) -> step s (State (<[i := Told n]> (readers s)) (wpc s) true)
| r_unlock s i n :
    readers s !! i = Some (Told n) -> step s (State (<[i := Idle n]> (readers s)) (wpc s) (told s))
| r_exit s i :
    readers s !! i = Some (Idle 0) -> step s (State (<[i := Finished]> (readers s)) (wpc s) (told s))
| w_wait s :
    wpc s = WWait -> told s = true -> step s (State (readers s) WWant (told s))
| w_lock s :
    wpc s = WWant -> Forall (fun r => reading r = false) (readers s) ->
    step s (State (readers s) WHold (told s))
| w_unlock s :
    wpc s = WHold -> step s (State (readers s) WReap (told s))
| w_reap s i :
    wpc s = WReap -> readers s !! i = Some Finished ->
    step s (State (<[i := Reaped]> (readers s)) WReap (told s))
| w_done s :
    wpc s = WReap -> Forall (eq Reaped) (readers s) ->
    step s (State (readers s) WDone (told s)).

(** Two children with [times] iterations each. *)
Definition initial (times : nat) : state := State [Idle times; Idle times] WWait false.

Definition r_weight (r : reader) : nat :=
  match r with
  | Idle n => 3 * n + 2 | Locked n => 3 * n + 4 | Told n => 3 * n + 3 | Finished => 1 | Reaped => 0
  end.

Definition w_weight (w : writer_pc) : nat :=
  match w with WWait => 4 | WWant => 3 | WHold => 2 | WReap => 1 | WDone => 0 end.

Definition measure (s : state) : nat := sum_list_with r_weight (readers s) + w_weight (wpc s).

Lemma step_measure s s' : step s s' -> (measure s' < measure s)%nat.
Proof.
  intros Hst. unfold measure.
  destruct Hst as [s i n E|s i n E|s i n E|s i E|s E _|s E _|s E|s i E E'|s E _]; simpl;
    try (pose proof (sum_list_with_insert_eq r_weight i (readers s) _ (Locked n) E));
    try (pose proof (sum_list_with_insert_eq r_weight i (readers s) _ (Told n) E));
    try (pose proof (sum_list_with_insert_eq r_weight i (readers s) _ (Idle n) E));
    try (pose proof (sum_list_with_insert_eq r_weight i (readers s) _ Finished E));
    try (pose proof (sum_list_with_insert_eq r_weight i (readers s) _ Reaped E'));
    rewrite ?E; simpl in *; lia.
Qed.

Record Inv (s : state) : Prop := {
  i_excl : wpc s = WHold -> Forall (fun r => reading r = false) (readers s);
  i_told : told s = true \/ Forall (fun r => exists n, r = Idle (S n) \/ r = Locked n) (readers s);
  i_reaped : wpc s = WReap \/ wpc s = WDone \/ Forall (fun r => r <> Reaped) (readers s);
  i_done : wpc s = WDone -> Forall (eq Reaped) (readers s);
  i_some : readers s <> [];
}.

#[export] Instance reader_eq_dec : EqDecision reader.
Proof. solve_decision. Defined.

(** A change of one reader, for the four parts. *)
Lemma inv_reader s i r r' b :
  Inv s -> readers s !! i = Some r ->
  (wpc s = WHold -> reading r' = false) ->
  (b = true \/ (told s = b /\ (forall n, r = Idle (S n) \/ r = Locked n -> exists n, r' = Idle (S n) \/ r' = Locked n)
     /\ exists n, r = Idle (S n) \/ r = Locked n)) ->
  r <> Reaped -> r' <> Reaped -> Inv (State (<[i := r']> (readers s)) (wpc s) b).
Proof.
  intros [H1 H2 H3 H4 H5] Hr Hex Htold Hnr Hnr'. split; simpl.
  - intros Hw. apply Forall_insert; auto.
  - destruct Htold as [->|(Hb & Hn & n & Hrn)]; [by left|]. rewrite Hb in H2.
    destruct H2 as [|H2]; [by left|right]. apply Forall_insert; [done|]. by apply (Hn n).
  - destruct H3 as [?|[?|H3]]; auto. right. right. by apply Forall_insert.
  - intros Hw. exfalso. apply Hnr. specialize (H4 Hw). by apply (Forall_lookup_1 _ _ _ _ H4) in Hr.
  - intros E. apply H5. apply (f_equal length) in E. rewrite length_insert in E. by apply length_zero_iff_nil.
Qed.

(** A reader past its first lock has told the parent. *)
Lemma inv_told s i r :
  Inv s -> readers s !! i = Some r -> (forall n, r <> Idle (S n) /\ r <> Locked n) -> told s = true.
Proof.
  intros HI Hr Hno. destruct (i_told s HI) as [|H2]; [done|]. exfalso.
  apply (Forall_lookup_1 _ _ _ _ H2) in Hr as (n & Hn). destruct (Hno n). tauto.
Qed.

Lemma readers_inv_step s s' : step s s' -> Inv s -> Inv s'.
Proof.
  intros Hst HI. destruct Hst as [s i n E Hw|s i n E|s i n E|s i E|s Hw Ht|s Hw Hf|s Hw|s i Hw E|s Hw Hf].
  - eapply inv_reader; [done..| |done|done]. right. split_and!; [done|eauto|eauto].
  - eapply inv_reader; [done| done | |by left|done|done]. intros Hw.
    pose proof (i_excl s HI Hw) as Hf. by apply (Forall_lookup_1 _ _ _ _ Hf) in E.
  - eapply inv_reader; [done|done|done| |done|done]. left. eapply inv_told; [done..|]. done.
  - eapply inv_reader; [done|done|done| |done|done]. left. eapply inv_told; [done..|]. done.
  - destruct HI as [H1 H2 H3 H4 H5]. split; simpl; auto; try done.
    destruct H3 as [?|[?|?]]; [congruence..|auto].
  - destruct HI as [H1 H2 H3 H4 H5]. split; simpl; auto; try done.
    destruct H3 as [?|[?|?]]; [congruence..|auto].
  - destruct HI as [H1 H2 H3 H4 H5]. split; simpl; auto; done.
  - assert (Ht : told s = true) by (eapply inv_told; [done..|]; done).
    destruct HI as [H1 H2 H3 H4 H5]. split; simpl; auto; try done.
    intros E'. apply H5. apply (f_equal length) in E'. rewrite length_insert in E'.
    by apply length_zero_iff_nil.
  - destruct HI as [H1 H2 H3 H4 H5]. split; simpl; auto; done.
Qed.

Lemma readers_inv_initial times : (0 < times)%nat -> Inv (initial times).
Proof.
  intros Ht. destruct times as [|n]; [lia|]. split; simpl; try done.
  - right. repeat constructor; eauto.
  - right. right. repeat constructor; done.
Qed.

(** From every state but the last one a process can go on. *)
Lemma readers_progress s : Inv s -> wpc s <> WDone -> exists s', step s s'.
Proof.
  intros HI Hd.
  destruct (decide (Exists (fun r => reading r = true) (readers s))) as [Hex|Hno].
  { apply Exists_exists in Hex as (r & [i Hr]%list_elem_of_lookup & Hrd).
    destruct r as [n|n|n| |]; try done; eexists; [by eapply r_tell|by eapply r_unlock]. }
  assert (Hfree : Forall (fun r => reading r = false) (readers s)).
  { apply Forall_forall. intros r Hr. apply not_true_iff_false. intros Hrd. apply Hno, Exists_exists. eauto. }
  destruct (wpc s) eqn:Ew; try done.
  - destruct (i_told s HI) as [Ht|Hall]; [eexists; by apply w_wait|].
    destruct (readers s) as [|r l] eqn:El; [by destruct (i_some s HI)|].
    apply Forall_cons in Hall as [(n & [->| ->]) _]; [|by apply Forall_cons in Hfree as [? _]].
    eexists. apply (r_lock s 0 n); [by rewrite El|congruence].
  - eexists. by apply w_lock.
  - eexists. by apply w_unlock.
  - destruct (decide (Forall (eq Reaped) (readers s))) as [Hall|Hnot]; [eexists; by apply w_done|].
    apply not_Forall_Exists, Exists_exists in Hnot as (r & [i Hr]%list_elem_of_lookup & Hne); [|apply _].
    pose proof (Forall_lookup_1 _ _ _ _ Hfree Hr) as Hrd.
    destruct r as [[|n]|n|n| |]; try done; eexists.
    + by apply (r_exit s i).
    + apply (r_lock s i n); [done|congruence].
    + by apply (w_reap s i).
Qed.

(** C27: In [14/11] the writer and the readers never hold the file together, and although new
    read locks are granted while the writer waits, every execution ends: the writer gets its lock
    and all processes finish. *)
Theorem readers_writer times s :
  (0 < times)%nat -> rtc step (initial times) s ->
  (wpc s = WHold -> Forall (fun r => reading r = false) (readers s)) /\
  sn step s /\
  ((forall s', ~ step s s') -> wpc s = WDone /\ Forall (eq Reaped) (readers s)).
Proof.
  intros Ht Hr.
  assert (HI : Inv s).
  { pose proof (readers_inv_initial times Ht) as H0. revert H0.
    induction Hr as [|s0 s1 s2 H1 _ IH]; intros H0; [done|]. apply IH. by eapply readers_inv_step. }
  split; [apply (i_excl s HI)|]. split.
  - apply (decreasing_sn step (fun _ => True) measure); [done| |done].
    intros x y _ Hxy. by apply step_measure.
  - intros Hno. assert (Hd : wpc s = WDone).
    { destruct (wpc s) eqn:Ew; try done; destruct (readers_progress s HI) as [s' Hs']; try congruence;
        by destruct (Hno s'). }
    split; [done|]. by apply (i_done s HI).
Qed.

Lemma readers_writer_witness : sn step (initial 3).
Proof. exact (proj1 (proj2 (readers_writer 3 (initial 3) ltac:(lia) (rtc_refl _ _)))). Defined.

End Readers.
