(* ===== verification/MsgQueues.v ===== *)
(** * [17/1] and [17/2]: message queues turned into descriptors

    [17/1_unix_socket_mqueue_read.cpp] reads NQ message queues through one io_uring: a thread per
    queue receives messages and writes each to a datagram socket, and the main loop reads the
    other ends of the sockets through the ring and prints what it reads.  [Relay] is the body of
    the threads, [Loop] the whole program as a step relation over the queues, the threads, the
    sockets, the ring and the main loop.  [Send] is [17/2_unix_socket_mqueue_write.cpp].  The
    queues, sockets and the ring are the kernel's. *)

From S2P Require Import Prelude Machine Errors Kernel SimKernel Text FileIO.
From S2P Require Import FdServer ProcThreads Limits Uptime.

Definition NQ : nat := 3.
Definition MAXMSZ : nat := 512.
Definition RING_DEPTH : nat := 8.

(** The system's limit on messages per queue that the program asks for ([mq_maxmsg]). *)
Definition mq_maxmsg : nat := 10.

(** ** The threads *)

Class MqOps (W : Type) := {
  k_mq_receive : Z -> Z -> W -> sysres bytes * W;       (* queue, size of the buffer *)
  k_mq_open : bytes -> Z -> option (Z * Z) -> W -> sysres Z * W;
      (* name, flags, and for O_CREAT the limits of messages and their size *)
  k_mq_unlink : bytes -> W -> sysres unit * W;
  k_get_sqe : W -> bool * W;                            (* is a submission entry free? *)
  k_prep_read : Z -> nat -> Z -> W -> W;                (* fd, user data, size *)
  k_mq_send : Z -> bytes -> Z -> W -> sysres unit * W;  (* queue, message, priority *)
  k_mq_close : Z -> W -> sysres unit * W;
}.

Record threadinfo := ThreadInfo { qid : Z; fd : Z; index : nat }.

Module Relay.
Section Relay.
Context {W : Type} `{FileOps W} `{MqOps W} `{CLib}.

(** One iteration of the loop of [thr_fun]: the buffer is cleared, the message stored at its
    start, and its [n] bytes written. *)
Definition thr_fun_body (tip : threadinfo) : M W unit :=
  let buf := replicate MAXMSZ 0 in
  r ← syscall (k_mq_receive (qid tip) (Z.of_nat MAXMSZ));
  match r with
  | SysErr _ => err_sys (str "call mq_receive") []
  | SysOk m =>
      let buf := m ++ drop (length m) buf in
      w ← writen (fd tip) buf (zlen m);
      if failed w then err_sys (str "call write") [] else mret tt
  end.

(** Datagram sockets: a write is one datagram, delivered whole. *)
Definition datagram_socket (sent : W -> list bytes) (fd : Z) : Prop :=
  forall d w, 0 < zlen d ->
    exists w', k_write fd d w = (SysOk (zlen d), w') /\ sent w' = sent w ++ [d].

(** An iteration relays exactly the message it received, as one datagram; an empty message is
    received and dropped, because [writen] of no bytes writes nothing. *)
Theorem thr_fun_relays sent tip m w1 p :
  datagram_socket sent (fd tip) -> zlen m <= Z.of_nat MAXMSZ ->
  k_mq_receive (qid tip) (Z.of_nat MAXMSZ) (kern p) = (SysOk m, w1) ->
  returns (thr_fun_body tip) (fun _ p' =>
    sent (kern p') = sent w1 ++ match m with [] => [] | _ => [m] end) p.
Proof.
  intros Hd Hm E. unfold thr_fun_body. mstep. apply returns_syscall. rewrite E.
  intros r w' [= <- <-]. mstep. destruct m as [|c m].
  - cbn. by rewrite app_nil_r.
  - set (d := c :: m) in *. assert (Hpos : 0 < zlen d) by (unfold d; zlia).
    destruct (Hd d w1 Hpos) as (w3 & E3 & Hs).
    eapply returns_writen_whole; [done|rewrite take_app_length' by (unfold zlen; lia); exact E3|].
    exact Hs.
Qed.

End Relay.
End Relay.

(** ** Opening the queues *)

Definition queue_name (queue_idx : Z) : bytes := str "/test_mq_" ++ to_string queue_idx.

Module Setup.
Section Setup.
Context {F W : Type} `{FileOps W} `{MqOps W} `{PairOps W} `{ThreadOps F W} `{CLib}.

Definition O_WRONLY : Z := 1.
Definition O_RDWR : Z := 2.
Definition O_CREAT : Z := 64.

(** [queue_read], with the ring in the kernel's state. *)
Definition prepare_read (fd : Z) (index : nat) : M W unit := fun p =>
  let '(free, w) := k_get_sqe (kern p) in
  let p' := Proc (errno p) (log_to_stderr p) (console p) w in
  if free
  then (Ret tt, Proc (errno p) (log_to_stderr p) (console p) (k_prep_read fd index (Z.of_nat MAXMSZ) w))
  else err_sys (str "error getting sqe") [] p'.

(** One iteration of the first loop of [main]: the end of the pair the ring reads, and what the
    thread is given.  [thr_fun] is the thread's function with its argument. *)
Definition open_queue (thr_fun : threadinfo -> F) (i : nat) : M W (Z * threadinfo) :=
  let name := queue_name (Z.of_nat i) in
  _ ← syscall_unit (k_mq_unlink name);
  q ← syscall_int (k_mq_open name (Z.lor O_RDWR O_CREAT) (Some (Z.of_nat mq_maxmsg, Z.of_nat MAXMSZ)));
  if q =? -1 then err_sys (str "call mq_open") []
  else
    println (str "queue " ++ to_string (Z.of_nat i) ++ str " opened with descriptor " ++ to_string q) ;;
    r ← syscall k_socketpair;
    match r with
    | SysErr _ => err_sys (str "call socketpair") []
    | SysOk (fd0, fd1) =>
        let tip := ThreadInfo q fd1 i in
        prepare_read fd0 i ;;
        err ← (fun p => let '(e, w) := k_create (thr_fun tip) (kern p) in
                        (Ret e, Proc (errno p) (log_to_stderr p) (console p) w));
        if negb (err =? 0) then err_exit err (str "call pthread_create") []
        else mret (fd0, tip)
    end.

Fixpoint open_queues (thr_fun : threadinfo -> F) (n i : nat) : M W (list Z * list threadinfo) :=
  match n with
  | O => mret ([], [])
  | S n =>
      '(fd0, tip) ← open_queue thr_fun i;
      '(fds, tis) ← open_queues thr_fun n (S i);
      mret (fd0 :: fds, tip :: tis)
  end.

Lemma prepare_read_outcome fd i p :
  wp (prepare_read fd i) (fun o _ => o = Exited 1 \/ o = Ret tt) p.
Proof.
  unfold wp, prepare_read. destruct (k_get_sqe (kern p)) as [[] w]; [by right|left].
  by rewrite err_sys_eq.
Qed.

(** An iteration ends the program with status 1, or gives its thread the index of its queue. *)
Lemma open_queue_index thr_fun i p :
  wp (open_queue thr_fun i)
    (fun o _ => o = Exited 1 \/ exists fd0 tip, o = Ret (fd0, tip) /\ index tip = i) p.
Proof.
  unfold open_queue. wstep; wstep; (destruct (_ =? -1); [wstep; by left|]);
    apply wp_bind_ret; mstep; wstep; (destruct r as [[fd0 fd1]|?]; [|wstep; by left]);
    apply wp_bind; (eapply wp_mono; [apply prepare_read_outcome|]); intros o p' [->| ->]; try (by left);
    (apply wp_bind_ret; unfold returns, wp; destruct (k_create _ _) as [err w2]; simpl;
     destruct (negb _); [by rewrite err_exit_eq; left|right; eauto]).
Qed.

(** The program opens queue [i] as [/test_mq_i] and uses [i] as the index of its buffer, of its
    socket and of its thread, for every [i], or it ends with status 1. *)
Theorem open_queues_index thr_fun n i p :
  wp (open_queues thr_fun n i)
    (fun o _ => o = Exited 1 \/ exists fds tis, o = Ret (fds, tis) /\
       length fds = n /\ index <$> tis = seq i n) p.
Proof.
  revert i p. induction n as [|n IH]; intros i p; cbn [open_queues].
  { right. by exists [], []. }
  apply wp_bind. eapply wp_mono; [apply open_queue_index|].
  intros o p1 [->|(fd0 & tip & -> & Hi)]; [by left|].
  apply wp_bind. eapply wp_mono; [apply IH|].
  intros o p2 [->|(fds & tis & -> & Hl & Hx)]; [by left|]. right.
  exists (fd0 :: fds), (tip :: tis). split; [done|]. csimpl. by rewrite Hl, Hi, Hx.
Qed.

End Setup.
End Setup.

(** ** The program *)

Module Loop.

(** A message is read into a buffer of MAXMSZ bytes and printed as a C string: the buffer keeps
    old contents after a shorter message, and the loop stores a zero after the message, or over
    its last byte when it fills the buffer. *)

(** [io_uring_prep_read] of MAXMSZ bytes: a datagram that is longer would be cut. *)
Definition store (data buf : bytes) : bytes := data ++ drop (length data) buf.

Definition terminate (res : nat) (buf : bytes) : bytes :=
  if (res <? MAXMSZ)%nat then <[res := 0]> buf else <[(MAXMSZ - 1)%nat := 0]> buf.

Record queue := Queue {
  mq : list bytes;          (* messages in the queue *)
  thr : option bytes;       (* the thread, between [mq_receive] and [writen] *)
  dgrams : list bytes;      (* datagrams in the socket *)
  armed : bool;             (* a read request is in the ring *)
  buffer : bytes;           (* [read_buffers[i]] *)
}.

Inductive printed :=
| Message (queue_idx : nat) (text : bytes)
| ReadError (queue_idx : nat) (err : Z).

Record state := State {
  queues : list queue;
  prepared : list nat;         (* submission entries not yet submitted *)
  cq : list (nat * Z);         (* completions: user data and result *)
  output : list printed;
  sent : list (nat * bytes);   (* history: what was sent to the queues *)
}.

Definition set_queue (i : nat) (q : queue) (s : state) : state :=
  State (<[i := q]> (queues s)) (prepared s) (cq s) (output s) (sent s).

(** [queue_read]: [None] when there is no submission entry, where the program ends. *)
Definition queue_read (index : nat) (s : state) : option state :=
  if (length (prepared s) <? RING_DEPTH)%nat
  then Some (State (queues s) (prepared s ++ [index]) (cq s) (output s) (sent s))
  else None.

Definition arm (index : nat) (qs : list queue) : list queue :=
  alter (fun q => Queue (mq q) (thr q) (dgrams q) true (buffer q)) index qs.

Definition io_uring_submit (s : state) : state :=
  State (foldr arm (queues s) (prepared s)) [] (cq s) (output s) (sent s).

(** The body of the main loop, for a completion at the head of the queue. *)
Definition main_iteration (s : state) : option state :=
  match cq s with
  | [] => None
  | (queue_idx, res) :: rest =>
      s' ← (if 0 <? res then
              match queues s !! queue_idx with
              | None => None
              | Some q =>
                  let buf := terminate (Z.to_nat res) (buffer q) in
                  Some (State (<[queue_idx := Queue (mq q) (thr q) (dgrams q) (armed q) buf]> (queues s))
                          (prepared s) rest
                          (output s ++ [Message queue_idx (c_string buf)]) (sent s))
              end
            else if res <? 0 then
              Some (State (queues s) (prepared s) rest
                      (output s ++ [ReadError queue_idx (- res)]) (sent s))
            else Some (State (queues s) (prepared s) rest (output s) (sent s)));
      s'' ← queue_read queue_idx s';
      Some (io_uring_submit s'')
  end.

(** The loop that opens the queues, prepares the first reads and starts the threads. *)
Definition queue0 : queue := Queue [] None [] false (replicate MAXMSZ 0).

Fixpoint setup (n i : nat) (s : state) : option state :=
  match n with
  | O => Some s
  | S n =>
      s' ← queue_read i (State (queues s ++ [queue0]) (prepared s) (cq s) (output s) (sent s));
      setup n (S i) s'
  end.

Definition start : option state :=
  s ← setup NQ 0 (State [] [] [] [] []); Some (io_uring_submit s).

(** Steps of the environment: a sender, or a read that fails. *)
Inductive env_step : state -> state -> Prop :=
| step_send s i q m :
    queues s !! i = Some q -> (length m <= MAXMSZ)%nat -> (length (mq q) < mq_maxmsg)%nat ->
    env_step s
      (State (<[i := Queue (mq q ++ [m]) (thr q) (dgrams q) (armed q) (buffer q)]> (queues s))
         (prepared s) (cq s) (output s) (sent s ++ [(i, m)]))
| step_error s i q e :
    queues s !! i = Some q -> armed q = true -> 0 < e ->
    env_step s
      (State (<[i := Queue (mq q) (thr q) (dgrams q) false (buffer q)]> (queues s))
         (prepared s) (cq s ++ [(i, - e)]) (output s) (sent s)).

(** Steps that bring messages forward: a thread, the kernel, or the main loop. *)
Inductive own_step : state -> state -> Prop :=
| step_receive s i q m r :
    queues s !! i = Some q -> mq q = m :: r -> thr q = None ->
    own_step s (set_queue i (Queue r (Some m) (dgrams q) (armed q) (buffer q)) s)
| step_write s i q m :
    queues s !! i = Some q -> thr q = Some m ->
    own_step s
      (set_queue i (Queue (mq q) None (dgrams q ++ match m with [] => [] | _ => [m] end)
                      (armed q) (buffer q)) s)
| step_complete s i q d r :
    queues s !! i = Some q -> armed q = true -> dgrams q = d :: r ->
    own_step s
      (State (<[i := Queue (mq q) (thr q) r false (store (take MAXMSZ d) (buffer q))]> (queues s))
         (prepared s) (cq s ++ [(i, zlen (take MAXMSZ d))]) (output s) (sent s))
| step_main s s' :
    main_iteration s = Some s' -> own_step s s'.

Definition step (s s' : state) : Prop := env_step s s' \/ own_step s s'.

Definition reachable (s : state) : Prop := exists s0, start = Some s0 /\ rtc step s0 s.

(** *** The invariant, one queue at a time *)

(** The part of a history that concerns queue [i]. *)
Definition part {A} (i : nat) (l : list (nat * A)) : list A := snd <$> filter (fun x => x.1 = i) l.

Definition messages (i : nat) (o : list printed) : list bytes :=
  omap (fun x => match x with
                 | Message j t => if decide (j = i) then Some t else None
                 | ReadError _ _ => None
                 end) o.

(** What the program shows of a message. *)
Definition shown (m : bytes) : bytes := c_string (take (MAXMSZ - 1) m).

(** Messages a read has taken from the socket and the loop has not printed. *)
Definition inflight (pend : list Z) (q : queue) : list bytes :=
  match pend with
  | [res] => if 0 <? res then [take (Z.to_nat res) (buffer q)] else []
  | _ => []
  end.

Abbreviation real := (filter (fun m : bytes => m <> [])).

Record qinv (snt prt : list bytes) (pend : list Z) (q : queue) : Prop := {
  q_buffer : length (buffer q) = MAXMSZ;
  q_small : Forall (fun m => (length m <= MAXMSZ)%nat) (mq q ++ option_list (thr q) ++ dgrams q);
  q_dgrams : real (dgrams q) = dgrams q;
  q_pend : (pend = [] /\ armed q = true) \/
           (armed q = false /\ exists res, pend = [res] /\ res <> 0 /\ res <= Z.of_nat MAXMSZ);
  q_order : shown <$> real snt
    = prt ++ (shown <$> inflight pend q ++ dgrams q ++ real (option_list (thr q) ++ mq q));
}.

Record Inv (s : state) : Prop := {
  i_prepared : prepared s = [];
  i_queue i q : queues s !! i = Some q ->
    qinv (part i (sent s)) (messages i (output s)) (part i (cq s)) q;
  i_cq : Forall (fun c => is_Some (queues s !! c.1)) (cq s);
  i_length : length (queues s) = NQ;
}.

Lemma part_snoc_eq {A} i (l : list (nat * A)) x : part i (l ++ [(i, x)]) = part i l ++ [x].
Proof. unfold part. rewrite filter_app, filter_cons, decide_True by done. by rewrite fmap_app. Qed.

Lemma part_snoc_ne {A} i j (l : list (nat * A)) x : i <> j -> part i (l ++ [(j, x)]) = part i l.
Proof.
  intros. unfold part. rewrite filter_app, filter_cons, decide_False by (simpl; congruence).
  by rewrite filter_nil, app_nil_r.
Qed.

Lemma part_cons_eq {A} i (l : list (nat * A)) x : part i ((i, x) :: l) = x :: part i l.
Proof. unfold part. by rewrite filter_cons, decide_True. Qed.

Lemma part_cons_ne {A} i j (l : list (nat * A)) x : i <> j -> part i ((j, x) :: l) = part i l.
Proof. intros. unfold part. rewrite filter_cons, decide_False by (simpl; congruence). done. Qed.

Lemma messages_app i o1 o2 : messages i (o1 ++ o2) = messages i o1 ++ messages i o2.
Proof. apply omap_app. Qed.

Lemma messages_one i j t : messages i [Message j t] = if decide (j = i) then [t] else [].
Proof. cbn. by case_decide. Qed.

(** The loop prints the message, up to MAXMSZ - 1 bytes and to its first zero, whatever an
    earlier message left in the buffer. *)
Lemma printed_text n buf :
  length buf = MAXMSZ -> (n <= MAXMSZ)%nat -> c_string (terminate n buf) = shown (take n buf).
Proof.
  intros Hb Hn. unfold terminate, shown.
  assert (Hins : forall k, (k < MAXMSZ)%nat ->
    c_string (<[k := 0]> buf) = c_string (take k buf)).
  { intros k Hk. rewrite insert_take_drop by lia. apply c_string_app_zero. }
  destruct (Nat.ltb_spec n MAXMSZ).
  - rewrite Hins, take_take, Nat.min_r by lia. done.
  - rewrite Hins, take_take, Nat.min_l by (unfold MAXMSZ in *; lia). done.
Qed.

(** A step of one queue keeps the others, whose part of the histories it does not touch. *)
Lemma inv_update s s' i q q' :
  Inv s -> queues s !! i = Some q -> queues s' = <[i := q']> (queues s) -> prepared s' = [] ->
  (forall j, j <> i -> part j (sent s') = part j (sent s) /\
                       messages j (output s') = messages j (output s) /\
                       part j (cq s') = part j (cq s)) ->
  Forall (fun c => is_Some (queues s !! c.1)) (cq s') ->
  qinv (part i (sent s')) (messages i (output s')) (part i (cq s')) q' -> Inv s'.
Proof.
  intros HI Hq Hs' Hp Hother Hcq Hnew. split.
  - done.
  - intros j r Hr. rewrite Hs' in Hr. destruct (decide (j = i)) as [->|Hj].
    + rewrite list_lookup_insert_eq in Hr by (by eapply lookup_lt_Some). by simplify_eq.
    + rewrite list_lookup_insert_ne in Hr by done. destruct (Hother j Hj) as (-> & -> & ->).
      by apply (i_queue s HI).
  - eapply Forall_impl; [exact Hcq|]. intros c [r Hr]. rewrite Hs'.
    destruct (decide (c.1 = i)) as [->|Hj].
    + rewrite list_lookup_insert_eq by (by eapply lookup_lt_Some). eauto.
    + rewrite list_lookup_insert_ne by done. eauto.
  - rewrite Hs', length_insert. apply (i_length s HI).
Qed.

Lemma real_app l1 l2 : real (l1 ++ l2) = real l1 ++ real l2.
Proof. apply filter_app. Qed.

Lemma loop_start_inv s : start = Some s -> Inv s.
Proof.
  intros [= <-]. split; [done| |by constructor|done].
  intros i q Hq. do 3 (destruct i as [|i]; [injection Hq as <-; split; auto; constructor|]). done.
Qed.

Lemma send_inv s i q m :
  Inv s -> queues s !! i = Some q -> (length m <= MAXMSZ)%nat ->
  Inv (State (<[i := Queue (mq q ++ [m]) (thr q) (dgrams q) (armed q) (buffer q)]> (queues s))
         (prepared s) (cq s) (output s) (sent s ++ [(i, m)])).
Proof.
  intros HI Hq Hm. pose proof (i_queue s HI i q Hq) as [Hb Hs Hd Hpe Ho].
  eapply inv_update; simpl; eauto using i_prepared, i_cq.
  - intros j Hj. by rewrite part_snoc_ne.
  - split; simpl; auto.
    + rewrite !Forall_app in *. destruct Hs as (H1 & H2 & H3). auto.
    + rewrite part_snoc_eq, real_app, fmap_app, Ho, <- app_assoc. f_equal.
      rewrite !real_app, !fmap_app, <- !app_assoc. done.
Qed.

Lemma receive_inv s i q m r :
  Inv s -> queues s !! i = Some q -> mq q = m :: r -> thr q = None ->
  Inv (set_queue i (Queue r (Some m) (dgrams q) (armed q) (buffer q)) s).
Proof.
  intros HI Hq Hm Ht. pose proof (i_queue s HI i q Hq) as [Hb Hs Hd Hpe Ho].
  eapply inv_update; simpl; eauto using i_prepared, i_cq.
  rewrite Hm, Ht in *. split; simpl; auto.
  apply Forall_app in Hs as [H1 H2]. apply Forall_cons in H1 as [H0 H1].
  apply Forall_app. split; [done|]. by constructor.
Qed.

Lemma write_inv s i q m :
  Inv s -> queues s !! i = Some q -> thr q = Some m ->
  Inv (set_queue i (Queue (mq q) None (dgrams q ++ match m with [] => [] | _ => [m] end)
                      (armed q) (buffer q)) s).
Proof.
  intros HI Hq Ht. pose proof (i_queue s HI i q Hq) as [Hb Hs Hd Hpe Ho].
  assert (Hreal : match m with [] => [] | _ => [m] end = real [m]) by (by destruct m).
  rewrite Hreal. eapply inv_update; simpl; eauto using i_prepared, i_cq.
  rewrite Ht in *. split; simpl; auto.
  - rewrite !Forall_app in Hs. destruct Hs as (H1 & H2 & H3). rewrite !Forall_app.
    split_and!; [done..|]. destruct m; [done|]. exact H2.
  - rewrite real_app, Hd. by destruct m.
  - rewrite Ho. f_equal. change (option_list (Some m)) with [m].
    rewrite real_app. unfold inflight. simpl buffer. by rewrite <- !app_assoc.
Qed.

(** The request of queue [i] is in the ring or completed, never both. *)
Lemma armed_pend s i q : Inv s -> queues s !! i = Some q -> armed q = true -> part i (cq s) = [].
Proof.
  intros HI Hq Ha. destruct (q_pend _ _ _ _ (i_queue s HI i q Hq)) as [[? _]|[? _]]; congruence.
Qed.

Lemma complete_inv s i q d r :
  Inv s -> queues s !! i = Some q -> armed q = true -> dgrams q = d :: r ->
  Inv (State (<[i := Queue (mq q) (thr q) r false (store (take MAXMSZ d) (buffer q))]> (queues s))
         (prepared s) (cq s ++ [(i, zlen (take MAXMSZ d))]) (output s) (sent s)).
Proof.
  intros HI Hq Ha Hdg. pose proof (armed_pend s i q HI Hq Ha) as Hp0.
  pose proof (i_queue s HI i q Hq) as [Hb Hs Hd Hpe Ho].
  rewrite Hdg, !Forall_app, Forall_cons in Hs. destruct Hs as (Hs1 & Hs2 & Hd1 & Hs3).
  rewrite (take_ge d) by done.
  assert (Hne : d <> [] /\ real r = r).
  { rewrite Hdg, filter_cons in Hd. case_decide as D; [by simplify_eq|].
    exfalso. apply (f_equal length) in Hd. simpl in Hd.
    pose proof (length_filter (fun m => m <> []) r). lia. }
  destruct Hne as [Hne Hr]. assert (0 < zlen d) by (destruct d; [done|zlia]).
  eapply inv_update; simpl; eauto using i_prepared.
  - intros j Hj. by rewrite part_snoc_ne.
  - apply Forall_app. split; [apply (i_cq s HI)|]. repeat constructor. simpl. eauto.
  - rewrite part_snoc_eq, Hp0. simpl. split; simpl; auto.
    + unfold store. rewrite length_app, length_drop. lia.
    + rewrite !Forall_app. auto.
    + right. split; [done|]. exists (zlen d). unfold zlen in *. split_and!; [done|lia..].
    + rewrite Ho, Hp0. simpl. rewrite (proj2 (Z.ltb_lt _ _)) by done. unfold store.
      rewrite take_app_length' by (unfold zlen; lia). by rewrite Hdg.
Qed.

Lemma error_inv s i q e :
  Inv s -> queues s !! i = Some q -> armed q = true -> 0 < e ->
  Inv (State (<[i := Queue (mq q) (thr q) (dgrams q) false (buffer q)]> (queues s))
         (prepared s) (cq s ++ [(i, - e)]) (output s) (sent s)).
Proof.
  intros HI Hq Ha He. pose proof (armed_pend s i q HI Hq Ha) as Hp0.
  pose proof (i_queue s HI i q Hq) as [Hb Hs Hd Hpe Ho].
  eapply inv_update; simpl; eauto using i_prepared.
  - intros j Hj. by rewrite part_snoc_ne.
  - apply Forall_app. split; [apply (i_cq s HI)|]. repeat constructor. simpl. eauto.
  - rewrite part_snoc_eq, Hp0. simpl. split; simpl; auto.
    + right. split; [done|]. exists (- e). split_and!; [done|lia..].
    + rewrite Ho, Hp0. simpl. by rewrite (proj2 (Z.ltb_ge _ _)) by lia.
Qed.

Lemma alter_at {A} (f : A -> A) (i : nat) (l : list A) x : l !! i = Some x -> alter f i l = <[i := f x]> l.
Proof. intros Hx. rewrite list_insert_alter. apply list_alter_ext; [|done]. intros y. naive_solver. Qed.

(** What an iteration of the main loop does to the queue of the completion it takes. *)
Lemma main_iteration_eq s i res rest q :
  Inv s -> cq s = (i, res) :: rest -> queues s !! i = Some q ->
  let buf := if 0 <? res then terminate (Z.to_nat res) (buffer q) else buffer q in
  main_iteration s = Some (State
    (<[i := Queue (mq q) (thr q) (dgrams q) true buf]> (queues s)) [] rest
    (output s ++ (if 0 <? res then [Message i (c_string buf)]
                  else if res <? 0 then [ReadError i (- res)] else []))
    (sent s)).
Proof.
  intros HI Hcq Hq. pose proof (lookup_lt_Some _ _ _ Hq) as Hlt.
  unfold main_iteration. rewrite Hcq.
  destruct (0 <? res); [|destruct (res <? 0)]; rewrite ?Hq; cbn [mbind option_bind];
    unfold queue_read, io_uring_submit; cbn [prepared queues cq output sent];
    rewrite (i_prepared s HI); cbn; unfold arm; rewrite ?app_nil_r; do 2 f_equal.
  - rewrite (alter_at _ _ _ (Queue (mq q) (thr q) (dgrams q) (armed q) (terminate (Z.to_nat res) (buffer q))))
      by (by apply list_lookup_insert_eq). by rewrite list_insert_insert_eq.
  - by rewrite (alter_at _ _ _ _ Hq).
  - by rewrite (alter_at _ _ _ _ Hq).
Qed.

Lemma loop_main_inv s i res rest q :
  Inv s -> cq s = (i, res) :: rest -> queues s !! i = Some q ->
  let buf := if 0 <? res then terminate (Z.to_nat res) (buffer q) else buffer q in
  Inv (State
    (<[i := Queue (mq q) (thr q) (dgrams q) true buf]> (queues s)) [] rest
    (output s ++ (if 0 <? res then [Message i (c_string buf)]
                  else if res <? 0 then [ReadError i (- res)] else []))
    (sent s)).
Proof.
  intros HI Hcq Hq buf. pose proof (i_queue s HI i q Hq) as [Hb Hs Hd Hpe Ho].
  rewrite Hcq, part_cons_eq in *.
  destruct Hpe as [[? _]|(Ha & r & Hr & Hr0 & Hr1)]; [done|]. injection Hr as <- Hrest.
  eapply inv_update; simpl; eauto.
  - intros j Hj. rewrite Hcq, part_cons_ne, messages_app by done. split_and!; [done| |done].
    destruct (0 <? res); [rewrite messages_one, decide_False by done|destruct (res <? 0)];
      by rewrite app_nil_r.
  - pose proof (i_cq s HI) as Hall. rewrite Hcq in Hall. by apply Forall_cons in Hall as [_ ?].
  - rewrite Hrest in *. split; simpl; auto.
    + unfold buf. destruct (0 <? res); [|done]. unfold terminate.
      case_match; by rewrite length_insert.
    + rewrite Ho, messages_app. simpl. destruct (Z.ltb_spec 0 res).
      * rewrite messages_one, decide_True by done. unfold buf.
        rewrite printed_text by (done || lia). by rewrite <- app_assoc.
      * destruct (res <? 0); by rewrite app_nil_r.
Qed.

Lemma main_iteration_inv s s' :
  Inv s -> main_iteration s = Some s' ->
  Inv s' /\ sent s' = sent s /\ exists i res q q',
    cq s = (i, res) :: cq s' /\ queues s !! i = Some q /\ queues s' = <[i := q']> (queues s) /\
    mq q' = mq q /\ thr q' = thr q /\ dgrams q' = dgrams q.
Proof.
  intros HI E. destruct (cq s) as [|[i res] rest] eqn:Hcq.
  { unfold main_iteration in E. by rewrite Hcq in E. }
  pose proof (i_cq s HI) as Hall. rewrite Hcq in Hall. apply Forall_cons in Hall as [[q Hq] _].
  rewrite (main_iteration_eq s i res rest q HI Hcq Hq) in E. simplify_eq.
  split; [by apply (loop_main_inv s i res rest q)|]. split; [done|]. by eexists i, res, q, _.
Qed.

Lemma own_step_inv s s' : own_step s s' -> Inv s -> Inv s' /\ sent s' = sent s.
Proof.
  intros Hst HI. destruct Hst as [s i q m r Hq Hm Ht|s i q m Hq Ht|s i q d r Hq Ha Hd|s s' E].
  - split; [by apply (receive_inv s i q)|done].
  - split; [by apply (write_inv s i q)|done].
  - split; [by apply (complete_inv s i q)|done].
  - by destruct (main_iteration_inv s s' HI E) as (? & ? & _).
Qed.

Lemma step_inv s s' : step s s' -> Inv s -> Inv s'.
Proof.
  intros [[s0 i q m Hq Hm _|s0 i q e Hq Ha He]|Hst] HI.
  - by apply send_inv.
  - by apply (error_inv s0 i q).
  - by apply own_step_inv in Hst as [? _].
Qed.

Lemma loop_reachable_inv s : reachable s -> Inv s.
Proof.
  intros (s0 & H0 & Hr). apply loop_start_inv in H0. revert H0.
  induction Hr as [|s s1 s2 H1 _ IH]; intros HI; [done|]. apply IH. by eapply step_inv.
Qed.

(** C11: Whatever the interleaving of senders, threads, kernel and main loop, what is printed for
    a queue is always a prefix of the non-empty messages sent to it, each one once, in order and
    under its own queue, shown up to MAXMSZ - 1 bytes and to its first zero byte; and the main
    loop never lacks a submission entry. *)
Theorem messages_in_order s i :
  reachable s -> (i < NQ)%nat ->
  messages i (output s) `prefix_of` (shown <$> real (part i (sent s))) /\
  (cq s <> [] -> is_Some (main_iteration s)).
Proof.
  intros Hs Hi. apply loop_reachable_inv in Hs as HI. split.
  - destruct (lookup_lt_is_Some_2 (queues s) i) as [q Hq]; [by rewrite (i_length s HI)|].
    rewrite (q_order _ _ _ _ (i_queue s HI i q Hq)). by eexists.
  - destruct (cq s) as [|[j res] rest] eqn:Hcq; [done|]. intros _.
    pose proof (i_cq s HI) as Hall. rewrite Hcq in Hall. apply Forall_cons in Hall as [[q Hq] _].
    rewrite (main_iteration_eq s j res rest q HI Hcq Hq). eauto.
Qed.

(** *** Delivery *)

(** How far the messages that are under way have to go. *)
Definition weight (q : queue) : nat :=
  4 * length (mq q) + 3 * length (option_list (thr q)) + 2 * length (dgrams q).

Definition distance (s : state) : nat := sum_list_with weight (queues s) + length (cq s).

Lemma own_step_distance s s' : Inv s -> own_step s s' -> (distance s' < distance s)%nat.
Proof.
  intros HI Hst. unfold distance.
  assert (Hset : forall i q q' qs c c', queues s !! i = Some q -> qs = <[i := q']> (queues s) ->
    (weight q' + c' < weight q + c)%nat ->
    (sum_list_with weight qs + c' < sum_list_with weight (queues s) + c)%nat).
  { intros i q q' qs c c' Hq -> Hw.
    pose proof (sum_list_with_insert_eq weight i (queues s) q q' Hq). lia. }
  destruct Hst as [s i q m r Hq Hm Ht|s i q m Hq Ht|s i q d r Hq Ha Hd|s s' E].
  - eapply Hset; [done..|]. unfold weight. simpl. rewrite Hm, Ht. simpl. lia.
  - eapply Hset; [done..|]. unfold weight. simpl. rewrite Ht, length_app. destruct m; simpl; lia.
  - eapply Hset; [done..|]. unfold weight. simpl. rewrite Hd, length_app. simpl. lia.
  - destruct (main_iteration_inv s s' HI E) as (_ & _ & i & res & q & q' & -> & Hq & Hqs & E1 & E2 & E3).
    eapply Hset; [done..|]. unfold weight. rewrite E1, E2, E3. simpl. lia.
Qed.

(** When nothing is left to do, every queue is empty and everything was printed. *)
Lemma quiescent_printed s i :
  Inv s -> (i < NQ)%nat -> (forall s', ~ own_step s s') ->
  messages i (output s) = shown <$> real (part i (sent s)).
Proof.
  intros HI Hi Hno.
  destruct (lookup_lt_is_Some_2 (queues s) i) as [q Hq]; [by rewrite (i_length s HI)|].
  pose proof (i_queue s HI i q Hq) as [Hb Hs Hd Hpe Ho]. rewrite Ho.
  destruct (cq s) as [|[j res] rest] eqn:Hcq.
  - cbn in Hpe. destruct Hpe as [[_ Ha]|(_ & r & Hr & _)]; [|done].
    destruct (thr q) as [m|] eqn:Ht.
    { exfalso. by eapply Hno, step_write. }
    destruct (mq q) as [|m r] eqn:Hm.
    2: { exfalso. by eapply Hno, step_receive. }
    destruct (dgrams q) as [|d r] eqn:Hdg.
    2: { exfalso. by eapply Hno, step_complete. }
    cbn. by rewrite app_nil_r.
  - exfalso. pose proof (i_cq s HI) as Hall. rewrite Hcq in Hall. apply Forall_cons in Hall as [[q' Hq'] _].
    eapply Hno, step_main. by eapply main_iteration_eq.
Qed.

Lemma own_steps_inv s s' : rtc own_step s s' -> Inv s -> Inv s' /\ sent s' = sent s.
Proof.
  induction 1 as [|s s1 s2 H1 _ IH]; intros HI; [done|].
  apply own_step_inv in H1 as [HI1 <-]; [|done]. by apply IH.
Qed.

(** C25: The steps that bring messages forward always end, and when none is left every non-empty
    message sent to a queue has been printed for it, in order. *)
Theorem messages_delivered s i :
  reachable s -> (i < NQ)%nat ->
  sn own_step s /\
  (forall s', rtc own_step s s' -> (forall s'', ~ own_step s' s'') ->
     messages i (output s') = shown <$> real (part i (sent s))).
Proof.
  intros Hs Hi. apply loop_reachable_inv in Hs as HI. split.
  - apply (decreasing_sn own_step Inv distance); [|by intros; apply own_step_distance|done].
    intros s1 s2 H1 H12. by apply own_step_inv in H12 as [? _].
  - intros s' Hr Hno. destruct (own_steps_inv s s' Hr HI) as [HI' <-]. by apply quiescent_printed.
Qed.

End Loop.

(** ** [17/2]: the sender *)

Module Send.

Section Send.
Context {W : Type} `{MqOps W} `{CLib}.

(** A [char*] has no zero byte before its end, so that [strlen] is the length of the text. *)
Definition send_main (argv : list bytes) : M W Z :=
  match argv with
  | [_; arg; msg_text] =>
      match from_chars arg with
      | None => err_quit (str "Invalid queue index: {}") [arg]
      | Some queue_idx =>
          let name := queue_name queue_idx in
          mq ← syscall_int (k_mq_open name Setup.O_WRONLY None);
          if mq =? -1 then err_sys (str "mq_open {}") [name]
          else
            r ← syscall_unit (k_mq_send mq msg_text 0);
            if r =? -1 then err_sys (str "mq_send") []
            else (_ ← syscall_unit (k_mq_close mq); sys_exit 0)
      end
  | _ => err_quit (str "Usage: {} <queue_index> <message>") [hd [] argv]
  end.

(** The sender gives the message to the queue with the number of its first argument, under the
    name the reader opens, with priority 0, and exits with status 0; every failure is reported
    and ends it with status 1. *)
Theorem send_main_spec prog n msg_text p :
  is_int n ->
  wp (send_main [prog; to_string n; msg_text]) (fun o p' =>
    match k_mq_open (queue_name n) Setup.O_WRONLY None (kern p) with
    | (SysErr _, _) => o = Exited 1 /\ console p' <> console p
    | (SysOk mq, w1) => mq <> -1 ->
        match k_mq_send mq msg_text 0 w1 with
        | (SysErr _, _) => o = Exited 1 /\ console p' <> console p
        | (SysOk _, w2) => o = Exited 0 /\ console p' = console p /\ kern p' = (k_mq_close mq w2).2
        end
    end) p.
Proof.
  intros Hn. unfold send_main. rewrite from_chars_to_string, decide_True by done.
  assert (Hne : forall m, console p ++ [report (log_to_stderr p) m] <> console p).
  { intros m Hm. apply (f_equal length) in Hm. rewrite length_app in Hm. simpl in Hm. lia. }
  destruct (k_mq_open _ _ _ _) as [[mq|e] w1] eqn:E1.
  - apply wp_bind_ret, returns_syscall_int; rewrite E1; [intros ? ? [= <- <-]|intros ? ? [=]].
    destruct (Z.eqb_spec mq (-1)); [by wstep|].
    destruct (k_mq_send _ _ _ _) as [[[]|e] w2] eqn:E2.
    + apply wp_bind_ret, returns_syscall_unit; simpl; rewrite E2; [intros ? [= <-]|intros ? ? [=]].
      apply wp_bind_ret, returns_syscall_unit; simpl; intros * E3; rewrite E3; wstep; done.
    + apply wp_bind_ret, returns_syscall_unit; simpl; rewrite E2; [intros ? [=]|intros ? ? [= <- <-]].
      wstep. intros _. split; [done|apply Hne].
  - apply wp_bind_ret, returns_syscall_int; rewrite E1; [intros ? ? [=]|intros ? ? [= <- <-]].
    rewrite Z.eqb_refl. wstep. split; [done|apply Hne].
Qed.

End Send.
End Send.

(** ** A run of the program *)

(** A message for queue 1 is sent, received, relayed, read and printed. *)
Definition hello : bytes := str "hello".

Definition run_start : Loop.state := Loop.io_uring_submit
  (default (Loop.State [] [] [] [] []) (Loop.setup NQ 0 (Loop.State [] [] [] [] []))).

Definition run_sent : Loop.state :=
  Loop.State (<[1%nat := Loop.Queue [hello] None [] true (replicate MAXMSZ 0)]> (Loop.queues run_start))
    [] [] [] [(1%nat, hello)].

Lemma run_sent_reachable : Loop.reachable run_sent.
Proof.
  exists run_start. split; [reflexivity|]. eapply rtc_l; [|apply rtc_refl]. left.
  eapply (Loop.step_send run_start 1 (Loop.Queue [] None [] true (replicate MAXMSZ 0)) hello);
    [reflexivity|vm_compute; lia|vm_compute; lia].
Qed.

Lemma messages_in_order_witness :
  Loop.messages 1 (Loop.output run_sent) `prefix_of` [hello].
Proof. exact (proj1 (Loop.messages_in_order run_sent 1 run_sent_reachable ltac:(vm_compute; lia))). Defined.

Lemma messages_delivered_witness : sn Loop.own_step run_sent.
Proof. exact (proj1 (Loop.messages_delivered run_sent 1 run_sent_reachable ltac:(vm_compute; lia))). Defined.
