(* ===== verification/PollEvents.v ===== *)
(** * [15/13] and [15/14]: what polling reports when an end of a pipe is closed

    [15/13_epoll_close_events.cpp] polls with epoll, [15/14_io_uring_close_events.cpp] with poll
    requests of io_uring.  Each makes a pipe, closes one end in a child and prints the events the
    parent gets at the other end, once for a closed writer and once for a closed reader. *)

From S2P Require Import Prelude Machine Errors Kernel SimKernel Text.
From S2P Require Import Daemon Pipes Limits.

Class PollOps (W : Type) := {
  k_sleep : Z -> W -> W;
  k_epoll_create1 : W -> sysres Z * W;
  k_epoll_add : Z -> Z -> Z -> W -> sysres unit * W;       (* epfd, fd, events *)
  k_epoll_wait : Z -> W -> sysres (list (Z * Z)) * W;      (* at most one: fd, events *)
  k_queue_init : Z -> W -> sysres unit * W;
  k_poll_add : Z -> Z -> W -> bool * W;                    (* fd, events; false: no entry free *)
  k_submit_and_wait : W -> sysres unit * W;
  k_peek_cqe : W -> option (Z * Z) * W;                    (* result, user data *)
  k_queue_exit : W -> W;
}.

Definition POLLIN : Z := 1.
Definition POLLOUT : Z := 4.
Definition POLLERR : Z := 8.
Definition POLLHUP : Z := 16.
Definition POLLRDHUP : Z := 8192.
Definition SIGPIPE : Z := 13.

(** The epoll constants have the same values. *)
Definition EPOLLIN : Z := POLLIN.
Definition EPOLLOUT : Z := POLLOUT.
Definition EPOLLERR : Z := POLLERR.
Definition EPOLLHUP : Z := POLLHUP.
Definition EPOLLRDHUP : Z := POLLRDHUP.

Section Programs.
Context {W : Type} `{FileOps W} `{PipeOps W} `{ProcOps W} `{PollOps W} `{CLib}.

(** A call of the kernel that cannot fail. *)
Definition update (f : W -> W) : M W unit := fun p =>
  (Ret tt, Proc (errno p) (log_to_stderr p) (console p) (f (kern p))).

Definition query {A} (f : W -> A * W) : M W A := fun p =>
  let '(a, w) := f (kern p) in (Ret a, Proc (errno p) (log_to_stderr p) (console p) w).

Definition sleep (seconds : Z) : M W unit := update (k_sleep seconds).

Definition on_flag (events bit : Z) (word : bytes) : bytes :=
  if Z.land events bit =? 0 then [] else word.

(** *** epoll *)

Definition print_events (events : Z) : M W unit :=
  println (on_flag events EPOLLIN (str " EPOLLIN") ++
           on_flag events EPOLLOUT (str " EPOLLOUT") ++
           on_flag events EPOLLHUP (str " EPOLLHUP") ++
           on_flag events EPOLLERR (str " EPOLLERR")).

(** [if (pipe(fd) < 0) err_sys(...)] *)
Definition make_pipe : M W (Z * Z) :=
  r ← syscall k_pipe;
  match r with SysOk fd => mret fd | SysErr _ => err_sys (str "call pipe") [] end.

Definition epoll_create1 : M W Z :=
  epfd ← syscall_int k_epoll_create1;
  if epfd <? 0 then err_sys (str "epoll_create1") [] else mret epfd.

(** The child: it closes the end it does not use, then the other one. *)
Definition child (unused used : Z) (what : bytes) : M W Z :=
  close unused ;; sleep 1 ;; println what ;; close used ;; sys_exit 0.

(** [epoll_wait] and the report of its event. *)
Definition epoll_report (epfd : Z) : M W unit :=
  println (str "[Parent] epoll_wait...") ;;
  r ← syscall (k_epoll_wait epfd);
  match r with
  | SysErr _ => err_sys (str "call epoll_wait") []
  | SysOk [] => mret tt
  | SysOk ((fd, events) :: _) =>
      print (str "[Parent] Event for fd " ++ to_string fd ++ str ":") ;; print_events events
  end.

(** The parent with a writer that closes, and with a reader that closes. *)
Definition epoll_writer_closes (fd : Z * Z) (epfd : Z) : M W unit :=
  close fd.2 ;;
  r ← syscall_unit (k_epoll_add epfd fd.1 (Z.lor EPOLLIN EPOLLRDHUP));
  (if r <? 0 then err_sys (str "call epoll_ctl(EPOLL_CTL_ADD)") [] else mret tt) ;;
  epoll_report epfd ;;
  close fd.1 ;; close epfd ;; mret tt.

Definition epoll_reader_closes (fd : Z * Z) (epfd : Z) : M W unit :=
  close fd.1 ;;
  _ ← syscall_unit (k_epoll_add epfd fd.2 EPOLLOUT);
  sleep 2 ;;
  epoll_report epfd ;;
  close fd.2 ;; close epfd ;; mret tt.

(** [fork() == 0] is the child; a failed [fork] continues as the parent does. *)
Definition epoll_main : M W Z :=
  fd ← make_pipe;
  epfd ← epoll_create1;
  println ([NL] ++ str "--- Test epoll: Writer closes pipe ---" ++ [NL]) ;;
  pid ← syscall_int k_fork;
  if pid =? 0 then child fd.1 fd.2 (str "[Child] Close write...")
  else
    epoll_writer_closes fd epfd ;;
    println ([NL] ++ str "--- Test epoll: Reader closes pipe ---" ++ [NL]) ;;
    _ ← syscall_unit (k_sigignore SIGPIPE);
    fd ← make_pipe;
    epfd ← epoll_create1;
    pid ← syscall_int k_fork;
    if pid =? 0 then child fd.2 fd.1 (str "[Child] Close read...")
    else epoll_reader_closes fd epfd ;; mret 0.

(** *** io_uring *)

Definition print_poll_events (events : Z) : M W unit :=
  println (on_flag events POLLIN (str " POLLIN") ++
           on_flag events POLLOUT (str " POLLOUT") ++
           on_flag events POLLHUP (str " POLLHUP") ++
           on_flag events POLLERR (str " POLLERR") ++
           on_flag events POLLRDHUP (str " POLLRDHUP")).

(** Submit one poll request with the descriptor as user data, wait, and report. *)
Definition uring_poll (fd events : Z) : M W unit :=
  ok ← query (k_poll_add fd events);
  (if ok : bool then mret tt else err_sys (str "get sqe") []) ;;
  println (str "[Parent] io_uring_submit_and_wait...") ;;
  r ← query k_submit_and_wait;
  (match r with SysOk _ => mret tt | SysErr _ => err_sys (str "submit_and_wait") [] end) ;;
  cqe ← query k_peek_cqe;
  match cqe with
  | None => mret tt
  | Some (events, event_fd) =>
      if events <? 0 then err_ret (str "Poll error") []
      else print (str "[Parent] Event for fd " ++ to_string event_fd ++ str ":") ;;
           print_poll_events events
  end.

Definition uring_main : M W Z :=
  r ← query (k_queue_init 8);
  (match r with SysOk _ => mret tt | SysErr _ => err_sys (str "call io_uring_queue_init") [] end) ;;
  println ([NL] ++ str "--- Test io_uring: Writer closes pipe ---" ++ [NL]) ;;
  fd ← make_pipe;
  pid ← syscall_int k_fork;
  if pid =? 0 then child fd.1 fd.2 (str "[Child] Close write...")
  else
    close fd.2 ;;
    uring_poll fd.1 (Z.lor POLLIN POLLRDHUP) ;;
    close fd.1 ;;
    println ([NL] ++ str "--- Test io_uring: Reader closes pipe ---" ++ [NL]) ;;
    _ ← syscall_unit (k_sigignore SIGPIPE);
    fd ← make_pipe;
    pid ← syscall_int k_fork;
    if pid =? 0 then child fd.2 fd.1 (str "[Child] Close read...")
    else
      close fd.1 ;; sleep 2 ;;
      uring_poll fd.2 POLLOUT ;;
      close fd.2 ;;
      update k_queue_exit ;;
      mret 0.

End Programs.

(** ** The texts *)

Definition epoll_names : list string := [" EPOLLIN"; " EPOLLOUT"; " EPOLLHUP"; " EPOLLERR"]%string.
Definition epoll_bits : Z -> list bool := bits_of [EPOLLIN; EPOLLOUT; EPOLLHUP; EPOLLERR].

Definition poll_names : list string :=
  [" POLLIN"; " POLLOUT"; " POLLHUP"; " POLLERR"; " POLLRDHUP"]%string.
Definition poll_bits : Z -> list bool := bits_of [POLLIN; POLLOUT; POLLHUP; POLLERR; POLLRDHUP].

Section TextFacts.
Context {W : Type}.

Lemma print_events_eq ev p :
  print_events (W := W) ev p = println (words epoll_names (epoll_bits ev)) p.
Proof.
  unfold print_events, on_flag, words, epoll_bits, bits_of.
  cbn [fmap list_fmap zip_with mjoin list_join epoll_names].
  repeat (destruct (_ =? 0)); by rewrite ?app_nil_r.
Qed.

Lemma print_poll_events_eq ev p :
  print_poll_events (W := W) ev p = println (words poll_names (poll_bits ev)) p.
Proof.
  unfold print_poll_events, on_flag, words, poll_bits, bits_of.
  cbn [fmap list_fmap zip_with mjoin list_join poll_names].
  repeat (destruct (_ =? 0)); by rewrite ?app_nil_r.
Qed.

(** The printed line identifies the events each program knows: two event sets give the same line
    exactly when they agree on the four events of epoll, the five events of the poll request. *)
Theorem event_lines_identify e1 e2 p :
  ((print_events (W := W) e1 p = print_events e2 p) <-> (epoll_bits e1 = epoll_bits e2)) /\
  ((print_poll_events (W := W) e1 p = print_poll_events e2 p) <-> (poll_bits e1 = poll_bits e2)).
Proof.
  assert (Hln : forall s t, println (W := W) s p = println t p -> s = t).
  { unfold println, emit. intros s t [= E]. apply (inj (app (console p))) in E.
    injection E as E. by apply (inj (fun l => l ++ [NL])) in E. }
  rewrite !print_events_eq, !print_poll_events_eq. split; (split; [|by intros ->]);
    intros E%Hln; apply words_inj in E; done.
Qed.

End TextFacts.

(** ** Descriptors *)

(** What the calls do to the open descriptors; the ring's own descriptor belongs to liburing. *)
Class PollSpec (W : Type) `{FS : FdSpec W} `{PipeOps W} `{ProcOps W} `{PollOps W} := {
  pipe_fds w r w' : k_pipe w = (r, w') ->
    match r with
    | SysOk (a, b) => a ∉ fds w /\ b ∉ fds w /\ a <> b /\ fds w' = {[a; b]} ∪ fds w
    | SysErr _ => fds w' = fds w
    end;
  epoll_create1_fds w r w' : k_epoll_create1 w = (r, w') -> fd_alloc (fds w) r (fds w');
  fork_fds w : fds (k_fork w).2 = fds w;
  sigignore_fds s w : fds (k_sigignore s w).2 = fds w;
  sleep_fds n w : fds (k_sleep n w) = fds w;
  epoll_add_fds e f v w : fds (k_epoll_add e f v w).2 = fds w;
  epoll_wait_fds e w : fds (k_epoll_wait e w).2 = fds w;
  queue_init_fds n w : fds (k_queue_init n w).2 = fds w;
  poll_add_fds f v w : fds (k_poll_add f v w).2 = fds w;
  submit_fds w : fds (k_submit_and_wait w).2 = fds w;
  peek_fds w : fds (k_peek_cqe w).2 = fds w;
  queue_exit_fds w : fds (k_queue_exit w) = fds w;
}.

Section Leaks.
Context {W : Type} `{FS : FdSpec W} `{PI : PipeOps W} `{PR : ProcOps W} `{PO : PollOps W} `{CLib}.
Context {PS : PollSpec W}.
Implicit Types p : proc W.

(** The computation keeps the open descriptors, or the process exits. *)
Definition keeps {A} (m : M W A) : Prop :=
  forall S p, fds (kern p) = S -> settles m (fun _ p' => fds (kern p') = S) p.

Lemma keeps_ret {A} (a : A) : keeps (mret a).
Proof. by intros S p Hp. Qed.

Lemma keeps_err_sys {A} fmt args : keeps (err_sys (A := A) fmt args).
Proof. intros S p Hp. sstep. Qed.

Lemma keeps_err_ret fmt args : keeps (err_ret fmt args).
Proof. intros S p Hp. by sstep. Qed.

Lemma keeps_println s : keeps (println s).
Proof. intros S p Hp. by sstep. Qed.

Lemma keeps_print s : keeps (print s).
Proof. intros S p Hp. by sstep. Qed.

Lemma keeps_bind {A B} (m : M W A) (k : A -> M W B) : keeps m -> (forall a, keeps (k a)) -> keeps (m ≫= k).
Proof. intros Hm Hk S p Hp. sstep. eapply settles_mono; [by apply Hm|]. intros a p'. apply Hk. Qed.

Lemma keeps_update f : (forall w, fds (f w) = fds w) -> keeps (update f).
Proof. intros Hf S p <-. apply settles_returns. apply Hf. Qed.

Lemma keeps_query {A} (f : W -> A * W) : (forall w, fds (f w).2 = fds w) -> keeps (query f).
Proof.
  intros Hf S p <-. unfold settles, wp, query. specialize (Hf (kern p)). by destruct (f (kern p)).
Qed.

Lemma keeps_syscall {A} (f : W -> sysres A * W) : (forall w, fds (f w).2 = fds w) -> keeps (syscall f).
Proof.
  intros Hf S p <-. specialize (Hf (kern p)). sstep.
  match goal with E : f _ = _ |- _ => by rewrite E in Hf end.
Qed.

Lemma keeps_syscall_int f : (forall w, fds (f w).2 = fds w) -> keeps (syscall_int f).
Proof. intros Hf. apply keeps_bind; [by apply keeps_syscall|]. intros a. apply keeps_ret. Qed.

Lemma keeps_syscall_unit f : (forall w, fds (f w).2 = fds w) -> keeps (syscall_unit f).
Proof. intros Hf. apply keeps_bind; [by apply keeps_syscall|]. intros a. apply keeps_ret. Qed.

Create HintDb keeps.
#[local] Hint Resolve keeps_ret keeps_err_sys keeps_err_ret keeps_println keeps_print : keeps.
#[local] Hint Extern 1 (keeps (update _)) => apply keeps_update : keeps.
#[local] Hint Extern 1 (keeps (query _)) => apply keeps_query : keeps.
#[local] Hint Extern 1 (keeps (syscall _)) => apply keeps_syscall : keeps.
#[local] Hint Extern 1 (keeps (syscall_int _)) => apply keeps_syscall_int : keeps.
#[local] Hint Extern 1 (keeps (syscall_unit _)) => apply keeps_syscall_unit : keeps.
#[local] Hint Extern 2 (keeps (_ ≫= _)) => apply keeps_bind : keeps.
#[local] Hint Extern 3 (keeps (match ?x with _ => _ end)) => destruct x : keeps.
#[local] Hint Extern 1 (fds _ = fds _) => first
  [apply fork_fds | apply sigignore_fds | apply sleep_fds | apply epoll_add_fds
  | apply epoll_wait_fds | apply queue_init_fds | apply poll_add_fds | apply submit_fds
  | apply peek_fds | apply queue_exit_fds] : keeps.

Lemma sleep_keeps n : keeps (sleep n).
Proof. unfold sleep. auto with keeps. Qed.

Lemma fork_keeps : keeps (syscall_int k_fork).
Proof. auto with keeps. Qed.

Lemma sigignore_keeps n : keeps (syscall_unit (k_sigignore n)).
Proof. auto with keeps. Qed.

Lemma epoll_add_keeps e f v : keeps (syscall_unit (k_epoll_add e f v)).
Proof. auto with keeps. Qed.

Lemma check_keeps (b : bool) fmt args : keeps (if b then err_sys fmt args else mret tt).
Proof. auto with keeps. Qed.

Lemma queue_init_keeps n : keeps (query (k_queue_init n)).
Proof. auto with keeps. Qed.

Lemma queue_exit_keeps : keeps (update k_queue_exit).
Proof. auto with keeps. Qed.

Lemma epoll_report_keeps epfd : keeps (epoll_report epfd).
Proof. unfold epoll_report, print_events. auto 10 with keeps. Qed.

Lemma uring_poll_keeps fd ev : keeps (uring_poll fd ev).
Proof. unfold uring_poll, print_poll_events. auto 20 with keeps. Qed.

(** Descriptors made and closed. *)
Lemma close_settles fd S p :
  fds (kern p) = S -> settles (close fd) (fun _ p' => fds (kern p') = S ∖ {[fd]}) p.
Proof.
  intros <-. unfold close. sstep; simpl;
    match goal with E : k_close _ _ = _ |- _ => exact (close_fds _ _ _ _ E) end.
Qed.

Lemma make_pipe_settles S p :
  fds (kern p) = S ->
  settles make_pipe (fun fd p' => fd.1 ∉ S /\ fd.2 ∉ S /\ fd.1 <> fd.2 /\
    fds (kern p') = {[fd.1; fd.2]} ∪ S) p.
Proof.
  intros <-. unfold make_pipe. sstep. sstep.
  match goal with E : k_pipe _ = _ |- _ => apply pipe_fds in E; rename E into Hp end.
  destruct r as [[a b]|e]; sstep. simpl. tauto.
Qed.

Lemma epoll_create1_settles S p :
  fds (kern p) = S ->
  settles epoll_create1 (fun e p' => e ∉ S /\ fds (kern p') = {[e]} ∪ S) p.
Proof.
  intros <-. unfold epoll_create1. sstep. sstep.
  - match goal with E : k_epoll_create1 _ = _ |- _ => apply epoll_create1_fds in E as (_ & H1 & H2 & _) end.
    simpl. destruct (_ <? 0); sstep. done.
  - simpl. sstep.
Qed.

Lemma child_settles {Q : Z -> proc W -> Prop} a b t p : settles (child a b t) Q p.
Proof.
  unfold child. sstep. eapply settles_mono; [by apply close_settles|]. intros _ p1 _. sstep.
  eapply settles_mono; [by apply sleep_keeps|]. intros _ p2 _. sstep.
  eapply settles_mono; [by apply keeps_println|]. intros _ p3 _. sstep.
  eapply settles_mono; [by apply close_settles|]. intros _ p4 _. sstep.
Qed.

(** Closing what was opened. *)
Lemma closed3 (S : gset Z) a b e :
  a ∉ S -> b ∉ S -> e ∉ ({[a; b]} ∪ S) ->
  ({[e]} ∪ ({[a; b]} ∪ S)) ∖ {[b]} ∖ {[a]} ∖ {[e]} = S /\
  ({[e]} ∪ ({[a; b]} ∪ S)) ∖ {[a]} ∖ {[b]} ∖ {[e]} = S.
Proof. intros. split; set_solver. Qed.

Lemma closed2 (S : gset Z) a b :
  a ∉ S -> b ∉ S -> ({[a; b]} ∪ S) ∖ {[b]} ∖ {[a]} = S /\ ({[a; b]} ∪ S) ∖ {[a]} ∖ {[b]} = S.
Proof. intros. split; set_solver. Qed.

(** A step of a program whose effect on the descriptors is known. *)
Ltac tracked lem := sstep; (eapply settles_mono; [eapply lem; eassumption|]; intros; cbv beta in *).

Lemma epoll_writer_closes_settles fd epfd S p :
  fds (kern p) = S ->
  settles (epoll_writer_closes fd epfd)
    (fun _ p' => fds (kern p') = S ∖ {[fd.2]} ∖ {[fd.1]} ∖ {[epfd]}) p.
Proof.
  intros Hp. unfold epoll_writer_closes.
  tracked close_settles. tracked epoll_add_keeps.
  tracked check_keeps.
  tracked epoll_report_keeps. tracked close_settles.
  tracked close_settles. by sstep.
Qed.

Lemma epoll_reader_closes_settles fd epfd S p :
  fds (kern p) = S ->
  settles (epoll_reader_closes fd epfd)
    (fun _ p' => fds (kern p') = S ∖ {[fd.1]} ∖ {[fd.2]} ∖ {[epfd]}) p.
Proof.
  intros Hp. unfold epoll_reader_closes.
  tracked close_settles. tracked epoll_add_keeps.
  tracked sleep_keeps.
  tracked epoll_report_keeps. tracked close_settles.
  tracked close_settles. by sstep.
Qed.

(** Whatever the events, errors and children, the process that returns from [main] has closed
    every descriptor of both tests; other processes exit, the children among them. *)
Theorem epoll_main_no_leak p :
  settles epoll_main (fun r p' => r = 0 /\ fds (kern p') = fds (kern p)) p.
Proof.
  unfold epoll_main. remember (fds (kern p)) as S eqn:HS. symmetry in HS.
  tracked make_pipe_settles. destruct_and!.
  tracked epoll_create1_settles. destruct_and!.
  tracked keeps_println. tracked fork_keeps.
  destruct (_ =? 0); [apply child_settles|].
  tracked epoll_writer_closes_settles.
  match goal with E : fds (kern ?q) = ({[?e]} ∪ ({[?x; ?y]} ∪ S)) ∖ _ ∖ _ ∖ _ |- _ =>
    assert (HS1 : fds (kern q) = S) by (rewrite E; by apply closed3) end.
  tracked keeps_println. tracked sigignore_keeps.
  tracked make_pipe_settles. destruct_and!.
  tracked epoll_create1_settles. destruct_and!.
  tracked fork_keeps. destruct (_ =? 0); [apply child_settles|].
  tracked epoll_reader_closes_settles. sstep. split; [done|].
  match goal with E : fds (kern ?q) = _ |- fds (kern ?q) = _ => rewrite E end. by apply closed3.
Qed.

(** The same for the program that polls through io_uring. *)
Theorem uring_main_no_leak p :
  settles uring_main (fun r p' => r = 0 /\ fds (kern p') = fds (kern p)) p.
Proof.
  unfold uring_main. remember (fds (kern p)) as S eqn:HS. symmetry in HS.
  tracked queue_init_keeps. 
  sstep. eapply (settles_mono _ (fun _ q => fds (kern q) = S)); [destruct a; by sstep|]. intros.
  tracked keeps_println.
  tracked make_pipe_settles. destruct_and!.
  tracked fork_keeps. destruct (_ =? 0); [apply child_settles|].
  tracked close_settles. tracked uring_poll_keeps.
  tracked close_settles.
  match goal with E : fds (kern ?q) = ({[?x; ?y]} ∪ S) ∖ {[?y]} ∖ {[?x]} |- _ =>
    assert (HS1 : fds (kern q) = S) by (rewrite E; by apply closed2) end.
  tracked keeps_println. tracked sigignore_keeps.
  tracked make_pipe_settles. destruct_and!.
  tracked fork_keeps. destruct (_ =? 0); [apply child_settles|].
  tracked close_settles. tracked sleep_keeps.
  tracked uring_poll_keeps. tracked close_settles.
  tracked queue_exit_keeps. sstep. split; [done|].
  match goal with E : fds (kern ?q) = _ |- fds (kern ?q) = _ => rewrite E end. by apply closed2.
Qed.

End Leaks.
