(* ===== verification/Shell.v ===== *)
(** * The command loop of [1/8_read_command_and_execute.cpp]

    The program reads lines from [std::cin], splits each at white space and has a child process
    execute it.  What the operating system sees is a trace of [fork], [waitpid] and [execvp]; the
    theorem says which traces a given input leads to. *)

From S2P Require Import Prelude Machine Errors Kernel SimKernel Text.
From S2P Require Import ProcThreads Limits Stdio AddrInfo.

Class ShellOps (W : Type) := {
  k_signal_int : W -> sysres unit * W;                         (* signal(SIGINT, sig_int) *)
  k_execvp : bytes -> list (option bytes) -> W -> Z * W;       (* returns only with an error *)
}.

(** [while (ss >> arg) args_storage.push_back(arg);] *)
Fixpoint arguments (fuel : nat) (ss : bytes) : list bytes :=
  match fuel with
  | O => []
  | S fuel =>
      match extract_word ss with
      | None => []
      | Some (arg, ss) => arg :: arguments fuel ss
      end
  end.

Definition args_storage (line : bytes) : list bytes := arguments (S (length line)) line.

(** The vector of pointers, with its null pointer at the end. *)
Definition argv_c (line : bytes) : list (option bytes) := (Some <$> args_storage line) ++ [None].

Section Shell.
Context {W : Type} `{StdioOps W} `{WaitOps W} `{ShellOps W} `{CLib}.

(** The handler. *)
Definition sig_int : M W unit :=
  println ([NL] ++ str "Interrupted") ;;
  print (str "% ").

(** [std::getline]: the line, and whether the end of the file was met; [None] sets failbit. *)
Fixpoint getline (fuel : nat) (line : bytes) : M W (option (bytes * bool)) :=
  match fuel with
  | O => out_of_fuel
  | S fuel =>
      c ← getc stdin;
      match c with
      | None => mret (if empty line then None else Some (line, true))
      | Some c => if c =? NL then mret (Some (line, false)) else getline fuel (line ++ [c])
      end
  end.

(** The child.  [execvp] of a null pointer, for a line of white space, is undefined. *)
Definition shell_child (line : bytes) : M W unit :=
  match argv_c line with
  | Some file :: _ =>
      (fun p => let '(e, w) := k_execvp file (argv_c line) (kern p) in
                (Ret tt, Proc e (log_to_stderr p) (console p) w)) ;;
      err_sys (str "cannot execute: {}") [line]
  | _ => undefined
  end.

Definition run_command (line : bytes) : M W unit :=
  pid ← syscall_int k_fork;
  (if pid <? 0 then err_sys (str "error call fork") []
   else if pid =? 0 then shell_child line
   else mret tt) ;;
  r ← syscall (k_waitpid pid);
  match r with
  | SysErr _ => err_sys (str "error call waitpid") []
  | SysOk _ => mret tt
  end.

(** The loop; [eof]: an earlier line met the end of the file, so that [getline] fails. *)
Fixpoint shell_loop (fuel : nat) (eof : bool) : M W Z :=
  match fuel with
  | O => out_of_fuel
  | S fuel' =>
      if eof then mret 0
      else
        l ← getline fuel [];
        match l with
        | None => mret 0
        | Some (line, eof) =>
            print (str "% ") ;;
            (if empty line then mret tt else run_command line) ;;
            shell_loop fuel' eof
        end
  end.

Definition shell_main (fuel : nat) : M W Z :=
  r ← syscall_unit k_signal_int;
  (if r =? -1 then err_sys (str "error call signal") [] else mret tt) ;;
  print (str "% ") ;;
  shell_loop fuel false.

End Shell.

(** ** Words *)

Definition ends_word (s : bytes) : Prop := match s with [] => True | c :: _ => is_space c = true end.

(** The words of a line: the maximal runs of characters that are not white space, in order. *)
Inductive words : bytes -> list bytes -> Prop :=
| w_end : words [] []
| w_space c s ws : is_space c = true -> words s ws -> words (c :: s) ws
| w_word w s ws : is_word w -> ends_word s -> words s ws -> words (w ++ s) (w :: ws).

Lemma words_skip s ws : words (skip_ws s) ws -> words s ws.
Proof.
  induction s as [|c s IH]; simpl; [done|]. destruct (is_space c) eqn:E; [|done].
  intros Hw. apply w_space; [done|by apply IH].
Qed.

(** What [>>] does to a line: a word, if there is one, from the first character that is no white
    space to the next that is. *)
Lemma scan_word_split s :
  let '(w, r) := scan_word s in
  s = w ++ r /\ Forall (fun c => is_space c = false) w /\ ends_word r.
Proof.
  induction s as [|c s IH]; simpl; [done|]. destruct (is_space c) eqn:E; [done|].
  destruct (scan_word s) as [w r]. destruct IH as (-> & Hw & Hr). split_and!; auto.
Qed.

Lemma skip_ws_head s : match skip_ws s with [] => True | c :: _ => is_space c = false end.
Proof. induction s as [|c s IH]; simpl; [done|]. by destruct (is_space c) eqn:E. Qed.

Lemma skip_ws_length s : (length (skip_ws s) <= length s)%nat.
Proof. induction s as [|c s IH]; simpl; [done|]. destruct (is_space c); simpl; lia. Qed.

Lemma arguments_words fuel s : (length s < fuel)%nat -> words s (arguments fuel s).
Proof.
  revert s. induction fuel as [|fuel IH]; intros s Hf; [lia|]. cbn [arguments]. unfold extract_word.
  pose proof (scan_word_split (skip_ws s)) as Hsc. pose proof (skip_ws_head s) as Hh.
  pose proof (skip_ws_length s) as Hl. apply words_skip.
  destruct (scan_word (skip_ws s)) as [[|c w] r] eqn:E; destruct Hsc as (Es & Hw & Hr).
  - rewrite Es in *. simpl in *. destruct r; [constructor|]. simpl in Hr. congruence.
  - rewrite Es. apply w_word; [done|done|]. apply IH. rewrite Es, length_app in Hl. simpl in Hl. lia.
Qed.

(** The program's splitting gives the words of the line. *)
Lemma args_storage_words line : words line (args_storage line).
Proof. apply arguments_words. lia. Qed.

(** A line has only one list of words. *)
Lemma words_unique s ws ws' : words s ws -> words s ws' -> ws = ws'.
Proof.
  intros Hw. revert ws'. induction Hw as [|c s ws Hc Hw IH|w s ws Hwd Hs Hw IH]; intros ws' H'.
  - inversion H' as [| |w ? ? [Hne _] _ _ E]; [done|]. by destruct w.
  - inversion H' as [|? ? ? _ H1|w r ? [Hne Hwd] _ H1 E]; simplify_eq; [by apply IH|].
    destruct w as [|d w]; [done|]. simpl in E. simplify_eq. apply Forall_cons_1 in Hwd as [? _].
    congruence.
  - destruct Hwd as [Hne Hf]. destruct w as [|d w]; [done|].
    inversion H' as [|? ? ? Hd H1|w' s' ws1 [Hne' Hf'] Hs' H1 E]; subst.
    + apply Forall_cons_1 in Hf as [? _]. congruence.
    + assert (Hsc : scan_word (w' ++ s') = scan_word ((d :: w) ++ s)) by (by rewrite E).
      rewrite !scan_word_app in Hsc; [|done|by destruct s; intros ? ? [=]; subst|done|].
      * simplify_eq. f_equal. by apply IH.
      * by destruct s'; intros ? ? [=]; subst.
Qed.

(** ** Sessions *)

Inductive event :=
| Fork (pid : option Z)                         (* None: it failed *)
| Waited (pid : Z) (ok : bool) (left : bytes)   (* the input that was left then *)
| Exec (file : bytes) (argv : list (option bytes)).

(** What a line leads to, when [rest] is the input after it: nothing for an empty line; otherwise a
    child, which executes the words of the line, and which the shell waits for.  The child has the
    same standard input as the shell, so the input that is left when it has ended is whatever it
    leaves.  The result is that input, or the end of the program: that of the child, when
    [execvp] fails, or of the shell, when [fork] or [waitpid] fails. *)
Inductive ran (rest : bytes) : bytes -> list event -> bytes + outcome Z -> Prop :=
| r_empty : ran rest [] [] (inl rest)
| r_command l pid left :
    l <> [] -> 0 < pid -> ran rest l [Fork (Some pid); Waited pid true left] (inl left)
| r_child l file args :
    words l (file :: args) ->
    ran rest l [Fork (Some 0); Exec file ((Some <$> file :: args) ++ [None])] (inr (Exited 1))
| r_blank l :
    l <> [] -> words l [] -> ran rest l [Fork (Some 0)] (inr (Threw (str "undefined behaviour")))
| r_no_fork l : l <> [] -> ran rest l [Fork None] (inr (Exited 1))
| r_no_wait l pid left :
    l <> [] -> 0 < pid ->
    ran rest l [Fork (Some pid); Waited pid false left] (inr (Exited 1)).

(** What an input leads to: its lines are run one after the other, each on the input the one
    before it left; a last line may lack its newline, and nothing is read after it. *)
Inductive session : bytes -> list event -> outcome Z -> Prop :=
| s_end : session [] [] (Ret 0)
| s_line l rest ev left ev' o :
    NL ∉ l -> ran rest l ev (inl left) -> session left ev' o ->
    session (l ++ NL :: rest) (ev ++ ev') o
| s_stop l rest ev o : NL ∉ l -> ran rest l ev (inr o) -> session (l ++ NL :: rest) ev o
| s_last l ev left : NL ∉ l -> l <> [] -> ran [] l ev (inl left) -> session l ev (Ret 0)
| s_last_stop l ev o : NL ∉ l -> ran [] l ev (inr o) -> session l ev o.

(** Worlds that keep the trace. *)
Class ShellSpec (W : Type) `{SS : StdioSpec W} `{WaitOps W} `{ShellOps W} := {
  trace : W -> list event;
  trace_getc s w : trace (k_getc s w).2 = trace w;
  trace_fork w r w' : k_fork w = (r, w') ->
    trace w' = trace w ++ [Fork (match r with SysOk pid => Some pid | SysErr _ => None end)] /\
    (forall pid, r = SysOk pid -> 0 <= pid);
  trace_waitpid pid w r w' : k_waitpid pid w = (r, w') ->
    trace w' = trace w ++
      [Waited pid (match r with SysOk _ => true | SysErr _ => false end) (input w' stdin)];
  trace_execvp file argv w : trace (k_execvp file argv w).2 = trace w ++ [Exec file argv];
}.

Section Sessions.
Context {W : Type} `{ShellSpec W} `{CLib}.
Implicit Types p : proc W.

Lemma returns_getline fuel line (Q : option (bytes * bool) -> proc W -> Prop) p :
  (length (input (kern p) stdin) < fuel)%nat ->
  (forall l p', trace (kern p') = trace (kern p) -> NL ∉ l ->
     input (kern p) stdin = l ++ NL :: input (kern p') stdin -> Q (Some (line ++ l, false)) p') ->
  (forall p', trace (kern p') = trace (kern p) -> input (kern p') stdin = [] ->
     NL ∉ input (kern p) stdin -> line ++ input (kern p) stdin <> [] ->
     Q (Some (line ++ input (kern p) stdin, true)) p') ->
  (forall p', trace (kern p') = trace (kern p) ->
     line = [] -> input (kern p) stdin = [] -> Q None p') ->
  returns (getline fuel line) Q p.
Proof.
  revert line p. induction fuel as [|fuel IH]; intros line p Hf HA HB HC; [lia|]. cbn [getline].
  mstep. apply returns_getc.
  - intros c p1 E Hr. apply (reads_keeps trace) in Hr as Ht; [|apply trace_getc].
    rewrite E in *. cbn [length] in *. destruct (Z.eqb_spec c NL) as [->|Hc].
    + mstep. rewrite <- (app_nil_r line). by apply HA; [|apply not_elem_of_nil|].
    + apply IH; [lia|..].
      * intros l p2 Ht2 Hl E2. rewrite <- app_assoc. apply HA; [congruence| |by rewrite E2].
        simpl. rewrite not_elem_of_cons. split; congruence || done.
      * intros p2 Ht2 E2 Hl _. rewrite <- app_assoc in *. apply HB; [congruence|done| |by destruct line].
        rewrite not_elem_of_cons. split; congruence || done.
      * intros p2 _ E0. by destruct line.
  - intros p1 E E1 Hr _. apply (reads_keeps trace) in Hr as Ht; [|apply trace_getc].
    rewrite E in *. mstep. destruct line as [|c line]; simpl; [by apply HC|].
    rewrite <- (app_nil_r (c :: line)) at 1. by apply HB; [|..|apply not_elem_of_nil|].
Qed.

(** A command: the parent goes on after the child it waited for, and every other way ends the
    session as the rules say. *)
Lemma run_command_wp line rest p :
  line <> [] ->
  wp (run_command line) (fun o p' => exists ev r,
    trace (kern p') = trace (kern p) ++ ev /\ ran rest line ev r /\
    match o with
    | Ret _ => r = inl (input (kern p') stdin) /\
        exists w1 pid r1 r2, k_fork (kern p) = (r1, w1) /\ k_waitpid pid w1 = (r2, kern p')
    | _ => r = inr (outcome_cast o NoFuel)
    end) p.
Proof.
  intros Hl. unfold run_command. apply wp_bind_ret, returns_syscall_int; intros pid w1 E;
    pose proof E as E0; apply trace_fork in E as (Et & Hp).
  - specialize (Hp _ eq_refl). rewrite (proj2 (Z.ltb_ge _ _)) by lia.
    pose proof (args_storage_words line) as Hws.
    destruct (Z.eqb_spec pid 0) as [->|Hne].
    + apply wp_bind. unfold shell_child, argv_c. destruct (args_storage line) as [|file args]; simpl.
      * red; simpl. eexists _, _. split_and!; [done|by apply r_blank|done].
      * apply wp_bind. red. simpl.
        pose proof (trace_execvp file (Some file :: (Some <$> args) ++ [None]) w1) as Hex.
        destruct (k_execvp _ _ w1) as [e w2] eqn:E2. simpl in *.
        apply wp_err_sys. eexists _, _. split_and!; [by simpl; rewrite Hex, Et, <- app_assoc| |done].
        by apply r_child.
    + apply wp_bind_ret. mstep. apply wp_bind_ret, returns_syscall; intros r w2 E2;
        apply trace_waitpid in E2 as Et2; simpl in *; destruct r; simpl in *; wstep.
      * eexists _, _. split; [by simpl; rewrite Et2, Et, <- app_assoc|]. split; [apply r_command; [done|lia]|].
        split; [done|]. exists w1, pid. eauto.
      * eexists _, _. split_and!; [by simpl; rewrite Et2, Et, <- app_assoc| |done].
        apply r_no_wait; [done|lia].
  - simpl. apply wp_bind. wstep. eexists _, _. split_and!; [done|by apply r_no_fork|done].
Qed.

(** C29: however the calls end, the command loop of [1/8] runs exactly the commands of its lines, in
    order and one at a time: the system calls it makes are a session of its input -- for each line
    that is not empty one child, which executes the words of the line (the runs of characters that
    are not white space, with a null pointer after the last), and which the shell waits for before
    it reads on, from the input the child left.  The loop always ends, provided that no child
    leaves more input than it found (it may consume some, since it shares the shell's standard
    input). *)
Theorem shell_runs_lines fuel p :
  (length (input (kern p) stdin) + 1 < fuel)%nat ->
  (forall w r1 w1 pid r2 w2, k_fork w = (r1, w1) -> k_waitpid pid w1 = (r2, w2) ->
     (length (input w2 stdin) <= length (input w stdin))%nat) ->
  wp (shell_loop fuel false) (fun o p' => exists ev,
    trace (kern p') = trace (kern p) ++ ev /\ session (input (kern p) stdin) ev o) p.
Proof.
  intros Hf Hkids. revert p Hf. induction fuel as [|fuel IH]; intros p Hf; [lia|].
  cbn [shell_loop]. remember (S fuel) as f eqn:Ef. apply wp_bind_ret, returns_getline; [lia|..].
  - intros l p1 Et Hnl El. rewrite El in *. rewrite length_app in Hf. simpl in Hf.
    apply wp_bind_ret. mstep. simpl. destruct l as [|c l]; cbn [empty].
    + apply wp_bind_ret. mstep. eapply wp_mono; [apply IH; simpl; lia|]. simpl.
      intros o p2 (ev & Hev & Hs). exists ev. rewrite Hev, Et. split; [done|].
      by eapply (s_line [] _ []); [|constructor|].
    + apply wp_bind. eapply wp_mono; [by apply (run_command_wp _ (input (kern p1) stdin))|].
      intros o p2 (ev & r & Ht & Hr & Ho). simpl in Ht. rewrite Et in Ht. destruct o as [[]| | | |].
      2-5: rewrite Ho in Hr; exists ev; split; [done|by apply s_stop].
      destruct Ho as (-> & w1 & pid & r1 & r2 & E1 & E2). pose proof (Hkids _ _ _ _ _ _ E1 E2) as Hk.
      simpl in Hk. eapply wp_mono; [apply IH; lia|]. intros o p3 (ev2 & Hev & Hs).
      exists (ev ++ ev2). split; [by rewrite Hev, Ht, <- app_assoc|]. by eapply s_line.
  - intros p1 Et _ Hnl Hne. simpl in *. remember (input (kern p) stdin) as l eqn:El.
    apply wp_bind_ret. mstep. simpl. destruct l as [|c l]; [done|].
    cbn [empty]. apply wp_bind. eapply wp_mono; [by apply (run_command_wp _ [])|].
    intros o p2 (ev & r & Ht & Hr & Ho). simpl in Ht. rewrite Et in Ht. destruct o as [[]| | | |].
    2-5: rewrite Ho in Hr; exists ev; split; [done|by apply s_last_stop].
    destruct Ho as (-> & _). destruct fuel as [|fuel]; [simpl in Hf; lia|]. cbn [shell_loop]. wstep.
    exists ev. split; [done|by eapply s_last].
  - intros p1 Et _ El. rewrite El. wstep. exists []. rewrite app_nil_r, Et. split; [done|constructor].
Qed.

End Sessions.

(** ** An instance: commands that always succeed *)

Record shellsim := ShellSim { sh_streams : streams; sh_trace : list event; sh_next : nat }.

#[export] Instance shellsim_stdio : StdioOps shellsim := {
  k_getc s w := let '(c, v) := k_getc s (sh_streams w) in (c, ShellSim v (sh_trace w) (sh_next w));
  k_ferror s w := k_ferror s (sh_streams w);
  k_fwrite s d w := let '(ok, v) := k_fwrite s d (sh_streams w) in (ok, ShellSim v (sh_trace w) (sh_next w));
  k_fflush s w := w;
}.

#[export] Instance shellsim_wait : WaitOps shellsim := {
  k_fork w := (SysOk (Z.of_nat (S (sh_next w))),
    ShellSim (sh_streams w) (sh_trace w ++ [Fork (Some (Z.of_nat (S (sh_next w))))]) (S (sh_next w)));
  k_waitpid pid w := (SysOk 0,
    ShellSim (sh_streams w) (sh_trace w ++ [Waited pid true (input (sh_streams w) stdin)]) (sh_next w));
  k_execl _ w := (2, w);
}.

#[export] Instance shellsim_shell : ShellOps shellsim := {
  k_signal_int w := (SysOk tt, w);
  k_execvp file argv w := (2, ShellSim (sh_streams w) (sh_trace w ++ [Exec file argv]) (sh_next w));
}.

#[export, refine] Instance shellsim_stdio_spec : StdioSpec shellsim := {
  input w := input (sh_streams w);
  breaks w := breaks (sh_streams w);
  written w := written (sh_streams w);
}.
Proof.
  - intros s [v t n] c w' E. simpl in E. destruct (match st_input v s with [] => _ | _ => _ end) as [c' v'] eqn:Ev.
    simplify_eq. by apply (getc_law s v c v').
  - intros s d [v t n] ok w' E. simpl in E. simplify_eq. by apply (fwrite_law s d v true).
  - done.
Defined.

#[export, refine] Instance shellsim_spec : ShellSpec shellsim := { trace := sh_trace }.
Proof.
  - intros s [v t n]. simpl. by destruct (match st_input v s with [] => _ | _ => _ end).
  - intros w r w' [= <- <-]. split; [done|]. intros pid [= <-]. lia.
  - by intros pid w r w' [= <- <-].
  - done.
Defined.

Definition shell0 : proc shellsim :=
  Proc 0 true [] (ShellSim (Streams {[stdin := str "ls -l" ++ [NL; NL] ++ str "date"]} ∅ false) [] 0).

(** Two children, for the first and the third line. *)
Lemma shell_runs_lines_witness :
  wp (shell_loop 20 false) (fun o p' => exists ev, trace (kern p') = trace (kern shell0) ++ ev /\
    session (str "ls -l" ++ [NL; NL] ++ str "date") ev o) shell0 /\
  trace (kern (shell_loop 20 false shell0).2)
  = [Fork (Some 1); Waited 1 true ([NL] ++ str "date"); Fork (Some 2); Waited 2 true []] /\
  words (str "ls -l") [str "ls"; str "-l"].
Proof.
  split; [|split; [vm_compute; reflexivity|exact (args_storage_words (str "ls -l"))]].
  assert (Hf : (length (input (kern shell0) stdin) + 1 < 20)%nat) by (apply Nat.ltb_lt; vm_compute; reflexivity).
  refine (shell_runs_lines 20 shell0 Hf _).
  intros w r1 w1 pid r2 w2 [= <- <-] [= <- <-]. reflexivity.
Defined.
