(* ===== verification/Accounting.v ===== *)
(** * Process accounting records: [8/17_usage_acct.cpp]

    The program prints the records of an accounting file.  The layout of [struct acct] belongs to
    the system headers: its size, the size of its name field and the decoding of its bytes are
    parameters.  Of the variants the macros select, this is the one of the repository's build, in
    which none of them is defined: [ACORE] and [AXSIG] are then zero. *)

From S2P Require Import Prelude Machine Errors Kernel SimKernel Text.
From S2P Require Import Limits Stdio Filters.

(** [while (exp-- > 0) val *= 8;], on an [unsigned long]. *)
Fixpoint scale8 (exp : nat) (val : Z) : Z :=
  match exp with
  | O => val
  | S exp => scale8 exp (to_size_t (val * 8))
  end.

Definition compt2ulong (comptime : Z) : Z :=
  let val := Z.land comptime 0x1fff in
  let exp := Z.land (Z.shiftr comptime 13) 7 in
  scale8 (Z.to_nat exp) val.

Record acct := Acct { ac_comm : bytes; ac_etime : Z; ac_io : Z; ac_flag : Z }.

Definition AFORK : Z := 1.
Definition ASU : Z := 2.
Definition ACORE : Z := 0.
Definition AXSIG : Z := 0.

(** [%6ld] and [%7ld]. *)
Definition pad_left (w : nat) (s : bytes) : bytes := replicate (w - length s) 32 ++ s.

Definition flag_char (flag bit : Z) (c : bytes) : bytes := if Z.land flag bit =? 0 then str " " else c.

(** A line: [%ld] prints an [unsigned long] as a [long]; [%-*.*s] cuts the name at the size of its field and pads it to this size. *)
Definition record_line (comm_size : nat) (a : acct) : bytes :=
  pad_right comm_size (take comm_size (c_string (ac_comm a))) ++
  str " e = " ++ pad_left 6 (to_string (to_long (compt2ulong (ac_etime a)))) ++
  str ", chars = " ++ pad_left 7 (to_string (to_long (compt2ulong (ac_io a)))) ++
  str ", " ++ flag_char (ac_flag a) ACORE (str "D") ++
  str " " ++ flag_char (ac_flag a) AXSIG (str "X") ++
  str " " ++ flag_char (ac_flag a) AFORK (str "F") ++
  str " " ++ flag_char (ac_flag a) ASU (str "S") ++ [NL].

Section Program.
Context {W : Type} `{StdioOps W} `{FilterOps W} `{CLib}.
Context (sizeof_acct comm_size : nat) (decode : bytes -> acct).

(** [fread(&acdata, sizeof(acdata), 1, fp)]: the bytes, when there are enough. *)
Fixpoint fread (n : nat) (fp : Z) (buf : bytes) : M W (option bytes) :=
  match n with
  | O => mret (Some buf)
  | S n =>
      c ← getc fp;
      match c with
      | None => mret None
      | Some c => fread n fp (buf ++ [c])
      end
  end.

Fixpoint acct_loop (fuel : nat) (fp : Z) : M W unit :=
  match fuel with
  | O => out_of_fuel
  | S fuel =>
      r ← fread sizeof_acct fp [];
      match r with
      | None => mret tt
      | Some data => print (record_line comm_size (decode data)) ;; acct_loop fuel fp
      end
  end.

Definition acct_main (fuel : nat) (argv : list bytes) : M W Z :=
  match argv with
  | [_; file] =>
      r ← syscall (k_fopen file);
      match r with
      | SysErr _ => err_sys (str "call fopen for {}") [file]
      | SysOk fp =>
          acct_loop fuel fp ;;
          e ← ferror fp;
          if e : bool then err_sys (str "call read") [] else mret 0
      end
  | _ => err_quit (str "Usage {} <file_name>") [hd [] argv]
  end.

End Program.

(** ** The numbers *)

Lemma scale8_exact exp val :
  0 <= val -> val * 8 ^ Z.of_nat exp < 2 ^ 64 -> scale8 exp val = val * 8 ^ Z.of_nat exp.
Proof.
  revert val. induction exp as [|exp IH]; intros val Hv Hb; [simpl; lia|].
  rewrite Nat2Z.inj_succ, Z.pow_succ_r in * by lia. cbn [scale8]. unfold to_size_t, wrap_unsigned.
  pose proof (Z.pow_pos_nonneg 8 (Z.of_nat exp) ltac:(lia) ltac:(lia)) as Hp.
  rewrite Z.mod_small by nia. rewrite IH by nia. lia.
Qed.

(** C34: [compt2ulong] decodes every 16-bit [comp_t] exactly, a 13-bit number times 8 to a power of
    at most 7: nothing overflows, and the result is at most 17177772032, so that printing it with
    [%ld] as a [long] shows the number itself. *)
Theorem compt2ulong_bounds c :
  0 <= c < 2 ^ 16 ->
  compt2ulong c = c mod 2 ^ 13 * 8 ^ (c / 2 ^ 13) /\
  0 <= compt2ulong c <= 17177772032 /\ to_long (compt2ulong c) = compt2ulong c.
Proof.
  intros Hc.
  assert (He : 0 <= c / 2 ^ 13 <= 7).
  { split; [apply Z.div_pos; lia|]. apply Z.lt_succ_r, Z.div_lt_upper_bound; lia. }
  assert (Hm : 0 <= c mod 2 ^ 13 <= 8191) by (pose proof (Z.mod_pos_bound c (2 ^ 13)); lia).
  pose proof (Z.pow_le_mono_r 8 (c / 2 ^ 13) 7 ltac:(lia) ltac:(lia)) as Hp.
  change (8 ^ 7) with 2097152 in Hp.
  assert (Hv : 0 <= c mod 2 ^ 13 * 8 ^ (c / 2 ^ 13) <= 17177772032) by nia.
  assert (E : compt2ulong c = c mod 2 ^ 13 * 8 ^ (c / 2 ^ 13)).
  { unfold compt2ulong. change 0x1fff with (Z.ones 13). change 7 with (Z.ones 3).
    rewrite !Z.land_ones, Z.shiftr_div_pow2 by lia.
    rewrite (Z.mod_small (c / 2 ^ 13)) by (change (2 ^ 3) with 8; lia).
    rewrite scale8_exact; rewrite ?Z2Nat.id; lia. }
  rewrite E. split_and!; [done|lia|lia|]. apply to_long_small. lia.
Qed.

Lemma compt2ulong_bounds_witness : compt2ulong 65535 = 17177772032.
Proof.
  destruct (compt2ulong_bounds 65535 ltac:(lia)) as [E _]. rewrite E. reflexivity.
Defined.

(** ** The listing *)

Section Facts.
Context {W : Type} `{SS : StdioSpec W} `{FilterOps W} `{CLib}.
Context (sizeof_acct comm_size : nat) (decode : bytes -> acct).
Hypothesis size_pos : (0 < sizeof_acct)%nat.
Implicit Types p : proc W.

Lemma returns_fread n fp buf (Q : option bytes -> proc W -> Prop) p :
  (forall p', (n <= length (input (kern p) fp))%nat ->
     input (kern p') fp = drop n (input (kern p) fp) -> reads fp p p' ->
     Q (Some (buf ++ take n (input (kern p) fp))) p') ->
  (forall p', (length (input (kern p) fp) < n)%nat -> reads fp p p' ->
     k_ferror fp (kern p') = breaks (kern p) fp -> Q None p') ->
  returns (fread n fp buf) Q p.
Proof.
  revert buf p. induction n as [|n IH]; intros buf p HS HN; cbn [fread].
  - mstep. specialize (HS p ltac:(lia) eq_refl (reads_refl fp p)). by rewrite app_nil_r in HS.
  - mstep. apply returns_getc.
    + intros c p1 E Hr. rewrite E in *. cbn [length take drop] in *. apply IH.
      * intros p2 Hl Ei Hr2. rewrite <- app_assoc. apply HS; [lia|done|by eapply reads_trans].
      * intros p2 Hl Hr2 He. rewrite (rd_breaks _ _ _ Hr) in He.
        apply HN; [lia|by eapply reads_trans|done].
    + intros p1 E _ Hr He. rewrite E in *. mstep. apply HN; [simpl; lia|done..].
Qed.

(** The complete records of a file. *)
Fixpoint records (fuel : nat) (file : bytes) : list bytes :=
  match fuel with
  | O => []
  | S fuel => if (sizeof_acct <=? length file)%nat
              then take sizeof_acct file :: records fuel (drop sizeof_acct file) else []
  end.

(** The loop prints one line per complete record, in order; an incomplete record at the end is
    not printed. *)
Lemma acct_loop_prints fuel fp p :
  (length (input (kern p) fp) < fuel)%nat ->
  returns (acct_loop sizeof_acct comm_size decode fuel fp) (fun _ p' =>
    console p' = console p ++
      ((fun d => Stdout (record_line comm_size (decode d))) <$> records fuel (input (kern p) fp)) /\
    k_ferror fp (kern p') = breaks (kern p) fp) p.
Proof.
  revert p. induction fuel as [|fuel IH]; intros p Hf; [lia|]. cbn [acct_loop records]. mstep.
  apply returns_fread.
  - intros p1 Hl Ei Hr. rewrite (proj2 (Nat.leb_le _ _)) by done. do 2 mstep.
    eapply returns_mono; [apply IH; simpl; rewrite Ei, length_drop; lia|]. simpl.
    intros _ p2 [-> ->]. rewrite Ei, (rd_breaks _ _ _ Hr), (rd_console _ _ _ Hr), <- app_assoc. done.
  - intros p1 Hl Hr He. rewrite (proj2 (Nat.leb_gt _ _)) by done. mstep.
    rewrite (rd_console _ _ _ Hr), app_nil_r. done.
Qed.

End Facts.

(** With the build's macros the flags for a core dump and for a signal are never shown. *)
Lemma dump_flag_hidden comm_size a b :
  ac_comm a = ac_comm b -> ac_etime a = ac_etime b -> ac_io a = ac_io b ->
  Z.land (ac_flag a) 3 = Z.land (ac_flag b) 3 -> record_line comm_size a = record_line comm_size b.
Proof.
  intros E1 E2 E3 E4. unfold record_line, flag_char. rewrite E1, E2, E3.
  assert (Hb : forall bit f, bit = 1 \/ bit = 2 -> Z.land f bit = Z.land (Z.land f 3) bit).
  { intros bit f [->| ->]; by rewrite <- Z.land_assoc. }
  rewrite (Hb AFORK (ac_flag a)), (Hb AFORK (ac_flag b)), (Hb ASU (ac_flag a)), (Hb ASU (ac_flag b)), E4 by (by auto).
  unfold ACORE, AXSIG. by rewrite !Z.land_0_r.
Qed.
