(* ===== verification/Sleeping.v ===== *)
(** * Waiting for a signal: [10/4], [10/5] and [10/16]

    [Sleep]: [sleep1] of [10/4_custom_sleep1.cpp], whose handler of SIGALRM returns, and [sleep2]
    of [10/5_custom_sleep2.cpp], whose handler jumps out of the wait; the program of [10/5] also
    handles SIGINT.  [Suspend]: the loop around [sigsuspend] of [10/16_usage_sigsuspend.cpp].
    Signals arrive between any two calls of the program, so each is a step relation. *)

From S2P Require Import Prelude.

Module Sleep.

(** Where the program is: before [alarm(seconds)] ([signal] and [setjmp] are done), between it
    and [pause], in [pause], after it, and returned with the seconds that were left. *)
Inductive pc := Arm | Before | InPause | After | Done (unslept : nat).

#[export] Instance pc_eq_dec : EqDecision pc.
Proof. solve_decision. Defined.

Record state := State {
  at_ : pc;
  alarm : nat;             (* seconds left, 0: no alarm *)
  in_int : bool;           (* [sig_int] is running, on top of the program *)
}.

(** [jumps]: the handler of SIGALRM leaves with [longjmp] (sleep2), to the point after [pause],
    abandoning [sig_int] when this is running; otherwise it returns (sleep1), which only a
    [pause] that has begun notices. *)
Definition fire (jumps : bool) (s : state) : state :=
  if jumps then State After 0 false
  else State (if decide (at_ s = InPause) then After else at_ s) 0 (in_int s).

(** One second of the alarm clock: it counts down, and at the end SIGALRM is delivered. *)
Inductive clock_step (jumps : bool) : state -> state -> Prop :=
| c_tick s n : alarm s = S (S n) -> clock_step jumps s (State (at_ s) (S n) (in_int s))
| c_fire s : alarm s = 1%nat -> clock_step jumps s (fire jumps s).

(** Steps of the program. *)
Inductive prog_step (seconds : nat) : state -> state -> Prop :=
| q_arm s : at_ s = Arm -> in_int s = false -> prog_step seconds s (State Before seconds false)
| q_pause s : at_ s = Before -> in_int s = false ->
    prog_step seconds s (State InPause (alarm s) false)
| q_int_end s : in_int s = true -> prog_step seconds s (State (at_ s) (alarm s) false)
| q_return s : at_ s = After -> in_int s = false ->
    prog_step seconds s (State (Done (alarm s)) 0 false).

Inductive quiet_step (jumps : bool) (seconds : nat) : state -> state -> Prop :=
| q_prog s s' : prog_step seconds s s' -> quiet_step jumps seconds s s'
| q_clock s s' : clock_step jumps s s' -> quiet_step jumps seconds s s'.

(** SIGINT arrives: [pause] will return after the handler.  A SIGALRM that is not the program's
    own alarm does not arrive. *)
Inductive int_step : state -> state -> Prop :=
| s_int s : in_int s = false -> (forall u, at_ s <> Done u) ->
    int_step s (State (if decide (at_ s = InPause) then After else at_ s) (alarm s) true).

Definition initial : state := State Arm 0 false.

(** Executions, with the seconds the clock has counted and the number of SIGINTs that came. *)
Inductive reached (jumps : bool) (seconds : nat) : nat -> nat -> state -> Prop :=
| r_start : reached jumps seconds 0 0 initial
| r_clock k i s s' : reached jumps seconds k i s -> clock_step jumps s s' ->
    reached jumps seconds (S k) i s'
| r_prog k i s s' : reached jumps seconds k i s -> prog_step seconds s s' ->
    reached jumps seconds k i s'
| r_int k i s s' : reached jumps seconds k i s -> int_step s s' -> reached jumps seconds k (S i) s'.

Definition pc_weight (c : pc) : nat :=
  match c with Arm => 4 | Before => 3 | InPause => 2 | After => 1 | Done _ => 0 end.

(** [k] is the number of seconds counted and [i] the number of SIGINTs so far. *)
Record inv (seconds k i : nat) (s : state) : Prop := {
  i_arm : at_ s = Arm -> alarm s = 0%nat /\ k = 0%nat;
  i_clock : at_ s = Before \/ at_ s = InPause \/ at_ s = After -> (k + alarm s)%nat = seconds;
  i_waits : at_ s = Before \/ at_ s = InPause -> (0 < alarm s)%nat;
  i_in : at_ s = InPause -> in_int s = false;
  i_after : at_ s = After -> i = 0%nat -> alarm s = 0%nat;
  i_done u : at_ s = Done u -> alarm s = 0%nat /\ in_int s = false /\ (k + u)%nat = seconds /\
    (i = 0%nat -> u = 0%nat);
}.

Lemma inv_clock seconds k i s s' :
  clock_step true s s' -> inv seconds k i s -> inv seconds (S k) i s'.
Proof.
  intros Hst [H1 H2 H3 H4 H5 H6]. destruct Hst as [s n E|s E]; split; simpl; try done.
  - intros Ha. destruct (H1 Ha). lia.
  - intros Ha. specialize (H2 Ha). lia.
  - lia.
  - intros Ha Hi. specialize (H5 Ha Hi). lia.
  - intros u Hu. destruct (H6 u Hu). lia.
  - intros _. destruct (at_ s) as [| | | |u] eqn:Ea; try (rewrite <- (H2 ltac:(auto)); lia).
    + destruct (H1 eq_refl). lia.
    + destruct (H6 u eq_refl). lia.
  - by intros [?|?].
Qed.

Lemma inv_prog seconds k i s s' :
  (0 < seconds)%nat -> prog_step seconds s s' -> inv seconds k i s -> inv seconds k i s'.
Proof.
  intros Hpos Hst [H1 H2 H3 H4 H5 H6].
  destruct Hst as [s E Hi|s E Hi|s E|s E Hi]; split; simpl; try done; auto.
  - intros _. destruct (H1 E). lia.
  - intros u Hu. destruct (H6 u Hu) as (? & ? & ? & ?). auto.
  - by intros [?|[?|?]].
  - by intros [?|?].
  - intros u [= <-]. split_and!; auto.
Qed.

Lemma inv_int seconds k i s s' : int_step s s' -> inv seconds k i s -> inv seconds k (S i) s'.
Proof.
  intros Hst [H1 H2 H3 H4 H5 H6]. destruct Hst as [s Hi Hd]. split; simpl; try done.
  - case_decide; [done|]. auto.
  - case_decide; auto.
  - case_decide; [intros [?|?]; done|]. auto.
  - case_decide; done.
  - intros u. case_decide; [done|]. intros E. by destruct (Hd u).
Qed.

Lemma inv_reached seconds k i s :
  (0 < seconds)%nat -> reached true seconds k i s -> inv seconds k i s.
Proof.
  intros Hpos Hr. induction Hr.
  - split; simpl; try done; [by intros [?|[?|?]]|by intros [?|?]].
  - by eapply inv_clock.
  - by eapply inv_prog.
  - by eapply inv_int.
Qed.

(** The clock counts no more seconds than it was given. *)
Lemma inv_time seconds k i s : inv seconds k i s -> (k + alarm s <= seconds)%nat.
Proof.
  intros [H1 H2 _ _ _ H6]. destruct (at_ s) as [| | | |u] eqn:Ea.
  - destruct (H1 eq_refl). lia.
  - rewrite H2 by auto. lia.
  - rewrite H2 by auto. lia.
  - rewrite H2 by auto. lia.
  - destruct (H6 u eq_refl) as (? & ? & ? & ?). lia.
Qed.

Definition measure (seconds : nat) (s : state) : nat :=
  pc_weight (at_ s) * (seconds + 3) + alarm s + (if in_int s then 1 else 0).

Lemma quiet_step_measure seconds s s' :
  (exists k i, inv seconds k i s) -> quiet_step true seconds s s' ->
  (measure seconds s' < measure seconds s)%nat.
Proof.
  intros (k & i & HI) Hq. pose proof (inv_time _ _ _ _ HI) as Ht.
  destruct HI as [H1 H2 H3 H4 H5 H6]. unfold measure.
  destruct Hq as [s s' [x E Hi|x E Hi|x E|x E Hi]|s s' [x n E|x E]]; simpl; rewrite ?E, ?Hi;
    simpl; try lia.
  destruct (at_ x) eqn:Ea; simpl; try lia.
  destruct (H6 _ eq_refl). lia.
Qed.

Lemma inv_quiet_step seconds s s' :
  (0 < seconds)%nat -> (exists k i, inv seconds k i s) -> quiet_step true seconds s s' ->
  exists k i, inv seconds k i s'.
Proof.
  intros Hpos (k & i & HI) Hq. inversion Hq as [? ? Hp|? ? Hc]; subst.
  - exists k, i. exact (inv_prog _ _ _ _ _ Hpos Hp HI).
  - exists (S k), i. exact (inv_clock _ _ _ _ _ Hc HI).
Qed.

(** C33: [sleep2] of a positive number of seconds returns within these seconds.  Whatever SIGINTs
    came so far, the clock has counted at most [seconds] since [alarm]; without further signals
    the program goes on, and ends after finitely many steps, only by returning; what it returns
    are the seconds that were left, the given ones less those counted, and 0 if no SIGINT came.
    ([sleep_zero_hangs]: for 0 seconds it never returns.) *)
Theorem sleep2_returns seconds k i s :
  (0 < seconds)%nat -> reached true seconds k i s ->
  (k <= seconds)%nat /\
  sn (quiet_step true seconds) s /\
  ((forall s', ~ quiet_step true seconds s s') ->
    exists u, at_ s = Done u /\ (k + u)%nat = seconds /\ (i = 0%nat -> u = 0%nat)).
Proof.
  intros Hpos Hr. pose proof (inv_reached seconds k i s Hpos Hr) as HI. split_and!.
  - pose proof (inv_time _ _ _ _ HI). lia.
  - apply (decreasing_sn (quiet_step true seconds) (fun s => exists k i, inv seconds k i s)
             (measure seconds)); [..|eauto].
    + intros x y Hx Hq. by eapply inv_quiet_step.
    + intros x y Hx Hq. by apply quiet_step_measure.
  - intros Hno. destruct (in_int s) eqn:Ei; [by destruct (Hno _ (q_prog _ _ _ _ (q_int_end _ s Ei)))|].
    destruct (at_ s) as [| | | |u] eqn:Ea.
    + by destruct (Hno _ (q_prog _ _ _ _ (q_arm _ s Ea Ei))).
    + by destruct (Hno _ (q_prog _ _ _ _ (q_pause _ s Ea Ei))).
    + pose proof (i_waits _ _ _ _ HI (or_intror Ea)).
      destruct (alarm s) as [|[|n]] eqn:El; [lia|..].
      * by destruct (Hno _ (q_clock _ _ _ _ (c_fire _ s El))).
      * by destruct (Hno _ (q_clock _ _ _ _ (c_tick _ s n El))).
    + by destruct (Hno _ (q_prog _ _ _ _ (q_return _ s Ea Ei))).
    + exists u. by destruct (i_done _ _ _ _ HI u Ea) as (_ & _ & ? & ?).
Qed.

(** Nothing but another signal can wake this process. *)
Definition hangs (jumps : bool) (seconds : nat) (s : state) : Prop :=
  at_ s = InPause /\ forall s', ~ quiet_step jumps seconds s s'.

Lemma hangs_without_alarm jumps seconds : hangs jumps seconds (State InPause 0 false).
Proof. split; [done|]. intros s' Hq.
  inversion Hq as [? ? Hc|? ? Hc]; subst; inversion Hc; by simplify_eq.
Qed.

Lemma ticks jumps seconds c n b :
  rtc (quiet_step jumps seconds) (State c (S n) b) (State c 1 b).
Proof. induction n as [|n IH]; [done|]. eapply rtc_l; [by apply q_clock, c_tick|done]. Qed.

(** [sleep1] may never return: the alarm goes off between [alarm] and [pause]. *)
Theorem sleep1_hangs seconds :
  (0 < seconds)%nat -> exists s, rtc (quiet_step false seconds) initial s /\ hangs false seconds s.
Proof.
  intros Hpos. destruct seconds as [|n]; [lia|]. exists (State InPause 0 false).
  split; [|apply hangs_without_alarm].
  eapply rtc_l; [by apply q_prog, q_arm|]. etrans; [apply ticks|].
  eapply rtc_l; [by apply q_clock, c_fire|]. eapply rtc_once. by apply q_prog, (q_pause _ (State Before 0 false)).
Qed.

(** Both hang when they are told to sleep for 0 seconds: [alarm(0)] sets no alarm. *)
Lemma sleep_zero_hangs jumps :
  exists s, rtc (quiet_step jumps 0) initial s /\ hangs jumps 0 s.
Proof.
  exists (State InPause 0 false). split; [|apply hangs_without_alarm].
  eapply rtc_l; [by apply q_prog, q_arm|]. eapply rtc_once. by apply q_prog, (q_pause _ (State Before 0 false)).
Qed.

(** [sleep2] abandons a handler of SIGINT that is still running when the alarm goes off. *)
Lemma sleep2_abandons_handler seconds s :
  alarm s = 1%nat -> in_int s = true -> quiet_step true seconds s (State After 0 false).
Proof. intros Ha _. by apply q_clock, (c_fire true s). Qed.

End Sleep.

Module Suspend.

(** Where [main] of [10/16] is: before SIGQUIT is blocked; at the test of the loop; in
    [sigsuspend]; after the loop; after the mask was restored. *)
Inductive pc := Setup | Test | Suspended | Leaving | Ended.

Record state := State {
  at_ : pc;
  pending : bool;          (* SIGQUIT was sent and is blocked *)
  quitflag : bool;
  interrupts : nat;        (* lines printed by the handler for SIGINT *)
}.

Definition blocked (c : pc) : bool := match c with Test | Leaving => true | _ => false end.

(** [sigsuspend] returns once a handler has run. *)
Definition wake (c : pc) : pc := match c with Suspended => Test | c => c end.

Inductive quiet_step : state -> state -> Prop :=
| q_block s : at_ s = Setup -> quiet_step s (State Test (pending s) (quitflag s) (interrupts s))
| q_suspend s : at_ s = Test -> quitflag s = false ->
    quiet_step s (State Suspended (pending s) (quitflag s) (interrupts s))
| q_deliver s : at_ s = Suspended -> pending s = true ->
    quiet_step s (State Test false true (interrupts s))
| q_leave s : at_ s = Test -> quitflag s = true ->
    quiet_step s (State Leaving (pending s) false (interrupts s))
| q_restore s : at_ s = Leaving ->
    quiet_step s (State Ended false (quitflag s || pending s) (interrupts s)).

Inductive step : state -> state -> Prop :=
| s_quiet s s' : quiet_step s s' -> step s s'
| s_quit s : at_ s <> Ended ->
    step s (if blocked (at_ s) then State (at_ s) true (quitflag s) (interrupts s)
            else State (wake (at_ s)) (pending s) true (interrupts s))
| s_int s : at_ s <> Ended ->
    step s (State (wake (at_ s)) (pending s) (quitflag s) (S (interrupts s))).

Definition initial : state := State Setup false false 0.

(** SIGQUIT was received: it is pending, was noted, or had its effect. *)
Definition quit_received (s : state) : Prop :=
  pending s = true \/ quitflag s = true \/ at_ s = Leaving \/ at_ s = Ended.

Definition measure (s : state) : nat :=
  match at_ s with
  | Setup => 5
  | Test => if quitflag s then 2 else 4
  | Suspended => 3
  | Leaving => 1
  | Ended => 0
  end.

(** In the handler's own flag: while it waits, the flag is clear. *)
Definition inv (s : state) : Prop := at_ s = Suspended -> quitflag s = false.



(** A received SIGQUIT stays received. *)
Lemma quit_received_step s s' : step s s' -> quit_received s -> quit_received s'.
Proof.
  unfold quit_received. intros Hst Hq. destruct Hst as [s s' Hs|s He|s He].
  - destruct Hs as [s E|s E F|s E F|s E F|s E]; simpl; rewrite ?E in Hq; try (by auto);
      destruct Hq as [?|[?|[?|?]]]; auto; done.
  - destruct (at_ s); simpl; auto.
  - simpl. destruct Hq as [?|[?|[E|E]]]; rewrite ?E; simpl; auto.
Qed.

End Suspend.

Section Witnesses.

(** Five seconds, interrupted after one of them: 4 seconds were not slept. *)
Lemma sleep2_returns_witness :
  (exists u, Sleep.at_ (Sleep.State (Sleep.Done 4) 0 false) = Sleep.Done u /\ (1 + u)%nat = 5%nat) /\
  sn (Sleep.quiet_step true 5) Sleep.initial.
Proof.
  split.
  - assert (Hr : Sleep.reached true 5 1 1 (Sleep.State (Sleep.Done 4) 0 false)).
    { eapply Sleep.r_prog;
        [|apply (Sleep.q_return _ (Sleep.State Sleep.After 4 false)); done].
      eapply Sleep.r_prog;
        [|apply (Sleep.q_int_end _ (Sleep.State Sleep.After 4 true)); done].
      eapply Sleep.r_int; [|by apply (Sleep.s_int (Sleep.State Sleep.InPause 4 false))].
      eapply Sleep.r_clock; [|by apply (Sleep.c_tick _ (Sleep.State Sleep.InPause 5 false) 3)].
      eapply Sleep.r_prog;
        [|apply (Sleep.q_pause _ (Sleep.State Sleep.Before 5 false)); done].
      eapply Sleep.r_prog; [|apply (Sleep.q_arm _ Sleep.initial); done].
      apply Sleep.r_start. }
    destruct (proj2 (proj2 (Sleep.sleep2_returns 5 1 1 _ ltac:(lia) Hr))) as (u & Hu & Hk & _).
    + intros s' Hq. inversion Hq as [? ? Hc|? ? Hc]; subst; inversion Hc; discriminate.
    + exists u. split; assumption.
  - exact (proj1 (proj2 (Sleep.sleep2_returns 5 0 0 Sleep.initial ltac:(lia)
                           (Sleep.r_start true 5)))).
Defined.

Lemma sleep1_hangs_witness :
  exists s, rtc (Sleep.quiet_step false 5) Sleep.initial s /\ Sleep.hangs false 5 s.
Proof. exact (Sleep.sleep1_hangs 5 ltac:(lia)). Defined.


End Witnesses.
