(* ===== verification/Races.v ===== *)
(** * Two processes that write characters: [8/6] and [8/7]

    Parent and child print a text one character at a time to the same unbuffered terminal.
    [8/6_race_for_resources.cpp] does nothing about the order;
    [8/7_prevent_race_for_resources.cpp] has the child wait for the parent's signal, with the
    functions of [lib/apue_ipc_signal.cpp]. *)

From S2P Require Import Prelude.

(** What a process still has to do: the system calls [charatatime] makes are one write per
    character, since [setbuf(stdout, NULL)] leaves no buffer. *)
Inductive action := Put (c : Z) | WaitParent | TellChild.

Definition charatatime (s : bytes) : list action := Put <$> s.

Definition child_text : bytes := str "from child process" ++ [10].
Definition parent_text : bytes := str "from parent process" ++ [10].

Record state := State {
  child : list action;
  parent : list action;
  told : bool;             (* the parent's signal has arrived; it is blocked until the wait *)
  terminal : bytes;
}.

(** The two programs after [fork]. *)
Definition race : state := State (charatatime child_text) (charatatime parent_text) false [].

Definition ordered : state :=
  State (WaitParent :: charatatime child_text) (charatatime parent_text ++ [TellChild]) false [].

Inductive step : state -> state -> Prop :=
| c_put c r s : child s = Put c :: r -> step s (State r (parent s) (told s) (terminal s ++ [c]))
| c_wait r s : child s = WaitParent :: r -> told s = true ->
    step s (State r (parent s) false (terminal s))
| p_put c r s : parent s = Put c :: r -> step s (State (child s) r (told s) (terminal s ++ [c]))
| p_tell r s : parent s = TellChild :: r -> step s (State (child s) r true (terminal s)).

Definition final (s : state) : Prop := forall s', ~ step s s'.

(** ** Without a handshake *)

(** [z] has the elements of [x] and [y], each in its order. *)
Inductive interleaving {A} : list A -> list A -> list A -> Prop :=
| il_nil : interleaving [] [] []
| il_left a x y z : interleaving x y z -> interleaving (a :: x) y (a :: z)
| il_right a x y z : interleaving x y z -> interleaving x (a :: y) (a :: z).

Lemma race_sound x y out s :
  rtc step (State (charatatime x) (charatatime y) false out) s -> final s ->
  exists z, terminal s = out ++ z /\ interleaving x y z.
Proof.
  intros Hr. remember (State (charatatime x) (charatatime y) false out) as s0 eqn:E0.
  revert x y out E0. induction Hr as [s|s0 s1 s2 Hst _ IH]; intros x y out -> Hf.
  - destruct x as [|c x]; [|exfalso; by eapply Hf, c_put].
    destruct y as [|c y]; [|exfalso; by eapply Hf, p_put].
    exists []. rewrite app_nil_r. split; [done|constructor].
  - inversion Hst as [c r s E|r s E|c r s E|r s E]; subst; simpl in *.
    + destruct x as [|a x]; [done|]. injection E as [= <- <-].
      destruct (IH x y _ eq_refl Hf) as (z & -> & Hz). exists (a :: z). rewrite <- app_assoc.
      split; [done|by constructor].
    + by destruct x.
    + destruct y as [|a y]; [done|]. injection E as [= <- <-].
      destruct (IH x y _ eq_refl Hf) as (z & -> & Hz). exists (a :: z). rewrite <- app_assoc.
      split; [done|by constructor].
    + by destruct y.
Qed.

Lemma race_complete x y z out :
  interleaving x y z ->
  rtc step (State (charatatime x) (charatatime y) false out) (State [] [] false (out ++ z)).
Proof.
  intros Hz. revert out. induction Hz as [|a x y z _ IH|a x y z _ IH]; intros out.
  - rewrite app_nil_r. done.
  - specialize (IH (out ++ [a])). rewrite <- app_assoc in IH.
    eapply rtc_l; [by apply (c_put a (charatatime x))|done].
  - specialize (IH (out ++ [a])). rewrite <- app_assoc in IH.
    eapply rtc_l; [by apply (p_put a (charatatime y))|done].
Qed.

Lemma done_final out b : final (State [] [] b out).
Proof. intros s' Hs. by inversion Hs. Qed.

(** The terminal of [8/6] shows some interleaving of the two texts, and every interleaving is
    possible. *)
Theorem race_outputs z :
  (exists s, rtc step race s /\ final s /\ terminal s = z) <-> interleaving child_text parent_text z.
Proof.
  split.
  - intros (s & Hr & Hf & <-). destruct (race_sound _ _ _ _ Hr Hf) as (z & -> & Hz). done.
  - intros Hz. eexists. split_and!; [by apply (race_complete child_text parent_text z [])|apply done_final|done].
Qed.

(** ** With the handshake *)

(** The phases of a run: the parent writes, has told the child, and the child writes. *)
Inductive inv (x y : bytes) : state -> Prop :=
| i_parent d r : y = d ++ r ->
    inv x y (State (WaitParent :: charatatime x) (charatatime r ++ [TellChild]) false d)
| i_told : inv x y (State (WaitParent :: charatatime x) [] true y)
| i_child d r : x = d ++ r -> inv x y (State (charatatime r) [] false (y ++ d)).

Lemma ordered_inv_step x y s s' : step s s' -> inv x y s -> inv x y s'.
Proof.
  intros Hst HI. destruct HI as [d r ->| |d r ->]; inversion Hst as [c r' s E|r' s E Ht|c r' s E|r' s E]; subst; simpl in *.
  - done.
  - done.
  - destruct r as [|a r]; [done|]. injection E as [= <- <-]. apply i_parent. by rewrite <- app_assoc.
  - destruct r; [|done]. injection E as [= <-]. rewrite app_nil_r. apply i_told.
  - done.
  - injection E as [= <-]. rewrite <- (app_nil_r y) at 2. by apply i_child.
  - done.
  - done.
  - destruct r as [|a r]; [done|]. injection E as [= <- <-]. rewrite <- app_assoc. apply i_child.
    by rewrite <- app_assoc.
  - by destruct r.
  - done.
  - done.
Qed.

Definition steps_left (s : state) : nat := length (child s) + length (parent s).

(** [8/7]: in every interleaving the run ends with the parent's text followed by the child's. *)
Theorem ordered_output s :
  rtc step ordered s ->
  sn step s /\ (final s -> terminal s = parent_text ++ child_text).
Proof.
  intros Hr. split.
  - apply (decreasing_sn step (fun _ => True) steps_left); [done| |done].
    intros a b _ Hab. unfold steps_left. destruct Hab as [c r s0 E|r s0 E _|c r s0 E|r s0 E];
      simpl; rewrite E; simpl; lia.
  - intros Hf. assert (HI : inv child_text parent_text s).
    { assert (H0 : inv child_text parent_text ordered) by (by apply (i_parent _ _ [])). revert H0.
      induction Hr as [|s0 s1 s2 H1 _ IH]; intros H0; [done|]. apply IH; [done|]. by eapply ordered_inv_step. }
    destruct HI as [d r Ey| |d r Ex].
    + exfalso. destruct r as [|c r]; simpl in Hf; [by eapply Hf, p_tell|by eapply Hf, p_put].
    + exfalso. by eapply Hf, c_wait.
    + simpl. destruct r as [|c r]; [by rewrite Ex, app_nil_r|].
      exfalso. by eapply Hf, c_put.
Qed.

Lemma ordered_output_witness : sn step ordered.
Proof. exact (proj1 (ordered_output ordered (rtc_refl _ _))). Defined.
