(* ===== verification/Mains.v ===== *)
(** * Main programs around the io_uring loops, and the recursive mutex of [12/2]

    [Convert]: the set-up of [14/8_convert_rot13_io_uring.cpp] before its loop (Rot13Uring.v).
    [FdDaemon]: [17/5_unix_socket_transmit_fd_daemon_server.cpp] as a whole: [daemonize]
    (Daemon.v), the listening socket (UnixSocket.v), the ring and the loop (FdServer.v).
    [Recursive]: [retry] and [main] of [12/2_recursive_mutex.cpp]. *)

From S2P Require Import Prelude Machine Errors Kernel SimKernel Text.
From S2P Require Import Rot13 Daemon Sockets Network UnixSocket FdServer.

(** [io_uring_queue_init] gives the ring a descriptor, or returns a negated error number;
    [io_uring_queue_exit] closes it.  Neither sets [errno]. *)
Class RingOps (W : Type) := {
  k_queue_init : Z -> Z -> W -> sysres Z * W;       (* entries, flags *)
  k_queue_exit : Z -> W -> unit * W;
}.

Class RingSpec (W : Type) `{FdSpec W} `{RingOps W} := {
  queue_init_fds n fl w r w' : k_queue_init n fl w = (r, w') -> fd_alloc (fds w) r (fds w');
  queue_exit_fds g w r w' : k_queue_exit g w = (r, w') -> fds w' = fds w ∖ {[g]};
}.

Section Calls.
Context {W : Type} `{RingOps W}.

(** A call that leaves [errno] alone. *)
Definition ring_call {A} (f : W -> A * W) : M W A := fun p =>
  let '(r, w) := f (kern p) in (Ret r, Proc (errno p) (log_to_stderr p) (console p) w).

Lemma returns_ring_call {A} (f : W -> A * W) (Q : A -> proc W -> Prop) p :
  (forall r w, f (kern p) = (r, w) -> Q r (Proc (errno p) (log_to_stderr p) (console p) w)) ->
  returns (ring_call f) Q p.
Proof. unfold returns, wp, ring_call. destruct (f (kern p)) as [r w]. intros HQ. by apply HQ. Qed.

End Calls.

(** ** [14/8] *)

Module Convert.

Definition IORING_SETUP_SQPOLL : Z := 2.
Definition QUEUE_DEPTH : Z := 16.

Section Convert.
Context {W : Type} `{FileOps W} `{RingOps W} `{CLib}.

(** [main] up to its loop: the two files and the ring, [None] when [ring] was never
    initialised. *)
Definition init_ring : M W (option Z) :=
  r ← ring_call (k_queue_init QUEUE_DEPTH IORING_SETUP_SQPOLL);
  match r with
  | SysErr _ =>
      emit (Stderr (str "io_uring_queue_init(IORING_SETUP_SQPOLL) failed (check sudo or ulimit -l)")) ;;
      mret None
  | SysOk _ =>
      r ← ring_call (k_queue_init QUEUE_DEPTH 0);
      match r with
      | SysErr _ => err_sys (str "io_uring_queue_init") []
      | SysOk ring => mret (Some ring)
      end
  end.

Definition open_files (argv : list bytes) : M W (Z * Z) :=
  match argv with
  | [_; infile; outfile] =>
      ifd ← open infile Sync.O_RDONLY 0;
      (if ifd <? 0 then err_sys (str "call open {}") [infile] else mret tt) ;;
      ofd ← open outfile Sync.O_RDWR_CREAT_TRUNC Sync.FILE_MODE;
      (if ofd <? 0 then err_sys (str "call create {}") [outfile] else mret tt) ;;
      mret (ifd, ofd)
  | _ => err_quit (str "Usage: {} infile outfile") [hd [] argv]
  end.

(** After the loop. *)
Definition close_files (ring ifd ofd : Z) : M W Z :=
  fsync ofd ;;
  close ifd ;;
  close ofd ;;
  ring_call (k_queue_exit ring) ;;
  mret 0.

End Convert.

Section Facts.
Context {W : Type} `{FO : FileOps W} `{FD : !FdSpec W} `{RO : RingOps W} `{RS : !RingSpec W} `{CLib}.
Implicit Types p : proc W.

(** Every way through the initialisation of the ring is wrong: when the first call fails the loop
    runs on a ring that was never initialised; when it succeeds a second ring takes its place and
    the descriptor of the first stays open. *)
Lemma init_ring_spec p :
  settles init_ring (fun r p' =>
    match r with
    | None => fds (kern p') = fds (kern p)
    | Some ring => exists lost, lost <> ring /\ lost ∉ fds (kern p) /\
        fds (kern p') = {[ring]} ∪ ({[lost]} ∪ fds (kern p))
    end) p.
Proof.
  unfold init_ring. sstep. apply settles_returns, returns_ring_call. intros r w1 E1.
  apply queue_init_fds in E1. destruct r as [lost|e]; simpl in E1.
  - destruct E1 as (_ & Hn1 & Hf1 & _). sstep. apply settles_returns, returns_ring_call.
    intros r w2 E2. apply queue_init_fds in E2. simpl in E2. destruct r as [ring|e]; [|sstep].
    destruct E2 as (_ & Hn2 & Hf2 & _). sstep. exists lost. simpl. rewrite Hf2, Hf1 in *.
    split_and!; [set_solver|done|done].
  - sstep. sstep. sstep. done.
Qed.

(** The end of the program gives back both files and the ring it used; with the ring that
    [init_ring] lost, one descriptor stays open. *)
Lemma close_files_spec ring ifd ofd p :
  (forall w, fds (k_fsync ofd w).2 = fds w) ->
  returns (close_files ring ifd ofd) (fun _ p' => fds (kern p') = fds (kern p) ∖ {[ifd; ofd; ring]}) p.
Proof.
  intros Hs. unfold close_files, fsync, close.
  assert (Hc : forall fd (Q : Z -> proc W -> Prop) q,
    (forall r q', fds (kern q') = fds (kern q) ∖ {[fd]} -> Q r q') ->
    returns (syscall_unit (k_close fd)) Q q).
  { intros fd Q q HQ. apply returns_syscall_unit; intros * E; apply close_fds in E; by apply HQ. }
  assert (Hf : forall (Q : Z -> proc W -> Prop) q,
    (forall r q', fds (kern q') = fds (kern q) -> Q r q') -> returns (syscall_unit (k_fsync ofd)) Q q).
  { intros Q q HQ. pose proof (Hs (kern q)) as F.
    apply returns_syscall_unit; intros * E; rewrite E in F; by apply HQ. }
  mstep. apply Hf. intros _ p1 F1. mstep. apply Hc. intros _ p2 F2. mstep. apply Hc. intros _ p3 F3.
  mstep. apply returns_ring_call. intros [] w E. apply queue_exit_fds in E. mstep. simpl.
  rewrite E, F3, F2, F1. set_solver.
Qed.

End Facts.
End Convert.

(** ** [17/5] *)

Module FdDaemon.

Definition queue_depth : Z := 10.

Section Prog.
Context {W : Type} `{FileOps W} `{ProcOps W} `{SockOps W} `{RingOps W} `{CLib}.
Context (pad : bytes).

(** The whole program, for the completions the kernel delivers before [io_uring_wait_cqe] fails,
    which ends the loop. *)
Definition fd_server_main (picks : list nat) : M W (Z * option Uring.ring) :=
  daemonize (str "unix socket daemon") ;;
  listen_fd ← unix_socket_serv_listen UNIX_SOCKET_CS_OPEN queue_depth;
  (if listen_fd <? 0 then err_sys (str "call unix_socket_serv_listen") [] else mret tt) ;;
  r ← ring_call (k_queue_init queue_depth 0);
  match r with
  | SysErr _ => err_sys (str "call io_uring_queue_init") []
  | SysOk ring =>
      emit (Syslog LOG_INFO (str "Started listening on: " ++ UNIX_SOCKET_CS_OPEN)) ;;
      g ← Uring.serve pad listen_fd picks Uring.initial;
      err_msg (str "call io_uring_wait_cqe") [] ;;
      close listen_fd ;;
      ring_call (k_queue_exit ring) ;;
      unlink UNIX_SOCKET_CS_OPEN ;;
      mret (0, g)
  end.

End Prog.

Section Facts.
Context {W : Type} `{FO : FileOps W} `{FD : !FdSpec W} `{PO : ProcOps W} `{PS : !ProcSpec W}.
Context `{SO : SockOps W} `{SS : !SockSpec W} `{RO : RingOps W} `{RS : !RingSpec W} `{CLib}.
Context (pad : bytes).
Implicit Types p : proc W.

Lemma settles_wp {A} (m : M W A) (Q : outcome A -> proc W -> Prop) (R : A -> proc W -> Prop) p :
  wp m Q p -> (forall o p', Q o p' -> match o with Ret a => R a p' | Exited _ => True | _ => False end) ->
  settles m R p.
Proof. intros Hm HR. unfold settles, wp in *. by apply HR in Hm. Qed.

(** The daemon of [17/5], from start to end: it ends in an error exit, or, after any sequence of
    completions, with the three descriptors of a daemon and those of the clients it was still
    reading from; listening socket and ring are closed. *)
Theorem fd_server_main_fds picks p :
  (forall fd, fd ∈ fds (kern p) -> 0 <= fd < descriptor_limit (kern p)) ->
  descriptor_limit (kern p) <= 2147483648 ->
  settles (fd_server_main pad picks) (fun r p' => exists g, r = (0, Some g) /\
    forall fd, fd ∈ fds (kern p') <-> 0 <= fd < 3 \/ fd ∈ Uring.clients (Uring.inflight g)) p.
Proof.
  intros Hfds Hlim. unfold fd_server_main. apply settles_bind.
  eapply settles_wp; [by apply daemonize_wp|].
  intros [[]| [|[]|] | | |] p1 Hp1; simpl in Hp1; try done. destruct Hp1 as [[Hstd _] _].
  sstep. eapply settles_returns, returns_mono; [apply serv_listen_spec|].
  intros lfd p2 [_ [(Hpos & _ & Hn & Hf2)|(_ & Hneg)]].
  2: { rewrite (proj2 (Z.ltb_lt _ _)) by (intuition lia). sstep. sstep. }
  rewrite (proj2 (Z.ltb_ge _ _)) by lia. sstep. sstep. sstep.
  apply settles_returns, returns_ring_call. intros r w3 E3. apply queue_init_fds in E3.
  destruct r as [ring|e]; [|sstep]. destruct E3 as (_ & Hn3 & Hf3 & _). sstep. sstep. sstep.
  apply settles_returns. eapply returns_mono.
  { apply (Uring.serve_inv pad lfd (fds w3)).
    split; simpl; [done|constructor|set_solver|]. apply leibniz_equiv. set_solver. }
  intros r p4 (g & -> & [_ _ Hbase Hf4]). sstep. sstep. sstep. unfold close.
  apply settles_returns, returns_syscall_unit; intros * E5; apply close_fds in E5; sstep;
    apply settles_returns, returns_ring_call; intros r6 w6 E6; apply queue_exit_fds in E6;
    sstep; unfold unlink; apply settles_returns, returns_syscall_unit; intros * E7;
    apply (keeps_fds_eq _ _ _ _ (unlink_fds _)) in E7; sstep; exists g; (split; [done|]);
    simpl in *; intros fd; rewrite E7, E6, E5, Hf4, Hf3, Hf2; specialize (Hstd fd);
    pose proof (Hbase lfd); pose proof (Hbase ring); set_solver.
Qed.

End Facts.
End FdDaemon.

(** ** [12/2] *)

Module Recursive.

(** What a thread does with the mutex. *)
Inductive action := Lock | Unlock | Retry.

#[export] Instance action_eq_dec : EqDecision action.
Proof. solve_decision. Defined.

Definition retry : list action := [Lock; Retry; Unlock].

(** [main] holds the mutex while [timeout] starts the thread that runs [retry], or runs it itself
    when there is no thread. *)
Definition main (threaded : bool) : list action := [Lock] ++ (if threaded then [] else retry) ++ [Unlock].

(** Threads [false] (main) and [true]; a mutex is free or held some number of times. *)
Record state := State {
  main_todo : list action;
  retry_todo : list action;
  held : option (bool * nat);
  calls : nat;                     (* lines "Retry, arg = 1" *)
}.

#[export] Instance state_eq_dec : EqDecision state.
Proof. solve_decision. Defined.

Definition lock (recursive me : bool) (h : option (bool * nat)) : option (option (bool * nat)) :=
  match h with
  | None => Some (Some (me, 1%nat))
  | Some (o, n) => if recursive && eqb o me then Some (Some (o, S n)) else None
  end.

Definition unlock (h : option (bool * nat)) : option (bool * nat) :=
  match h with
  | Some (o, S (S n)) => Some (o, S n)
  | _ => None
  end.

(** What a thread can do next: the rest of its work, the mutex, the calls. *)
Definition thread_next (recursive me : bool) (todo : list action) (h : option (bool * nat)) (n : nat) :
  list (list action * option (bool * nat) * nat) :=
  match todo with
  | [] => []
  | Lock :: r => match lock recursive me h with Some h => [(r, h, n)] | None => [] end
  | Unlock :: r => [(r, unlock h, n)]
  | Retry :: r => [(r, h, S n)]
  end.

Definition next (recursive : bool) (s : state) : list state :=
  ((fun x => State x.1.1 (retry_todo s) x.1.2 x.2) <$>
     thread_next recursive false (main_todo s) (held s) (calls s)) ++
  ((fun x => State (main_todo s) x.1.1 x.1.2 x.2) <$>
     thread_next recursive true (retry_todo s) (held s) (calls s)).

Definition initial (threaded : bool) : state :=
  State (main threaded) (if threaded then retry else []) None 0.

Definition all_states (threaded : bool) : list state := explore (next true) 6 [initial threaded].

Definition finished (s : state) : bool :=
  bool_decide (main_todo s = [] /\ retry_todo s = [] /\ held s = None /\ calls s = 1%nat).

(** With the recursive mutex the program always ends, with one call of [retry] and the mutex
    free, whether the thread could be created or [timeout] called [retry] itself. *)
Theorem recursive_mutex_ends threaded s :
  rtc (steps_to (next true)) (initial threaded) s ->
  sn (steps_to (next true)) s /\
  ((forall s', ~ steps_to (next true) s s') -> finished s = true).
Proof.
  intros Hr.
  assert (Hc : closed (next true) (initial threaded) (all_states threaded) = true)
    by (destruct threaded; vm_compute; reflexivity).
  split.
  - apply (explored_sn (next true) (initial threaded) (all_states threaded)
      (fun s => length (main_todo s) + length (retry_todo s))%nat); [done| |done].
    destruct threaded; vm_compute; reflexivity.
  - apply (explored_final (next true) (initial threaded) (all_states threaded)); [done| |done].
    destruct threaded; vm_compute; reflexivity.
Qed.

(** With an ordinary mutex the call of [retry] in [main] waits for [main] itself. *)
Lemma plain_mutex_deadlocks :
  exists s, rtc (steps_to (next false)) (initial false) s /\ main_todo s <> [] /\
    forall s', ~ steps_to (next false) s s'.
Proof.
  exists (State (retry ++ [Unlock]) [] (Some (false, 1%nat)) 0). split; [|split; [done|]].
  - apply rtc_once. unfold steps_to. vm_compute. left.
  - intros s' Hs. unfold steps_to in Hs. vm_compute in Hs. by apply elem_of_nil in Hs.
Qed.

End Recursive.
