(* ===== verification/Exits.v ===== *)
(** * Programs that do their work or exit with status 1

    Most programs of the repository check every call and end with [err_sys], [err_quit] or
    [err_exit], all of which exit with status 1, when one fails.  [completes m Q p]: [m] returns
    with [Q], or the process exits with status 1; it does not exit with another status, abort,
    throw or run out of fuel. *)

From S2P Require Import Prelude Machine Errors Kernel Limits.

Definition completes {W A} (m : M W A) (Q : A -> proc W -> Prop) (p : proc W) : Prop :=
  wp m (fun o p' => match o with Ret a => Q a p' | Exited c => c = 1 | _ => False end) p.

Section Completes.
Context {W : Type} `{CLib}.

Lemma completes_mono {A} (m : M W A) (Q R : A -> proc W -> Prop) p :
  completes m Q p -> (forall a p', Q a p' -> R a p') -> completes m R p.
Proof. unfold completes, wp. destruct (m p) as [[] p']; simpl; auto. Qed.

Lemma completes_ret {A} (a : A) (Q : A -> proc W -> Prop) p : Q a p -> completes (mret a) Q p.
Proof. done. Qed.

Lemma completes_bind {A B} (m : M W A) (f : A -> M W B) (Q : B -> proc W -> Prop) p :
  completes m (fun a p' => completes (f a) Q p') p -> completes (m ≫= f) Q p.
Proof. unfold completes, wp, mbind, M_bind. destruct (m p) as [[] p']; done. Qed.

Lemma completes_returns {A} (m : M W A) (Q : A -> proc W -> Prop) p :
  returns m Q p -> completes m Q p.
Proof. unfold completes, returns, wp. by destruct (m p) as [[] p']. Qed.

Lemma completes_err_sys {A} fmt args (Q : A -> proc W -> Prop) p : completes (err_sys fmt args) Q p.
Proof. unfold completes, wp. by rewrite err_sys_eq. Qed.

Lemma completes_err_quit {A} fmt args (Q : A -> proc W -> Prop) p : completes (err_quit fmt args) Q p.
Proof. unfold completes, wp. by rewrite err_quit_eq. Qed.

Lemma completes_err_exit {A} e fmt args (Q : A -> proc W -> Prop) p :
  completes (err_exit e fmt args) Q p.
Proof. unfold completes, wp. by rewrite err_exit_eq. Qed.

(** [if (failed) err_sys(...);] before the rest: the rest is reached when nothing failed. *)
Lemma completes_check {A} (b : bool) fmt args (m : M W A) (Q : A -> proc W -> Prop) p :
  (b = false -> completes m Q p) ->
  completes ((if b then err_sys fmt args else mret tt) ;; m) Q p.
Proof.
  intros HQ. apply completes_bind. destruct b; [apply completes_err_sys|].
  by apply completes_ret, HQ.
Qed.

(** A body and [exit(0)] after it. *)
Lemma completes_exit {A} (m : M W unit) (Q : unit -> proc W -> Prop) p :
  completes m Q p ->
  wp (m ;; sys_exit (A := A) 0) (fun o p' => (o = Exited 0 /\ Q tt p') \/ o = Exited 1) p.
Proof.
  unfold completes, wp, mbind, M_bind. destruct (m p) as [[[]| | | |] p']; simpl; [by left| |done..].
  intros ->. by right.
Qed.

End Completes.

(** One step of a proof about a computation that completes. *)
Ltac cstep :=
  match goal with
  | |- completes (mret _) _ _ => apply completes_ret
  | |- completes ((if _ then err_sys _ _ else mret tt) ≫= _) _ _ => apply completes_check; intros
  | |- completes (_ ≫= _) _ _ => apply completes_bind
  | |- completes (err_sys _ _) _ _ => apply completes_err_sys
  | |- completes (err_quit _ _) _ _ => apply completes_err_quit
  | |- completes (err_exit _ _ _) _ _ => apply completes_err_exit
  | |- completes _ _ _ => apply completes_returns; mstep
  end.
