(* ===== verification/Masks.v ===== *)
(** * Signal masks and handlers: [10/1], [10/11], [10/14], [10/15], [10/22]

    Programs that show which signals are blocked where.  A handler runs with its signal added to
    the mask, which is put back when it returns; [sigsuspend] puts another mask in place for as
    long as it waits; [siglongjmp] puts back the mask [sigsetjmp] saved.  Which signals arrive, and
    when, is an argument of the programs. *)

From S2P Require Import Prelude Machine Errors Kernel SimKernel Text FileIO.
From S2P Require Import Handshake Limits Exits.
Import Signals.

Definition SIGINT : Z := 2.
Definition SIGQUIT : Z := 3.
Definition SIGTSTP : Z := 20.
Definition EINTR : Z := 4.

(** The kernel changes the mask on the delivery of a signal and on the return from a handler;
    the result is the mask before. *)
Class MaskOps (W : Type) := { k_remask : (gset Z -> gset Z) -> W -> gset Z * W }.

Class MaskSpec (W : Type) `{SigSpec W} `{MaskOps W} := {
  remask_law f w old w' : k_remask f w = (old, w') ->
    old = mask_of w /\ mask_of w' = f (mask_of w) /\ forall t, handler_of w' t = handler_of w t;
}.

Definition sys_failed {A} (r : sysres A) : bool := match r with SysOk _ => false | SysErr _ => true end.

(** The result SIG_ERR. *)
Definition sig_err (h : option handler) : bool := match h with None => true | Some _ => false end.

Section Delivery.
Context {W : Type} `{SigOps W} `{MaskOps W} `{CLib}.

Definition remask (f : gset Z -> gset Z) : M W (gset Z) := fun p =>
  let '(old, w) := k_remask f (kern p) in (Ret old, Proc (errno p) (log_to_stderr p) (console p) w).

(** The handler [body] of [signo] runs, and returns a value. *)
Definition deliver {A} (signo : Z) (body : M W A) : M W A :=
  old ← remask (fun m => {[signo]} ∪ m);
  a ← body;
  remask (fun _ => old) ;;
  mret a.

(** [sigsuspend], ended by [signo]: always -1 with EINTR. *)
Definition sigsuspend (mask : gset Z) (signo : Z) (body : M W unit) : M W Z :=
  old ← remask (fun _ => mask);
  deliver signo body ;;
  remask (fun _ => old) ;;
  set_errno EINTR ;;
  mret (-1).

(** ** [10/15] *)

Definition sig_int : M W unit := pr_mask (str "in the sig_int: ").

Definition suspend_body : M W unit :=
  pr_mask (str "in the beginning: ") ;;
  h ← apue_signal SIGINT (Func 1);
  (if sig_err h then err_sys (str "call signal(SIGINT)") [] else mret tt) ;;
  let waitmask : gset Z := {[SIGUSR1]} in
  let newmask : gset Z := {[SIGINT]} in
  r ← sigprocmask (Some (SIG_BLOCK, newmask));
  match r with
  | SysErr _ => err_sys (str "call sigprocmask(SIG_BLOCK)") []
  | SysOk oldmask =>
      pr_mask (str "inside critical code: ") ;;
      r ← sigsuspend waitmask SIGINT sig_int;
      (if negb (r =? -1) then err_sys (str "call sigsuspend") [] else mret tt) ;;
      pr_mask (str "after sigsuspend: ") ;;
      r ← sigprocmask (Some (SIG_SETMASK, oldmask));
      match r with
      | SysErr _ => err_sys (str "call sigprocmask(SIG_SETMASK)") []
      | SysOk _ => pr_mask (str "in the end: ")
      end
  end.

Definition suspend_main : M W Z := suspend_body ;; sys_exit 0.

(** ** [10/14] *)

Definition sig_alrm : M W unit := pr_mask (str "at sig_alrm: ").

(** The handler of SIGUSR1; [true] when it leaves by [siglongjmp].  The alarm it sets goes off in
    its loop, which takes longer. *)
Definition sig_usr1 (canjump : bool) : M W bool :=
  if negb canjump then mret false
  else
    pr_mask (str "at the beginning of sig_usr1: ") ;;
    deliver SIGALRM sig_alrm ;;
    pr_mask (str "at the end of sig_usr1: ") ;;
    mret true.

(** A signal whose handler may jump: the mask is put back by the return from the handler, or to
    [saved] by [siglongjmp]. *)
Definition deliver_jump (signo : Z) (saved : gset Z) (body : M W bool) : M W bool :=
  old ← remask (fun m => {[signo]} ∪ m);
  jumped ← body;
  remask (fun _ => if jumped : bool then saved else old) ;;
  mret jumped.

(** [early]: SIGUSR1 arrives once between [sigsetjmp] and the assignment to [canjump]; it then
    arrives in [pause]. *)
Definition jump_body (early : bool) : M W unit :=
  h ← apue_signal SIGUSR1 (Func 2);
  (if sig_err h then err_sys (str "call apue_signal(SIGUSR1)") [] else mret tt) ;;
  h ← apue_signal SIGALRM (Func 3);
  (if sig_err h then err_sys (str "call apue_signal(SIGALRM)") [] else mret tt) ;;
  pr_mask (str "at the beggining of main: ") ;;
  jmpbuf ← remask id;
  (if early then deliver_jump SIGUSR1 jmpbuf (sig_usr1 false) ;; mret tt else mret tt) ;;
  deliver_jump SIGUSR1 jmpbuf (sig_usr1 true) ;;
  pr_mask (str "at the end of main: ").

Definition jump_main (early : bool) : M W Z := jump_body early ;; sys_exit 0.

(** ** [10/22] *)

Definition h_sig_tstp : handler := Func 4.

(** [stop]: the process stops here and goes on after SIGCONT. *)
Definition sig_tstp (getpid : Z) : M W unit :=
  sigprocmask (Some (SIG_UNBLOCK, {[SIGTSTP]})) ;;
  apue_signal SIGTSTP SIG_DFL ;;
  syscall (k_kill getpid SIGTSTP) ;;
  apue_signal SIGTSTP h_sig_tstp ;;
  mret tt.

(** What [main] does before its loop: a disposition of SIG_IGN that a shell without job control
    left is kept. *)
Definition tstp_setup : M W unit :=
  h ← apue_signal SIGTSTP SIG_IGN;
  if decide (h = Some SIG_DFL) then apue_signal SIGTSTP h_sig_tstp ;; mret tt else mret tt.

Definition BUFFSIZE : Z := 1024.
Definition STDIN_FILENO : Z := 0.
Definition STDOUT_FILENO : Z := 1.

(** The loop of [main]: [n] of the last [read] decides about the message after it. *)
Fixpoint copy_stdin `{FileOps W} (fuel : nat) : M W Z :=
  match fuel with
  | O => out_of_fuel
  | S fuel =>
      '(n, buf) ← read STDIN_FILENO BUFFSIZE;
      if 0 <? n then
        r ← writen STDOUT_FILENO buf n;
        (if failed r then err_sys (str "call write") [] else mret tt) ;;
        copy_stdin fuel
      else mret n
  end.

Definition tstp_main `{FileOps W} (fuel : nat) : M W Z :=
  tstp_setup ;;
  n ← copy_stdin fuel;
  if n <? 0 then err_sys (str "call read") [] else mret 0.

(** ** [10/1] *)

(** [signal] of the C library. *)
Definition signal (signo : Z) (func : handler) : M W (sysres handler) :=
  syscall (k_sigaction signo func SA_RESTART).

Definition sig_usr (signo : Z) : M W unit :=
  if signo =? SIGUSR1 then println (str "taken signal SIGUSR1")
  else if signo =? SIGUSR2 then println (str "taken signal SIGUSR2")
  else err_dump (str "taken signal {}") [to_string signo].

(** The endless loop of [pause], for the signals that arrive. *)
Fixpoint usr_loop (signals : list Z) : M W unit :=
  match signals with
  | [] => mret tt
  | s :: signals => deliver s (sig_usr s) ;; usr_loop signals
  end.

Definition usr_main (signals : list Z) : M W unit :=
  h ← signal SIGUSR1 (Func 5);
  (if sys_failed h then err_sys (str "handle signal SIGUSR1") [] else mret tt) ;;
  h ← signal SIGUSR2 (Func 5);
  (if sys_failed h then err_sys (str "handle signal SIGUSR2") [] else mret tt) ;;
  usr_loop signals.

(** ** [10/11] *)

(** [signal] with SIG_DFL again, for the next SIGQUIT. *)
Definition sig_quit : M W unit :=
  println (str "handling signal SIGQUIT") ;;
  h ← signal SIGQUIT SIG_DFL;
  if sys_failed h then err_sys (str "cannot reset disposition for signal SIGQUIT") [] else mret tt.

(** A SIGQUIT that is not blocked: the default action ends the process with a core dump. *)
Definition take_quit (handler_of : W -> Z -> handler) : M W unit := fun p =>
  match handler_of (kern p) SIGQUIT with
  | Func _ => deliver SIGQUIT sig_quit p
  | SIG_IGN => (Ret tt, p)
  | SIG_DFL => sys_abort p
  end.

(** [first], [second]: SIGQUIT is sent in the first and in the second [sleep].  The first one
    stays pending until the mask is restored, unless the mask had it before. *)
Definition pending_main (handler_of : W -> Z -> handler) (first second : bool) : M W Z :=
  h ← signal SIGQUIT (Func 6);
  (if sys_failed h then err_sys (str "call signal(SIGQUIT)") [] else mret tt) ;;
  r ← sigprocmask (Some (SIG_BLOCK, {[SIGQUIT]}));
  match r with
  | SysErr _ => err_sys (str "call sigprocmask(SIG_BLOCK)") []
  | SysOk oldmask =>
      (if first then println ([NL] ++ str "signal SIGQUIT is waiting for handle") else mret tt) ;;
      r ← sigprocmask (Some (SIG_SETMASK, oldmask));
      match r with
      | SysErr _ => err_sys (str "call sigprocmask(SIG_SETMASK)") []
      | SysOk _ =>
          let open := negb (bool_decide (SIGQUIT ∈ oldmask)) in
          when (first && open) (take_quit handler_of) ;;
          println (str "signal SIGQUIT unblocked") ;;
          when (second && open) (take_quit handler_of) ;;
          mret 0
      end
  end.

End Delivery.

(** ** What the programs show *)

#[local] Arguments mask_text : simpl never.
#[local] Arguments seqZ : simpl never.

(** The line [pr_mask] prints. *)
Definition mask_line `{CLib} (text : bytes) (m : gset Z) : out :=
  Stdout ([10] ++ mask_text (seqZ 1 (NSIG - 1)) m false text ++ [10]).

Section Facts.
Context {W : Type} `{MS : MaskSpec W} `{CLib}.
Implicit Types p : proc W.

(** Reading the mask cannot fail with valid arguments. *)
Hypothesis mask_readable : forall w : W, (k_sigprocmask None w).1 = SysOk (mask_of w).

(** Everything but console and mask is as before, in the parts these programs look at. *)
Lemma returns_remask f (Q : gset Z -> proc W -> Prop) p :
  (forall w, mask_of w = f (mask_of (kern p)) ->
     (forall t, handler_of w t = handler_of (kern p) t) ->
     Q (mask_of (kern p)) (Proc (errno p) (log_to_stderr p) (console p) w)) ->
  returns (remask f) Q p.
Proof.
  intros HQ. unfold returns, wp, remask. destruct (k_remask f (kern p)) as [old w] eqn:E.
  apply remask_law in E as (-> & Hm & Hh). simpl. by apply HQ.
Qed.

Lemma returns_pr_mask text (Q : unit -> proc W -> Prop) p :
  (forall w, mask_of w = mask_of (kern p) -> (forall t, handler_of w t = handler_of (kern p) t) ->
     Q tt (Proc (errno p) (log_to_stderr p) (console p ++ [mask_line text (mask_of (kern p))]) w)) ->
  returns (pr_mask text) Q p.
Proof.
  intros HQ. unfold pr_mask, sigprocmask. do 3 mstep. apply returns_syscall. intros r w E.
  pose proof (mask_readable (kern p)) as Hr. rewrite E in Hr. simpl in Hr. subst r.
  apply sigprocmask_law in E as (Hh & _ & Hm). simpl. do 3 mstep. simpl. by apply HQ.
Qed.

Lemma returns_deliver {A} signo (body : M W A) (Q : A -> proc W -> Prop) p :
  (forall w, mask_of w = {[signo]} ∪ mask_of (kern p) ->
     (forall t, handler_of w t = handler_of (kern p) t) ->
     returns body (fun a p1 => forall w1, mask_of w1 = mask_of (kern p) ->
       (forall t, handler_of w1 t = handler_of (kern p1) t) ->
       Q a (Proc (errno p1) (log_to_stderr p1) (console p1) w1))
       (Proc (errno p) (log_to_stderr p) (console p) w)) ->
  returns (deliver signo body) Q p.
Proof.
  intros HQ. unfold deliver. mstep. apply returns_remask. intros w Hm Hh. mstep.
  eapply returns_mono; [by apply HQ|]. simpl. intros a p1 HQ1. mstep. apply returns_remask.
  intros w1 Hm1 Hh1. mstep. by apply HQ1.
Qed.

Lemma returns_sigsuspend mask signo body (Q : Z -> proc W -> Prop) p :
  (forall w, mask_of w = {[signo]} ∪ mask ->
     returns body (fun _ p1 => forall w1, mask_of w1 = mask_of (kern p) ->
       Q (-1) (Proc EINTR (log_to_stderr p1) (console p1) w1))
       (Proc (errno p) (log_to_stderr p) (console p) w)) ->
  returns (sigsuspend mask signo body) Q p.
Proof.
  intros HQ. unfold sigsuspend. mstep. apply returns_remask. intros w Hm _. mstep.
  apply returns_deliver. simpl. rewrite Hm. intros w1 Hm1 _. eapply returns_mono; [by apply HQ|].
  simpl. intros _ p1 HQ1 w2 _ _. mstep. apply returns_remask. intros w3 Hm3 _. do 3 mstep. by apply HQ1.
Qed.

Ltac mask_step :=
  lazymatch goal with
  | |- completes (apue_signal _ _) _ _ =>
      apply completes_returns; eapply returns_mono; [apply apue_signal_spec|];
      let r := fresh "h" in let q := fresh "q" in
      intros r q ([? ?] & ? & ?)
  | |- completes (pr_mask _) _ _ => apply completes_returns, returns_pr_mask; intros
  | |- completes (remask _) _ _ => apply completes_returns, returns_remask; intros
  | |- completes (syscall (k_sigprocmask _)) _ _ =>
      apply completes_returns, returns_syscall;
      let r := fresh "r" in let E := fresh "E" in
      intros r ? E; apply sigprocmask_law in E; destruct r as [?|?]; destruct E as [? E]; [destruct E as [? ?]|]
  | |- completes (sigsuspend _ _ _) _ _ => apply completes_returns, returns_sigsuspend; intros
  | |- completes (deliver _ _) _ _ => apply completes_returns, returns_deliver; intros
  | |- returns (pr_mask _) _ _ => apply returns_pr_mask; intros
  | |- forall _ : W, _ => intros
  | |- completes _ _ _ => cstep
  end; simpl in *.

(** The lines printed are those expected when the masks are. *)
Ltac finish_lines :=
  repeat match goal with E : console _ = _ |- _ => rewrite E; clear E end;
  subst; repeat match goal with E : mask_of ?w = _ |- context [mask_of ?w] => rewrite E end;
  by rewrite <- ?app_assoc.

(** The masks [10/15] shows: in the handler only what [sigsuspend] set and the signal itself, after
    it the mask of the critical section again, and at the end the mask of the start. *)
Theorem suspend_masks p :
  let m := mask_of (kern p) in
  completes suspend_body (fun _ p' => mask_of (kern p') = m /\
    console p' = console p ++
      [mask_line (str "in the beginning: ") m;
       mask_line (str "inside critical code: ") (m ∪ {[SIGINT]});
       mask_line (str "in the sig_int: ") ({[SIGINT]} ∪ {[SIGUSR1]});
       mask_line (str "after sigsuspend: ") (m ∪ {[SIGINT]});
       mask_line (str "in the end: ") m]) p.
Proof.
  intros m. unfold suspend_body, sigprocmask, sig_int. repeat mask_step.
  subst m. split; [congruence|finish_lines].
Qed.

(** The masks [10/14] shows: each handler adds its signal, and [siglongjmp] puts back the mask of
    the start, whether or not a SIGUSR1 came before [canjump] was set, which has no effect. *)
Theorem jump_masks early p :
  let m := mask_of (kern p) in
  completes (jump_body early) (fun _ p' => mask_of (kern p') = m /\
    console p' = console p ++
      [mask_line (str "at the beggining of main: ") m;
       mask_line (str "at the beginning of sig_usr1: ") ({[SIGUSR1]} ∪ m);
       mask_line (str "at sig_alrm: ") ({[SIGALRM]} ∪ ({[SIGUSR1]} ∪ m));
       mask_line (str "at the end of sig_usr1: ") ({[SIGUSR1]} ∪ m);
       mask_line (str "at the end of main: ") m]) p.
Proof.
  intros m. unfold jump_body, deliver_jump, sig_usr1, sig_alrm.
  destruct early; repeat mask_step; subst m; (split; [congruence|finish_lines]).
Qed.

(** [10/22]: the handler gives SIGTSTP its default action and unblocks it before it sends it to
    the process; afterwards the handler is installed again and, when it has returned, the mask is
    the one of before. *)
Hypothesis sigaction_ok : forall s h fl w, exists old, (k_sigaction s h fl w).1 = SysOk old.
Hypothesis sigprocmask_ok : forall a w, exists old, (k_sigprocmask a w).1 = SysOk old.

Lemma returns_apue_signal s h (Q : option handler -> proc W -> Prop) p :
  (forall q, console q = console p -> mask_of (kern q) = mask_of (kern p) ->
     (forall t, handler_of (kern q) t = if t =? s then h else handler_of (kern p) t) ->
     Q (Some (handler_of (kern p) s)) q) ->
  returns (apue_signal s h) Q p.
Proof.
  intros HQ. unfold apue_signal. mstep. apply returns_syscall. intros r w E.
  destruct (sigaction_ok s h (if s =? SIGALRM then 0 else Z.lor 0 SA_RESTART) (kern p)) as [old Ho].
  rewrite E in Ho. simpl in Ho. subst r. apply sigaction_law in E as (Hm & -> & Hh). mstep. by apply HQ.
Qed.

Lemma returns_sigprocmask a (Q : sysres (gset Z) -> proc W -> Prop) p :
  (forall w, (forall t, handler_of w t = handler_of (kern p) t) ->
     mask_of w = match a with
                 | None => mask_of (kern p)
                 | Some (SIG_BLOCK, s) => mask_of (kern p) ∪ s
                 | Some (SIG_UNBLOCK, s) => mask_of (kern p) ∖ s
                 | Some (SIG_SETMASK, s) => s
                 end ->
     Q (SysOk (mask_of (kern p))) (Proc (errno p) (log_to_stderr p) (console p) w)) ->
  returns (sigprocmask a) Q p.
Proof.
  intros HQ. unfold sigprocmask. apply returns_syscall. intros r w E.
  destruct (sigprocmask_ok a (kern p)) as [old Ho]. rewrite E in Ho. simpl in Ho. subst r.
  apply sigprocmask_law in E as (Hh & -> & Hm). by apply HQ.
Qed.

Theorem tstp_handler getpid p :
  (forall w, handler_of w SIGTSTP = SIG_DFL -> SIGTSTP ∉ mask_of w ->
     forall r w', k_kill getpid SIGTSTP w = (r, w') ->
     mask_of w' = mask_of w /\ forall t, handler_of w' t = handler_of w t) ->
  returns (deliver SIGTSTP (sig_tstp getpid)) (fun _ p' =>
    mask_of (kern p') = mask_of (kern p) /\ handler_of (kern p') SIGTSTP = h_sig_tstp /\
    forall t, t <> SIGTSTP -> handler_of (kern p') t = handler_of (kern p) t) p.
Proof.
  intros Hkill. apply returns_deliver. intros w Hm Hh. unfold sig_tstp. mstep.
  apply returns_sigprocmask. simpl. intros w1 Hh1 Hm1. mstep.
  apply returns_apue_signal. simpl. intros q2 _ Hm2 Hh2. mstep. apply returns_syscall. intros r w3 E3.
  destruct (Hkill (kern q2)) with (r := r) (w' := w3) as [Hm3 Hh3]; [by rewrite Hh2|set_solver|done|].
  mstep. apply returns_apue_signal. simpl. intros q4 _ Hm4 Hh4. mstep. intros w5 Hm5 Hh5. simpl.
  split; [done|]. rewrite Hh5, Hh4. split; [done|]. intros t Ht. rewrite Hh5, Hh4.
  rewrite (proj2 (Z.eqb_neq _ _)), Hh3, Hh2, (proj2 (Z.eqb_neq _ _)) by done. by rewrite Hh1, Hh.
Qed.

(** A SIGTSTP that was ignored at the start stays ignored; the default becomes the handler. *)
Theorem tstp_setup_spec p :
  returns tstp_setup (fun _ p' => handler_of (kern p') SIGTSTP =
    match handler_of (kern p) SIGTSTP with SIG_DFL => h_sig_tstp | _ => SIG_IGN end) p.
Proof.
  unfold tstp_setup. mstep. apply returns_apue_signal. intros q _ _ Hh.
  destruct (handler_of (kern p) SIGTSTP) eqn:E; case_decide as D; try done.
  - mstep. apply returns_apue_signal. intros q2 _ _ Hh2. mstep. by rewrite Hh2.
  - mstep. by rewrite Hh.
  - mstep. by rewrite Hh.
Qed.

Lemma returns_signal s h (Q : sysres handler -> proc W -> Prop) p :
  (forall q, console q = console p -> mask_of (kern q) = mask_of (kern p) ->
     (forall t, handler_of (kern q) t = if t =? s then h else handler_of (kern p) t) ->
     Q (SysOk (handler_of (kern p) s)) q) ->
  returns (signal s h) Q p.
Proof.
  intros HQ. unfold signal. apply returns_syscall. intros r w E.
  destruct (sigaction_ok s h SA_RESTART (kern p)) as [old Ho]. rewrite E in Ho. simpl in Ho.
  subst r. apply sigaction_law in E as (Hm & -> & Hh). by apply HQ.
Qed.

Definition handling : out := Stdout (str "handling signal SIGQUIT" ++ [NL]).

(** A handled SIGQUIT is reported, and the next one is not handled. *)
Lemma take_quit_handles f p :
  handler_of (kern p) SIGQUIT = Func f ->
  returns (take_quit handler_of) (fun _ p' => handler_of (kern p') SIGQUIT = SIG_DFL /\
    console p' = console p ++ [handling]) p.
Proof.
  intros Hf. unfold returns, wp, take_quit. rewrite Hf.
  change (returns (deliver SIGQUIT sig_quit) (fun _ p' => handler_of (kern p') SIGQUIT = SIG_DFL /\
    console p' = console p ++ [handling]) p).
  apply returns_deliver. intros w _ Hw. unfold sig_quit. do 2 mstep. mstep. apply returns_signal. simpl.
  intros q2 Hc2 _ Hh2. mstep. intros w3 _ Hh3. simpl. by rewrite Hh3, Hh2, Hc2.
Qed.

(** [10/11]: a SIGQUIT that came while it was blocked is reported, and handled when the mask is
    restored, before the next line; the handler resets the action, so that a second SIGQUIT ends
    the process.  One that comes only later is handled then. *)
Theorem pending_main_lines first second p :
  SIGQUIT ∉ mask_of (kern p) ->
  wp (pending_main handler_of first second) (fun o p' =>
    o = (if first && second then Aborted else Ret 0) /\
    console p' = console p ++
      (if first then [Stdout ([NL] ++ str "signal SIGQUIT is waiting for handle" ++ [NL]); handling] else []) ++
      [Stdout (str "signal SIGQUIT unblocked" ++ [NL])] ++
      (if negb first && second then [handling] else [])) p.
Proof.
  intros Hq. unfold pending_main. apply wp_bind_ret, returns_signal. intros q1 Hc1 Hm1 Hh1.
  apply wp_bind_ret. cbn [sys_failed]. mstep. apply wp_bind_ret, returns_sigprocmask. intros w2 Hh2 _.
  specialize (Hh1 SIGQUIT). specialize (Hh2 SIGQUIT). rewrite Hh1 in Hh2. simpl in Hh2. rewrite Hm1.
  apply wp_bind_ret. destruct first; simpl; mstep; simpl;
    (apply wp_bind_ret, returns_sigprocmask; intros w3 Hh3 _; specialize (Hh3 SIGQUIT); simpl in Hh3;
     rewrite Hh2 in Hh3; rewrite bool_decide_eq_false_2 by done; simpl; apply wp_bind_ret).
  - eapply returns_mono; [by eapply take_quit_handles|]. intros _ q4 [Hd4 Hc4]. simpl in Hc4.
    apply wp_bind_ret. mstep. destruct second; simpl; [|apply wp_bind_ret; mstep; wstep; split; [done|]].
    + unfold wp, take_quit, mbind, M_bind. simpl. rewrite Hd4. simpl. split; [done|].
      rewrite Hc4, Hc1. by rewrite <- !app_assoc.
    + simpl. rewrite Hc4, Hc1. by rewrite <- !app_assoc.
  - mstep. apply wp_bind_ret. mstep. apply wp_bind_ret. destruct second; simpl.
    + eapply returns_mono; [by eapply take_quit_handles|]. intros _ q4 [_ Hc4]. wstep.
      split; [done|]. simpl in Hc4. rewrite Hc4, Hc1. by rewrite <- !app_assoc.
    + mstep. wstep. split; [done|]. simpl. by rewrite Hc1.
Qed.

End Facts.

(** [10/22] copies its input to its output. *)
Lemma copy_stdin_copies {W} `{FS : StreamSpec W} `{CLib} I fuel (p : proc W) :
  reliable I STDIN_FILENO STDOUT_FILENO -> I (kern p) ->
  (length (inbuf (kern p) STDIN_FILENO) < fuel)%nat ->
  returns (copy_stdin fuel) (fun n p' => n = 0 /\
    outbuf (kern p') STDOUT_FILENO = outbuf (kern p) STDOUT_FILENO ++ inbuf (kern p) STDIN_FILENO) p.
Proof.
  intros Hr. revert p. induction fuel as [|fuel IH]; intros p HI Hfuel; [lia|]. cbn [copy_stdin].
  destruct (reads_succeed _ _ _ Hr BUFFSIZE (kern p) HI eq_refl) as (d & w' & E & HI').
  unfold read. do 2 mstep. mstep. rewrite E in *. simplify_eq. mstep.
  pose proof (read_law _ _ _ _ _ E ltac:(done)) as (Hd & Hin & Heof). pose proof (zlen_nonneg d).
  pose proof (read_frame _ _ _ _ _ STDOUT_FILENO E) as Hfr.
  destruct (Z.ltb_spec 0 (zlen d)) as [Hpos|Hz].
  - mstep. unfold writen. eapply returns_mono.
    { apply (writen_loop_reliable I _ STDIN_FILENO); [done|done| |lia|done|lia].
      unfold is_size_t, SIZE_MAX, BUFFSIZE in *. lia. }
    simpl. intros r p' (-> & Ho & Hi & HI2). simpl. mstep. mstep.
    eapply returns_mono; [apply IH; [done|]; rewrite Hi; rewrite Hin, length_app in Hfuel; unfold zlen in *; lia|].
    simpl. intros n p2 [-> Ho2]. split; [done|]. by rewrite Ho2, Ho, Hi, Hin, Hfr, <- app_assoc.
  - assert (d = []) as -> by (apply zlen_nil_inv; lia). mstep.
    split; [done|]. simpl in *. by rewrite Hfr, Heof, app_nil_r.
Qed.

(** ** An instance *)

#[export] Instance sigsim_mask : MaskOps sigsim := {
  k_remask f w := (ss_mask w, SigSim (ss_handlers w) (f (ss_mask w)));
}.

#[export] Instance sigsim_mask_spec : MaskSpec sigsim.
Proof. split. by intros f w old w' [= <- <-]. Qed.

Definition masks0 : proc sigsim := Proc 0 true [] (SigSim ∅ {[SIGTSTP]}).

Lemma suspend_masks_witness :
  completes suspend_body (fun _ p' => mask_of (kern p') = {[SIGTSTP]}) masks0.
Proof.
  pose proof (suspend_masks (fun _ => eq_refl) masks0) as Hs. cbv zeta in Hs.
  eapply completes_mono; [exact Hs|].
  intros _ p' [Hm _]. exact Hm.
Defined.

Lemma jump_masks_witness :
  completes (jump_body true) (fun _ p' => mask_of (kern p') = {[SIGTSTP]}) masks0.
Proof.
  pose proof (jump_masks (fun _ => eq_refl) true masks0) as Hs. cbv zeta in Hs.
  eapply completes_mono; [exact Hs|].
  intros _ p' [Hm _]. exact Hm.
Defined.
