(* ===== verification/Jumps.v ===== *)
(** * Jumps out of functions: [7/4], [7/6] and [10/7]

    [setjmp] returns a second time when [longjmp] is called.  A function that may jump returns
    [Some v] when it left by [longjmp] with the value [v], and the code around [setjmp] starts
    over with that value. *)

From S2P Require Import Prelude Machine Errors Kernel SimKernel Text FileIO.
From S2P Require Import Limits Stdio Exits.

(** ** [7/4]: an error in a parser *)

Definition TOK_ADD : Z := 5.
Definition get_token : Z := TOK_ADD.

Section Parser.
Context {W : Type} `{StdioOps W} `{CLib}.

Definition cmd_add : M W (option Z) :=
  let token := -1 in
  mret (if token <? 0 then Some 1 else None).

(** The loop over the tokens of a line. *)
Fixpoint do_line (fuel : nat) : M W (option Z) :=
  match fuel with
  | O => out_of_fuel
  | S fuel =>
      let cmd := get_token in
      if 0 <? cmd then
        j ← (if cmd =? TOK_ADD then cmd_add else mret None);
        match j with
        | Some v => mret (Some v)
        | None => do_line fuel
        end
      else mret None
  end.

Fixpoint line_loop (fuel : nat) : M W (option Z) :=
  match fuel with
  | O => out_of_fuel
  | S fuel' =>
      l ← fgets MAXLINE stdin;
      match l with
      | None => mret None
      | Some _ =>
          j ← do_line fuel;
          match j with
          | Some v => mret (Some v)
          | None => line_loop fuel'
          end
      end
  end.

(** [main] from the return of [setjmp] with [r]. *)
Fixpoint setjmp_main (fuel : nat) (r : Z) : M W Z :=
  match fuel with
  | O => out_of_fuel
  | S fuel' =>
      (if negb (r =? 0) then println (str "error") else mret tt) ;;
      j ← line_loop fuel;
      match j with
      | Some v => setjmp_main fuel' v
      | None => mret 0
      end
  end.

End Parser.

Section ParserFacts.
Context {W : Type} `{SS : StdioSpec W} `{CLib}.
Implicit Types p : proc W.

Lemma do_line_jumps fuel p : (0 < fuel)%nat -> do_line fuel p = (Ret (Some 1), p).
Proof. destruct fuel; [lia|]. done. Qed.

(** One round: the loop jumps after the first line, and ends at the end of the input. *)
Lemma returns_line_loop fuel (Q : option Z -> proc W -> Prop) p :
  (0 < fuel)%nat -> breaks (kern p) stdin = false ->
  (forall p', let l := take_line (MAXLINE - 1) (input (kern p) stdin) in
     input (kern p) stdin = l ++ input (kern p') stdin -> l <> [] -> reads stdin p p' -> Q (Some 1) p') ->
  (forall p', input (kern p) stdin = [] -> reads stdin p p' -> Q None p') ->
  returns (line_loop fuel) Q p.
Proof.
  intros Hf Hb HS HN. destruct fuel as [|fuel]; [lia|]. cbn [line_loop]. mstep. apply returns_fgets.
  - unfold MAXLINE. lia.
  - intros p1 Ei Hl Hr. mstep.
    unfold returns, wp. rewrite do_line_jumps by lia. simpl. by apply HS.
  - intros p1 _ Hr _ [Hbr|Hi]; [congruence|]. mstep. by apply HN.
Qed.

(** C39: [7/4] reports every line of its input as an error, and nothing else, and ends with the input:
    each jump gives up only the line it happened in. *)
Theorem setjmp_reports_lines fuel r p :
  breaks (kern p) stdin = false -> (length (input (kern p) stdin) < fuel)%nat ->
  returns (setjmp_main fuel r) (fun code p' => code = 0 /\
    console p' = console p ++
      replicate ((if r =? 0 then 0 else 1) + length (lines fuel (input (kern p) stdin))) (Stdout (str "error" ++ [NL]))) p.
Proof.
  revert r p. induction fuel as [|fuel IH]; intros r p Hb Hf; [lia|]. cbn [setjmp_main].
  remember (S fuel) as f eqn:Ef. mstep.
  apply (returns_mono _ (fun _ q => kern q = kern p /\
    console q = console p ++ replicate (if r =? 0 then 0 else 1) (Stdout (str "error" ++ [NL])))).
  { destruct (r =? 0); simpl; mstep; [by rewrite app_nil_r|done]. }
  intros _ q [Hk Hc]. mstep. apply returns_line_loop; [lia|by rewrite Hk|..].
  - rewrite Hk. intros p1 l Ei Hl Hr. subst l. eapply returns_mono.
    { apply IH; [by rewrite (rd_breaks _ _ _ Hr), Hk|].
      apply (f_equal length) in Ei. rewrite length_app in Ei.
      destruct (take_line (MAXLINE - 1) (input (kern p) stdin)); [done|]. simpl in Ei. lia. }
    intros code p2 [-> Hc2]. split; [done|]. rewrite Hc2, (rd_console _ _ _ Hr), Hc, <- app_assoc, <- replicate_add.
    do 2 f_equal. subst f. destruct (input (kern p) stdin) as [|c i] eqn:Einp; [done|].
    cbn [lines]. set (l := take_line (MAXLINE - 1) (c :: i)) in *. clearbody l.
    rewrite Ei, drop_app_length. simpl. lia.
  - rewrite Hk. intros p1 Ei Hr. mstep. split; [done|]. rewrite (rd_console _ _ _ Hr), Hc, Ei. subst f. simpl.
    by rewrite Nat.add_0_r.
Qed.

End ParserFacts.

Lemma setjmp_reports_lines_witness :
  returns (setjmp_main 20 0) (fun code p' => code = 0 /\ console p' = console (streams0 (str "a" ++ [NL] ++ str "b")) ++
    replicate (0 + length (lines 20 (input (kern (streams0 (str "a" ++ [NL] ++ str "b"))) stdin))) (Stdout (str "error" ++ [NL])))
    (streams0 (str "a" ++ [NL] ++ str "b")).
Proof.
  exact (setjmp_reports_lines 20 0 (streams0 (str "a" ++ [NL] ++ str "b")) eq_refl
    ltac:(apply Nat.ltb_lt; vm_compute; reflexivity)).
Defined.

(** ** [7/6]: variables after a jump *)

(** The variables at the call of [longjmp]; those in memory keep their values, [autoval] has the
    value of the time of [setjmp] when the compiler kept it in a register. *)
Record vars := Vars { globval : Z; autoval : Z; volaval : Z; statval : Z }.

Definition vars_text (v : vars) : bytes :=
  str "globval = " ++ to_string (globval v) ++ str ", autoval = " ++ to_string (autoval v) ++
  str ", volaval = " ++ to_string (volaval v) ++ str ", statval = " ++ to_string (statval v) ++ [NL].

Definition at_setjmp : vars := Vars 1 2 3 4.
Definition at_longjmp : vars := Vars 95 96 98 99.

Definition after_longjmp (in_register : bool) : vars :=
  Vars (globval at_longjmp) (autoval (if in_register then at_setjmp else at_longjmp))
    (volaval at_longjmp) (statval at_longjmp).

Definition f1 {W} (v : vars) : M W unit :=
  println (str "into function f1():") ;; print (vars_text v).

Definition volatile_main {W} (in_register : bool) : M W Z :=
  f1 at_longjmp ;;
  println (str "after longjmp:") ;;
  print (vars_text (after_longjmp in_register)) ;;
  mret 0.

(** Only the automatic variable depends on the compiler. *)
Lemma after_longjmp_values b :
  let v := after_longjmp b in
  globval v = 95 /\ volaval v = 98 /\ statval v = 99 /\ (autoval v = 2 \/ autoval v = 96).
Proof. destruct b; auto. Qed.

(** ** [10/7]: a read with a timeout *)

(** When SIGALRM arrives: not before [alarm(0)]; in [read], before there was input; or after
    [read] has returned. *)
Inductive alarm_time := Never | InRead | AfterRead.

Section Timeout.
Context {W : Type} `{FileOps W} `{CLib}.
Context (k_signal_alrm : W -> sysres unit * W).

Definition timeout_main (when : alarm_time) : M W Z :=
  r ← syscall_unit k_signal_alrm;
  (if r =? -1 then err_sys (str "call signal(SIGALRM)") [] else mret tt) ;;
  let jumped := err_quit (str "read cancelled by timeout") [] in
  match when with
  | InRead => jumped
  | _ =>
      '(n, line) ← read 0 4096;
      (if n <? 0 then err_sys (str "call read") [] else mret tt) ;;
      match when with
      | AfterRead => jumped
      | _ =>
          r ← writen 1 line n;
          (if failed r then err_quit (str "call write") [] else mret tt) ;;
          sys_exit 0
      end
  end.

End Timeout.

(** After the alarm nothing is written, although a [read] that had returned has taken its data
    from the input: they are lost. *)
Lemma timeout_after_read {W} `{FS : StreamSpec W} `{CLib} k_signal_alrm (p : proc W) :
  (forall w, exists w', k_signal_alrm w = (SysOk tt, w') /\ inbuf w' 0 = inbuf w 0 /\ outbuf w' 1 = outbuf w 1) ->
  wp (timeout_main k_signal_alrm AfterRead) (fun o p' => o = Exited 1 /\
    outbuf (kern p') 1 = outbuf (kern p) 1 /\
    exists d, inbuf (kern p) 0 = d ++ inbuf (kern p') 0) p.
Proof.
  intros Hs. destruct (Hs (kern p)) as (w1 & E1 & Hi1 & Ho1). unfold timeout_main.
  apply wp_bind_ret, returns_syscall_unit; rewrite E1; intros; simplify_eq. simpl.
  apply wp_bind_ret. mstep. apply wp_bind_ret. unfold read. mstep. apply returns_syscall. intros r w2 E2.
  pose proof (read_law _ _ _ _ _ E2 ltac:(done)) as L. pose proof (read_frame _ _ _ _ _ 1 E2) as Hfr.
  mstep. destruct r as [d|e]; simpl in *.
  - destruct L as (Hd & Hin & _). pose proof (zlen_nonneg d). rewrite (proj2 (Z.ltb_ge _ _)) by lia.
    apply wp_bind_ret. mstep. wstep. split_and!; [done|simpl; congruence|]. exists d. simpl. congruence.
  - apply wp_bind. wstep. split_and!; [done|simpl; congruence|]. exists []. simpl. congruence.
Qed.
