(* ===== verification/ExitHandlers.v ===== *)
(** * Handlers at the end of a process and of a thread; joining threads

    [AtExit]: [7/2_usage_atexit.cpp].  [Cleanup]: the thread functions of
    [11/4_usage_pthread_cleanup.cpp].  [Joins]: the programs [11/1], [11/2], [11/4] and [12/1] as
    systems of a main thread and the threads it creates. *)

From S2P Require Import Prelude Machine Errors Kernel SimKernel Text.
From S2P Require Import Limits Exits.

(** ** [7/2] *)

Module AtExit.

(** The registered handlers, the latest first; the system may refuse to register one. *)
Class AtExitOps (W : Type) := {
  k_atexit : nat -> W -> Z * W;
  registered : W -> list nat;
}.

Section Prog.
Context {W : Type} `{AtExitOps W} `{CLib}.

Definition my_exit1 : M W unit := println (str "first exit handler").
Definition my_exit2 : M W unit := println (str "second exit handler").

(** Handlers by number. *)
Definition call_handler (h : nat) : M W unit :=
  match h with 1%nat => my_exit1 | 2%nat => my_exit2 | _ => mret tt end.

Definition atexit (h : nat) : M W Z := fun p =>
  let '(e, w) := k_atexit h (kern p) in (Ret e, Proc (errno p) (log_to_stderr p) (console p) w).

(** [exit] calls the handlers, the latest first. *)
Definition run_handlers : M W unit := fun p => each call_handler (registered (kern p)) p.

Definition atexit_main : M W Z :=
  r ← atexit 2;
  (if negb (r =? 0) then err_sys (str "call atexit my_exit2") [] else mret tt) ;;
  r ← atexit 1;
  (if negb (r =? 0) then err_sys (str "call atexit my_exit1") [] else mret tt) ;;
  r ← atexit 1;
  (if negb (r =? 0) then err_sys (str "call atexit my_exit1") [] else mret tt) ;;
  println (str "main finished") ;;
  run_handlers ;;
  mret 0.

(** The handlers run in the reverse order of their registration, a handler registered twice runs
    twice. *)
Theorem atexit_order p :
  (forall h w e w', k_atexit h w = (e, w') -> e = 0 -> registered w' = h :: registered w) ->
  registered (kern p) = [] ->
  completes atexit_main (fun code p' => code = 0 /\ console p' = console p ++ (Stdout <$>
    [str "main finished" ++ [NL]; str "first exit handler" ++ [NL];
     str "first exit handler" ++ [NL]; str "second exit handler" ++ [NL]])) p.
Proof.
  intros Hreg Hnone.
  assert (Hat : forall h (Q : Z -> proc W -> Prop) q,
    (forall e w, (e = 0 -> registered w = h :: registered (kern q)) ->
       Q e (Proc (errno q) (log_to_stderr q) (console q) w)) -> completes (atexit h) Q q).
  { intros h Q q HQ. unfold completes, wp, atexit. destruct (k_atexit h (kern q)) as [e w] eqn:E.
    apply HQ. by apply (Hreg _ _ _ _ E). }
  unfold atexit_main. cstep. apply Hat. simpl. intros e1 w1 Hw1. cstep.
  cstep. apply Hat. simpl. intros e2 w2 Hw2. cstep. cstep. apply Hat. simpl. intros e3 w3 Hw3. cstep.
  do 2 cstep. cstep. apply completes_returns.
  assert (Hr : registered w3 = [1; 1; 2]%nat).
  { rewrite Hw3, Hw2, Hw1, Hnone; [done|..]; by apply Z.eqb_eq, negb_false_iff. }
  unfold run_handlers, returns, wp. simpl. rewrite Hr. simpl. split; [done|].
  by rewrite <- !app_assoc.
Qed.

End Prog.

(** A process with room for handlers. *)
#[export] Instance handler_list : AtExitOps (list nat) := {
  k_atexit h w := (0, h :: w);
  registered w := w;
}.

Lemma atexit_order_witness :
  completes atexit_main (fun code p' => code = 0 /\ console p' = [] ++ (Stdout <$>
    [str "main finished" ++ [NL]; str "first exit handler" ++ [NL];
     str "first exit handler" ++ [NL]; str "second exit handler" ++ [NL]])) (Proc 0 true [] ([] : list nat)).
Proof.
  refine (atexit_order (Proc 0 true [] ([] : list nat)) _ eq_refl).
  intros h w e w' [= <- <-] _. reflexivity.
Defined.

End AtExit.

(** ** [11/4] *)

Module Cleanup.

(** Statements of a thread function; a handler is known by its argument. *)
Inductive stmt :=
| Println (s : bytes)
| Push (arg : bytes)
| Pop (execute : bool)
| Return (code : Z)
| PthreadExit (code : Z).

Definition cleanup (arg : bytes) : bytes := str "exit: " ++ arg.

(** What the thread prints and its exit code; [pthread_exit] runs the handlers that are still
    there, the latest first, a plain return does not.  [None]: the pushes and pops do not match,
    or the function does not end. *)
Fixpoint run_thread (body : list stmt) (stack : list bytes) : option (list bytes * Z) :=
  match body with
  | [] => None
  | Println s :: r => (fun x => (s :: x.1, x.2)) <$> run_thread r stack
  | Push a :: r => run_thread r (a :: stack)
  | Pop e :: r =>
      match stack with
      | [] => None
      | a :: stack => (fun x => ((if e then [cleanup a] else []) ++ x.1, x.2)) <$> run_thread r stack
      end
  | Return code :: _ => Some ([], code)
  | PthreadExit code :: _ => Some (cleanup <$> stack, code)
  end.

Definition thr_fn1 : list stmt :=
  [Println (str "start thread 1"); Push (str "thread 1, first handler");
   Push (str "thread 1, second handler"); Println (str "thread 1, push handlers finished");
   Pop false; Pop false; Return 1].

Definition thr_fn2 : list stmt :=
  [Println (str "start thread 2"); Push (str "thread 2, first handler");
   Push (str "thread 2, second handler"); Println (str "thread 2, push handlers finished");
   Pop false; Pop false; PthreadExit 2].

(** Handlers that were pushed run in reverse at [pthread_exit]; after as many [Pop false] none is
    left to run, which is what both functions do. *)
Lemma run_pushes args r stack :
  run_thread ((Push <$> args) ++ r) stack = run_thread r (rev args ++ stack).
Proof.
  revert stack. induction args as [|a args IH]; intros stack; [done|]. simpl. rewrite IH.
  by rewrite <- app_assoc.
Qed.

Lemma run_pops n r stack :
  (n <= length stack)%nat -> run_thread (replicate n (Pop false) ++ r) stack = run_thread r (drop n stack).
Proof.
  revert stack. induction n as [|n IH]; intros stack Hn; [by rewrite drop_0|].
  destruct stack as [|a stack]; simpl in *; [lia|]. rewrite IH by lia.
  by destruct (run_thread r _) as [[]|].
Qed.

Theorem cleanup_order args code :
  run_thread ((Push <$> args) ++ [PthreadExit code]) [] = Some (cleanup <$> rev args, code) /\
  run_thread ((Push <$> args) ++ replicate (length args) (Pop false) ++ [PthreadExit code]) []
  = Some ([], code).
Proof.
  rewrite !run_pushes, app_nil_r. split; [done|].
  rewrite run_pops by (by rewrite length_rev). rewrite drop_ge by (by rewrite length_rev). done.
Qed.

Example thr_fn_runs :
  run_thread thr_fn1 [] = Some ([str "start thread 1"; str "thread 1, push handlers finished"], 1) /\
  run_thread thr_fn2 [] = Some ([str "start thread 2"; str "thread 2, push handlers finished"], 2).
Proof. split; reflexivity. Qed.

End Cleanup.

(** ** Threads that are joined *)

Module Joins.

(** What the main thread does: create a thread, wait for it, print a line, print a line that ends
    with the exit code the last [pthread_join] stored, leave. *)
Inductive act := Create (t : nat) | Join (t : nat) | Say (s : bytes) | SayTret (s : bytes) | Exit (code : Z).

#[export] Instance act_eq_dec : EqDecision act.
Proof. solve_decision. Defined.

(** The main thread and its variable [tret], the lines each thread has still to print ([None]: not
    created), the output, and the status once the process has ended. *)
Record state := State {
  main : list act;
  tret : Z;
  threads : list (option (list bytes));
  output : list bytes;
  ended : option Z;
}.

#[export] Instance state_eq_dec : EqDecision state.
Proof. solve_decision. Defined.

(** The lines a thread function prints and the code it ends with. *)
Definition body : Type := list bytes * Z.

(** A call that fails ends the process through [err_exit], and with it all threads. *)
Definition stop (code : Z) (s : state) : state := State [] (tret s) [] (output s) (Some code).

(** A [void *] is printed with its digits in base 16; the codes here are below 16. *)
Definition pointer_text (z : Z) : bytes := str "0x" ++ [if z <? 10 then 48 + z else 87 + z].

Definition main_moves (bodies : list body) (s : state) : list state :=
  match main s with
  | [] => []
  | Create t :: r =>
      [State r (tret s) (<[t := fst <$> bodies !! t]> (threads s)) (output s) (ended s); stop 1 s]
  | Join t :: r =>
      match threads s !! t, bodies !! t with
      | Some (Some []), Some (_, code) => [State r code (threads s) (output s) (ended s); stop 1 s]
      | _, _ => []
      end
  | Say x :: r => [State r (tret s) (threads s) (output s ++ [x]) (ended s)]
  | SayTret x :: r =>
      [State r (tret s) (threads s) (output s ++ [x ++ pointer_text (tret s)]) (ended s)]
  | Exit code :: _ => [stop code s]
  end.

Definition thread_moves (s : state) (t : nat) : list state :=
  match threads s !! t with
  | Some (Some (x :: r)) =>
      [State (main s) (tret s) (<[t := Some r]> (threads s)) (output s ++ [x]) (ended s)]
  | _ => []
  end.

Definition next (bodies : list body) (s : state) : list state :=
  main_moves bodies s ++ (seq 0 (length (threads s)) ≫= thread_moves s).

Definition initial (m : list act) (n : nat) : state := State m 0 (replicate n None) [] None.

Definition measure (bodies : list body) (s : state) : nat :=
  length (main s) * S (sum_list_with (fun b => length b.1) bodies) +
  sum_list_with (fun o => match o with Some l => length l | None => 0%nat end) (threads s).

(** [11/2]. *)
Definition exit_thr_fn1 : body := ([str "thread 1: exit"], 1).
Definition exit_thr_fn2 : body := ([str "thread 2: exit"], 2).
Definition exit_main : list act :=
  [Create 0; Create 1; Join 0; SayTret (str "thread 1 exit code: "); Join 1;
   SayTret (str "thread 2 exit code: "); Exit 0].
Definition exit_bodies : list body := [exit_thr_fn1; exit_thr_fn2].

(** [11/4], with what the thread functions print and return. *)
Definition thread_body (fn : list Cleanup.stmt) : body :=
  match Cleanup.run_thread fn [] with Some b => b | None => ([], 0) end.
Definition cleanup_bodies : list body :=
  [thread_body Cleanup.thr_fn1; thread_body Cleanup.thr_fn2].
Definition cleanup_main : list act :=
  [Create 0; Join 0; SayTret (str "thread 1 exit code: "); Create 1; Join 1;
   SayTret (str "thread 2 exit code: "); Exit 0].

(** [11/1], and [12/1] where the argument is a pointer to the main thread's [thread_arg]: the main
    threads sleep and do not join. *)
Definition printids (s : bytes) (pid tid : Z) : bytes :=
  s ++ str " pid " ++ to_string pid ++ str " tid " ++ to_string tid.
Definition ids_bodies (pid tid : Z) : list body := [([printids (str "new thread: ") pid tid], 0)].
Definition ids_main (pid tid : Z) : list act :=
  [Create 0; Say (printids (str "main thread: ") pid tid); Exit 0].
Definition thread_arg : Z := 42.
Definition detach_bodies : list body := [([str "Thread number: " ++ to_string thread_arg], 0)].
Definition detach_main : list act := [Create 0; Exit 0].

(** What every complete run of a program has printed. *)
Definition outputs_in (allowed : list (list bytes)) (s : state) : bool :=
  match ended s with
  | Some 0 => bool_decide (output s ∈ allowed)
  | Some 1 => true
  | _ => false
  end.

(** Checks of the finite system, by evaluation over the states [all]. *)
Definition checked (all : list state) (bodies : list body) (m : list act) (P : state -> bool) : bool :=
  closed (next bodies) (initial m (length bodies)) all &&
  forallb (fun s => forallb (fun s' => (measure bodies s' <? measure bodies s)%nat) (next bodies s)) all &&
  forallb (fun s => match next bodies s with [] => P s | _ => true end) all.

Lemma checked_sound all bodies m P s :
  checked all bodies m P = true -> rtc (steps_to (next bodies)) (initial m (length bodies)) s ->
  sn (steps_to (next bodies)) s /\
  ((forall s', ~ steps_to (next bodies) s s') -> P s = true).
Proof.
  unfold checked. intros H Hr. apply andb_true_iff in H as [H Hp]. apply andb_true_iff in H as [Hc Hm].
  split.
  - exact (explored_sn _ _ all _ s Hc Hm Hr).
  - exact (explored_final _ _ all P s Hc Hp Hr).
Qed.

Definition all_states (bodies : list body) (m : list act) : list state :=
  explore (next bodies) 12 [initial m (length bodies)].

(** [11/2] ends in every interleaving, and its output is one of three: each thread's line comes
    before its exit code, the codes come in order and are those the threads ended with. *)
Theorem exit_thread_outputs s :
  let t1 := str "thread 1: exit" in let t2 := str "thread 2: exit" in
  let c1 := str "thread 1 exit code: 0x1" in let c2 := str "thread 2 exit code: 0x2" in
  rtc (steps_to (next exit_bodies)) (initial exit_main 2) s ->
  sn (steps_to (next exit_bodies)) s /\
  ((forall s', ~ steps_to (next exit_bodies) s s') ->
   outputs_in [[t1; t2; c1; c2]; [t2; t1; c1; c2]; [t1; c1; t2; c2]] s = true).
Proof.
  intros t1 t2 c1 c2. apply (checked_sound (all_states exit_bodies exit_main) exit_bodies exit_main).
  vm_cast_no_check (eq_refl true).
Qed.

(** [11/4] prints its lines in one order only, and no handler's line. *)
Theorem cleanup_outputs s :
  rtc (steps_to (next cleanup_bodies)) (initial cleanup_main 2) s ->
  sn (steps_to (next cleanup_bodies)) s /\
  ((forall s', ~ steps_to (next cleanup_bodies) s s') ->
   outputs_in [[str "start thread 1"; str "thread 1, push handlers finished";
                str "thread 1 exit code: 0x1"; str "start thread 2";
                str "thread 2, push handlers finished"; str "thread 2 exit code: 0x2"]] s = true).
Proof.
  apply (checked_sound (all_states cleanup_bodies cleanup_main) cleanup_bodies cleanup_main).
  vm_cast_no_check (eq_refl true).
Qed.

(** Without a join the line of the thread may be missing: only the [sleep] of the main thread
    makes it likely to appear. *)
Lemma detached_line_may_be_lost :
  exists s, rtc (steps_to (next detach_bodies)) (initial detach_main 1) s /\
    ended s = Some 0 /\ output s = [].
Proof.
  exists (State [] 0 [] [] (Some 0)). split; [|done].
  apply rtc_l with (State [Exit 0] 0 [Some [str "Thread number: 42"]] [] None);
    [|apply rtc_once]; unfold steps_to; apply (bool_decide_unpack _); vm_compute; exact I.
Qed.

End Joins.
