(* ===== verification/ProcTree.v ===== *)
(** * Families of processes

    Programs that fork, as trees of system calls, and the system that runs all their processes:
    process table, exit statuses, zombies and [init], process groups and the controlling terminal,
    the handler of SIGHUP, the output that stdio buffers until a newline (on a terminal), a flush or
    [exit], and the clock that [sleep] waits for.  Every interleaving is a run.  [sleep] guarantees nothing about other
    processes: [timely] says whether they get as far as they can before a sleeper goes on. *)

From S2P Require Import Prelude Machine Errors Text.
From S2P Require Import Limits ProcThreads.

(** ** Programs *)

Inductive prog :=
| Done (flush : bool) (c : change)            (* [exit] and [return] flush, [_exit] and signals do not *)
| Say (s : bytes) (k : prog)                  (* through the buffer of standard output *)
| Write (s : bytes) (k : prog)                (* straight to the descriptor *)
| Flush (k : prog)
| Complain (s : bytes) (k : prog)             (* standard error, never buffered *)
| Sleep (n : Z) (k : prog)
| Fork (k : Z -> prog)                        (* -1, 0 in the child, the child's pid *)
| Wait (pid : Z) (k : Z -> Z -> prog)         (* -1 for any; the pid or -1, the status *)
| Waitpid (pid : Z) (k : Z -> Z -> Z -> prog) (* where a signal may interrupt it: also the error *)
| Exec (argv : list bytes) (k : prog)         (* [k]: it failed *)
| System (cmd : bytes) (k : Z -> prog)
| Getpid (k : Z -> prog)
| Getppid (k : Z -> prog)
| Getpgrp (k : Z -> prog)
| Tcgetpgrp (k : Z -> prog)
| Setsid (k : Z -> prog)
| OnHup (handler k : prog)                    (* signal(SIGHUP, handler) *)
| Return                                      (* the end of a handler *)
| Tstp (k : prog)                             (* kill(getpid(), SIGTSTP) *)
| ReadTty (k : Z -> prog).

Definition exit (code : Z) : prog := Done true (Exits code).
Definition _exit (code : Z) : prog := Done false (Exits code).
Definition ErrSys (s : bytes) : prog := Complain s (exit 1).

(** A handler [h] that interrupts a program which goes on with [k]. *)
Fixpoint interrupt (h k : prog) : prog :=
  match h with
  | Done flush c => Done flush c
  | Say s h => Say s (interrupt h k)
  | Write s h => Write s (interrupt h k)
  | Flush h => Flush (interrupt h k)
  | Complain s h => Complain s (interrupt h k)
  | Sleep n h => Sleep n (interrupt h k)
  | Fork h => Fork (fun r => interrupt (h r) k)
  | Wait pid h => Wait pid (fun r st => interrupt (h r st) k)
  | Waitpid pid h => Waitpid pid (fun r st e => interrupt (h r st e) k)
  | Exec argv h => Exec argv (interrupt h k)
  | System cmd h => System cmd (fun r => interrupt (h r) k)
  | Getpid h => Getpid (fun r => interrupt (h r) k)
  | Getppid h => Getppid (fun r => interrupt (h r) k)
  | Getpgrp h => Getpgrp (fun r => interrupt (h r) k)
  | Tcgetpgrp h => Tcgetpgrp (fun r => interrupt (h r) k)
  | Setsid h => Setsid (fun r => interrupt (h r) k)
  | OnHup h' h => OnHup h' (interrupt h k)
  | Return => k
  | Tstp h => Tstp (interrupt h k)
  | ReadTty h => ReadTty (fun r => interrupt (h r) k)
  end.

(** ** The system *)

Record attrs := Attrs {
  parent : Z;
  pgrp : Z;
  ctty : bool;           (* has the controlling terminal *)
  wake : Z;              (* sleeps until then *)
  buf : list bytes;
  on_hup : option prog;  (* the handler of SIGHUP; [None]: it ends the process *)
}.

Inductive pstat :=
| Running (a : attrs) (body : prog)
| Suspended (a : attrs) (body : prog)
| Zombie (ppid : Z) (c : change)
| Gone (c : change).

Inductive event :=
| Out (s : bytes)
| Err (s : bytes)
| Ran (argv : list bytes)                         (* a successful [exec] *)
| Shell (cmd : bytes) (zombies : list Z).         (* [system], with the zombies at that moment *)

#[export] Instance change_eq_dec : EqDecision change.
Proof. solve_decision. Defined.
#[export] Instance event_eq_dec : EqDecision event.
Proof. solve_decision. Defined.

Record sys := Sys {
  now : Z;
  procs : list (Z * pstat);
  events : list event;
  tpgrp : Z;
  refused : bool;            (* a call of [fork] has failed *)
  signals : nat;             (* signals that will interrupt a [Waitpid] *)
}.

(** Process 1 is [init]; the programs are started by a shell; pids are handed out in order. *)
Definition INIT : Z := 1.
Definition SHELL : Z := 50.
Definition FIRST : Z := 100.

Definition start_with (n : nat) (body : prog) : sys :=
  Sys 0 [(FIRST, Running (Attrs SHELL FIRST true 0 [] None) body)] [] FIRST false n.

Definition start : prog -> sys := start_with 0.

Definition with_parent (a : attrs) (p : Z) : attrs :=
  Attrs p (pgrp a) (ctty a) (wake a) (buf a) (on_hup a).
Definition with_wake (a : attrs) (t : Z) : attrs :=
  Attrs (parent a) (pgrp a) (ctty a) t (buf a) (on_hup a).
Definition with_buf (a : attrs) (b : list bytes) : attrs :=
  Attrs (parent a) (pgrp a) (ctty a) (wake a) b (on_hup a).
Definition with_on_hup (a : attrs) (h : prog) : attrs :=
  Attrs (parent a) (pgrp a) (ctty a) (wake a) (buf a) (Some h).

Definition set_proc (pid : Z) (st : pstat) (l : list (Z * pstat)) : list (Z * pstat) :=
  (fun x => if x.1 =? pid then (x.1, st) else x) <$> l.

Definition with_proc (pid : Z) (st : pstat) (s : sys) : sys :=
  Sys (now s) (set_proc pid st (procs s)) (events s) (tpgrp s) (refused s) (signals s).

Definition add_events (es : list event) (s : sys) : sys :=
  Sys (now s) (procs s) (events s ++ es) (tpgrp s) (refused s) (signals s).

Definition zombies (s : sys) : list Z :=
  omap (fun x : Z * pstat => match x.2 with Zombie _ _ => Some x.1 | _ => None end) (procs s).

(** The children of a process that has ended belong to [init], which waits for its zombies. *)
Definition orphan (dead : Z) (st : pstat) : pstat :=
  match st with
  | Running a b =>
      if parent a =? dead then Running (with_parent a INIT) b else st
  | Suspended a b =>
      if parent a =? dead then Suspended (with_parent a INIT) b else st
  | Zombie ppid c => if ppid =? dead then Gone c else st
  | Gone _ => st
  end.

(** A group none of whose members has a parent outside the group in its session: here, the
    shell. *)
Definition orphaned (g : Z) (s : sys) : bool :=
  forallb (fun x : Z * pstat =>
    match x.2 with
    | Running a _ | Suspended a _ => negb ((pgrp a =? g) && (parent a =? SHELL))
    | _ => true
    end) (procs s).

Definition SIGHUP : Z := 1.

(** SIGHUP is delivered: the handler runs, or the process ends. *)
Definition hup (a : attrs) (body : prog) : prog :=
  match on_hup a with
  | Some h => interrupt h body
  | None => Done false (Killed SIGHUP false)
  end.

(** Stopped members of a group that became orphaned get SIGHUP and SIGCONT. *)
Definition hang_up (s : sys) : sys :=
  Sys (now s)
    ((fun x : Z * pstat =>
        match x.2 with
        | Suspended a b => if orphaned (pgrp a) s then (x.1, Running a (hup a b)) else x
        | _ => x
        end) <$> procs s) (events s) (tpgrp s) (refused s) (signals s).

(** The shell takes the terminal back when the process it started has ended. *)
Definition finish (pid : Z) (a : attrs) (flush : bool) (c : change) (s : sys) : sys :=
  let l := set_proc pid (if parent a =? INIT then Gone c else Zombie (parent a) c) (procs s) in
  hang_up (Sys (now s) (prod_map id (orphan pid) <$> l)
    (events s ++ (if flush then Out <$> buf a else []))
    (if parent a =? SHELL then SHELL else tpgrp s) (refused s) (signals s)).

Section Runs.
(** Standard output is a terminal; other processes run while one sleeps; how the programs that are
    executed may end. *)
Context (tty timely : bool) (exec_ends : list bytes -> list change).

(** Children of [pid] that a [Wait] may be about. *)
Definition waited (pid arg : Z) (x : Z * pstat) : bool :=
  match x.2 with
  | Running a _ | Suspended a _ => (parent a =? pid) && ((arg =? -1) || (arg =? x.1))
  | Zombie ppid _ => (ppid =? pid) && ((arg =? -1) || (arg =? x.1))
  | Gone _ => false
  end.

Definition ECHILD : Z := 10.

(** The process waits: for a child that has ended, and not at all without children. *)
Definition wait_moves (pid arg : Z) (go : Z -> Z -> pstat) (s : sys) : list sys :=
  match filter (fun x => waited pid arg x = true) (procs s) with
  | [] => [with_proc pid (go (-1) 0) s]
  | l => l ≫= fun x : Z * pstat =>
      match x.2 with
      | Zombie _ c => [with_proc x.1 (Gone c) (with_proc pid (go x.1 (encode_status c)) s)]
      | _ => []
      end
  end.

Definition moves (pid : Z) (a : attrs) (body : prog) (s : sys) : list sys :=
  let go k := with_proc pid (Running a k) s in
  match body with
  | Done flush c => [finish pid a flush c s]
  | Say t k =>
      if tty then [add_events [Out t] (go k)]
      else [with_proc pid (Running (with_buf a (buf a ++ [t])) k) s]
  | Write t k => [add_events [Out t] (go k)]
  | Flush k => [add_events (Out <$> buf a) (with_proc pid (Running (with_buf a []) k) s)]
  | Complain t k => [add_events [Err t] (go k)]
  | Sleep n k => [with_proc pid (Running (with_wake a (now s + n)) k) s]
  | Fork k =>
      let child := FIRST + Z.of_nat (length (procs s)) in
      let s' := go (k child) in
      [Sys (now s') (procs s' ++ [(child, Running (with_wake (with_parent a pid) (now s)) (k 0))])
         (events s') (tpgrp s') (refused s') (signals s');
       let s' := go (k (-1)) in Sys (now s') (procs s') (events s') (tpgrp s') true (signals s')]
  | Wait arg k => wait_moves pid arg (fun r st => Running a (k r st)) s
  | Waitpid arg k =>
      wait_moves pid arg (fun r st => Running a (k r st ECHILD)) s ++
      match signals s with
      | O => []
      | S n => let s' := go (k (-1) 0 EINTR) in
               [Sys (now s') (procs s') (events s') (tpgrp s') (refused s') n]
      end
  | Exec argv k =>
      go k :: ((fun c => add_events [Ran argv] (with_proc pid (Running (with_buf a []) (Done false c)) s))
                 <$> exec_ends argv)
  | System cmd k =>
      (fun c => add_events [Shell cmd (zombies s)] (go (k (encode_status c)))) <$> exec_ends [cmd]
  | Getpid k => [go (k pid)]
  | Getppid k => [go (k (parent a))]
  | Getpgrp k => [go (k (pgrp a))]
  | Tcgetpgrp k => [go (k (if ctty a then tpgrp s else -1))]
  | Setsid k =>
      if pgrp a =? pid then [go (k (-1))]
      else [with_proc pid (Running (Attrs (parent a) pid false (wake a) (buf a) (on_hup a)) (k pid)) s]
  | OnHup h k => [with_proc pid (Running (with_on_hup a h) k) s]
  | Return => []
  | Tstp k => if orphaned (pgrp a) s then [go k] else [with_proc pid (Suspended a k) s]
  | ReadTty k =>
      if ctty a && (tpgrp s =? pgrp a) then [go (k 1); go (k 0)] else [go (k (-1))]
  end.

Definition awake (s : sys) (a : attrs) : bool := negb timely || (wake a <=? now s).

Definition ready (s : sys) : list sys :=
  procs s ≫= fun x : Z * pstat =>
    match x.2 with
    | Running a b => if awake s a then moves x.1 a b s else []
    | _ => []
    end.

(** When nobody can move, time passes until the first sleeper wakes up. *)
Definition alarms (s : sys) : list Z :=
  omap (fun x : Z * pstat =>
    match x.2 with
    | Running a _ => if now s <? wake a then Some (wake a) else None
    | _ => None
    end) (procs s).

Definition next (s : sys) : list sys :=
  match ready s with
  | [] =>
      match alarms s with
      | [] => []
      | t :: l => [Sys (foldr Z.min t l) (procs s) (events s) (tpgrp s) (refused s) (signals s)]
      end
  | l => l
  end.

(** ** All runs *)

(** Every run from [s] ends within [n] steps, in a state that satisfies [P]. *)
Fixpoint always_ends (n : nat) (P : sys -> bool) (s : sys) : bool :=
  match n with
  | O => false
  | S n => match next s with [] => P s | l => forallb (always_ends n P) l end
  end.

(** The states some run ends in, within [n] steps. *)
Fixpoint ends (n : nat) (s : sys) : list sys :=
  match n with
  | O => []
  | S n => match next s with [] => [s] | l => l ≫= ends n end
  end.

(** [always_ends] decides what it says: runs are finite, and where one ends [P] holds. *)
Lemma always_ends_sound n P s s' :
  always_ends n P s = true -> rtc (steps_to next) s s' ->
  sn (steps_to next) s' /\ ((forall t, ~ steps_to next s' t) -> P s' = true).
Proof.
  intros Ha Hr.
  assert (Hs : exists m, always_ends m P s' = true).
  { revert n Ha. induction Hr as [s|s t s' Hst _ IH]; intros n Ha; [by eexists|].
    destruct n as [|n]; [done|]. cbn [always_ends] in Ha. unfold steps_to in Hst.
    destruct (next s) as [|t0 l]; [by apply elem_of_nil in Hst|].
    rewrite forallb_forall in Ha. apply (IH n), Ha. by apply list_elem_of_In. }
  clear Ha Hr. destruct Hs as [m Ha]. revert s' Ha. induction m as [|m IH]; intros s' Ha; [done|].
  cbn [always_ends] in Ha. unfold steps_to in *. destruct (next s') as [|t0 l] eqn:E.
  - split; [|done]. constructor. intros t Ht. unfold flip in Ht. rewrite E in Ht. by apply elem_of_nil in Ht.
  - rewrite forallb_forall in Ha. split.
    + constructor. intros t Ht. unfold flip in Ht. rewrite E in Ht. apply IH, Ha. by apply list_elem_of_In.
    + intros Hno. exfalso. apply (Hno t0). left.
Qed.

Lemma ends_reachable n s s' :
  s' ∈ ends n s -> rtc (steps_to next) s s' /\ (forall t, ~ steps_to next s' t).
Proof.
  revert s. induction n as [|n IH]; intros s Hs; cbn [ends] in Hs; [by apply elem_of_nil in Hs|].
  unfold steps_to. destruct (next s) as [|t0 l] eqn:E.
  - apply list_elem_of_singleton in Hs as ->. split; [done|]. rewrite E. intros t Ht.
    by apply elem_of_nil in Ht.
  - apply list_elem_of_bind in Hs as (t & Ht & Hin). destruct (IH _ Ht) as [Hr Hno].
    split; [|done]. apply rtc_l with t; [|done]. by rewrite E.
Qed.

End Runs.

(** How the process with this pid ended, if it has. *)
Definition ended (s : sys) (pid : Z) : option change :=
  match find (fun x : Z * pstat => x.1 =? pid) (procs s) with
  | Some (_, (Zombie _ c | Gone c)) => Some c
  | _ => None
  end.

(** What went to standard output. *)
Definition outs (s : sys) : list bytes :=
  omap (fun e => match e with Out t => Some t | _ => None end) (events s).
