(* ===== verification/Processes.v ===== *)
(** * Programs that fork

    The programs of chapters 8 and 9 as families of processes (ProcTree.v): [8/1], [8/3], [8/5],
    [8/8], [8/10], [8/16], [8/20], [9/1] and [9/2]; [8/2], whose child runs in its parent's memory,
    and [10/3]. *)

From S2P Require Import Prelude Machine Errors Kernel SimKernel Text.
From S2P Require Import Limits ProcThreads Exits ProcTree.

(** ** Programs *)

Definition line (s : bytes) : bytes := s ++ [NL].
Definition Println (s : bytes) (k : prog) : prog := Say (line s) k.

(** [8/1]. *)
Record vars := Vars { globvar : Z; var : Z }.
Definition vars_line (pid : Z) (v : vars) : bytes :=
  str "pid = " ++ to_string pid ++ str ", globvar = " ++ to_string (globvar v) ++
  str ", var = " ++ to_string (var v).

Definition fork_main : prog :=
  let v := Vars 6 88 in
  let rest v := Getpid (fun pid => Println (vars_line pid v) (exit 0)) in
  Write (line (str "record to stdout"))
    (Println (str "before fork")
      (Fork (fun pid =>
         if pid <? 0 then ErrSys (str "call fork")
         else if pid =? 0 then rest (Vars (globvar v + 1) (var v + 1))
         else Sleep 2 (rest v)))).

(** [8/3]: what [pr_exit] prints of a status. *)
Definition pr_exit_text (status : Z) : bytes :=
  stdout_text (console (pr_exit status (Proc 0 true [] tt)).2).

Definition SIGABRT : Z := 6.
Definition SIGFPE : Z := 8.
Definition SIGKILL : Z := 9.

Section Core.
(** Whether the system writes a core file. *)
Context (core : bool).

Definition abort : prog := Done false (Killed SIGABRT core).

(** One of the three blocks: [child] is what the child does. *)
Definition spawn_and_wait (child : prog) (k : prog) : prog :=
  Fork (fun pid =>
    if pid <? 0 then ErrSys (str "call fork")
    else if pid =? 0 then child
    else Wait (-1) (fun r status =>
      if negb (r =? pid) then ErrSys (str "call wait") else Say (pr_exit_text status) k)).

(** The division by zero of the third child has no defined behaviour in C++; this is what it does on
    the machines the program is for: SIGFPE. *)
Definition pr_exit_main : prog :=
  spawn_and_wait (exit 7)
    (spawn_and_wait abort
      (spawn_and_wait (Done false (Killed SIGFPE core)) (exit 0))).

(** [8/16]. *)
Definition dd : list bytes := [str "/bin/dd"; str "dd"; str "if=/etc/passwd"; str "of=/dev/null"].

Definition acct_main : prog :=
  Fork (fun pid =>
    if pid <? 0 then ErrSys (str "call fork")
    else if negb (pid =? 0) then Sleep 2 (exit 2)
    else Fork (fun pid =>
      if pid <? 0 then ErrSys (str "call fork")
      else if negb (pid =? 0) then Sleep 4 abort
      else Fork (fun pid =>
        if pid <? 0 then ErrSys (str "call fork")
        else if negb (pid =? 0) then Exec dd (exit 7)
        else Fork (fun pid =>
          if pid <? 0 then ErrSys (str "call fork")
          else if negb (pid =? 0) then Sleep 8 (exit 0)
          else Sleep 6 (Done false (Killed SIGKILL false)))))).

End Core.

(** [8/5]. *)
Definition zombie_main : prog :=
  Fork (fun pid =>
    if pid <? 0 then ErrSys (str "call fork")
    else if pid =? 0 then
      Fork (fun pid =>
        if pid <? 0 then ErrSys (str "call fork")
        else if 0 <? pid then exit 0
        else Sleep 2 (Getppid (fun ppid =>
          Println (str "second child, ppid = " ++ to_string ppid) (exit 0))))
    else Wait pid (fun r _ =>
      if negb (r =? pid) then ErrSys (str "call waitpid") else exit 0)).

(** [8/20]. *)
Definition ps_command (pid : Z) : bytes := str "ps -o pid,ppid,state,cmd | grep " ++ to_string pid.

Definition spawn_zombie_main : prog :=
  Fork (fun pid =>
    if pid <? 0 then ErrSys (str "call fork")
    else if pid =? 0 then _exit 0
    else Sleep 1 (System (ps_command pid) (fun status =>
      if status <? 0 then ErrSys (str "call system") else exit 0))).

(** [8/10] and [8/8]; [user] is the name that [getpwuid] finds.  The arguments of [execle] are
    followed by the environment. *)
Definition interp_main : prog :=
  let wait pid := Wait pid (fun r _ => if r <? 0 then ErrSys (str "call waitpid") else exit 0) in
  Fork (fun pid =>
    if pid <? 0 then ErrSys (str "call fork")
    else if pid =? 0 then
      Exec [str "/home/prima/bin/testinterp"; str "testinterp"; str "myarg1"; str "MY ARG2"]
        (ErrSys (str "call execl"))
    else wait pid).

Definition env_init : list bytes := [str "USER=unknown"; str "PATH=/tmp"].

Definition exec_main (user : bytes) : prog :=
  Fork (fun pid =>
    if pid <? 0 then ErrSys (str "call fork")
    else if pid =? 0 then
      Say (NL :: line (str "using execle to run echoall"))
        (Exec ([str "/home/" ++ user ++ str "/bin/echoall"; str "echoall"; str "myarg1"; str "MY ARG2"]
               ++ env_init) (ErrSys (str "call execle")))
    else Wait pid (fun r _ =>
      if r <? 0 then ErrSys (str "call wait")
      else Fork (fun pid =>
        if pid <? 0 then ErrSys (str "call fork")
        else if pid =? 0 then
          Say (NL :: line (str "using execlp to run echoall"))
            (Exec [str "echoall"; str "echoall"; str "only one argument"] (ErrSys (str "call execlp")))
        else exit 0))).

(** [9/1] and [9/2]. *)
Definition ids_line (name : bytes) (pid ppid pgrp tpgrp : Z) : bytes :=
  name ++ str ": pid = " ++ to_string pid ++ str ", ppid = " ++ to_string ppid ++
  str ", pgrp = " ++ to_string pgrp ++ str ", tpgrp = " ++ to_string tpgrp.

Definition pr_ids (name : bytes) (k : prog) : prog :=
  Getpid (fun pid => Getppid (fun ppid => Getpgrp (fun pgrp => Tcgetpgrp (fun tpgrp =>
    Println (ids_line name pid ppid pgrp tpgrp) (Flush k))))).

Definition sig_hup : prog :=
  Getpid (fun pid => Println (str "taken signal SIGHUP, pid = " ++ to_string pid) Return).

Definition orphan_main : prog :=
  pr_ids (str "parent")
    (Fork (fun pid =>
      if pid <? 0 then ErrSys (str "call fork")
      else if 0 <? pid then Sleep 5 (exit 0)
      else
        pr_ids (str "child before SIGTSTP")
          (OnHup sig_hup
            (Tstp
              (pr_ids (str "child after SIGTSTP")
                (ReadTty (fun n =>
                   if negb (n =? 1) then Complain (str "read from control TTY") (exit 0)
                   else exit 0))))))).

Definition session_main : prog :=
  pr_ids (str "parent")
    (Fork (fun pid =>
      if pid <? 0 then ErrSys (str "call fork")
      else if pid =? 0 then
        pr_ids (str "child before setsid")
          (Setsid (fun sid =>
             if sid <? 0 then ErrSys (str "call setsid")
             else pr_ids (str "child after setsid") (exit 0)))
      else exit 0)).

(** ** What all runs have in common *)

(** The programs that are executed succeed, when the system finds them. *)
Definition exec_ok (_ : list bytes) : list change := [Exits 0].

(** Every run from [s0] ends, and where it ends [P] holds. *)
Definition every_run_from (tty timely : bool) (exec_ends : list bytes -> list change) (s0 : sys)
    (P : sys -> bool) : Prop :=
  forall s, rtc (steps_to (next tty timely exec_ends)) s0 s ->
    sn (steps_to (next tty timely exec_ends)) s /\
    ((forall s', ~ steps_to (next tty timely exec_ends) s s') -> P s = true).

Lemma every_run_from_intro n tty timely exec_ends s0 P :
  always_ends tty timely exec_ends n P s0 = true -> every_run_from tty timely exec_ends s0 P.
Proof. intros Ha s. by apply always_ends_sound with n. Qed.

(** Every run of the program ends, and where it ends [P] holds. *)
Definition every_run (tty timely : bool) (main : prog) (P : sys -> bool) : Prop :=
  every_run_from tty timely exec_ok (start main) P.

Lemma every_run_intro n tty timely main P :
  always_ends tty timely exec_ok n P (start main) = true -> every_run tty timely main P.
Proof. apply every_run_from_intro. Qed.

Definition some_run (tty timely : bool) (main : prog) (P : sys -> bool) : Prop :=
  exists s, rtc (steps_to (next tty timely exec_ok)) (start main) s /\
    (forall s', ~ steps_to (next tty timely exec_ok) s s') /\ P s = true.

Lemma some_run_intro n tty timely main P :
  existsb P (ends tty timely exec_ok n (start main)) = true -> some_run tty timely main P.
Proof.
  intros (s & Hin & Hs)%existsb_exists. apply list_elem_of_In in Hin.
  destruct (ends_reachable _ _ _ _ _ _ Hin). by exists s.
Qed.

Ltac all_runs := apply (every_run_intro 60); vm_cast_no_check (eq_refl true).
Ltac a_run := apply (some_run_intro 60); vm_cast_no_check (eq_refl true).

(** Processes have ended one way or the other: pid and change. *)
Definition statuses (s : sys) : list (Z * change) :=
  omap (fun x : Z * pstat => match x.2 with Zombie _ c | Gone c => Some (x.1, c) | _ => None end)
    (procs s).

(** [8/1]: parent and child have their own variables; and what was still in the buffer of standard
    output when the process forked is printed twice, which happens when it is not a terminal.  When
    [fork] fails the program exits with 1. *)
Theorem fork_outputs tty :
  every_run tty true fork_main (fun s =>
    if refused s then bool_decide (statuses s = [(FIRST, Exits 1)])
    else bool_decide (statuses s = [(FIRST, Exits 0); (101, Exits 0)]) &&
    bool_decide (outs s =
      [line (str "record to stdout"); line (str "before fork"); line (vars_line 101 (Vars 7 89))] ++
      (if tty then [] else [line (str "before fork")]) ++ [line (vars_line 100 (Vars 6 88))])).
Proof. destruct tty; all_runs. Qed.

(** Without the help of [sleep] the two lines come in either order, with the same values. *)
Lemma fork_values tty :
  every_run tty false fork_main (fun s => refused s ||
    (bool_decide (line (vars_line 101 (Vars 7 89)) ∈ outs s) &&
     bool_decide (line (vars_line 100 (Vars 6 88)) ∈ outs s))).
Proof. destruct tty; all_runs. Qed.

(** C36: [8/3]: whatever the interleaving, [pr_exit] reports the three children in order, each by the
    way it ended, no child is left a zombie, and the program exits with 0; when a call of [fork]
    fails it reports the error and exits with 1. *)
Theorem pr_exit_outputs tty timely core :
  every_run tty timely (pr_exit_main core) (fun s =>
    bool_decide (zombies s = [FIRST]) &&
    if refused s then
      bool_decide (ended s FIRST = Some (Exits 1)) && bool_decide (Err (str "call fork") ∈ events s)
    else
      bool_decide (ended s FIRST = Some (Exits 0)) &&
      bool_decide (outs s = (fun c => line (change_text c)) <$>
        [Exits 7; Killed SIGABRT core; Killed SIGFPE core])).
Proof. destruct tty, timely, core; all_runs. Qed.

(** [8/5]: in every run the second child is waited for by [init], never left a zombie; it sees
    [init] as its parent when the first child has ended by then, which [sleep] is to ensure. *)
Theorem no_zombie_left tty timely :
  every_run tty timely zombie_main (fun s =>
    bool_decide (zombies s = [FIRST]) &&
    (negb timely || refused s ||
     bool_decide (outs s = [line (str "second child, ppid = 1")]))).
Proof. destruct tty, timely; all_runs. Qed.

Lemma second_child_may_see_first tty :
  some_run tty false zombie_main (fun s =>
    bool_decide (outs s = [line (str "second child, ppid = 101")])).
Proof. destruct tty; a_run. Qed.

(** [8/20]: the child is a zombie when [ps] is run, and until its parent ends. *)
Theorem zombie_when_listed tty :
  every_run tty true spawn_zombie_main (fun s => refused s ||
    bool_decide (events s = [Shell (ps_command 101) [101]])).
Proof. destruct tty; all_runs. Qed.

(** [8/16]: when all calls of [fork] succeed there are five processes, which end in the five ways
    the accounting records are to show; the second child's way depends on [exec]. *)
Theorem acct_statuses core :
  every_run true true (acct_main core) (fun s =>
    refused s || bool_decide (statuses s =
      [(100, Exits 2); (101, Killed SIGABRT core);
       (102, if decide (Ran dd ∈ events s) then Exits 0 else Exits 7); (103, Exits 0);
       (104, Killed SIGKILL false)])).
Proof. destruct core; all_runs. Qed.

(** [8/8]: on a terminal each child announces the program it executes; when standard output is a
    file the announcement is lost exactly when [exec] succeeds, since it is still in the buffer. *)
Definition announced (user : bytes) (tty : bool) (s : sys) : bool :=
  let said t := bool_decide (NL :: line t ∈ outs s) in
  let ran f := existsb (fun e => match e with Ran (g :: _) => bool_decide (f = g) | _ => false end) (events s) in
  let child pid t f := negb (bool_decide (pid ∈ (procs s).*1)) || eqb (said t) (tty || negb (ran f)) in
  child 101 (str "using execle to run echoall") (str "/home/" ++ user ++ str "/bin/echoall") &&
  child 102 (str "using execlp to run echoall") (str "echoall").

Lemma exec_announcements tty :
  every_run tty true (exec_main (str "sar")) (announced (str "sar") tty).
Proof. destruct tty; all_runs. Qed.

(** [8/10]: the parent ends after its child in every run. *)
Lemma interp_waits tty timely :
  every_run tty timely interp_main (fun s => refused s ||
    (bool_decide (zombies s = [FIRST]) &&
     bool_decide (ended s 101 ∈ [Some (Exits 0); Some (Exits 1)]))).
Proof. destruct tty, timely; all_runs. Qed.


(** When the parent is gone before the child stops itself the signal is discarded, and the handler
    never runs. *)
Lemma orphan_not_stopped tty :
  some_run tty false orphan_main (fun s =>
    bool_decide (length (procs s) = 2%nat) &&
    negb (bool_decide (line (str "taken signal SIGHUP, pid = 101") ∈ outs s))).
Proof. destruct tty; a_run. Qed.

(** [9/2]: after [setsid] the child leads a group of its own and has no controlling terminal,
    which answers the two questions the program is written for. *)
Theorem session_outputs tty timely :
  every_run tty timely session_main (fun s => refused s ||
    bool_decide (line (ids_line (str "child after setsid") 101 1 101 (-1)) ∈ outs s) ||
    bool_decide (line (ids_line (str "child after setsid") 101 100 101 (-1)) ∈ outs s)).
Proof. destruct tty, timely; all_runs. Qed.
