(* ===== verification/Commands.v ===== *)
(** * Commands run by [system], shared memory of [vfork], static results, priorities

    [8/12], [8/13], [8/19]: programs that run commands with [system] and report their ends with
    [pr_exit] (ProcThreads.v).  [8/2]: [vfork].  [8/18]: the counting loop.  [10/2]: a function with
    a static result in a signal handler.  [10/3]: a SIGCLD handler that waits. *)

From S2P Require Import Prelude Machine Errors Kernel SimKernel Text.
From S2P Require Import Handshake Limits ProcThreads AddrInfo Exits Masks ProcTree Processes.
Import Signals.

(** What the system promises to a parent: a child has a positive pid, the statuses it reports are
    those of children that ended, and only signals, of which finitely many are under way, interrupt
    [waitpid]. *)
Class WaitSpec (W : Type) `{WaitOps W} := {
  signals_left : W -> nat;
  fork_law w r w' : k_fork w = (r, w') -> signals_left w' = signals_left w /\
    match r with SysOk pid => 0 < pid | SysErr _ => True end;
  waitpid_law pid w r w' : k_waitpid pid w = (r, w') ->
    match r with
    | SysOk status => signals_left w' = signals_left w /\
        exists c, change_ok c /\ status = encode_status c
    | SysErr e => if e =? ProcThreads.EINTR then (signals_left w' < signals_left w)%nat
                  else signals_left w' = signals_left w
    end;
}.

Lemma encode_status_nonneg c : change_ok c -> 0 <= encode_status c.
Proof.
  destruct c as [code|signo core|signo]; simpl; intros Hc.
  - apply Z.shiftl_nonneg. lia.
  - apply Z.lor_nonneg. destruct core; lia.
  - apply Z.lor_nonneg. split; [apply Z.shiftl_nonneg|]; lia.
Qed.

(** ** [system] in a parent *)

Section SystemFacts.
Context {W : Type} `{WS : WaitSpec W} `{CLib}.
Implicit Types p : proc W.

(** The answers of [system]: -1, or the status of a child that ended. *)
Definition system_answer (status : Z) : Prop :=
  status = -1 \/ exists c, change_ok c /\ status = encode_status c.

Lemma wait_loop_returns pid fuel p :
  (signals_left (kern p) < fuel)%nat ->
  returns (wait_loop fuel pid) (fun status p' => system_answer status /\ console p' = console p /\
    (signals_left (kern p') <= signals_left (kern p))%nat) p.
Proof.
  revert p. induction fuel as [|fuel IH]; intros p Hf; [lia|]. simpl. mstep. mstep.
  match goal with E : k_waitpid _ _ = _ |- _ => apply waitpid_law in E as Hl end.
  destruct r as [status|e]; simpl in *.
  - mstep. destruct Hl as [Hl Hc]. split; [by right|]. split; [done|]. simpl. lia.
  - mstep. mstep. simpl. destruct (e =? ProcThreads.EINTR); simpl.
    + eapply returns_mono; [apply IH; simpl; lia|]. intros st p' (Ha & Hc & Hs). simpl in *.
      split_and!; [done|done|lia].
    + mstep. split; [by left|]. split; [done|]. simpl. lia.
Qed.

(** In the parent, [system] always returns -1 or the status of a child that has ended, through any
    number of interruptions. *)
Lemma system_returns cmd fuel p :
  (signals_left (kern p) < fuel)%nat ->
  returns (system fuel (Some cmd)) (fun status p' => system_answer status /\ console p' = console p /\
    (signals_left (kern p') <= signals_left (kern p))%nat) p.
Proof.
  intros Hf. unfold system. mstep. mstep.
  - match goal with E : k_fork _ = _ |- _ => apply fork_law in E as [Hs Hpid] end.
    rewrite (proj2 (Z.ltb_ge _ _)), (proj2 (Z.eqb_neq _ _)) by lia.
    eapply returns_mono; [apply wait_loop_returns; simpl; lia|]. intros st p' (Ha & Hc & Hl).
    simpl in *. split_and!; [done|done|lia].
  - match goal with E : k_fork _ = _ |- _ => apply fork_law in E as [Hs _] end.
    simpl. mstep. split; [by left|]. split; [done|]. simpl. lia.
Qed.

(** ** [8/12], [8/13], [8/19] *)

Section Programs.
Context (fuel : nat).

(** [if ((status = system(cmd)) < 0) err_sys(...); pr_exit(status);] *)
Definition run_and_report (cmd msg : bytes) : M W unit :=
  status ← system fuel (Some cmd);
  (if status <? 0 then err_sys msg [] else mret tt) ;;
  pr_exit status.

(** The ids of the process. *)
Context (getuid geteuid : Z).

Definition print_uids : M W unit :=
  println (str "real uid = " ++ to_string getuid ++ str ", effective uid = " ++ to_string geteuid).

Definition uids_main : M W Z := print_uids ;; mret 0.

Definition system_uid_main (argv : list bytes) : M W Z :=
  match argv with
  | _ :: cmd :: _ =>
      run_and_report cmd (str "call system") ;;
      print_uids ;;
      mret 0
  | _ => err_quit (str "usage {} <arg>") [hd [] argv]
  end.

(** [times] answers the clock and the four times of the process; numbers of seconds are printed by
    [seconds], from ticks and ticks per second. *)
Record tms := Tms { tms_utime : Z; tms_stime : Z; tms_cutime : Z; tms_cstime : Z }.

Context (k_times : W -> sysres (Z * tms) * W) (k_clktck : W -> sysres Z * W).
Context (seconds : Z -> Z -> bytes).

(** The function's static [clktck] is passed along. *)
Definition pr_times (clktck real : Z) (tmsstart tmsend : tms) : M W Z :=
  clktck ← (if clktck =? 0 then
              clktck ← syscall_int k_clktck;
              (if clktck <? 0 then err_sys (str "call sysconf") [] else mret tt) ;;
              mret clktck
            else mret clktck);
  println (str " real: " ++ seconds real clktck) ;;
  println (str " user: " ++ seconds (tms_utime tmsend - tms_utime tmsstart) clktck) ;;
  println (str " sys: " ++ seconds (tms_stime tmsend - tms_stime tmsstart) clktck) ;;
  println (str " child user: " ++ seconds (tms_cutime tmsend - tms_cutime tmsstart) clktck) ;;
  println (str " child sys: " ++ seconds (tms_cstime tmsend - tms_cstime tmsstart) clktck) ;;
  mret clktck.

Definition times : M W (Z * tms) :=
  r ← syscall k_times;
  match r with SysErr _ => err_sys (str "call times") [] | SysOk x => mret x end.

Definition do_cmd (clktck : Z) (cmd : bytes) : M W Z :=
  print (NL :: str "command: " ++ cmd ++ [NL]) ;;
  '(start, tmsstart) ← times;
  status ← system fuel (Some cmd);
  (if status <? 0 then err_sys (str "call system()") [] else mret tt) ;;
  '(stop, tmsend) ← times;
  clktck ← pr_times clktck (stop - start) tmsstart tmsend;
  pr_exit status ;;
  mret clktck.

Fixpoint do_cmds (clktck : Z) (cmds : list bytes) : M W unit :=
  match cmds with
  | [] => mret tt
  | cmd :: cmds => clktck ← do_cmd clktck cmd; do_cmds clktck cmds
  end.

Definition times_main (argv : list bytes) : M W unit := do_cmds 0 (tl argv) ;; sys_exit 0.

(** ** What they print *)

(** Children can be created, and nothing but a signal makes [waitpid] fail. *)
Definition children_possible : Prop :=
  (forall w, exists pid w', k_fork w = (SysOk pid, w')) /\
  (forall pid w e w', k_waitpid pid w = (SysErr e, w') -> e = ProcThreads.EINTR).

Lemma wait_loop_status pid f p :
  children_possible -> (signals_left (kern p) < f)%nat ->
  returns (wait_loop f pid) (fun status p' => status <> -1) p.
Proof.
  intros [Hfork Hwait]. revert p. induction f as [|f IH]; intros p Hf; [lia|]. simpl. mstep. mstep.
  match goal with E : k_waitpid _ _ = (?x, _) |- _ => destruct x as [status|e] eqn:Ex;
    pose proof (waitpid_law _ _ _ _ E) as Hl; simpl in Hl end.
  - mstep. destruct Hl as (_ & c & Hc & ->). pose proof (encode_status_nonneg c Hc). lia.
  - match goal with E : k_waitpid _ _ = _ |- _ => apply Hwait in E as -> end.
    mstep. mstep. simpl in *. apply IH. simpl. lia.
Qed.

Lemma run_and_report_prints cmd msg p :
  children_possible -> (signals_left (kern p) < fuel)%nat ->
  returns (run_and_report cmd msg) (fun _ p' =>
    (exists c, change_ok c /\ console p' = console p ++ [Stdout (change_text c ++ [NL])]) /\
    (signals_left (kern p') < fuel)%nat) p.
Proof.
  intros Hch Hf. unfold run_and_report. mstep.
  assert (Hs : returns (system fuel (Some cmd)) (fun status p' => status <> -1) p).
  { unfold system. mstep. destruct (proj1 Hch (kern p)) as (pid & w & E).
    unfold returns at 1, wp, syscall_int, syscall, mbind, M_bind. rewrite E. simpl.
    apply fork_law in E as [Hl Hpid]. rewrite (proj2 (Z.ltb_ge _ _)), (proj2 (Z.eqb_neq _ _)) by lia.
    apply wait_loop_status; [done|]. simpl. lia. }
  pose proof (system_returns cmd fuel p Hf) as Hr. unfold returns, wp in Hs, Hr |- *.
  destruct (system fuel (Some cmd) p) as [[status| | | |] p1]; simpl in *; try done.
  destruct Hr as ([->|(c & Hok & ->)] & Hc & Hl); [done|].
  pose proof (encode_status_nonneg c Hok).
  unfold mbind, M_bind. rewrite (proj2 (Z.ltb_ge _ _)) by lia. simpl.
  rewrite pr_exit_spec by done. simpl. split; [|lia]. exists c. by rewrite Hc.
Qed.

(** [8/13] runs its argument and reports the end of a child, then the two user ids, through any
    number of interrupting signals. *)
Theorem system_uid_reports prog cmd rest p :
  children_possible -> (signals_left (kern p) < fuel)%nat ->
  returns (system_uid_main (prog :: cmd :: rest)) (fun code p' => code = 0 /\ exists c,
    change_ok c /\ console p' = console p ++ [Stdout (change_text c ++ [NL]);
      Stdout (str "real uid = " ++ to_string getuid ++ str ", effective uid = " ++
              to_string geteuid ++ [NL])]) p.
Proof.
  intros Hch Hf. unfold system_uid_main, print_uids, println. mstep.
  eapply returns_mono; [by apply run_and_report_prints|]. intros _ p1 [(c & Hc & E) _].
  repeat mstep. split; [done|]. exists c. split; [done|]. simpl.
  by rewrite E, <- !app_assoc.
Qed.

End Programs.
End SystemFacts.

(** A system with that many signals on their way, whose commands exit with 44. *)
#[export] Instance signal_storm : WaitOps nat := {
  k_fork w := (SysOk 42, w);
  k_waitpid _ w := match w with O => (SysOk 11264, O) | S n => (SysErr ProcThreads.EINTR, n) end;
  k_execl _ w := (2, w);
}.

#[export] Instance signal_storm_spec : WaitSpec nat.
Proof.
  refine {| signals_left w := w |}.
  - intros w r w' [= <- <-]. done.
  - intros pid [|w] r w' [= <- <-]; simpl; [|lia]. split; [done|]. exists (Exits 44). by split; [simpl; lia|].
Defined.

Lemma system_uid_reports_witness :
  returns (system_uid_main 8 0 0 [str "prog"; str "date"]) (fun code p' => code = 0)
    (Proc 0 true [] 5%nat).
Proof.
  eapply returns_mono.
  - apply (system_uid_reports 8 0 0 (str "prog") (str "date") [] (Proc 0 true [] 5%nat)).
    + split; [intros w; by exists 42, w|]. intros pid [|w] e w' [= <- <-]. reflexivity.
    + simpl. lia.
  - by intros code p' [? _].
Defined.

(** ** [system] with both its processes, and [8/12]

    The child of [system] is a process of its own here (ProcTree.v): what it executes decides the
    status its parent gets. *)












(** ** [8/2]: [vfork] *)

Section Vfork.
Context {W : Type} `{FileOps W} `{CLib}.
(** On success, the child's pid and its own view of the system: a copy of the descriptors. *)
Context (k_vfork : W -> sysres (Z * W) * W) (getpid : Z).

Definition STDOUT_FILENO : Z := 1.

(** The child runs in the memory of its parent, which waits for it, until [_exit]; the
    descriptors it closes are its own. *)
Definition in_child (w : W) (m : M W unit) : M W unit := fun p =>
  let '(o, p') := m (Proc (errno p) (log_to_stderr p) (console p) w) in
  (o, Proc (errno p') (log_to_stderr p') (console p') (kern p)).

Definition vfork_main : M W Z :=
  let v := Vars 6 88 in
  println (str "before fork") ;;
  r ← syscall k_vfork;
  match r with
  | SysErr _ => err_sys (str "call vfork") []
  | SysOk (_, child) =>
      let v := Vars (globvar v + 1) (var v + 1) in
      in_child child (
        r ← close STDOUT_FILENO;
        if negb (r =? 0) then err_ret (str "call close") [] else mret tt) ;;
      println (vars_line getpid v) ;;
      mret 0
  end.

(** The parent sees the child's increments, and its own standard output is still open. *)
Lemma vfork_shares_memory `{FD : !FdSpec W} p :
  (forall w r w', k_vfork w = (r, w') -> fds w' = fds w) ->
  completes vfork_main (fun code p' => code = 0 /\ fds (kern p') = fds (kern p) /\
    stdout_text (console p') = stdout_text (console p) ++
      str "before fork" ++ [NL] ++ vars_line getpid (Vars 7 89) ++ [NL]) p.
Proof.
  intros Hfds. unfold vfork_main. do 2 cstep. cstep. apply completes_returns, returns_syscall.
  intros r w E. apply Hfds in E. simpl in E. destruct r as [[pid child]|e]; [|cstep].
  cstep. apply completes_returns.
  assert (Hc : forall q, returns (in_child child (r ← close STDOUT_FILENO;
      if negb (r =? 0) then err_ret (str "call close") [] else mret tt))
    (fun _ q' => kern q' = kern q /\ stdout_text (console q') = stdout_text (console q)) q).
  { intros q. unfold returns, wp, in_child, close, syscall_unit, syscall, mbind, M_bind.
    cbn [kern errno log_to_stderr console]. destruct (k_close _ child) as [[[]|e] w1]; simpl; [done|].
    rewrite err_ret_eq. simpl. by autorewrite with console. }
  eapply returns_mono; [apply Hc|]. intros _ p1 [Hk Ho]. simpl in Hk, Ho. do 2 cstep. cstep.
  split; [done|]. simpl. split; [congruence|]. autorewrite with console. rewrite Ho.
  autorewrite with console. by rewrite <- !app_assoc.
Qed.

End Vfork.

(** ** [8/18]: counting for ten seconds *)

Module Priority.

(** [strtol(s, NULL, 10)]. *)
Definition strtol (s : bytes) : Z :=
  let s := skip_ws s in
  let '(neg, s) := match s with 45 :: r => (true, r) | 43 :: r => (false, r) | _ => (false, s) end in
  let v := (scan_digits s 0 0).1.1 in
  Z.max (- 2 ^ 63) (Z.min (2 ^ 63 - 1) (if neg then - v else v)).

Section Prog.
Context {W : Type} `{WaitOps W} `{CLib}.
(** [nice] answers the new value; a failed call answers -1 and sets [errno]. *)
Context (k_nice : Z -> W -> sysres Z * W) (nzero : Z).

(** The loop, for the answers of the clock: each iteration adds two. *)
Fixpoint count_loop (iterations : nat) (s : bytes) (count : Z) : M W Z :=
  match iterations with
  | O => mret count
  | S n =>
      let count := to_size_t (count + 1) in
      if count =? 0 then err_quit (str "{} counter overflow") [s]
      else count_loop n s (to_size_t (count + 1))
  end.

Definition nice_in_child (adj : Z) : M W unit :=
  cur ← syscall_int (k_nice 0);
  println (str "nice in child " ++ to_string (cur + nzero) ++ str ", want to change to " ++
           to_string (adj + nzero)) ;;
  set_errno 0 ;;
  ret ← syscall_int (k_nice adj);
  e ← get_errno;
  (if (ret =? -1) && negb (e =? 0) then err_sys (str "call nice") [] else mret tt) ;;
  println (str "nice in child " ++ to_string (ret + nzero)).

Definition priority_main (iterations : nat) (argv : list bytes) : M W unit :=
  println (str "NZERO = " ++ to_string nzero) ;;
  let adj := match argv with [_; a] => wrap_signed 32 (strtol a) | _ => 0 end in
  pid ← syscall_int k_fork;
  s ← (if pid <? 0 then err_sys (str "call fork") []
       else if pid =? 0 then nice_in_child adj ;; mret (str "child")
       else
         cur ← syscall_int (k_nice 0);
         println (str "nice in parent " ++ to_string (cur + nzero)) ;;
         mret (str "parent"));
  count ← count_loop iterations s 0;
  println (s ++ str " counter = " ++ to_string count) ;;
  sys_exit 0.

(** The counter is twice the number of iterations, modulo 2^64; the test for an overflow is made
    on odd numbers only and never succeeds. *)
Lemma count_loop_from n s count p :
  (2 | count) -> count_loop n s count p = (Ret (if (n =? 0)%nat then count else to_size_t (count + 2 * Z.of_nat n)), p).
Proof.
  revert count. induction n as [|n IH]; intros count Hev; [done|]. simpl count_loop.
  assert (H64 : 2 ^ 64 = 2 * 2 ^ 63) by reflexivity. destruct Hev as [k ->].
  assert (Hodd : forall z, (2 | z) -> to_size_t (z + 1) = to_size_t z + 1 /\ (2 | to_size_t z)).
  { intros z [j ->]. unfold to_size_t, wrap_unsigned. rewrite H64.
    rewrite (Z.mul_comm j 2), Zmult_mod_distr_l. split; [|eexists; apply Z.mul_comm].
    rewrite <- Zplus_mod_idemp_l, Zmult_mod_distr_l. apply Z.mod_small.
    pose proof (Z.mod_pos_bound j (2 ^ 63) ltac:(lia)). lia. }
  destruct (Hodd (k * 2)) as [Ho [j Hj]]; [by exists k|]. rewrite Ho, Hj.
  rewrite (proj2 (Z.eqb_neq _ _)) by lia.
  assert (Hs : to_size_t (j * 2 + 1 + 1) = to_size_t (k * 2 + 2)).
  { rewrite <- Hj. unfold to_size_t, wrap_unsigned.
    rewrite <- Z.add_assoc, Zplus_mod_idemp_l. reflexivity. }
  rewrite Hs, IH.
  - do 2 f_equal. simpl (S n =? 0)%nat. destruct n as [|n]; [done|]. simpl (S n =? 0)%nat.
    unfold to_size_t, wrap_unsigned. rewrite Zplus_mod_idemp_l. f_equal. lia.
  - apply Hodd. exists (k + 1). lia.
Qed.

Lemma counter_never_overflows n s p :
  count_loop n s 0 p = (Ret (to_size_t (2 * Z.of_nat n)), p).
Proof. rewrite count_loop_from by (by exists 0). by destruct n. Qed.

End Prog.
End Priority.

(** ** [10/2]: a static result *)

Module Reentrancy.

(** The area in which [getpwnam] leaves its answer, and whether an alarm is set. *)
Record world := World { pw_name : bytes; alarm_set : bool }.

Section Prog.
Context `{CLib} (known : bytes -> bool).

Definition set_world (f : world -> world) : M world unit := fun p =>
  (Ret tt, Proc (errno p) (log_to_stderr p) (console p) (f (kern p))).

(** Whether the name was found; the answer is a pointer to the static area. *)
Definition getpwnam (name : bytes) : M world bool := fun p =>
  if known name then
    (Ret true, Proc (errno p) (log_to_stderr p) (console p) (World name (alarm_set (kern p))))
  else (Ret false, p).

Definition alarm1 : M world unit := set_world (fun w => World (pw_name w) true).

Definition my_alarm : M world unit :=
  set_world (fun w => World (pw_name w) false) ;;
  println (str "inside SIGALRM handler") ;;
  found ← getpwnam (str "root");
  (if negb found then err_sys (str "call getpwnam(root)") [] else mret tt) ;;
  alarm1.

(** Where in an iteration the signal arrives, if it does. *)
Inductive moment := No | BeforeLookup | AfterLookup | AfterCompare.

#[export] Instance moment_eq_dec : EqDecision moment.
Proof. solve_decision. Defined.

Definition at_moment (m m' : moment) : M world unit :=
  if decide (m = m') then my_alarm else mret tt.

Definition iteration (name : bytes) (m : moment) : M world unit :=
  at_moment m BeforeLookup ;;
  found ← getpwnam name;
  (if negb found then err_sys (str "call getpwnam({})") [name] else mret tt) ;;
  at_moment m AfterLookup ;;
  (fun p => (if negb (bool_decide (pw_name (kern p) = name)) then
               println (str "passwd->pw_name = " ++ pw_name (kern p)) else mret tt) p) ;;
  at_moment m AfterCompare.

(** The endless loop, for the moments of its iterations; [getlogin] may have no answer. *)
Definition reentrancy_main (login : option bytes) (ms : list moment) : M world unit :=
  alarm1 ;;
  match login with
  | None => undefined
  | Some name => each (iteration name) ms
  end.

Definition iteration_text (name : bytes) (m : moment) : bytes :=
  match m with
  | No => []
  | AfterLookup => str "inside SIGALRM handler" ++ [NL] ++
      (if bool_decide (name = str "root") then [] else str "passwd->pw_name = root" ++ [NL])
  | _ => str "inside SIGALRM handler" ++ [NL]
  end.

Lemma getpwnam_found name p : known name = true ->
  getpwnam name p = (Ret true, Proc (errno p) (log_to_stderr p) (console p) (World name (alarm_set (kern p)))).
Proof. unfold getpwnam. by intros ->. Qed.

Lemma my_alarm_run p : known (str "root") = true ->
  my_alarm p = (Ret tt, Proc (errno p) (log_to_stderr p)
    (console p ++ [Stdout (str "inside SIGALRM handler" ++ [NL])]) (World (str "root") true)).
Proof.
  intros Hr. unfold my_alarm, set_world, println, emit, alarm1, mbind, M_bind. simpl.
  rewrite getpwnam_found by done. done.
Qed.

(** The answer of the main program is replaced exactly when the signal arrives between its call
    of [getpwnam] and its use of the result: then root's name is printed instead. *)
Theorem static_result_is_replaced name ms p :
  known name = true -> known (str "root") = true ->
  returns (reentrancy_main (Some name) ms) (fun _ p' =>
    stdout_text (console p') = stdout_text (console p) ++ mjoin (iteration_text name <$> ms)) p.
Proof.
  intros Hn Hr. unfold reentrancy_main. mstep. unfold returns at 1, wp. simpl.
  eapply returns_mono.
  - apply (each_prints (fun _ => True) (iteration name) (iteration_text name)); [|done].
    apply Forall_forall. intros m _ q _. unfold returns, wp, iteration, at_moment.
    destruct m; simpl; unfold mbind, M_bind, mret, M_ret; rewrite ?my_alarm_run by done; simpl;
      rewrite ?getpwnam_found by done; simpl; rewrite ?my_alarm_run by done; simpl;
      rewrite ?(bool_decide_eq_true_2 (name = name)) by done; simpl;
      rewrite ?my_alarm_run by done; simpl; autorewrite with console; try done.
    + by rewrite app_nil_r.
    + destruct (decide (name = str "root")) as [->|Hne].
      * rewrite !bool_decide_eq_true_2 by done. simpl. autorewrite with console. done.
      * rewrite !bool_decide_eq_false_2 by congruence. simpl. autorewrite with console.
        by rewrite <- !app_assoc.
  - intros _ p' [_ E]. exact E.
Qed.

End Prog.

Lemma static_result_is_replaced_witness :
  returns (reentrancy_main (fun _ => true) (Some (str "sar")) [No; AfterLookup]) (fun _ p' =>
    stdout_text (console p') = [] ++ mjoin (iteration_text (str "sar") <$> [No; AfterLookup]))
    (Proc 0 true [] (World [] false)).
Proof.
  apply (static_result_is_replaced (fun _ => true) (str "sar") [No; AfterLookup]
           (Proc 0 true [] (World [] false))); reflexivity.
Defined.

End Reentrancy.

(** ** [10/3]: waiting in the handler of SIGCLD *)

Module SigCld.

Definition SIGCLD : Z := 17.

Section Prog.
Context {W : Type} `{SigOps W} `{WaitOps W} `{CLib}.
(** [wait]: the pid of the child that ended. *)
Context (k_wait : W -> sysres Z * W) (getpid : Z).

Definition sig_cld : M W unit :=
  println (str "taken signal SIGCLD") ;;
  r ← signal SIGCLD (Func 1);
  (if sys_failed r then err_ret (str "call signal SIGCLD") [] else mret tt) ;;
  pid ← syscall_int k_wait;
  (if pid <? 0 then err_ret (str "call wait") [] else mret tt) ;;
  println (str "parentpid = " ++ to_string getpid ++ str ", childpid = " ++ to_string pid).

(** [pause] returns when a handler has run; [out_of_fuel] stands for a wait without an end. *)
Definition pause (handler_runs : bool) : M W unit := if handler_runs then sig_cld else out_of_fuel.

(** [early]: the child ends before the parent calls [pause]. *)
Definition sigcld_main (early : bool) : M W unit :=
  r ← signal SIGCLD (Func 1);
  (if sys_failed r then err_ret (str "call signal SIGCLD") [] else mret tt) ;;
  pid ← syscall_int k_fork;
  if pid <? 0 then err_ret (str "call fork") [] ;; pause false ;; sys_exit 0
  else if pid =? 0 then sys_exit 0
  else (if early then sig_cld ;; pause false else pause true) ;; sys_exit 0.

(** The lines of the handler. *)
Definition cld_text (pid : Z) : bytes :=
  str "taken signal SIGCLD" ++ [NL] ++ str "parentpid = " ++ to_string getpid ++
  str ", childpid = " ++ to_string pid ++ [NL].

Lemma sig_cld_prints p :
  returns sig_cld (fun _ p' => exists pid,
    stdout_text (console p') = stdout_text (console p) ++ cld_text pid) p.
Proof.
  assert (Hret : forall b msg (q : proc W),
    returns (if b : bool then err_ret msg [] else mret tt) (fun _ q' =>
      stdout_text (console q') = stdout_text (console q)) q).
  { intros [] msg q; mstep; [|done]. simpl. by autorewrite with console. }
  unfold sig_cld, signal. do 4 mstep. mstep.
  eapply returns_mono; [apply Hret|]. intros ? p1 E1. simpl in E1.
  mstep. mstep; (mstep; eapply returns_mono; [apply Hret|]; intros ? p2 E2; simpl in E2; mstep;
    eexists; simpl; autorewrite with console; rewrite E2, E1; autorewrite with console;
    unfold cld_text; by rewrite <- !app_assoc).
Qed.

(** When the child outlives the call of [pause], the program prints the two lines of the handler
    and exits; when it does not, or when there is no child, [pause] waits forever. *)
Theorem sigcld_main_spec early p :
  wp (sigcld_main early) (fun o p' =>
    match o with
    | Exited c => c = 0 /\ (stdout_text (console p') = stdout_text (console p) \/
        early = false /\ exists pid, stdout_text (console p') = stdout_text (console p) ++ cld_text pid)
    | NoFuel => True
    | _ => False
    end) p /\
  (forall w w1 h pid, k_sigaction SIGCLD (Func 1) SA_RESTART (kern p) = (SysOk h, w) ->
     k_fork w = (SysOk pid, w1) -> 0 < pid ->
     (sigcld_main early p).1 = if early then NoFuel else Exited 0).
Proof.
  assert (Hcld : forall (q : proc W), exists q', sig_cld q = (Ret tt, q') /\ exists pid,
    stdout_text (console q') = stdout_text (console q) ++ cld_text pid).
  { intros q. pose proof (sig_cld_prints q) as Hq. unfold returns, wp in Hq.
    destruct (sig_cld q) as [[[]| | | |] q']; [|done..]. by exists q'. }
  split.
  - unfold sigcld_main, signal, pause, wp, syscall_int, syscall, mbind, M_bind.
    destruct (k_sigaction _ _ _ _) as [[h|e] w]; simpl; [|rewrite err_ret_eq; simpl];
      (destruct (k_fork w) as [[pid|e'] w1]; simpl;
       [destruct (pid <? 0); simpl; [rewrite err_ret_eq; done|]; destruct (pid =? 0); simpl;
        [split; [done|]; left; by autorewrite with console|]
       |rewrite err_ret_eq; done]);
      destruct early; simpl;
      match goal with |- context [sig_cld ?q] => destruct (Hcld q) as (q' & -> & pid' & E) end; simpl;
      try done; (split; [done|]; right; split; [done|]; exists pid'; simpl in E; rewrite E;
        by autorewrite with console).
  - intros w w1 h pid E1 E2 Hpid.
    unfold sigcld_main, signal, pause, syscall_int, syscall, mbind, M_bind. rewrite E1. simpl.
    rewrite E2. simpl. rewrite (proj2 (Z.ltb_ge _ _)), (proj2 (Z.eqb_neq _ _)) by lia.
    destruct early; simpl;
      match goal with |- context [sig_cld ?q] => destruct (Hcld q) as (q' & -> & _) end; done.
Qed.

End Prog.
End SigCld.
