(* ===== verification/FilePrograms.v ===== *)
(** * Programs about files: kinds, modes, times, names

    [4/1], [4/10]: kinds and devices; [4/2]: access; [4/3], [4/4]: modes; [4/5]: a file without a
    name; [4/6]: times; [4/8], [4/9], [2/3]: the current directory, with [path_alloc] of FileIO.v;
    [2/4]: [open_max]. *)

From S2P Require Import Prelude Machine Errors Kernel SimKernel Text FileIO Time.
From S2P Require Import Limits Ftw Exits.

(** The fields of [struct stat] the programs use. *)
Record stat_t := Stat {
  st_mode : Z;
  st_dev : Z;
  st_rdev : Z;
  st_atim : timespec;
  st_mtim : timespec;
}.

Class StatOps (W : Type) := {
  k_stat : bytes -> W -> sysres stat_t * W;
  k_lstat_all : bytes -> W -> sysres stat_t * W;
  k_access : bytes -> Z -> W -> sysres unit * W;
  k_umask : Z -> W -> Z * W;
  k_chmod : bytes -> Z -> W -> sysres unit * W;
  k_unlink : bytes -> W -> sysres unit * W;
  k_futimens : Z -> timespec * timespec -> W -> sysres unit * W;
  k_chdir_to : bytes -> W -> sysres unit * W;
  k_getcwd : Z -> W -> sysres bytes * W;         (* the size of the buffer *)
}.

Definition S_ISREG (m : Z) : bool := Z.land m S_IFMT =? S_IFREG.
Definition S_ISCHR (m : Z) : bool := Z.land m S_IFMT =? S_IFCHR.
Definition S_ISBLK (m : Z) : bool := Z.land m S_IFMT =? S_IFBLK.
Definition S_ISFIFO (m : Z) : bool := Z.land m S_IFMT =? S_IFIFO.
Definition S_ISLNK (m : Z) : bool := Z.land m S_IFMT =? S_IFLNK.
Definition S_ISSOCK (m : Z) : bool := Z.land m S_IFMT =? S_IFSOCK.

Definition R_OK : Z := 4.
Definition O_RDONLY : Z := 0.
Definition O_WRONLY_CREAT_TRUNC : Z := 577.
Definition O_RDWR_CREAT : Z := 66.
Definition O_RDWR_TRUNC : Z := 514.
Definition FILE_MODE : Z := 420.

Section Programs.
Context {W : Type} `{FileOps W} `{StatOps W} `{ConfOps W} `{CLib}.

(** ** [4/1] and [4/10] *)

Definition kind_text (m : Z) : bytes :=
  if S_ISREG m then str "regular file"
  else if S_ISDIR m then str "directory"
  else if S_ISCHR m then str "symbolic device"
  else if S_ISBLK m then str "block device"
  else if S_ISFIFO m then str "fifo"
  else if S_ISLNK m then str "symlink"
  else if S_ISSOCK m then str "socket"
  else str "** unknow file type **".

Definition print_kind (file : bytes) : M W unit :=
  print (file ++ str ": ") ;;
  r ← syscall (k_lstat_all file);
  match r with
  | SysErr _ => err_ret (str "lstat") []
  | SysOk buf => println (kind_text (st_mode buf))
  end.

Definition stat_main (argv : list bytes) : M W Z := each print_kind (tl argv) ;; mret 0.

(** The macros of <sys/sysmacros.h> for a 64-bit [dev_t]. *)
Definition major (dev : Z) : Z :=
  Z.lor (Z.land (Z.shiftr dev 8) 4095) (Z.land (Z.shiftr dev 32) 4294963200).
Definition minor (dev : Z) : Z :=
  Z.lor (Z.land dev 255) (Z.land (Z.shiftr dev 12) 4294967040).

Definition device_text (dev : Z) : bytes :=
  to_string (major dev) ++ str "/" ++ to_string (minor dev).

Definition print_dev (file : bytes) : M W unit :=
  print (file ++ str ": ") ;;
  r ← syscall (k_stat file);
  match r with
  | SysErr _ => err_ret (str "call stat") []
  | SysOk buf =>
      print (str "dev = " ++ device_text (st_dev buf)) ;;
      when (S_ISCHR (st_mode buf) || S_ISBLK (st_mode buf))
        (print (str " (" ++ (if S_ISCHR (st_mode buf) then str "sym device" else str "block device") ++
                str ") rdev = " ++ device_text (st_rdev buf))) ;;
      println []
  end.

Definition dev_main (argv : list bytes) : M W Z := each print_dev (tl argv) ;; mret 0.

(** ** [4/2] *)

Definition access_main (argv : list bytes) : M W Z :=
  match argv with
  | [_; file] =>
      r ← syscall_unit (k_access file R_OK);
      (if r <? 0 then err_ret (str "Access file {}") [file]
       else println (str "Access for reading is allowed")) ;;
      fd ← open file O_RDONLY 0;
      (if fd <? 0 then err_ret (str "Open file {}") [file]
       else println (str "File is opened for reading")) ;;
      mret 0
  | _ => emit (Stderr (str "Using: " ++ hd [] argv ++ str " <file_name>")) ;; mret 1
  end.

(** ** [4/3] and [4/4] *)

Definition S_IRUSR : Z := 256.
Definition S_IWUSR : Z := 128.
Definition S_IRGRP : Z := 32.
Definition S_IWGRP : Z := 16.
Definition S_IXGRP : Z := 8.
Definition S_IROTH : Z := 4.
Definition S_IWOTH : Z := 2.
Definition S_ISGID : Z := 1024.

Definition flags_or (l : list Z) : Z := foldr Z.lor 0 l.
Definition RWRWRW : Z := flags_or [S_IRUSR; S_IWUSR; S_IRGRP; S_IWGRP; S_IROTH; S_IWOTH].

Definition umask (mask : Z) : M W Z := fun p =>
  let '(old, w) := k_umask mask (kern p) in (Ret old, Proc (errno p) (log_to_stderr p) (console p) w).

Definition creat (path : bytes) (mode : Z) : M W Z := open path O_WRONLY_CREAT_TRUNC mode.

Definition quoted (s : bytes) : bytes := [34] ++ s ++ [34].

Definition umask_main : M W Z :=
  umask 0 ;;
  r ← creat (str "foo") RWRWRW;
  (if r <? 0 then err_sys (str "creat file " ++ quoted (str "foo")) [] else mret tt) ;;
  umask (flags_or [S_IRGRP; S_IWGRP; S_IROTH; S_IWOTH]) ;;
  r ← creat (str "bar") RWRWRW;
  (if r <? 0 then err_sys (str "creat file " ++ quoted (str "bar")) [] else mret tt) ;;
  mret 0.

Definition chmod_main : M W Z :=
  r ← syscall (k_stat (str "foo"));
  match r with
  | SysErr _ => err_sys (str "call stat for file foo") []
  | SysOk statbuf =>
      r ← syscall_unit (k_chmod (str "foo")
            (Z.lor (Z.land (st_mode statbuf) (Z.lnot S_IXGRP)) S_ISGID));
      (if r <? 0 then err_sys (str "call chmod for file foo") [] else mret tt) ;;
      r ← syscall_unit (k_chmod (str "bar") (flags_or [S_IRUSR; S_IWUSR; S_IRGRP; S_IROTH]));
      (if r <? 0 then err_sys (str "call chmod for file bar") [] else mret tt) ;;
      mret 0
  end.

(** ** [4/5] *)

Definition unlink_main : M W Z :=
  r ← open (str "tempfile") O_RDWR_CREAT FILE_MODE;
  (if r <? 0 then err_sys (str "call open for file tempfile") [] else mret tt) ;;
  r ← syscall_unit (k_unlink (str "tempfile"));
  (if r <? 0 then err_sys (str "call unlink for file tempfile") [] else mret tt) ;;
  println (str "file removed") ;;
  println (str "end") ;;
  mret 0.

(** ** [4/6] *)

Definition zap_file (file : bytes) : M W unit :=
  r ← syscall (k_stat file);
  match r with
  | SysErr _ => err_ret (str "call stat for file {}") [file]
  | SysOk statbuf =>
      fd ← open file O_RDWR_TRUNC 0;
      if fd <? 0 then err_ret (str "call open for file {}") [file]
      else
        r ← syscall_unit (k_futimens fd (st_atim statbuf, st_mtim statbuf));
        if r <? 0 then err_ret (str "call futimens for file") [file] ;; close fd ;; mret tt
        else mret tt
  end.

Definition zap_main (argv : list bytes) : M W Z := each zap_file (tl argv) ;; mret 0.

(** ** [4/8], [4/9], [2/3], [2/4] *)

Definition chdir_main : M W Z :=
  r ← syscall_unit (k_chdir_to (str "/tmp"));
  (if r <? 0 then err_sys (str "call chdir") [] else mret tt) ;;
  println (str "directory /tmp has become cwd") ;;
  sys_exit 0.

Section Limits.
(** What <limits.h> defines. *)
Context (PATH_MAX OPEN_MAX : option Z) (can_alloc : Z -> bool) (st : path_statics).

Definition getcwd_main : M W Z :=
  r ← syscall_unit (k_chdir_to (str "/home"));
  (if r <? 0 then err_sys (str "call chdir") [] else mret tt) ;;
  '(size, _) ← path_alloc PATH_MAX can_alloc st;
  r ← syscall (k_getcwd size);
  match r with
  | SysErr _ => err_sys (str "call getcwd") []
  | SysOk path => println (str "cwd = " ++ path) ;; mret 0
  end.

Definition path_alloc_main : M W Z :=
  println (str "Allocating path buffer...") ;;
  '(size, _) ← path_alloc PATH_MAX can_alloc st;
  println (str "Successfully allocated buffer.") ;;
  println (str "Buffer size (from string.size()): " ++ to_string size) ;;
  r ← syscall (k_getcwd size);
  (match r with
   | SysOk path => println (str "Current working directory: " ++ path)
   | SysErr _ => err_ret (str "getcwd error") []
   end) ;;
  mret 0.

Definition open_max_main : M W Z :=
  '(max_files, openmax) ← open_max OPEN_MAX 0;
  println (str "Maximum open files limit: " ++ to_string max_files) ;;
  '(again, _) ← open_max OPEN_MAX openmax;
  println (str "Calling again (cached): " ++ to_string again) ;;
  mret 0.

End Limits.
End Programs.

(** ** The file system the programs rely on *)

(** Modes and names of files, the mask of the process, the files descriptors refer to, and times.
    Only the laws the theorems use. *)
Class StatSpec (W : Type) `{FdSpec W} `{StatOps W} := {
  mode_of : W -> bytes -> option Z;
  mask : W -> Z;
  times_of : W -> bytes -> option (timespec * timespec);
  file_of : W -> Z -> option bytes;
  umask_law m w old w' : k_umask m w = (old, w') ->
    mask w' = m /\ fds w' = fds w /\ forall f, mode_of w' f = mode_of w f;
  open_law path fl m w r w' : k_open path fl m w = (r, w') -> mask w' = mask w /\
    (forall f, f <> path -> mode_of w' f = mode_of w f) /\
    match r with
    | SysOk fd => file_of w' fd = Some path /\
        mode_of w' path = Some (match mode_of w path with
                                | Some old => old
                                | None => Z.lor S_IFREG (Z.land m (Z.lnot (mask w)))
                                end)
    | SysErr _ => mode_of w' path = mode_of w path
    end;
  stat_law f w r w' : k_stat f w = (r, w') -> w' = w /\
    match r with
    | SysOk st => mode_of w f = Some (st_mode st) /\ times_of w f = Some (st_atim st, st_mtim st)
    | SysErr _ => True
    end;
  chmod_law f m w r w' : k_chmod f m w = (r, w') ->
    match r with
    | SysOk _ => exists old, mode_of w f = Some old /\
        mode_of w' f = Some (Z.lor (Z.land old S_IFMT) (Z.land m 4095)) /\
        forall g, g <> f -> mode_of w' g = mode_of w g
    | SysErr _ => forall g, mode_of w' g = mode_of w g
    end;
  unlink_law f w r w' : k_unlink f w = (r, w') -> fds w' = fds w /\
    match r with
    | SysOk _ => mode_of w' f = None /\ forall g, g <> f -> mode_of w' g = mode_of w g
    | SysErr _ => forall g, mode_of w' g = mode_of w g
    end;
  futimens_law fd t w r w' : k_futimens fd t w = (r, w') -> fds w' = fds w /\
    match r with
    | SysOk _ => forall f, file_of w fd = Some f -> times_of w' f = Some t
    | SysErr _ => True
    end;
}.

Section Facts.
Context {W : Type} `{FO : FileOps W} `{FD : !FdSpec W} `{SO : StatOps W} `{SS : !StatSpec W} `{CL : CLib}.
Implicit Types p : proc W.

(** *** Kinds *)

Definition kinds : list (Z * bytes) :=
  [(S_IFREG, str "regular file"); (S_IFDIR, str "directory"); (S_IFCHR, str "symbolic device");
   (S_IFBLK, str "block device"); (S_IFIFO, str "fifo"); (S_IFLNK, str "symlink");
   (S_IFSOCK, str "socket")].

(** The text depends on the kind only, not on the permissions, and each kind has its own. *)
Lemma kind_text_spec k t perms :
  (k, t) ∈ kinds -> Z.land perms S_IFMT = 0 -> kind_text (Z.lor k perms) = t.
Proof.
  intros Hk Hp. unfold kind_text, S_ISREG, S_ISDIR, S_ISCHR, S_ISBLK, S_ISFIFO, S_ISLNK, S_ISSOCK.
  rewrite !Z.land_lor_distr_l, Hp, Z.lor_0_r. unfold kinds in Hk.
  repeat (apply elem_of_cons in Hk as [[= -> ->]|Hk]; [reflexivity|]). by apply elem_of_nil in Hk.
Qed.

(** *** Modes *)

Lemma in_seqZ_16 i : 0 <= i < 16 -> i ∈ seqZ 0 16.
Proof. intros Hi. apply elem_of_seqZ. lia. Qed.

(** The words [4/4] sets, bit by bit. *)
Lemma chmod_bits old m i :
  old = m -> 0 <= i < 16 ->
  Z.testbit (Z.lor (Z.land old S_IFMT) (Z.land (Z.lor (Z.land m (Z.lnot S_IXGRP)) S_ISGID) 4095)) i =
  (if i =? 3 then false else if i =? 10 then true else Z.testbit old i).
Proof.
  intros -> Hi%in_seqZ_16.
  rewrite Z.lor_spec, !Z.land_spec, Z.lor_spec, Z.land_spec.
  repeat (apply elem_of_cons in Hi as [->|Hi];
    [simpl; by rewrite ?andb_true_r, ?andb_false_r, ?orb_false_r, ?orb_true_r|]).
  by apply elem_of_nil in Hi.
Qed.

Lemma chmod_other old :
  Z.land (Z.lor (Z.land old S_IFMT) (Z.land (flags_or [S_IRUSR; S_IWUSR; S_IRGRP; S_IROTH]) 4095)) 4095
  = 420.
Proof. rewrite Z.land_lor_distr_l, <- Z.land_assoc. by rewrite Z.land_0_r. Qed.

Lemma chmod_kind old :
  Z.land (Z.lor (Z.land old S_IFMT) (Z.land (flags_or [S_IRUSR; S_IWUSR; S_IRGRP; S_IROTH]) 4095)) S_IFMT
  = Z.land old S_IFMT.
Proof. rewrite Z.land_lor_distr_l, <- Z.land_assoc, Z.land_diag. apply Z.lor_0_r. Qed.

(** [4/3] in a directory without the two files: [foo] is created with all six permissions, [bar]
    with those of its owner, since the mask takes the others away. *)
Theorem umask_modes p :
  mode_of (kern p) (str "foo") = None -> mode_of (kern p) (str "bar") = None ->
  completes umask_main (fun code p' => code = 0 /\
    mode_of (kern p') (str "foo") = Some (Z.lor S_IFREG 438) /\
    mode_of (kern p') (str "bar") = Some (Z.lor S_IFREG 384)) p.
Proof.
  intros Hfoo Hbar. unfold umask_main.
  assert (Hum : forall m (Q : Z -> proc W -> Prop) q,
    (forall old w, mask w = m -> (forall f, mode_of w f = mode_of (kern q) f) ->
       Q old (Proc (errno q) (log_to_stderr q) (console q) w)) -> completes (umask m) Q q).
  { intros m Q q HQ. unfold completes, wp, umask. destruct (k_umask m (kern q)) as [old w] eqn:E.
    apply umask_law in E as (? & _ & ?). by apply HQ. }
  cstep. apply Hum. intros _ w1 Hm1 Hf1. simpl in Hf1.
  cstep. apply completes_returns. unfold creat, open. mstep; simpl in *; [|do 2 cstep].
  match goal with E : k_open _ _ _ _ = _ |- _ => apply open_law in E as (Hm2 & Ho2 & _ & Hf2) end.
  rewrite Hf1, Hfoo, Hm1 in Hf2.
  cstep. cstep. apply Hum. intros _ w3 Hm3 Hf3. simpl in Hf3.
  cstep. apply completes_returns. unfold creat, open. mstep; simpl in *; [|do 2 cstep].
  match goal with E : k_open (str "bar") _ _ _ = _ |- _ => apply open_law in E as (_ & Ho4 & _ & Hf4) end.
  rewrite Hf3, (Ho2 (str "bar")), Hf1, Hbar, Hm3 in Hf4 by done.
  cstep. cstep. split; [done|]. simpl. rewrite Ho4, Hf3, Hf2, Hf4 by done. done.
Qed.

(** [4/4]: of the mode of [foo] only group execution is taken away and set-group-ID added; [bar]
    becomes readable for all and writable for its owner. *)
Theorem chmod_modes p :
  completes chmod_main (fun code p' => code = 0 /\ exists foo bar foo' bar',
    mode_of (kern p) (str "foo") = Some foo /\ mode_of (kern p) (str "bar") = Some bar /\
    mode_of (kern p') (str "foo") = Some foo' /\ mode_of (kern p') (str "bar") = Some bar' /\
    (forall i, 0 <= i < 16 -> Z.testbit foo' i = if i =? 3 then false else if i =? 10 then true else Z.testbit foo i) /\
    Z.land bar' 4095 = 420 /\ Z.land bar' S_IFMT = Z.land bar S_IFMT) p.
Proof.
  unfold chmod_main. cstep. apply completes_returns, returns_syscall. intros r w1 E1.
  apply stat_law in E1 as [-> E1]. destruct r as [statbuf|]; [|by cstep]. destruct E1 as [Hfoo _].
  cstep. apply completes_returns. mstep; simpl in *; [|do 2 cstep].
  match goal with E : k_chmod _ _ _ = _ |- _ => apply chmod_law in E as (foo & Hf & Hf' & Ho1) end.
  do 3 cstep. apply completes_returns. mstep; simpl in *; [|do 2 cstep].
  match goal with E : k_chmod (str "bar") _ _ = _ |- _ =>
    apply chmod_law in E as (bar & Hb & Hb' & Ho2) end.
  do 3 cstep. split; [done|].
  rewrite (Ho1 (str "bar")) in Hb by done. rewrite <- (Ho2 (str "foo")) in Hf' by done.
  eexists _, _, _, _. split_and!; [exact Hf|exact Hb|exact Hf'|exact Hb'|..].
  - intros i Hi. apply chmod_bits; [congruence|done].
  - apply chmod_other.
  - apply chmod_kind.
Qed.

(** *** Names *)

(** [4/5]: at the end the name is gone while the file is still open. *)
Theorem unlinked_but_open p :
  completes unlink_main (fun code p' => code = 0 /\ mode_of (kern p') (str "tempfile") = None /\
    (exists fd, fd ∉ fds (kern p) /\ fds (kern p') = {[fd]} ∪ fds (kern p)) /\
    console p' = console p ++ [Stdout (str "file removed" ++ [NL]); Stdout (str "end" ++ [NL])]) p.
Proof.
  unfold unlink_main. cstep. apply completes_returns. unfold open. mstep; simpl in *; [|do 2 cstep].
  match goal with E : k_open _ _ _ _ = _ |- _ => apply open_fds in E as (_ & Hn & Hf & _) end.
  cstep. cstep. apply completes_returns. mstep; simpl in *; [|do 2 cstep].
  match goal with E : k_unlink _ _ = _ |- _ => apply unlink_law in E as (Hf2 & Hno & _) end.
  do 3 cstep. do 2 cstep. cstep. cstep. split_and!; [done|done|exists n; simpl; by rewrite Hf2|].
  simpl. by rewrite <- app_assoc.
Qed.

(** *** Times *)

(** [4/6]: a file that is emptied keeps its times, unless setting them failed; but the descriptor
    is closed only in that case, so each success leaves one open. *)
Theorem zap_keeps_times file p :
  returns (zap_file file) (fun _ p' =>
    fds (kern p') = fds (kern p) \/
    exists fd t, fd ∉ fds (kern p) /\ fds (kern p') = {[fd]} ∪ fds (kern p) /\
      times_of (kern p) file = Some t /\ times_of (kern p') file = Some t) p.
Proof.
  unfold zap_file. mstep. apply returns_syscall. intros r w1 E1. apply stat_law in E1 as [-> E1].
  destruct r as [statbuf|e]; [|mstep; by left]. destruct E1 as [_ Ht].
  mstep. unfold open. mstep.
  2:{ match goal with E : k_open _ _ _ _ = _ |- _ => apply open_fds in E end. simpl in *.
      mstep. left. simpl. congruence. }
  match goal with E : k_open _ _ _ _ = _ |- _ =>
    pose proof (open_fds _ _ _ _ _ _ E) as (Hp & Hn & Hf & _);
    pose proof (open_law _ _ _ _ _ _ E) as (_ & _ & Hfd & _) end.
  simpl in *. rewrite (proj2 (Z.ltb_ge _ _)) by lia. mstep. mstep; simpl.
  - mstep. right.
    match goal with E : k_futimens _ _ _ = _ |- _ => apply futimens_law in E as (Hf2 & Ht2) end.
    exists n, (st_atim statbuf, st_mtim statbuf). simpl. rewrite Hf2. auto.
  - match goal with E : k_futimens _ _ _ = _ |- _ => apply futimens_law in E as (Hf2 & _) end.
    mstep. mstep. mstep. unfold close. mstep;
      match goal with E : k_close _ _ = _ |- _ => apply close_fds in E as Hf3 end;
      mstep; left; simpl in *; rewrite Hf3, Hf2, Hf; set_solver.
Qed.

End Facts.

(** *** The current directory *)

Section Cwd.
Context {W : Type} `{FileOps W} `{StatOps W} `{ConfOps W} `{CLib}.

(** [getcwd] needs room for the name and its terminator. *)
Definition getcwd_fits : Prop :=
  forall size w path w', k_getcwd size w = (SysOk path, w') -> Z.of_nat (length path) < size.

(** [4/9] where the system has no limit for path names: [path_alloc] gives a buffer of size zero,
    in which no directory name fits, and the program always ends with an error. *)
Theorem getcwd_without_limit can_alloc p :
  getcwd_fits -> (forall n, can_alloc n = true) ->
  (forall w, exists e, (k_pathconf (str "/") PC_PATH_MAX w).1 = SysErr e) ->
  exists p', getcwd_main None can_alloc statics0 p = (Exited 1, p').
Proof.
  intros Hfit Hal Hno. unfold getcwd_main, path_alloc, syscall_unit, syscall_int, syscall, mbind, M_bind.
  simpl. destruct (k_chdir_to _ _) as [[[]|e] w1]; simpl;
    [|rewrite err_sys_eq; by eexists].
  destruct (k_sysconf SC_VERSION w1) as [rv w2]. simpl.
  destruct (k_sysconf SC_XOPEN_VERSION w2) as [rx w3]. destruct rv, rx; simpl;
    (destruct (Hno w3) as [eno He]; destruct (k_pathconf _ _ w3) as [r w4]; simpl in He; subst r; simpl;
     rewrite Hal; simpl; destruct (k_getcwd _ w4) as [[path|eno2] w5] eqn:E; simpl;
     [apply Hfit in E; exfalso; assert (Z.of_nat (length path) < 0) by exact E; lia
     |rewrite err_sys_eq; by eexists]).
Qed.

(** [2/4]: the answer of [open_max] is kept: the second line shows the number of the first. *)
Lemma open_max_main_prints v p :
  (k_sysconf SC_OPEN_MAX (kern p)).1 = SysOk v -> 0 < v ->
  returns (open_max_main None) (fun code p' => code = 0 /\ console p' = console p ++
    [Stdout (str "Maximum open files limit: " ++ to_string v ++ [NL]);
     Stdout (str "Calling again (cached): " ++ to_string v ++ [NL])]) p.
Proof.
  intros Hv Hpos. unfold open_max_main. mstep. eapply returns_mono; [apply open_max_first|].
  intros [n om] p1 [-> [_ Hp]]. rewrite Hv, (proj2 (Z.ltb_ge _ _)) in Hp by lia.
  destruct Hp as [-> Hc]. do 2 mstep. mstep. apply open_max_cached; [lia|]. do 3 mstep.
  split; [done|]. simpl. rewrite Hc. by rewrite <- !app_assoc.
Qed.

End Cwd.

(** ** A file system *)

(** A concrete one, for the instances of the theorems: SimKernel.v's descriptors, whose input is
    the name of the file, with modes and times by name. *)
Record disk := Disk {
  d_sim : sim;
  d_modes : gmap bytes Z;
  d_times : gmap bytes (timespec * timespec);
  d_mask : Z;
}.

Definition on_sim {A} (f : sim -> A * sim) (w : disk) : A * disk :=
  let '(r, s) := f (d_sim w) in (r, Disk s (d_modes w) (d_times w) (d_mask w)).

Definition ENOENT : Z := 2.

Definition disk_open (path : bytes) (flags mode : Z) (w : disk) : sysres Z * disk :=
  let '(r, w) := on_sim (k_open path flags mode) w in
  (r, Disk (d_sim w)
        (<[path := default (Z.lor S_IFREG (Z.land mode (Z.lnot (d_mask w)))) (d_modes w !! path)]> (d_modes w))
        (d_times w) (d_mask w)).

#[export] Instance disk_file : FileOps disk := {
  k_read fd n := on_sim (k_read fd n);
  k_write fd b := on_sim (k_write fd b);
  k_open := disk_open;
  k_close fd := on_sim (k_close fd);
  k_dup fd := on_sim (k_dup fd);
  k_ftruncate fd n := on_sim (k_ftruncate fd n);
  k_fsync fd := on_sim (k_fsync fd);
  k_getfd fd := on_sim (k_getfd fd);
  k_setfd fd v := on_sim (k_setfd fd v);
  k_getfl fd := on_sim (k_getfl fd);
  k_setfl fd v := on_sim (k_setfl fd v);
}.

Definition disk_file_of (w : disk) (fd : Z) : option bytes := sf_in <$> s_fds (d_sim w) !! fd.

Definition disk_stat (f : bytes) (w : disk) : sysres stat_t * disk :=
  (match d_modes w !! f, d_times w !! f with
   | Some m, Some t => SysOk (Stat m 0 0 t.1 t.2)
   | _, _ => SysErr ENOENT
   end, w).

#[export] Instance disk_stats : StatOps disk := {
  k_stat := disk_stat;
  k_lstat_all := disk_stat;
  k_access f _ w := (if d_modes w !! f then SysOk tt else SysErr ENOENT, w);
  k_umask m w := (d_mask w, Disk (d_sim w) (d_modes w) (d_times w) m);
  k_chmod f m w :=
    match d_modes w !! f with
    | Some old =>
        (SysOk tt, Disk (d_sim w) (<[f := Z.lor (Z.land old S_IFMT) (Z.land m 4095)]> (d_modes w))
                     (d_times w) (d_mask w))
    | None => (SysErr ENOENT, w)
    end;
  k_unlink f w :=
    match d_modes w !! f with
    | Some _ => (SysOk tt, Disk (d_sim w) (delete f (d_modes w)) (d_times w) (d_mask w))
    | None => (SysErr ENOENT, w)
    end;
  k_futimens fd t w :=
    match disk_file_of w fd with
    | Some f => (SysOk tt, Disk (d_sim w) (d_modes w) (<[f := t]> (d_times w)) (d_mask w))
    | None => (SysErr EBADF, w)
    end;
  k_chdir_to _ w := (SysOk tt, w);
  k_getcwd size w := (if size <? 6 then SysErr 34 else SysOk (str "/home"), w);
}.

Lemma on_sim_eq {A} (f : sim -> A * sim) w r w' :
  on_sim f w = (r, w') -> f (d_sim w) = (r, d_sim w') /\
    d_modes w' = d_modes w /\ d_times w' = d_times w /\ d_mask w' = d_mask w.
Proof. unfold on_sim. destruct (f (d_sim w)) as [r1 s1]. by intros [= <- <-]. Qed.

#[export] Instance disk_fds : FdSpec disk.
Proof.
  refine {| fds w := fds (d_sim w) |}.
  - intros path fl m w r w' E. simpl in E. unfold disk_open in E.
    destruct (on_sim _ w) as [r1 w1] eqn:E1. apply on_sim_eq in E1 as [E1 _]. injection E as <- <-.
    exact (open_fds _ _ _ _ _ _ E1).
  - intros fd w r w' [E _]%on_sim_eq. by eapply dup_fds.
  - intros fd w r w' [E _]%on_sim_eq. by eapply close_fds.
  - intros fd n w r w' [E _]%on_sim_eq. by eapply read_fds.
  - intros fd d w r w' [E _]%on_sim_eq. by eapply write_fds.
Defined.

#[export] Instance disk_spec : StatSpec disk.
Proof.
  refine {| mode_of w f := d_modes w !! f; mask := d_mask;
            times_of w f := d_times w !! f; file_of := disk_file_of |}.
  - intros m w old w' [= <- <-]. done.
  - intros path fl m w r w' E. simpl in E. unfold disk_open in E.
    destruct (on_sim _ w) as [r1 w1] eqn:E1. apply on_sim_eq in E1 as (E1 & Em & _ & Ek).
    simpl in E1. unfold sim_alloc in E1. injection E as <- <-. injection E1 as <- E1. simpl.
    split; [done|]. split.
    + intros f Hf. by rewrite lookup_insert_ne, Em.
    + unfold disk_file_of. simpl. rewrite <- E1. simpl. rewrite lookup_insert_eq. simpl.
      split; [done|]. rewrite lookup_insert_eq, Em, Ek. by destruct (d_modes w !! path).
  - intros f w r w' [= <- <-]. split; [done|].
    destruct (d_modes w !! f) as [m|]; [|done]. destruct (d_times w !! f) as [[a b]|]; done.
  - intros f m w r w' E. simpl in E. destruct (d_modes w !! f) as [old|] eqn:Eo; simplify_eq; [|done].
    exists old. split; [done|]. simpl. rewrite lookup_insert_eq. split; [done|]. intros g Hg.
    by rewrite lookup_insert_ne.
  - intros f w r w' E. simpl in E. destruct (d_modes w !! f) as [old|] eqn:Eo; simplify_eq; [|done].
    split; [done|]. simpl. rewrite lookup_delete_eq. split; [done|]. intros g Hg.
    by rewrite lookup_delete_ne.
  - intros fd t w r w' E. simpl in E. destruct (disk_file_of w fd) as [f|] eqn:Ef; simplify_eq; [|done].
    split; [done|]. simpl. intros g Hg. simplify_eq. by rewrite lookup_insert_eq.
Defined.

Definition disk0 : proc disk := Proc 0 true [] (Disk (Sim ∅ 1) ∅ ∅ 18).

Lemma umask_modes_witness :
  completes umask_main (fun code p' => code = 0 /\
    mode_of (kern p') (str "foo") = Some (Z.lor S_IFREG 438) /\
    mode_of (kern p') (str "bar") = Some (Z.lor S_IFREG 384)) disk0.
Proof. apply (umask_modes disk0); reflexivity. Defined.
