(* ===== verification/Databases.v ===== *)
(** * Searches in the user databases, and programs that print what they are given

    [6/1]: [getpwnam] over [getpwent]; [6/3]: [getshadow] over [getspent]; [6/2]: [strftime] into
    buffers of two sizes; [6/4]: [uname]; [1/7], [7/3], [8/9]: ids, arguments and environment. *)

From S2P Require Import Prelude Machine Errors Kernel SimKernel Text.
From S2P Require Import Limits Exits.

(** A database that is read entry by entry: [setpwent], [getpwent] and [endpwent], or [setspent],
    [getspent] and [endspent]. *)
Class EntOps (E W : Type) := {
  k_setent : W -> W;
  k_getent : W -> option E * W;
  k_endent : W -> W;
}.

(** Its entries do not change, reading gives them in order, and after [setent] from the first. *)
Class EntSpec (E W : Type) `{EntOps E W} := {
  entries : W -> list E;
  rest : W -> list E;
  is_open : W -> bool;
  setent_law w : entries (k_setent w) = entries w /\ rest (k_setent w) = entries w /\
    is_open (k_setent w) = true;
  getent_law w r w' : k_getent w = (r, w') -> entries w' = entries w /\ is_open w' = true /\
    r = head (rest w) /\ rest w' = tail (rest w);
  endent_law w : entries (k_endent w) = entries w /\ is_open (k_endent w) = false;
}.

Record passwd := Passwd {
  pw_name : bytes; pw_passwd : bytes; pw_uid : Z; pw_gid : Z;
  pw_gecos : bytes; pw_dir : bytes; pw_shell : bytes
}.

(** The entries of the shadow file; a name may be missing. *)
Record spwd := Spwd { sp_namp : option bytes; sp_pwdp : bytes }.

Section Search.
Context {E W : Type} `{EntOps E W}.

Definition ent (f : W -> W) : M W unit := fun p =>
  (Ret tt, Proc (errno p) (log_to_stderr p) (console p) (f (kern p))).

Definition getent : M W (option E) := fun p =>
  let '(r, w) := k_getent (kern p) in (Ret r, Proc (errno p) (log_to_stderr p) (console p) w).

(** [while ((ptr = getent()) != NULL) if (matches) break;] *)
Fixpoint search_loop (fuel : nat) (matches : E -> bool) : M W (option E) :=
  match fuel with
  | O => out_of_fuel
  | S fuel =>
      r ← getent;
      match r with
      | None => mret None
      | Some e => if matches e then mret (Some e) else search_loop fuel matches
      end
  end.

Definition search (fuel : nat) (matches : E -> bool) : M W (option E) :=
  ent k_setent ;;
  r ← search_loop fuel matches;
  ent k_endent ;;
  mret r.

End Search.

(** [6/1] and [6/3]: the same loop over two databases. *)
Definition getpwnam {W} `{EntOps passwd W} (fuel : nat) (name : bytes) : M W (option passwd) :=
  search fuel (fun e => bool_decide (name = pw_name e)).

Definition getshadow {W} `{EntOps spwd W} (fuel : nat) (name : bytes) : M W (option spwd) :=
  search fuel (fun e => match sp_namp e with Some n => bool_decide (name = n) | None => false end).

Section Programs.
Context {W : Type}.

Definition printpw (pw : option passwd) : M W unit :=
  match pw with
  | None => println (str "No such user")
  | Some pw =>
      println (str "name = " ++ pw_name pw) ;;
      println (str "passwd = " ++ pw_passwd pw) ;;
      println (str "uid = " ++ to_string (pw_uid pw)) ;;
      println (str "gid = " ++ to_string (pw_gid pw)) ;;
      println (str "gecos = " ++ pw_gecos pw) ;;
      println (str "dir = " ++ pw_dir pw) ;;
      println (str "shell = " ++ pw_shell pw)
  end.

Definition getpwnam_main `{EntOps passwd W} (fuel : nat) : M W Z :=
  r ← getpwnam fuel (str "root");
  printpw r ;;
  mret 0.

Definition getshadow_main `{EntOps spwd W} (fuel : nat) : M W Z :=
  shadow_passwd ← getshadow fuel (str "root");
  match shadow_passwd with
  | Some e => println (str "Shadow password for root: " ++ sp_pwdp e)
  | None => println (str "Failed to retrieve shadow password for root.")
  end ;;
  mret 0.

(** [6/2]: [strftime] fails when the text and its terminator do not fit. *)
Definition strftime (max : nat) (text : bytes) : option bytes :=
  if (length text <? max)%nat then Some text else None.

(** What [%r, %a %b %d, %Y] expands to. *)
Context (time_text : bytes).

Definition show_time (max : nat) : M W unit :=
  match strftime max (str "time and date: " ++ time_text) with
  | None => println (str "buff length " ++ to_string (Z.of_nat max) ++ str " is too small")
  | Some buf => println buf
  end.

Definition strftime_main : M W Z := show_time 16 ;; show_time 64 ;; mret 0.

(** [6/4]. *)
Record utsname := Utsname {
  sysname : bytes; nodename : bytes; release : bytes; version : bytes; machine : bytes
}.

Definition print_utsname (uts : utsname) : M W unit :=
  println (str "System name: " ++ sysname uts) ;;
  println (str "Node name: " ++ nodename uts) ;;
  println (str "Release: " ++ release uts) ;;
  println (str "Version: " ++ version uts) ;;
  println (str "Machine: " ++ machine uts).

Definition uname_main `{CLib} (k_uname : W -> sysres utsname * W) : M W Z :=
  r ← syscall k_uname;
  match r with
  | SysErr _ => err_sys (str "uname error") []
  | SysOk uts => print_utsname uts ;; mret 0
  end.

(** [1/7], [7/3] and [8/9]. *)
Definition ids_main (getuid getgid : Z) : M W Z :=
  println (str "uid = " ++ to_string getuid ++ str ", gid = " ++ to_string getgid) ;; mret 0.

Definition arg_line (x : nat * bytes) : bytes :=
  str "argv[" ++ to_string (Z.of_nat x.1) ++ str "]: " ++ x.2.

Definition print_args (argv : list bytes) : M W unit :=
  each (fun x => println (arg_line x)) (imap pair argv).

Definition argv_main (argv : list bytes) : M W Z := print_args argv ;; mret 0.

Definition echoall_main (argv environ : list bytes) : M W unit :=
  print_args argv ;;
  each println environ ;;
  sys_exit 0.

End Programs.

(** ** What they do *)

Section SearchFacts.
Context {E W : Type} `{ES : EntSpec E W}.

Lemma search_loop_finds matches fuel (p : proc W) :
  (length (rest (kern p)) < fuel)%nat ->
  returns (search_loop fuel matches) (fun r p' =>
    r = find matches (rest (kern p)) /\ entries (kern p') = entries (kern p) /\
    console p' = console p) p.
Proof.
  revert p. induction fuel as [|fuel IH]; intros p Hf; [lia|]. simpl. mstep.
  unfold returns at 1, wp, getent. destruct (k_getent (kern p)) as [r w] eqn:Eg. simpl.
  apply getent_law in Eg as (He & _ & -> & Hr).
  destruct (rest (kern p)) as [|e l] eqn:El; simpl in *; [by mstep|].
  destruct (matches e); [by mstep|]. eapply returns_mono.
  - apply IH. simpl. rewrite Hr. lia.
  - intros r p' (-> & He' & Hc). simpl in *. by rewrite Hr, He', He.
Qed.

(** The search starts at the first entry, wherever the database was left, gives the first entry
    that matches and none when there is none, and leaves the database closed. *)
Lemma search_finds matches fuel (p : proc W) :
  (length (entries (kern p)) < fuel)%nat ->
  returns (search fuel matches) (fun r p' =>
    r = find matches (entries (kern p)) /\ is_open (kern p') = false /\ console p' = console p) p.
Proof.
  intros Hf. unfold search. mstep. unfold returns at 1, wp, ent. simpl.
  destruct (setent_law (kern p)) as (He & Hr & _). mstep. eapply returns_mono.
  - apply search_loop_finds. simpl. by rewrite Hr.
  - intros r p' (-> & He' & Hc). simpl in *. mstep. unfold returns at 1, wp, ent. simpl. mstep. simpl.
    rewrite Hr. split_and!; [done|apply endent_law|done].
Qed.

End SearchFacts.

(** [getpwnam] is [find] on the names of the database, and [getshadow] too, skipping entries
    without a name. *)
Theorem getpwnam_finds {W} `{ES : EntSpec passwd W} name fuel (p : proc W) :
  (length (entries (kern p)) < fuel)%nat ->
  returns (getpwnam fuel name) (fun r p' => is_open (kern p') = false /\ console p' = console p /\
    match r with
    | Some e => exists before after, entries (kern p) = before ++ e :: after /\ pw_name e = name /\
        Forall (fun e' => pw_name e' <> name) before
    | None => Forall (fun e' => pw_name e' <> name) (entries (kern p))
    end) p.
Proof.
  intros Hf. eapply returns_mono; [by apply search_finds|]. intros r p' (-> & Ho & Hc).
  split; [done|]. split; [done|]. clear. induction (entries (kern p)) as [|e l IH]; simpl; [done|].
  case_bool_decide as Hn.
  - exists [], l. by split_and!.
  - destruct (find _ l) as [e'|].
    + destruct IH as (b & a & -> & Hn' & Hb). exists (e :: b), a. split_and!; [done..|]. by constructor.
    + by constructor.
Qed.

Lemma getshadow_finds {W} `{ES : EntSpec spwd W} name fuel (p : proc W) :
  (length (entries (kern p)) < fuel)%nat ->
  returns (getshadow fuel name) (fun r p' => is_open (kern p') = false /\
    r = find (fun e => bool_decide (sp_namp e = Some name)) (entries (kern p))) p.
Proof.
  intros Hf. eapply returns_mono; [by apply search_finds|]. intros r p' (-> & Ho & Hc).
  split; [done|]. clear. induction (entries (kern p)) as [|e l IH]; simpl; [done|].
  rewrite IH. destruct (sp_namp e) as [n|]; [|done].
  case_bool_decide as Hn; case_bool_decide as Hm; congruence.
Qed.

(** [6/2]: with room for 16 characters the text never fits, its fixed part alone takes 15. *)
Lemma strftime_first_too_small {W} time_text (p : proc W) :
  time_text <> [] ->
  show_time time_text 16 p = println (str "buff length 16 is too small") p.
Proof.
  intros Ht. unfold show_time, strftime. rewrite (proj2 (Nat.ltb_ge _ 16)); [done|].
  rewrite length_app. destruct time_text; [done|]. simpl. lia.
Qed.

(** [7/3] and [8/9]: one line per argument in order, then one per variable. *)
Lemma each_println {W A} (f : A -> bytes) l (p : proc W) :
  each (fun x => println (f x)) l p =
  (Ret tt, Proc (errno p) (log_to_stderr p) (console p ++ ((fun x => Stdout (f x ++ [NL])) <$> l)) (kern p)).
Proof.
  revert p. induction l as [|x l IH]; intros p; simpl.
  - rewrite app_nil_r. by destruct p.
  - unfold mbind, M_bind. simpl. rewrite IH. simpl. by rewrite <- app_assoc.
Qed.

Theorem echoall_prints {W} argv environ (p : proc W) :
  exists p', echoall_main argv environ p = (Exited 0, p') /\ kern p' = kern p /\
    console p' = console p ++ ((fun x => Stdout (arg_line x ++ [NL])) <$> imap pair argv) ++
      ((fun x => Stdout (x ++ [NL])) <$> environ).
Proof.
  unfold echoall_main, print_args, mbind, M_bind. rewrite each_println.
  rewrite (each_println (fun x => x) environ). eexists. split; [done|]. split; [done|]. simpl.
  by rewrite <- app_assoc.
Qed.

(** A database of entries and the position in it. *)
Record table (E : Type) := Table { t_all : list E; t_pos : option (list E) }.
Arguments Table {E}.
Arguments t_all {E}.
Arguments t_pos {E}.

#[export] Instance table_ops E : EntOps E (table E) := {
  k_setent w := Table (t_all w) (Some (t_all w));
  k_getent w := let l := default (t_all w) (t_pos w) in (head l, Table (t_all w) (Some (tail l)));
  k_endent w := Table (t_all w) None;
}.

#[export] Instance table_spec E : EntSpec E (table E).
Proof.
  refine {| entries := t_all; rest w := default (t_all w) (t_pos w);
            is_open w := if t_pos w then true else false |}.
  - done.
  - intros w r w' [= <- <-]. done.
  - done.
Defined.

Lemma getpwnam_finds_witness :
  let root := Passwd (str "root") (str "x") 0 0 [] (str "/root") (str "/bin/sh") in
  let sar := Passwd (str "sar") (str "x") 1 1 [] (str "/home/sar") (str "/bin/sh") in
  returns (getpwnam 3 (str "root")) (fun r p' => is_open (kern p') = false /\ console p' = [] /\
    match r with
    | Some e => exists before after, [sar; root] = before ++ e :: after /\ pw_name e = str "root" /\
        Forall (fun e' => pw_name e' <> str "root") before
    | None => Forall (fun e' => pw_name e' <> str "root") [sar; root]
    end) (Proc 0 true [] (Table [sar; root] None)).
Proof.
  intros root sar.
  refine (getpwnam_finds (str "root") 3 (Proc 0 true [] (Table [sar; root] None)) _). simpl. lia.
Defined.
