(* ===== verification/StreamPrograms.v ===== *)
(** * Programs about stdio streams: [5/3] to [5/7], [7/7]

    [Buffering]: how [5/3] finds out the mode of a stream, [mysetbuf] of [5/7] and the automatic
    buffers of [5/7] and [7/7].  [Temporary]: [5/4] and [5/5].  [Memory]: the memory stream of
    [5/6]. *)

From S2P Require Import Prelude Machine Errors Kernel SimKernel Text.
From S2P Require Import Limits Stdio Exits.

(** ** Modes of streams *)

Module Buffering.

(** The members of the C library's [FILE] the program looks at; addresses are numbers. *)
Record FILE := File { _flags : Z; _IO_buf_base : Z; _IO_buf_end : Z }.

(** Arguments of [setvbuf]. *)
Definition _IOFBF : Z := 0.
Definition _IOLBF : Z := 1.
Definition _IONBF : Z := 2.

(** What the C library keeps in [_flags]. *)
Definition _IO_USER_BUF : Z := 1.
Definition _IO_UNBUFFERED : Z := 2.
Definition _IO_LINE_BUF : Z := 512.

Definition is_unbuffered (fp : FILE) : Z := Z.land (_flags fp) _IONBF.
Definition is_linebuffered (fp : FILE) : Z := Z.land (_flags fp) _IOLBF.

(** The difference of the addresses is converted to [int]. *)
Definition buffer_size (fp : FILE) : Z :=
  if negb (_IO_buf_base fp =? 0) then wrap_signed 32 (_IO_buf_end fp - _IO_buf_base fp) else 0.

Definition mode_text (fp : FILE) : bytes :=
  if negb (is_unbuffered fp =? 0) then str "no buffering"
  else if negb (is_linebuffered fp =? 0) then str "lined buffering"
  else str "full buffering".

Section Prog.
Context {W : Type} `{StdioOps W} `{CLib}.
(** The streams as they are in memory, and [fopen]. *)
Context (file : Z -> W -> FILE) (k_fopen : bytes -> W -> sysres Z * W).

Definition pr_stdio (name : bytes) (s : Z) : M W unit := fun p =>
  (let fp := file s (kern p) in
   print (str "stream = " ++ name ++ str ", ") ;;
   print (mode_text fp) ;;
   println (str ", bufsize = " ++ to_string (buffer_size fp))) p.

Definition stderr : Z := 2.

Definition buffering_main : M W Z :=
  fputs (str "Enter any symbol" ++ [NL]) stdout ;;
  c ← getc stdin;
  (if bool_decide (c = None) then err_sys (str "call getchar") [] else mret tt) ;;
  fputs (str "this line oputputs to sterr" ++ [NL]) stderr ;;
  pr_stdio (str "stdin") stdin ;;
  pr_stdio (str "stdout") stdout ;;
  pr_stdio (str "stderr") stderr ;;
  fp ← syscall (k_fopen (str "/etc/passwd"));
  match fp with
  | SysErr _ => err_sys (str "call fopen") []
  | SysOk fp =>
      c ← getc fp;
      (if bool_decide (c = None) then err_sys (str "call getc") [] else mret tt) ;;
      pr_stdio (str "/etc/passwd") fp ;;
      mret 0
  end.

End Prog.

(** The true mode of a stream. *)
Definition true_mode (fp : FILE) : Z :=
  if Z.testbit (_flags fp) 1 then _IONBF else if Z.testbit (_flags fp) 9 then _IOLBF else _IOFBF.

Lemma land_bit x n : 0 <= n -> negb (Z.land x (2 ^ n) =? 0) = Z.testbit x n.
Proof.
  intros Hn. assert (E : Z.land x (2 ^ n) = if Z.testbit x n then 2 ^ n else 0).
  { apply Z.bits_inj'. intros i Hi. rewrite Z.land_spec, Z.pow2_bits_eqb by done.
    destruct (Z.eqb_spec n i) as [->|Hne].
    - rewrite andb_true_r. destruct (Z.testbit x i); [by rewrite Z.pow2_bits_true|by rewrite Z.bits_0].
    - rewrite andb_false_r. destruct (Z.testbit x n); [by rewrite Z.pow2_bits_false|by rewrite Z.bits_0]. }
  rewrite E. destruct (Z.testbit x n); [|done]. pose proof (Z.pow_pos_nonneg 2 n).
  rewrite (proj2 (Z.eqb_neq _ _)) by lia. done.
Qed.

(** What [5/3] says of a stream: it tells unbuffered streams, but for line buffering it tests the
    bit that marks a buffer supplied by the user. *)
Theorem mode_text_spec fp :
  mode_text fp =
  if Z.testbit (_flags fp) 1 then str "no buffering"
  else if Z.testbit (_flags fp) 0 then str "lined buffering"
  else str "full buffering".
Proof. unfold mode_text, is_unbuffered, is_linebuffered. 
  by rewrite (land_bit _ 1), (land_bit _ 0) by lia. Qed.

(** So every line-buffered stream with a buffer of the library's is called fully buffered. *)
Lemma line_buffering_is_missed fp :
  true_mode fp = _IOLBF -> Z.testbit (_flags fp) 0 = false -> mode_text fp = str "full buffering".
Proof.
  unfold true_mode. rewrite mode_text_spec. destruct (Z.testbit (_flags fp) 1); [done|].
  by intros _ ->.
Qed.

(** *** Automatic buffers *)

(** A stream has a buffer of the function call at some depth, or of the library. *)
Inductive bufmode := Full | LineBuf | Unbuf.
Record world := World {
  depth : nat;                              (* function calls in progress *)
  mode : bufmode;
  buffer : option nat;
  measured : list (bufmode * Z);            (* lines printed, with the mode at the time *)
}.

(** The buffer is gone when its function has returned. *)
Definition dangling (w : world) : Prop := exists d, buffer w = Some d /\ (depth w < d)%nat.

Section Setbuf.
Context `{CLib}.

Definition upd (f : world -> world) : M world unit := fun p =>
  (Ret tt, Proc (errno p) (log_to_stderr p) (console p) (f (kern p))).

(** A function call: [m] runs one level deeper. *)
Definition in_call {A} (m : M world A) : M world A :=
  upd (fun w => World (S (depth w)) (mode w) (buffer w) (measured w)) ;;
  a ← m;
  upd (fun w => World (pred (depth w)) (mode w) (buffer w) (measured w)) ;;
  mret a.

(** [setvbuf] may refuse. *)
Definition setvbuf (ok : bool) (buf : option nat) (m : bufmode) : M world Z :=
  if ok then upd (fun w => World (depth w) m buf (measured w)) ;; mret 0 else mret (-1).

Definition mysetbuf (ok : bool) (buf : option nat) : M world unit :=
  r ← setvbuf ok buf (if buf then Full else Unbuf);
  if r <? 0 then err_sys (str "call setvbuf") [] else mret tt.

Definition print_lines (n : Z) : M world unit :=
  upd (fun w => World (depth w) (mode w) (buffer w) (measured w ++ [(mode w, n)])).

(** [main] of [5/7]; the readings of the clock and the text of their quotient are arguments. *)
Definition mysetbuf_main (ok : bool) (t1 t2 t3 t4 : Z) (ratio : bytes) : M world Z :=
  in_call (
    (fun p => mysetbuf ok (Some (depth (kern p))) p) ;;
    print_lines 100000 ;;
    emit (Stderr (str "Time for fully buffered = " ++ to_string (to_size_t (t2 - t1)))) ;;
    print_lines 100000 ;;
    emit (Stderr (str "Time for unbuffered = " ++ to_string (to_size_t (t4 - t3)))) ;;
    emit (Stderr (str "Difference = " ++ ratio)) ;;
    mret 0).

(** [open_data] of [7/7]: whether the stream was opened. *)
Definition open_data (opened ok : bool) : M world bool :=
  in_call (
    if negb opened then mret false
    else
      r ← (fun p => setvbuf ok (Some (depth (kern p))) LineBuf p);
      mret (r =? 0)).

(** [main] of [7/7]; [fclose] of a stream that was only opened for reading and not read does not
    use its buffer. *)
Definition autoval_main (opened ok : bool) : M world Z := open_data opened ok ;; mret 0.

(** [5/7] measures the same mode twice, and leaves the standard output, which [exit] is still to
    flush, with a buffer that no longer exists. *)
Theorem mysetbuf_main_spec t1 t2 t3 t4 ratio p :
  returns (mysetbuf_main true t1 t2 t3 t4 ratio) (fun code p' => code = 0 /\
    measured (kern p') = measured (kern p) ++ [(Full, 100000); (Full, 100000)] /\
    dangling (kern p')) p.
Proof.
  unfold returns, wp. simpl. split; [done|]. rewrite <- app_assoc. split; [done|].
  exists (S (depth (kern p))). simpl. split; [done|]. lia.
Qed.

(** Every stream that [open_data] returns has a buffer that no longer exists. *)
Theorem open_data_dangles opened ok p :
  returns (open_data opened ok) (fun r p' => r = true -> dangling (kern p')) p.
Proof.
  unfold returns, wp. destruct opened, ok; simpl; try done. intros _.
  exists (S (depth (kern p))). simpl. split; [done|]. lia.
Qed.

End Setbuf.
End Buffering.

(** ** Temporary files *)

Module Temporary.

Definition ENOENT : Z := 2.

Class TempOps (W : Type) := {
  k_tmpnam : W -> sysres bytes * W;
  k_tmpfile : W -> sysres Z * W;
  k_rewind : Z -> W -> W;
  k_mkstemp : bytes -> W -> sysres (Z * bytes) * W;     (* the descriptor, the name in the template *)
  k_exists : bytes -> W -> sysres unit * W;             (* [stat] *)
  k_unlink : bytes -> W -> sysres unit * W;
}.

(** [rewind] makes what was written the input; the names of files, [mkstemp]'s being new. *)
Class TempSpec (W : Type) `{StdioSpec W} `{FdSpec W} `{TempOps W} := {
  names : W -> gset bytes;
  tmpnam_law w r w' : k_tmpnam w = (r, w') -> forall t, written w' t = written w t;
  tmpfile_law w r w' : k_tmpfile w = (r, w') ->
    (forall t, r <> SysOk t -> written w' t = written w t) /\
    match r with SysOk s => s <> stdout /\ written w' s = [] /\ breaks w' s = false | SysErr _ => True end;
  rewind_law s w : input (k_rewind s w) s = written w s /\
    (forall t, breaks (k_rewind s w) t = breaks w t) /\ (forall t, written (k_rewind s w) t = written w t);
  mkstemp_law t w r w' : k_mkstemp t w = (r, w') ->
    match r with
    | SysOk (fd, name) => (name ∉ names w) /\ names w' = {[name]} ∪ names w /\
        (fd ∉ fds w) /\ fds w' = {[fd]} ∪ fds w /\ 0 <= fd
    | SysErr _ => True
    end;
  exists_law f w r w' : k_exists f w = (r, w') -> w' = w /\
    match r with SysOk _ => f ∈ names w | SysErr e => e = ENOENT -> f ∉ names w end;
  unlink_law f w r w' : k_unlink f w = (r, w') ->
    fds w' = fds w /\ (r = SysOk tt -> names w' = names w ∖ {[f]});
  close_names fd w r w' : k_close fd w = (r, w') -> names w' = names w;
}.

Section Programs.
Context {W : Type} `{FileOps W} `{StdioOps W} `{TempOps W} `{CLib}.

(** [5/5]: the template is passed by value. *)
Definition make_temp (tmplate : bytes) : M W unit :=
  r ← syscall (k_mkstemp tmplate);
  match r with
  | SysErr _ => err_sys (str "call mkstemp") []
  | SysOk (fd, tmplate) =>
      println (str "temp name = " ++ tmplate) ;;
      close fd ;;
      r ← syscall (k_exists tmplate);
      match r with
      | SysErr _ =>
          e ← get_errno;
          if e =? ENOENT then println (str "file not exist") else err_sys (str "call stat") []
      | SysOk _ =>
          println (str "file exists") ;;
          syscall (k_unlink tmplate) ;;
          mret tt
      end
  end.

Definition mkstemp_main : M W Z :=
  let good_template := str "/tmp/dirXXXXXX" in
  println (str "ettemp to create first temp file...") ;;
  make_temp good_template ;;
  print (str "attemp to create second temp file...") ;;
  make_temp good_template ;;
  mret 0.

(** [5/4]. *)
Definition tmp_main : M W Z :=
  n ← syscall (k_tmpnam);
  println (match n with SysOk n => n | SysErr _ => str "(null)" end) ;;
  name ← syscall (k_tmpnam);
  match name with
  | SysErr _ => err_sys (str "call tmpnam") []
  | SysOk name =>
      println name ;;
      fp ← syscall k_tmpfile;
      match fp with
      | SysErr _ => err_sys (str "call tmpfile") []
      | SysOk fp =>
          fputs (str "written line" ++ [NL]) fp ;;
          call (fun w => (tt, k_rewind fp w)) ;;
          line ← fgets MAXLINE fp;
          match line with
          | None => err_sys (str "call fgets") []
          | Some line => fputs line stdout ;; mret 0
          end
      end
  end.

End Programs.

Section Facts.
Context {W : Type} `{FO : FileOps W} `{FD : !FdSpec W} `{SO : StdioOps W} `{SS : !StdioSpec W}.
Context `{TO : TempOps W} `{TS : !TempSpec W} `{CL : CLib}.
Implicit Types p : proc W.

(** [make_temp] creates a file under a new name, sees that it exists, and leaves neither a
    descriptor nor, when it can be removed, the file. *)
Lemma make_temp_cleans tmplate p :
  (forall f w, (k_unlink f w).1 = SysOk tt) ->
  completes (make_temp tmplate) (fun _ p' => names (kern p') = names (kern p) /\
    fds (kern p') = fds (kern p) /\ exists name, (name ∉ names (kern p)) /\
    console p' = console p ++ [Stdout (str "temp name = " ++ name ++ [NL]);
                               Stdout (str "file exists" ++ [NL])]) p.
Proof.
  intros Hun. unfold make_temp. cstep. apply completes_returns, returns_syscall. intros r w1 E1.
  apply mkstemp_law in E1. destruct r as [[fd name]|e]; [|by cstep].
  destruct E1 as (Hn & Hn1 & Hf & Hf1 & _). do 2 cstep. cstep. unfold close. apply completes_returns.
  apply returns_syscall_unit; intros * E2; simpl in E2;
    pose proof (close_fds _ _ _ _ E2) as Hf2; apply close_names in E2;
    (cstep; apply completes_returns, returns_syscall; intros r w3 E3; apply exists_law in E3 as [-> Hex];
     destruct r as [[]|e3]; simpl in *;
     [|cstep; unfold completes at 1, wp; simpl; destruct (Z.eqb_spec e3 ENOENT) as [->|]; [|by cstep];
       exfalso; apply Hex; [done|]; rewrite E2, Hn1; set_solver];
     do 2 cstep; cstep; apply completes_returns, returns_syscall; intros r w4 E4;
     pose proof (Hun name w') as Hok; simpl in E4; rewrite E4 in Hok; simpl in Hok; subst r;
     apply unlink_law in E4 as [Hf4 Hn4]; specialize (Hn4 eq_refl);
     cstep; simpl; split; [rewrite Hn4, E2, Hn1; set_solver|]; split; [rewrite Hf4, Hf2, Hf1; set_solver|];
     exists name; split; [done|]; by rewrite <- !app_assoc).
Qed.

(** [5/5]: both calls succeed in making a file of their own, and nothing is left. *)
Theorem mkstemp_main_cleans p :
  (forall f w, (k_unlink f w).1 = SysOk tt) ->
  completes mkstemp_main (fun code p' => code = 0 /\ names (kern p') = names (kern p) /\
    fds (kern p') = fds (kern p)) p.
Proof.
  intros Hun. unfold mkstemp_main. do 2 cstep.
  cstep. eapply completes_mono; [by apply make_temp_cleans|]. intros _ p1 (Hn1 & Hf1 & _). simpl in *.
  do 2 cstep. cstep. eapply completes_mono; [by apply make_temp_cleans|]. intros _ p2 (Hn2 & Hf2 & _).
  simpl in *. cstep. split; [done|]. split; congruence.
Qed.

Lemma returns_fputs_succeeds buf s (Q : bool -> proc W -> Prop) p :
  (forall s d w, (k_fwrite s d w).1 = true) ->
  (forall p', (forall t, breaks (kern p') t = breaks (kern p) t) ->
     (forall t, written (kern p') t =
        if decide (t = s) then written (kern p) s ++ c_string buf else written (kern p) t) -> Q true p') ->
  returns (fputs buf s) Q p.
Proof.
  intros Hok HQ. apply returns_call. intros ok w E.
  pose proof (Hok s (c_string buf) (kern p)) as Ht. rewrite E in Ht. simpl in Ht. subst ok.
  apply fwrite_law in E as (Hb & _ & Ho & Hw). apply HQ; [done|]. intros t. simpl.
  case_decide as D; [subst; by apply Hw|by apply Ho].
Qed.

(** [5/4]: the line written to the temporary file is read back and reaches standard output. *)
Theorem tmp_roundtrip p :
  (forall s d w, (k_fwrite s d w).1 = true) ->
  completes tmp_main (fun code p' => code = 0 /\
    written (kern p') stdout = written (kern p) stdout ++ str "written line" ++ [NL]) p.
Proof.
  intros Hok. unfold tmp_main. cstep. apply completes_returns, returns_syscall. intros r1 w1 E1.
  assert (Ht1 : forall t, written w1 t = written (kern p) t) by (by eapply tmpnam_law).
  do 2 cstep. cstep. apply completes_returns, returns_syscall. intros r2 w2 E2. simpl in E2.
  assert (Ht2 : forall t, written w2 t = written w1 t) by (by eapply tmpnam_law).
  destruct r2 as [name|]; [|by cstep]. do 2 cstep. cstep. apply completes_returns, returns_syscall.
  intros r3 w3 E3. simpl in E3. apply tmpfile_law in E3 as [Ho3 Hs3].
  destruct r3 as [fp|]; [|by cstep]. destruct Hs3 as (Hne & Hw3 & Hb3).
  cstep. apply completes_returns, returns_fputs_succeeds; [done|]. intros p4 Hb4 Hw4. simpl in *.
  cstep. apply completes_returns, returns_call. intros [] w5 [= <-].
  destruct (rewind_law fp (kern p4)) as (Hi5 & Hb5 & Hw5).
  assert (Hin : input (k_rewind fp (kern p4)) fp = str "written line" ++ [NL]).
  { rewrite Hi5, Hw4, decide_True, Hw3 by done. reflexivity. }
  cstep. apply completes_returns, returns_fgets; simpl; [unfold MAXLINE; lia|..].
  - intros p6 _ _ Hr. cstep. apply completes_returns, returns_fputs_succeeds; [done|]. intros p7 _ Hw7.
    cstep. split; [done|]. rewrite Hw7, decide_True, (rd_written _ _ _ Hr) by done. simpl.
    rewrite Hw5, Hw4, decide_False, (Ho3 stdout), Ht2, Ht1 by congruence. f_equal.
    rewrite Hin. reflexivity.
  - intros p6 _ _ _ [Hb|Hnil]; [|by rewrite Hin in Hnil]. simpl in Hb.
    rewrite Hb5, Hb4, Hb3 in Hb. done.
Qed.

End Facts.
End Temporary.

(** ** [5/6]: a stream in memory *)

Module Memory.

Definition BSZ : nat := 48.

(** The buffer, the position and the size of the stream, and what was not flushed yet. *)
Record memstream := Mem { buf : bytes; pos : nat; len : nat; pending : bytes }.

Definition store (at_ : nat) (d b : bytes) : bytes := take at_ b ++ d ++ drop (at_ + length d) b.

(** [memset(buf, c, BSZ - 2); buf[BSZ - 2] = '\0'; buf[BSZ - 1] = 'X';] *)
Definition fill (c : Z) : bytes := replicate (BSZ - 2) c ++ [0; 88].

(** [fmemopen(buf, BSZ, "w+")] makes the stream, and the string in the buffer, empty. *)
Definition fmemopen (b : bytes) : memstream := Mem (store 0 [0] b) 0 0 [].

Definition fprintf (d : bytes) (m : memstream) : memstream := Mem (buf m) (pos m) (len m) (pending m ++ d).

(** What fits is written at the position; a null byte follows when the stream has grown and there
    is room. *)
Definition flush (m : memstream) : memstream :=
  let d := take (BSZ - pos m) (pending m) in
  let e := (pos m + length d)%nat in
  let b := store (pos m) d (buf m) in
  Mem (if ((len m <? e) && (e <? BSZ))%nat then store e [0] b else b) e (Nat.max (len m) e) [].

Definition seek_start (m : memstream) : memstream :=
  let m := flush m in Mem (buf m) 0 (len m) [].

(** The program writes to the buffer directly. *)
Definition refill (c : Z) (m : memstream) : memstream := Mem (fill c) (pos m) (len m) (pending m).

Definition text (m : memstream) : bytes := c_string (buf m).
Definition strlen (m : memstream) : bytes := to_string (Z.of_nat (length (text m))).

Section Prog.
Context {W : Type} `{CLib}.

Definition fmemopen_main (opened : bool) : M W Z :=
  if negb opened then err_sys (str "call fmemopen") []
  else
    let m := fmemopen (fill 97) in
    println (str "init buffer consists: " ++ text m ++ [NL]) ;;
    let m := fprintf (str "Hello World") m in
    println (str "before flush: " ++ text m) ;;
    let m := flush m in
    println (str "after fflush: " ++ text m) ;;
    println (str "string length buffer = " ++ strlen m) ;;
    let m := seek_start (fprintf (str "Hello World") (refill 98 m)) in
    println (str "after fseek: " ++ text m) ;;
    println (str "string length buffer = " ++ strlen m) ;;
    let m := flush (fprintf (str "Hello World") (refill 99 m)) in
    println (str "after fclose: " ++ text m) ;;
    println (str "string length buffer = " ++ strlen m) ;;
    mret 0.

End Prog.

(** The buffer keeps its size, and a flush never writes past it, whatever is written. *)
Lemma length_store at_ d b : (at_ + length d <= length b)%nat -> length (store at_ d b) = length b.
Proof. intros Hl. unfold store. rewrite !length_app, length_take, length_drop. lia. Qed.

Lemma flush_in_bounds m :
  length (buf m) = BSZ -> (pos m <= BSZ)%nat ->
  length (buf (flush m)) = BSZ /\ (pos (flush m) <= BSZ)%nat /\ pending (flush m) = [].
Proof.
  intros Hb Hp. unfold flush. simpl.
  assert (Hd : (length (take (BSZ - pos m) (pending m)) <= BSZ - pos m)%nat)
    by (rewrite length_take; lia).
  set (d := take (BSZ - pos m) (pending m)) in *.
  assert (Hs : length (store (pos m) d (buf m)) = BSZ) by (rewrite length_store; lia).
  split; [|split; [lia|done]].
  destruct ((len m <? pos m + length d)%nat && (pos m + length d <? BSZ)%nat) eqn:E; [|done].
  apply andb_true_iff in E as [_ E%Nat.ltb_lt]. rewrite length_store; simpl; lia.
Qed.

(** What is flushed is in the buffer at the position, when it fits. *)
Theorem flush_writes m :
  length (buf m) = BSZ -> (pos m + length (pending m) < BSZ)%nat ->
  take (length (pending m)) (drop (pos m) (buf (flush m))) = pending m /\
  take (pos m) (buf (flush m)) = take (pos m) (buf m).
Proof.
  intros Hb Hp. unfold flush. simpl. rewrite (take_ge (pending m)) by lia.
  set (e := (pos m + length (pending m))%nat). set (b := store (pos m) (pending m) (buf m)).
  assert (Hb1 : take e b = take (pos m) (buf m) ++ pending m).
  { unfold b, store, e. rewrite app_assoc. rewrite take_app_ge by (rewrite length_app, length_take; lia).
    rewrite length_app, length_take. replace (_ - _)%nat with 0%nat by lia. by rewrite take_0, app_nil_r. }
  assert (Hr : exists r, (if ((len m <? e) && (e <? BSZ))%nat then store e [0] b else b)
                         = take (pos m) (buf m) ++ pending m ++ r).
  { destruct ((len m <? e) && (e <? BSZ))%nat.
    - eexists. unfold store. rewrite Hb1. by rewrite <- app_assoc.
    - exists (drop e b). rewrite app_assoc, <- Hb1. by rewrite take_drop. }
  destruct Hr as [r ->]. assert (Hl : length (take (pos m) (buf m)) = pos m) by (rewrite length_take; lia).
  split.
  - rewrite drop_app_ge by lia. rewrite Hl, Nat.sub_diag, drop_0. by rewrite take_app_length.
  - rewrite take_app_le by lia. by rewrite take_ge by lia.
Qed.

(** [5/6]: the text is in the buffer after a flush only; the second one is appended at the
    position, with a null byte because the stream grew, the third written over the beginning
    without one. *)
Theorem fmemopen_prints {W} (p : proc W) :
  returns (fmemopen_main true) (fun code p' => code = 0 /\ console p' = console p ++
    ((fun s => Stdout (s ++ [NL])) <$>
     [str "init buffer consists: " ++ [NL]; str "before flush: "; str "after fflush: Hello World";
      str "string length buffer = 11"; str "after fseek: " ++ replicate 11 98 ++ str "Hello World";
      str "string length buffer = 22"; str "after fclose: Hello World" ++ replicate 35 99;
      str "string length buffer = 46"])) p.
Proof.
  unfold returns, wp, fmemopen_main, mbind, M_bind, println, emit. simpl. split; [done|].
  rewrite <- !app_assoc. reflexivity.
Qed.

End Memory.
