(* ===== verification/Setups.v ===== *)
(** * What programs do around their loops

    The code before the [fork] of [10/24], [15/12], [14/4], [14/6] and [14/11] (their loops and children are
    in Handshake.v, Counter.v and LockPrograms.v), the reports and main functions of [4/7] and
    [4/12] (Ftw.v), the set-up of [12/2] and [12/7], the main functions of [10/5], [10/10], [11/8],
    [12/3] and [7/1], the constructors of the classes of [11/5], [11/6], [11/9], [11/10] and
    [11/11], the shared memory of [15/11] and the dangling result of [11/3]. *)

From S2P Require Import Prelude Machine Errors Kernel SimKernel Text FileIO Time.
From S2P Require Import Locks Handshake Limits Ftw ProcThreads SignalThread MmapCopy.
From S2P Require Import Exits Masks FilePrograms.
Import Signals.

(** ** Before the fork *)

Module BeforeFork.

Definition O_RDWR : Z := 2.
Definition O_RDWR_CREAT_TRUNC : Z := 578.
Definition SIZE : Z := 8.

Section Progs.
Context {W : Type} `{FileOps W} `{SigOps W} `{WaitOps W} `{MmapOps W} `{CLib}.

(** [if (!writen(fd, text, n)) err_sys(msg);] *)
Definition write_all (fd : Z) (text msg : bytes) : M W unit :=
  r ← writen fd text (zlen text);
  if failed r then err_sys msg [] else mret tt.

(** [10/24]: the file with the number, the signals, and the two processes. *)
Definition handshake_setup : M W (Z * statics * Z) :=
  fd ← open (str "tempfile") O_RDWR_CREAT_TRUNC FILE_MODE;
  (if fd <? 0 then err_sys (str "call open") [] else mret tt) ;;
  write_all fd (str "0") (str "call write") ;;
  st ← TELL_WAIT_SIGNAL;
  pid ← syscall_int k_fork;
  (if pid <? 0 then err_sys (str "fork") [] else mret tt) ;;
  mret (fd, st, pid).

(** [15/12]: the shared area; [update] gives the value before the increment, as an [int]. *)
Definition update (area : Z) : Z * Z := (wrap_signed 32 area, area + 1).

Definition shm_setup : M W (Z * statics * Z) :=
  fd ← open (str "/dev/zero") O_RDWR 0;
  (if fd <? 0 then err_sys (str "call open /dev/zero") [] else mret tt) ;;
  area ← syscall_int (k_mmap SIZE true fd 0);
  (if area <? 0 then err_sys (str "call mmap") [] else mret tt) ;;
  close fd ;;
  st ← TELL_WAIT_SIGNAL;
  pid ← syscall_int k_fork;
  (if pid <? 0 then err_sys (str "call fork") [] else mret tt) ;;
  mret (area, st, pid).

(** [14/4]. *)
Definition deadlock_setup : M W (Z * statics * Z) :=
  fd ← creat (str "templock") FILE_MODE;
  (if fd <? 0 then err_sys (str "call creat " ++ quoted (str "templock")) [] else mret tt) ;;
  write_all fd (str "ab") (str "call write to " ++ quoted (str "templock") ++ str " " ++ quoted (str "ab")) ;;
  st ← TELL_WAIT_SIGNAL;
  pid ← syscall_int k_fork;
  (if pid <? 0 then err_sys (str "call fork") [] else mret tt) ;;
  mret (fd, st, pid).

(** [14/6]: set-group-ID without group execution asks for mandatory locking. *)
Definition mandatory_setup (k_fstat : Z -> W -> sysres Z * W) (k_fchmod : Z -> Z -> W -> sysres unit * W)
    (argv : list bytes) : M W (Z * statics * Z) :=
  match argv with
  | [_; file] =>
      fd ← open file O_RDWR_CREAT_TRUNC FILE_MODE;
      (if fd <? 0 then err_sys (str "call open {}") [file] else mret tt) ;;
      write_all fd (str "abcdef") (str "call write") ;;
      st_mode ← syscall_int (k_fstat fd);
      (if st_mode <? 0 then err_sys (str "call fstat") [] else mret tt) ;;
      r ← syscall_unit (k_fchmod fd (Z.lor (Z.land st_mode (Z.lnot S_IXGRP)) S_ISGID));
      (if r <? 0 then err_sys (str "call fchmod") [] else mret tt) ;;
      st ← TELL_WAIT_SIGNAL;
      pid ← syscall_int k_fork;
      (if pid <? 0 then err_sys (str "call fork") [] else mret tt) ;;
      mret (fd, st, pid)
  | _ => err_quit (str "Usage {} filename") [hd [] argv]
  end.

(** [14/11]: the file and the first process; the second [fork] is made by the parent. *)
Definition readers_setup : M W (Z * statics * Z) :=
  let filepath := str "testfile.txt" in
  fd ← open filepath O_RDWR_CREAT FILE_MODE;
  (if fd =? -1 then err_sys (str "call open for {}") [filepath] else mret tt) ;;
  st ← TELL_WAIT_SIGNAL;
  pid ← syscall_int k_fork;
  (if pid <? 0 then err_sys (str "call fork") [] else mret tt) ;;
  mret (fd, st, pid).

Definition mandatory_parent `{LockOps W} (junk fd pid : Z) : M W unit :=
  r ← write_lock junk fd 0 SEEK_SET 0;
  (if r <? 0 then err_sys (str "call write_lock") [] else mret tt) ;;
  TELL_CHILD_SIGNAL pid ;;
  r ← syscall_int (k_waitpid pid);
  if r <? 0 then err_sys (str "call waitpid") [] else mret tt.

End Progs.

(** What a process has when it leaves the set-up. *)
Section Facts.
Context {W : Type} `{FO : FileOps W} `{SO : SigOps W} `{SS : !SigSpec W} `{WO : WaitOps W} `{MO : MmapOps W}.
Context `{FS : !FdSpec W} `{CL : CLib}.
(** Signal calls and [fork] leave descriptors alone, and [fork] the mask. *)
Context (sig_fds : forall s h fl w, fds (k_sigaction s h fl w).2 = fds w)
        (mask_fds : forall a w, fds (k_sigprocmask a w).2 = fds w)
        (fork_keeps : forall w, fds (k_fork w).2 = fds w /\ mask_of (k_fork w).2 = mask_of w)
        (mmap_fds : forall n wr fd off w, fds (k_mmap n wr fd off w).2 = fds w).
Implicit Types p : proc W.

Lemma tell_wait_completes p :
  completes TELL_WAIT_SIGNAL (fun _ p' => fds (kern p') = fds (kern p) /\
    {[SIGUSR1; SIGUSR2]} ⊆ mask_of (kern p')) p.
Proof.
  assert (Hsig : forall s h (Q : option handler -> proc W -> Prop) q,
    (forall r q', fds (kern q') = fds (kern q) -> Q r q') -> completes (apue_signal s h) Q q).
  { intros s h Q q HQ. unfold apue_signal. cstep. apply completes_returns, returns_syscall.
    intros r w E. cstep. apply HQ. simpl. pose proof (sig_fds s h (if s =? SIGALRM then 0 else Z.lor 0 SA_RESTART) (kern q)) as F.
    by rewrite E in F. }
  unfold TELL_WAIT_SIGNAL. cstep. apply Hsig. intros [h1|] p1 F1; [|by cstep].
  cstep. apply Hsig. intros [h2|] p2 F2; [|by cstep].
  unfold sigprocmask. cstep. apply completes_returns, returns_syscall. intros r3 w3 E3.
  pose proof (mask_fds (Some (SIG_BLOCK, {[SIGUSR1; SIGUSR2]})) (kern p2)) as F3. rewrite E3 in F3.
  apply sigprocmask_law in E3 as [_ E3]. destruct r3 as [old|]; [|by cstep]. destruct E3 as [_ Hm].
  cstep. simpl in *. split; [congruence|]. rewrite Hm. set_solver.
Qed.

(** The end of each set-up: the signals, then the fork. *)
Lemma tell_wait_fork_completes {A} (x : A) msg p :
  completes (st ← TELL_WAIT_SIGNAL; pid ← syscall_int k_fork;
             (if pid <? 0 then err_sys msg [] else mret tt) ;; mret (x, st, pid))
    (fun r p' => r.1.1 = x /\ 0 <= r.2 /\ fds (kern p') = fds (kern p) /\
       {[SIGUSR1; SIGUSR2]} ⊆ mask_of (kern p')) p.
Proof.
  cstep. eapply completes_mono; [apply tell_wait_completes|]. intros st p1 [F1 M1].
  cstep. destruct (fork_keeps (kern p1)) as [F2 M2]. apply completes_returns.
  mstep; simpl in *; match goal with E : k_fork _ = _ |- _ => rewrite E in F2, M2 end;
    [|do 2 cstep]. cstep. cstep. simpl in *.
  match goal with Hn : (_ <? 0) = false |- _ => apply Z.ltb_ge in Hn end.
  split_and!; [done|done|congruence|by rewrite M2].
Qed.

(** [15/12]: when the processes part, both have the two signals blocked, so that none can be lost
    before the first wait, and the descriptor of the mapped device is closed. *)
Theorem shm_setup_ready p :
  completes shm_setup (fun r p' => fds (kern p') = fds (kern p) /\
    {[SIGUSR1; SIGUSR2]} ⊆ mask_of (kern p')) p.
Proof.
  unfold shm_setup. cstep. unfold open. apply completes_returns. mstep; simpl in *; [|do 2 cstep].
  match goal with E : k_open _ _ _ _ = _ |- _ => apply open_fds in E as (Hp & Hn & Hf & _) end.
  cstep. cstep. apply completes_returns. pose proof (mmap_fds SIZE true n 0 w') as Fm.
  mstep; simpl in *; match goal with E : k_mmap _ _ _ _ _ = _ |- _ => rewrite E in Fm end; simpl in Fm;
    [|do 2 cstep].
  cstep. cstep. unfold close. apply completes_returns.
  mstep; match goal with E : k_close _ _ = _ |- _ => apply close_fds in E as Fc end; simpl in *;
    (eapply completes_mono; [apply tell_wait_fork_completes|]; intros r p' (_ & _ & F & Hm);
     split; [|done]; simpl in F; rewrite F, Fc, Fm, Hf; set_solver).
Qed.

End Facts.
End BeforeFork.

(** ** Reports of the directory walks *)

Module Reports.

Section Progs.
Context {W : Type} `{DirOps W} `{CLib}.
(** The replacement field [{:5.2f}] of 100 times a value over the total. *)
Context (percent : Z -> Z -> bytes).

Definition printValue (s : bytes) (value total : Z) : M W unit :=
  println (pad_right 20 s ++ str "= " ++ pad_right 10 (to_string value) ++ str " " ++
           percent value total ++ str " %").

Definition printStat (nf : nfiles) : M W unit :=
  let t := ntot nf in
  printValue (str "Regular files") (nreg nf) t ;;
  printValue (str "Directories") (ndir nf) t ;;
  printValue (str "Block special") (nblk nf) t ;;
  printValue (str "Char special") (nchr nf) t ;;
  printValue (str "FIFOs") (nfifo nf) t ;;
  printValue (str "Symbolic links") (nslink nf) t ;;
  printValue (str "Sockets") (nsock nf) t.

(** [catch (const std::bad_alloc& e) { err_quit("{}", e.what()); }] *)
Definition bad_alloc : bytes := str "std::bad_alloc".
Definition catch_bad_alloc {A} (m : M W A) : M W A := fun p =>
  match m p with
  | (Threw what, p') => if decide (what = bad_alloc) then err_quit (str "{}") [what] p' else (Threw what, p')
  | r => r
  end.

Definition ftw_program (fuel : nat) (argv : list bytes) : M W Z :=
  catch_bad_alloc (
    match argv with
    | [_; dir] => nf ← ftw_main fuel dir; printStat nf
    | _ => err_quit (str "Using {}: ftw <base_dir>") [hd [] argv]
    end) ;;
  mret 0.

Definition ftw_chdir_program (fuel : nat) (argv : list bytes) : M W Z :=
  catch_bad_alloc (
    match argv with
    | [_; dir] => nf ← ftw_chdir_main fuel dir; printStat nf
    | _ => err_quit (str "Using {}: ftw <base_file>") [hd [] argv]
    end) ;;
  mret 0.

(** The lines of the report. *)
Definition value_line (t : Z) (s : bytes) (value : Z) : bytes :=
  pad_right 20 s ++ str "= " ++ pad_right 10 (to_string value) ++ str " " ++
  percent value t ++ str " %" ++ [NL].

Definition stat_lines (nf : nfiles) : list bytes :=
  let l := value_line (ntot nf) in
  [l (str "Regular files") (nreg nf); l (str "Directories") (ndir nf); l (str "Block special") (nblk nf);
   l (str "Char special") (nchr nf); l (str "FIFOs") (nfifo nf); l (str "Symbolic links") (nslink nf);
   l (str "Sockets") (nsock nf)].

Lemma printValue_prints s v t p :
  printValue s v t p =
  (Ret tt, Proc (errno p) (log_to_stderr p) (console p ++ [Stdout (value_line t s v)]) (kern p)).
Proof. unfold printValue, println, emit, value_line. by rewrite <- !app_assoc. Qed.

Lemma printStat_prints nf p :
  printStat nf p = (Ret tt, Proc (errno p) (log_to_stderr p) (console p ++ (Stdout <$> stat_lines nf)) (kern p)).
Proof.
  unfold printStat, mbind, M_bind. cbv zeta.
  repeat (rewrite printValue_prints; cbn [errno log_to_stderr console kern]).
  rewrite <- !app_assoc. reflexivity.
Qed.

(** The total that percentages refer to is never zero, and it is the sum of the values when there
    are any files. *)
Lemma ntot_positive nf :
  0 <= nreg nf -> 0 <= ndir nf -> 0 <= nblk nf -> 0 <= nchr nf -> 0 <= nfifo nf -> 0 <= nslink nf ->
  0 <= nsock nf ->
  0 < ntot nf /\ (ntot nf = total nf \/ total nf = 0).
Proof.
  intros. unfold ntot, total. cbv zeta. destruct (Z.eqb_spec (nreg nf + ndir nf + nblk nf + nchr nf +
    nfifo nf + nslink nf + nsock nf) 0); lia.
Qed.

End Progs.

(** C40: [4/7] as a whole: the report is that of the tree below the path. *)
Theorem ftw_program_reports {W} `{DS : DirSpec W} `{CLib} percent prog path t fuel (p : proc W) :
  at_ (view (kern p)) path = Some t -> tree_ok t = true -> (depth t < fuel)%nat ->
  returns (ftw_program percent fuel [prog; path]) (fun code p' => code = 0 /\
    (exists before, console p' = before ++ (Stdout <$> stat_lines percent (tally false t))) /\
    view (kern p') = view (kern p)) p.
Proof.
  intros Hat Hok Hd. unfold ftw_program. mstep.
  assert (Hm : returns (nf ← ftw_main fuel path; printStat percent nf) (fun _ p' =>
    (exists before, console p' = before ++ (Stdout <$> stat_lines percent (tally false t))) /\
    view (kern p') = view (kern p)) p).
  { unfold ftw_main. mstep. mstep. eapply returns_mono; [apply myftw_counts; by rewrite Hat|].
    rewrite Hat. intros [path' nf'] p' (_ & [-> Hv]). mstep. simpl. rewrite plus_0_l.
    unfold returns, wp. rewrite printStat_prints. simpl. split; [by eexists|done]. }
  unfold returns at 1, wp, catch_bad_alloc. unfold returns at 1, wp in Hm.
  destruct ((nf ← ftw_main fuel path; printStat percent nf) p) as [[[]| | | |] p']; simpl in *; try done.
Qed.

Lemma ftw_program_reports_witness :
  let show v t := to_string (v * 100 / t) in
  returns (ftw_program show 5 [str "ftw"; str "/home"]) (fun code p' => code = 0 /\
    (exists before, console p' = before ++ (Stdout <$> stat_lines show (NFiles 3 3 0 0 1 1 0))) /\
    view (kern p') = fs0) (Proc 0 true [] fs0).
Proof.
  intros show.
  refine (ftw_program_reports show (str "ftw") (str "/home") home 5 (Proc 0 true [] fs0) eq_refl eq_refl _).
  simpl. lia.
Defined.

End Reports.

(** ** Mutexes, environment, constructors *)

Module Threads.

Definition ETIMEDOUT : Z := 110.

Section Progs.
Context {W : Type} `{CLib}.
(** [pthread_mutex_lock] and [pthread_mutex_timedlock] of the mutex, the clock, and the text of a
    time. *)
Context (k_lock : W -> Z * W) (k_timedlock : timespec -> W -> Z * W) (k_now : W -> Z * W).
Context (time_text : Z -> bytes).

(** [11/8]; no time point is out of range for the conversions. *)
Definition timedlock_main : M W unit :=
  pcall k_lock ;;
  println (str "mutex locked") ;;
  utc_time ← pcall k_now;
  println (str "current time: " ++ time_text utc_time) ;;
  match timedlock_deadline utc_time with
  | None => sys_abort
  | Some ts =>
      err ← pcall (k_timedlock ts);
      utc_time ← pcall k_now;
      println (str "current time: " ++ time_text utc_time) ;;
      (if err =? 0 then println (str "mutex locked again!")
       else println (str "didn't success to lock mutex again: " ++ strerror err)) ;;
      sys_exit 0
  end.

(** The mutex is locked by the thread itself, so the second attempt runs into its deadline, which
    is five seconds after the first clock reading. *)
Theorem timedlock_times_out (clock : W -> Z) (locked : W -> bool) p :
  (forall w e w', k_lock w = (e, w') -> locked w' = true /\ clock w' = clock w) ->
  (forall w t w', k_now w = (t, w') -> t = clock w /\ w' = w) ->
  (forall ts w e w', k_timedlock ts w = (e, w') -> locked w = true ->
     e = ETIMEDOUT /\ tv_sec ts * NANO + tv_nsec ts <= clock w') ->
  0 <= clock (kern p) -> clock (kern p) + 5 * NANO < 2 ^ 63 ->
  exists p', timedlock_main p = (Exited 0, p') /\ clock (kern p) + 5 * NANO <= clock (kern p') /\
    console p' = console p ++ [Stdout (str "mutex locked" ++ [NL]);
      Stdout ((str "current time: " ++ time_text (clock (kern p))) ++ [NL]);
      Stdout ((str "current time: " ++ time_text (clock (kern p'))) ++ [NL]);
      Stdout ((str "didn't success to lock mutex again: " ++ strerror ETIMEDOUT) ++ [NL])].
Proof.
  intros Hl Hn Ht Hc0 Hc1. unfold timedlock_main, mbind, M_bind, pcall.
  destruct (k_lock (kern p)) as [e1 w1] eqn:E1. apply Hl in E1 as [L1 C1].
  destruct p as [en lo co w0]. simpl in *.
  destruct (k_now w1) as [t1 w2] eqn:E2. apply Hn in E2 as [-> ->]. simpl. rewrite C1.
  assert (Hi : is_i64 (clock w0 + 5 * NANO)) by (unfold is_i64, NANO in *; lia).
  pose proof (split_range _ Hi) as (Hq & Hqn & Hr & Hb & E).
  assert (Hts : timedlock_deadline (clock w0) = Some (split_ns (clock w0 + 5 * NANO))).
  { unfold timedlock_deadline.
    replace (duration_cast NANO 1 5) with (Some (5 * NANO)) by done. cbn [mbind option_bind].
    rewrite i64_Some by done. rewrite <- to_timespec_split by done. by apply to_timespec_timedlock_eq. }
  rewrite Hts. simpl. destruct (k_timedlock _ w1) as [e3 w3] eqn:E3.
  apply Ht in E3 as [-> Hc3]; [|done]. simpl.
  destruct (k_now w3) as [t4 w4] eqn:E4. apply Hn in E4 as [-> ->]. simpl.
  eexists. split; [done|]. simpl in *. split; [lia|]. rewrite <- !app_assoc. reflexivity.
Qed.

End Progs.

(** [if ((err = f()) != 0) err_exit(err, msg);] *)
Definition call_or_exit {W} `{CLib} (f : W -> Z * W) (msg : bytes) : M W unit :=
  err ← pcall f;
  if negb (err =? 0) then err_exit err msg [] else mret tt.

Definition calls_or_exit {W} `{CLib} : list ((W -> Z * W) * bytes) -> M W unit :=
  each (fun f => call_or_exit f.1 f.2).

(** [12/2]: the recursive mutex, before its use (Mains.v). *)
Definition recursive_setup {W} `{CLib} (k_attr_init k_attr_settype k_mutex_init : W -> Z * W) : M W unit :=
  calls_or_exit
    [(k_attr_init, str "call pthread_mutexattr_init");
     (k_attr_settype, str "call pthread_mutexattr_settype(PTHREAD_MUTEX_RECURSIVE)");
     (k_mutex_init, str "pthread_mutex_init")].

(** [12/7]: the handlers and the thread, before [fork] (SignalThread.v). *)
Definition atfork_setup {W} `{CLib} (k_atfork k_create : W -> Z * W) : M W unit :=
  calls_or_exit [(k_atfork, str "call pthread_atfork"); (k_create, str "call pthread_create")].

(** When all succeed the calls are made in order, once each; the first that fails ends the program
    with 1, and the later ones are not made. *)
Lemma setup_runs {W} `{CLib} (calls : list ((W -> Z * W) * bytes)) (p : proc W) :
  let w' := foldl (fun w f => (f.1 w).2) (kern p) calls in
  (forall k f, calls !! k = Some f -> forall w, (f.1 w).1 = 0) ->
  calls_or_exit calls p = (Ret tt, Proc (errno p) (log_to_stderr p) (console p) w').
Proof.
  cbv zeta. unfold calls_or_exit. revert p. induction calls as [|f calls IH]; intros p Hok; [by destruct p|].
  cbn [each]. unfold mbind at 1, M_bind. pose proof (Hok 0%nat f eq_refl (kern p)) as H0.
  unfold call_or_exit at 1, pcall, mbind at 1, M_bind. cbn [foldl].
  destruct (f.1 (kern p)) as [e w] eqn:E. simpl in H0. subst e. simpl.
  rewrite IH by (intros k g Hg; by apply (Hok (S k))). done.
Qed.

Lemma setup_stops {W} `{CLib} f msg calls (p : proc W) :
  (f (kern p)).1 <> 0 ->
  exists p', calls_or_exit ((f, msg) :: calls) p = (Exited 1, p') /\ kern p' = (f (kern p)).2.
Proof.
  intros Hf. unfold calls_or_exit. simpl. unfold call_or_exit, pcall, mbind, M_bind.
  destruct (f (kern p)) as [e w]. simpl in *. rewrite (proj2 (Z.eqb_neq _ _) Hf). simpl.
  rewrite err_exit_eq. by eexists.
Qed.

(** [10/10], [7/1] (a main function without a return statement returns 0), and [10/5] for what
    [sleep2] returned. *)
Definition mask_main {W} `{SigOps W} `{CLib} (getpid : Z) : M W Z :=
  pr_mask (str "pid =  " ++ to_string getpid) ;; mret 0.

Definition no_return_main {W} : M W Z := println (str "Hello World!") ;; mret 0.

Definition sleep2_main {W} `{SigOps W} `{CLib} (sleep2 : Z -> M W Z) : M W Z :=
  r ← syscall (k_sigaction SIGINT (Func 1) SA_RESTART);
  match r with
  | SysErr _ => err_sys (str "call signal(SIGINT)") []
  | SysOk _ =>
      unslept ← sleep2 5;
      println (str "func sleep2 returned value: " ++ to_string unslept) ;;
      mret 0
  end.

(** [12/3]: the main function over [getenv_r] of SignalThread.v. *)
Definition getenv_main {W} (s : GetEnv.state) : M W Z :=
  (match GetEnv.getenv_r 0 "PATH" s with
   | (Some a, s) => println (str "PATH=" ++ default [] (GetEnv.heap s !! a))
   | (None, _) => println (str "There is no env.PATH")
   end) ;;
  mret 0.

Lemma getenv_main_prints {W} e (p : proc W) :
  returns (getenv_main (GetEnv.initial e)) (fun _ p' => console p' = console p ++
    [Stdout (match e !! "PATH"%string with
             | Some v => str "PATH=" ++ v
             | None => str "There is no env.PATH"
             end ++ [NL])]) p.
Proof.
  unfold getenv_main, GetEnv.getenv_r, GetEnv.initial, GetEnv.pthread_once, GetEnv.thread_init,
    GetEnv.container. simpl. rewrite lookup_empty. simpl.
  destruct (e !! "PATH"%string) as [v|]; simpl; [rewrite lookup_insert_eq|]; by do 2 mstep; mstep.
Qed.

(** *** Constructors *)

(** [if (err != 0) throw std::runtime_error(text + std::to_string(err));] after the call that
    initialises a mutex, lock or condition variable. *)
Definition init_or_throw {W} (k_init : W -> Z * W) (text : bytes) : M W unit :=
  err ← pcall k_init;
  if negb (err =? 0) then throw (text ++ to_string err) else mret tt.

Section Constructors.
Context {W : Type} (k_mutex_init k_cond_init k_rwlock_init : W -> Z * W) (k_barrier_init : Z -> W -> Z * W).

(** [Foo] of [11/5] and of [11/6]: the object starts with one reference. *)
Definition Foo_init (id : Z) : M W (Z * Z) :=
  init_or_throw k_mutex_init (str "Failed to initialize mutex, error code: ") ;;
  let count := 1 in
  println (str "Foo " ++ to_string id ++ str " hold, count = " ++ to_string count) ;;
  mret (count, id).

Definition Foo_hashed_init (id : Z) : M W (Z * Z) :=
  let id := to_size_t id in
  init_or_throw k_mutex_init (str "Failed to initialize mutex, error code: ") ;;
  let count := 1 in
  println (str "Created and inserted to list: Foo " ++ to_string id ++ str " hold, count = " ++
           to_string count) ;;
  mret (count, id).

(** [deque_rwlock] of [11/9]. *)
Definition deque_rwlock_init : M W unit :=
  init_or_throw k_rwlock_init (str "pthread_rwlock_init failed: ").

(** [message_process] of [11/10]; the static initialisers that are assigned afterwards give the
    same state. *)
Definition message_process_init : M W unit :=
  init_or_throw k_cond_init (str "pthread_cond_init failed: ") ;;
  init_or_throw k_mutex_init (str "pthread_mutex_init failed: ").

(** [multithread_sort] of [11/11]: the vector is filled by [generate]. *)
Definition multithread_sort_init (generate : nat -> list Z) (sz num_threads : nat) : M W (list Z) :=
  err ← pcall (k_barrier_init (Z.of_nat num_threads + 1));
  (if negb (err =? 0) then throw (str "Failed to initialize barrier") else mret tt) ;;
  mret (generate sz).

(** An object comes to life only when its lock was initialised. *)
Lemma init_or_throw_spec k_init text (p : proc W) :
  wp (init_or_throw k_init text) (fun o p' => kern p' = (k_init (kern p)).2 /\
    o = if (k_init (kern p)).1 =? 0 then Ret tt else Threw (text ++ to_string (k_init (kern p)).1)) p.
Proof.
  unfold wp, init_or_throw, pcall, mbind, M_bind. destruct (k_init (kern p)) as [e w]. simpl.
  by destruct (e =? 0).
Qed.

End Constructors.

(** ** [11/3]: a result on the stack of a thread that has ended *)

Record foo := Foo { a : Z; b : Z; c : Z; d : Z }.

(** The stack of a thread: what the last thread that used it left there. *)
Record memory := Memory { stack : foo }.

Section Dangling.
(** The address of the thread's variable, and what else the second thread and the library leave in
    its place. *)
Context (address : bytes) (reuse : foo -> foo) (tid : Z).

Definition foo_print {W} (s : bytes) (f : foo) : M W unit :=
  println (s ++ str " adress: " ++ address) ;;
  println (str " foo.a = " ++ to_string (a f)) ;;
  println (str " foo.b = " ++ to_string (b f)) ;;
  println (str " foo.c = " ++ to_string (c f)) ;;
  println (str " foo.d = " ++ to_string (d f)).

Definition set_stack (f : foo -> foo) : M memory unit := fun p =>
  (Ret tt, Proc (errno p) (log_to_stderr p) (console p) (Memory (f (stack (kern p))))).

Definition print_stack (s : bytes) : M memory unit := fun p => foo_print s (stack (kern p)) p.

Definition stack_thr_fn1 : M memory unit :=
  set_stack (fun _ => Foo 1 2 3 4) ;;
  print_stack (str "thread 1:").

Definition stack_thr_fn2 : M memory unit :=
  println (str "thread 2: tid - " ++ to_string tid) ;;
  set_stack reuse.

(** The threads run one after the other, since [main] joins the first and sleeps for the second;
    errors of [pthread_create] and [pthread_join] end the program. *)
Definition stack_main `{CLib} (create1 join1 create2 : Z) : M memory unit :=
  (if negb (create1 =? 0) then err_exit create1 (str "pthread_create 1") [] else mret tt) ;;
  stack_thr_fn1 ;;
  (if negb (join1 =? 0) then err_exit join1 (str "pthread_join 1") [] else mret tt) ;;
  println (str "main thread creates child thread") ;;
  (if negb (create2 =? 0) then err_exit create2 (str "pthread_create 2") [] else mret tt) ;;
  stack_thr_fn2 ;;
  print_stack (str "main thread:") ;;
  sys_exit 0.

Definition foo_lines (s : bytes) (f : foo) : list bytes :=
  [s ++ str " adress: " ++ address; str " foo.a = " ++ to_string (a f);
   str " foo.b = " ++ to_string (b f); str " foo.c = " ++ to_string (c f);
   str " foo.d = " ++ to_string (d f)].

Lemma foo_print_eq {W} s f (p : proc W) :
  foo_print s f p =
  (Ret tt, Proc (errno p) (log_to_stderr p)
     (console p ++ ((fun l => Stdout (l ++ [NL])) <$> foo_lines s f)) (kern p)).
Proof.
  unfold foo_print, println, emit, mbind, M_bind. cbn [console errno log_to_stderr kern].
  do 2 f_equal. unfold foo_lines. cbn [fmap list_fmap]. by rewrite <- !app_assoc.
Qed.

(** What [main] prints is what the second thread has left on the stack they share, not what the
    first thread stored. *)
Theorem dangling_result `{CLib} p :
  exists p', stack_main 0 0 0 p = (Exited 0, p') /\
    console p' = console p ++ ((fun l => Stdout (l ++ [NL])) <$>
      foo_lines (str "thread 1:") (Foo 1 2 3 4) ++
      [str "main thread creates child thread"; str "thread 2: tid - " ++ to_string tid] ++
      foo_lines (str "main thread:") (reuse (Foo 1 2 3 4))).
Proof.
  unfold stack_main, stack_thr_fn1, stack_thr_fn2, print_stack, set_stack, println, emit, mbind, M_bind.
  cbn [Z.eqb negb mret M_ret]. rewrite foo_print_eq. cbn [console errno log_to_stderr kern stack].
  rewrite foo_print_eq. cbn [console errno log_to_stderr kern stack].
  eexists. split; [reflexivity|]. cbn [console]. rewrite !fmap_app, <- !app_assoc. reflexivity.
Qed.

End Dangling.
End Threads.

(** ** [15/11]: segments of memory *)

Module Segments.

Definition ARRAY_SIZE : Z := 40000.
Definition MALLOC_SIZE : Z := 100000.
Definition SHM_SIZE : Z := 100000.
Definition SHM_MODE : Z := 384.
Definition SHM_NAME : bytes := str "/test_posix_shm".
Definition O_RDWR_CREAT_TRUNC : Z := 578.

Class ShmOps (W : Type) := {
  k_malloc : Z -> W -> sysres Z * W;
  k_shm_open : bytes -> Z -> Z -> W -> sysres Z * W;
  k_shm_unlink : bytes -> W -> sysres unit * W;
}.

Section Prog.
Context {W : Type} `{FileOps W} `{MmapOps W} `{ShmOps W} `{CLib}.
(** Where the linker and the kernel put things, and the text of an address. *)
Context (array stack : Z) (pointer : Z -> bytes).

Definition range (a n : Z) : bytes := str " from " ++ pointer a ++ str " to " ++ pointer (a + n).

Definition segments_main : M W unit :=
  println (str "array[]" ++ range array ARRAY_SIZE) ;;
  println (str "stack approximately " ++ pointer stack) ;;
  ptr ← syscall (k_malloc MALLOC_SIZE);
  match ptr with
  | SysErr _ => err_sys (str "call malloc") []
  | SysOk ptr =>
      println (str "dynamic allocated area" ++ range ptr MALLOC_SIZE) ;;
      shmfd ← syscall_int (k_shm_open SHM_NAME O_RDWR_CREAT_TRUNC SHM_MODE);
      (if shmfd <? 0 then err_sys (str "call shm_open") [] else mret tt) ;;
      r ← ftruncate shmfd SHM_SIZE;
      (if r =? -1 then err_sys (str "call ftruncate") [] else mret tt) ;;
      shmptr ← syscall (k_mmap SHM_SIZE true shmfd 0);
      match shmptr with
      | SysErr _ => err_sys (str "call mmap") []
      | SysOk shmptr =>
          close shmfd ;;
          println (str "segment shm joined" ++ range shmptr SHM_SIZE) ;;
          r ← syscall_unit (k_shm_unlink SHM_NAME);
          (if r <? 0 then err_sys (str "call shm_unlink") [] else mret tt) ;;
          syscall_unit (k_munmap shmptr SHM_SIZE) ;;
          mret tt
      end
  end.

(** What the calls do to descriptors, names of shared memory and mapped areas. *)
Class ShmSpec `{FD : !FdSpec W} := {
  shm_names : W -> gset bytes;
  mapped : W -> gset Z;
  malloc_law n w r w' : k_malloc n w = (r, w') ->
    fds w' = fds w /\ shm_names w' = shm_names w /\ mapped w' = mapped w;
  shm_open_law nm fl m w r w' : k_shm_open nm fl m w = (r, w') -> mapped w' = mapped w /\
    match r with
    | SysOk fd => 0 <= fd /\ (fd ∉ fds w) /\ fds w' = {[fd]} ∪ fds w /\
        shm_names w' = {[nm]} ∪ shm_names w
    | SysErr _ => True
    end;
  shm_ftruncate_law fd n w r w' : k_ftruncate fd n w = (r, w') ->
    fds w' = fds w /\ shm_names w' = shm_names w /\ mapped w' = mapped w;
  shm_mmap_law n wr fd off w r w' : k_mmap n wr fd off w = (r, w') ->
    fds w' = fds w /\ shm_names w' = shm_names w /\
    match r with SysOk a => (a ∉ mapped w) /\ mapped w' = {[a]} ∪ mapped w | SysErr _ => True end;
  shm_close_law fd w r w' : k_close fd w = (r, w') ->
    shm_names w' = shm_names w /\ mapped w' = mapped w;
  shm_unlink_law nm w r w' : k_shm_unlink nm w = (r, w') -> fds w' = fds w /\ mapped w' = mapped w /\
    (r = SysOk tt -> shm_names w' = shm_names w ∖ {[nm]});
  shm_munmap_law a n w r w' : k_munmap a n w = (r, w') -> r = SysOk tt /\ fds w' = fds w /\
    shm_names w' = shm_names w /\ mapped w' = mapped w ∖ {[a]};
}.

(** When every call succeeds nothing is left: the descriptor is closed, the name removed, the area
    unmapped; the order of the calls, the descriptor closed before the area is used, does not
    matter. *)
Theorem segments_released `{FD : !FdSpec W} `{SS : !ShmSpec} p :
  SHM_NAME ∉ shm_names (kern p) ->
  completes segments_main (fun _ p' => fds (kern p') = fds (kern p) /\
    shm_names (kern p') = shm_names (kern p) /\ mapped (kern p') = mapped (kern p)) p.
Proof.
  intros Hn. unfold segments_main. do 2 cstep. do 2 cstep. cstep.
  apply completes_returns, returns_syscall. intros r w1 E1. apply malloc_law in E1 as (F1 & N1 & M1).
  destruct r as [ptr|]; [|by cstep]. do 2 cstep. cstep. apply completes_returns.
  mstep; simpl in *; [|do 2 cstep].
  match goal with E : k_shm_open _ _ _ _ = _ |- _ => apply shm_open_law in E as (M2 & _ & Hfd & F2 & N2) end.
  cstep. cstep. unfold ftruncate. apply completes_returns.
  mstep; simpl in *; [|do 2 cstep].
  match goal with E : k_ftruncate _ _ _ = _ |- _ => apply shm_ftruncate_law in E as (F3 & N3 & M3) end.
  do 3 cstep. apply completes_returns, returns_syscall. intros r w4 E4. simpl in E4.
  apply shm_mmap_law in E4 as (F4 & N4 & M4). destruct r as [a|]; [|by cstep]. destruct M4 as [Ha M4].
  cstep. unfold close. apply completes_returns.
  mstep; match goal with E : k_close _ _ = _ |- _ =>
      pose proof (close_fds _ _ _ _ E) as F5; apply shm_close_law in E as (N5 & M5) end; simpl in *;
    (do 2 cstep; cstep; apply completes_returns; mstep; simpl in *; [|do 2 cstep];
     match goal with E : k_shm_unlink _ _ = _ |- _ => apply shm_unlink_law in E as (F6 & M6 & N6) end;
     specialize (N6 eq_refl); do 3 cstep; apply completes_returns;
     mstep; match goal with E : k_munmap _ _ _ = _ |- _ => apply shm_munmap_law in E as (Hok & F7 & N7 & M7) end;
     [|done]; cstep; simpl in *;
     rewrite F7, F6, F5, F4, F3, F2, F1, N7, N6, N5, N4, N3, N2, N1, M7, M6, M5, M4, M3, M2, M1;
     rewrite F4, F3, F2, F1 in *; rewrite M3, M2, M1 in Ha; set_solver).
Qed.

End Prog.
End Segments.
